(** * drawio2mermaid: a shallow embedding of the diagram interchange engine

    The development follows the four converter modules of the repository:
    [mermaidParser.js], [drawioParser.js], [drawioToMermaid.js] and
    [mermaidToDrawio.js].  JavaScript strings are modelled as [string]
    (sequences of Latin-1 code units), [Map]s whose iteration order is never
    observed as [gmap], [Set]s as [gset], arrays and insertion-ordered maps as
    lists, numbers that stay integral as [Z], and a thrown [Error] as the
    [Err] constructor of [result]. *)

From stdpp Require Import gmap strings list pretty.
From Stdlib Require Import ZArith Ascii String.

Open Scope string_scope.
Open Scope list_scope.

(** ** Characters and JavaScript string primitives *)

Module Js.

Definition code (c : ascii) : nat := nat_of_ascii c.

Definition in_range (lo hi : nat) (c : ascii) : bool :=
  (lo <=? code c)%nat && (code c <=? hi)%nat.

(** [\s]: white space and line terminators among the Latin-1 code units. *)
Definition is_space (c : ascii) : bool :=
  in_range 9 13 c || (code c =? 32)%nat || (code c =? 160)%nat.

Definition is_digit (c : ascii) : bool := in_range 48 57 c.
Definition is_upper (c : ascii) : bool := in_range 65 90 c.
Definition is_lower (c : ascii) : bool := in_range 97 122 c.
Definition is_alpha (c : ascii) : bool := is_upper c || is_lower c.

(** [[A-Za-z0-9_]] *)
Definition is_word (c : ascii) : bool :=
  is_alpha c || is_digit c || (code c =? 95)%nat.

(** [[A-Za-z_]] *)
Definition is_id_start (c : ascii) : bool :=
  is_alpha c || (code c =? 95)%nat.

(** [.] excludes the line terminators. *)
Definition is_line_terminator (c : ascii) : bool :=
  (code c =? 10)%nat || (code c =? 13)%nat.

Definition lower_char (c : ascii) : ascii :=
  if is_upper c || (in_range 192 222 c && negb (code c =? 215)%nat)
  then ascii_of_nat (code c + 32) else c.

Fixpoint toLowerCase (s : string) : string :=
  match s with
  | "" => ""
  | String c r => String (lower_char c) (toLowerCase r)
  end.

Fixpoint filter_chars (p : ascii -> bool) (s : string) : string :=
  match s with
  | "" => ""
  | String c r => if p c then String c (filter_chars p r) else filter_chars p r
  end.

Fixpoint forall_chars (p : ascii -> bool) (s : string) : bool :=
  match s with
  | "" => true
  | String c r => p c && forall_chars p r
  end.

Fixpoint trimStart (s : string) : string :=
  match s with
  | "" => ""
  | String c r => if is_space c then trimStart r else s
  end.

(** [trimEnd] keeps a character when it is not a space or when something
    that survives follows it. *)
Fixpoint trimEnd (s : string) : string :=
  match s with
  | "" => ""
  | String c r =>
      match trimEnd r with
      | "" => if is_space c then "" else String c ""
      | r' => String c r'
      end
  end.

Definition trim (s : string) : string := trimEnd (trimStart s).

Definition startsWith (s p : string) : bool := String.prefix p s.

Fixpoint includes (s p : string) : bool :=
  String.prefix p s ||
  match s with
  | "" => false
  | String _ r => includes r p
  end.

(** [s.substring(i)] and [s.substring(i, j)] for [i <= j]. *)
Definition substring_from (i : nat) (s : string) : string :=
  String.substring i (String.length s - i) s.
Definition substring (i j : nat) (s : string) : string :=
  String.substring i (j - i) s.

(** [s.split(sep)] for a one-character separator. *)
Fixpoint split (sep : ascii) (s : string) : list string :=
  match s with
  | "" => [""]
  | String c r =>
      if Ascii.eqb c sep then "" :: split sep r
      else match split sep r with
           | [] => [String c ""]
           | w :: ws => String c w :: ws
           end
  end.

Definition join (sep : string) (l : list string) : string := String.concat sep l.

Definition newline : string := String "010" "".

(** Truthiness of a string, and of a possibly missing ([null]) string. *)
Definition truthy (s : string) : bool :=
  match s with "" => false | _ => true end.
Definition truthy_opt (o : option string) : bool :=
  match o with Some s => truthy s | None => false end.

(** [a || b] on strings. *)
Definition or_else (a b : string) : string := if truthy a then a else b.

(** [o === 'lit'] for an attribute value [o]. *)
Definition is_lit (o : option string) (lit : string) : bool :=
  match o with Some s => String.eqb s lit | None => false end.

(** [s.replace(/\s+/g, r)]: every maximal run of white space becomes [r];
    [in_run] tells that the previous character was white space. *)
Fixpoint replace_space_runs (r : string) (in_run : bool) (s : string) : string :=
  match s with
  | "" => ""
  | String c t =>
      if is_space c
      then (if in_run then replace_space_runs r true t
            else r +:+ replace_space_runs r true t)
      else String c (replace_space_runs r false t)
  end.

(** [s.replace(/c/g, r)] for one literal character [c]. *)
Fixpoint replace_char (c : ascii) (r : string) (s : string) : string :=
  match s with
  | "" => ""
  | String d t =>
      if Ascii.eqb d c then r +:+ replace_char c r t
      else String d (replace_char c r t)
  end.

End Js.

(** A call that may throw: [Err msg] is [throw new Error(msg)]. *)
Inductive result (A : Type) : Type :=
| Ok (a : A)
| Err (msg : string).
Arguments Ok {A} a.
Arguments Err {A} msg.

(** ** Regular expressions

    The regular-expression literals of the source are written as terms of
    [re] and run by a backtracking matcher with the priorities of the
    JavaScript one: alternatives left to right, quantifiers greedy. *)

Module Regex.

Inductive re : Type :=
| Eps
| Chr (c : ascii)
| Cls (p : ascii -> bool)
| Cat (r1 r2 : re)
| Alt (r1 r2 : re)
| Star (r : re)
| Grp (n : nat) (r : re)
| Bol
| Eol.

Definition Plus (r : re) : re := Cat r (Star r).
Definition Opt (r : re) : re := Alt r Eps.

Fixpoint Lit (s : string) : re :=
  match s with
  | "" => Eps
  | String c "" => Chr c
  | String c t => Cat (Chr c) (Lit t)
  end.

(** A literal under the [i] flag. *)
Definition ChrI (c : ascii) : re :=
  Cls (fun d => Ascii.eqb (Js.lower_char d) (Js.lower_char c)).
Fixpoint LitI (s : string) : re :=
  match s with
  | "" => Eps
  | String c "" => ChrI c
  | String c t => Cat (ChrI c) (LitI t)
  end.

Definition Not (c : ascii) : re := Cls (fun d => negb (Ascii.eqb d c)).
Definition Space : re := Cls Js.is_space.
Definition NonSpace : re := Cls (fun d => negb (Js.is_space d)).
Definition Dot : re := Cls (fun d => negb (Js.is_line_terminator d)).

Fixpoint seq (l : list re) : re :=
  match l with
  | [] => Eps
  | [r] => r
  | r :: l' => Cat r (seq l')
  end.

Fixpoint alts (l : list re) : re :=
  match l with
  | [] => Cls (fun _ => false)
  | [r] => r
  | r :: l' => Alt r (alts l')
  end.

(** Captures, most recent first. *)
Definition caps : Type := list (nat * string).

Definition group (n : nat) (cs : caps) : option string :=
  snd <$> List.find (fun p => Nat.eqb (fst p) n) cs.

(** [run r pos s cs k]: match [r] against [s], the subject from index [pos]
    on, then continue with [k]; [None] makes the matcher backtrack.  A
    [Star] iterates at most [length s] times, which is every iteration that
    consumes a character. *)
Fixpoint run {R : Type} (r : re) (pos : nat) (s : string) (cs : caps)
    (k : nat -> string -> caps -> option R) : option R :=
  match r with
  | Eps => k pos s cs
  | Chr c =>
      match s with
      | String d t => if Ascii.eqb d c then k (S pos) t cs else None
      | "" => None
      end
  | Cls p =>
      match s with
      | String d t => if p d then k (S pos) t cs else None
      | "" => None
      end
  | Cat r1 r2 => run r1 pos s cs (fun pos' s' cs' => run r2 pos' s' cs' k)
  | Alt r1 r2 =>
      match run r1 pos s cs k with
      | Some x => Some x
      | None => run r2 pos s cs k
      end
  | Star r1 =>
      (fix loop (fuel : nat) (pos : nat) (s : string) (cs : caps) : option R :=
         match fuel with
         | 0 => k pos s cs
         | S fuel' =>
             match run r1 pos s cs
                     (fun pos' s' cs' =>
                        if (pos <? pos')%nat then loop fuel' pos' s' cs' else None) with
             | Some x => Some x
             | None => k pos s cs
             end
         end) (String.length s) pos s cs
  | Grp n r1 =>
      run r1 pos s cs
        (fun pos' s' cs' => k pos' s' ((n, Js.substring 0 (pos' - pos) s) :: cs'))
  | Bol => if (pos =? 0)%nat then k pos s cs else None
  | Eol => match s with "" => k pos s cs | _ => None end
  end.

Record found : Type := Found {
  index : nat;        (* match.index *)
  matched : string;   (* match[0] *)
  groups : caps       (* match[1], match[2], ... *)
}.

Definition match_here (r : re) (pos : nat) (s : string) : option found :=
  run r pos s []
    (fun pos' _ cs => Some (Found pos (Js.substring 0 (pos' - pos) s) cs)).

(** The leftmost match at or after [pos]. *)
Fixpoint search (r : re) (pos : nat) (s : string) : option found :=
  match match_here r pos s with
  | Some m => Some m
  | None =>
      match s with
      | "" => None
      | String _ t => search r (S pos) t
      end
  end.

(** [s.match(r)] for a regular expression without the [g] flag. *)
Definition exec (r : re) (s : string) : option found := search r 0 s.

(** [r.test(s)] *)
Definition test (r : re) (s : string) : bool := bool_decide (is_Some (exec r s)).

(** [match[n]], where a group that took no part is [undefined]. *)
Definition grp (n : nat) (m : found) : option string := group n (groups m).
(** [match[n]] for a group every match goes through. *)
Definition grp1 (n : nat) (m : found) : string := default "" (grp n m).

(** [s.replace(r, repl)] under the [g] flag, for a replacement text without
    [$] patterns; [skip] counts the characters of the match being replaced
    that are still to be dropped. *)
Fixpoint replace_from (r : re) (repl : string) (skip pos : nat) (s : string) : string :=
  match skip with
  | S skip' =>
      match s with
      | "" => ""
      | String _ t => replace_from r repl skip' (S pos) t
      end
  | 0 =>
      match match_here r pos s with
      | Some m =>
          match String.length (matched m), s with
          | S l, String _ t => repl +:+ replace_from r repl l (S pos) t
          | 0, String c t => repl +:+ String c (replace_from r repl 0 (S pos) t)
          | _, "" => repl
          end
      | None =>
          match s with
          | "" => ""
          | String c t => String c (replace_from r repl 0 (S pos) t)
          end
      end
  end.

Definition replace_all (r : re) (repl : string) (s : string) : string :=
  replace_from r repl 0 0 s.

End Regex.

(** ** The graph model *)

Inductive shape : Type :=
| rectangle | rounded | stadium | subroutine | cylinder | hexagon | diamond
| circle | asymmetric | parallelogram
| triangle | document | cloud | subgraph_shape | class_shape.

#[global] Instance shape_eq_dec : EqDecision shape.
Proof. solve_decision. Defined.

Inductive edge_type : Type := arrow | line | dotted | thick.

Inductive diagram_type : Type :=
| flowchart | sequence | class_diagram | state | er | gantt | pie.

(** ** mermaidParser.js *)

(** A node, an edge and a subgraph as the Mermaid parser builds them. *)
Record mnode : Type := MNode {
  mn_id : string;
  mn_label : string;
  mn_shape : shape
}.

Record medge : Type := MEdge {
  me_id : string;
  me_source : string;
  me_target : string;
  me_label : string;
  me_type : edge_type
}.

Record msubgraph : Type := MSubgraph {
  sg_id : string;
  sg_label : string;
  sg_nodes : list string
}.

Record mermaid_graph : Type := MermaidGraph {
  mg_nodes : list mnode;
  mg_edges : list medge;
  mg_subgraphs : list msubgraph;
  mg_type : diagram_type
}.

Module MermaidParser.
Import Regex.

Record node_pattern : Type := NodePattern { np_regex : re; np_shape : shape }.

(** One or more characters other than [c], captured as group 1. *)
Definition text_until (c : ascii) : re := Grp 1 (Plus (Not c)).

Definition nodePatterns : list node_pattern :=
  [ NodePattern (seq [Chr "["; text_until "]"; Chr "]"]) rectangle;        (* [text] *)
    NodePattern (seq [Chr "("; text_until ")"; Chr ")"]) rounded;          (* (text) *)
    NodePattern (seq [Lit "(["; text_until "]"; Lit "])"]) stadium;        (* ([text]) *)
    NodePattern (seq [Lit "[["; text_until "]"; Lit "]]"]) subroutine;     (* [[text]] *)
    NodePattern (seq [Lit "[("; text_until ")"; Lit ")]"]) cylinder;       (* [(text)] *)
    NodePattern (seq [Lit "{{"; text_until "}"; Lit "}}"]) hexagon;        (* {{text}} *)
    NodePattern (seq [Chr "{"; text_until "}"; Chr "}"]) diamond;          (* {text} *)
    NodePattern (seq [Lit "(("; text_until ")"; Lit "))"]) circle;         (* ((text)) *)
    NodePattern (seq [Chr ">"; text_until "]"; Chr "]"]) asymmetric;       (* >text] *)
    NodePattern (seq [Lit "[/"; text_until "/"; Lit "/]"]) parallelogram   (* [/text/] *)
  ].

Record edge_pattern : Type := EdgePattern {
  ep_regex : re;
  ep_type : edge_type;
  ep_hasLabel : bool
}.

Definition labelled (tok : string) : re :=
  seq [Lit tok; Chr "|"; text_until "|"; Chr "|"].

Definition edgePatterns : list edge_pattern :=
  [ EdgePattern (labelled "-->") arrow true;
    EdgePattern (Lit "-->") arrow false;
    EdgePattern (labelled "---") line true;
    EdgePattern (Lit "---") line false;
    EdgePattern (labelled "-.->") dotted true;
    EdgePattern (Lit "-.->") dotted false;
    EdgePattern (labelled "==>") thick true;
    EdgePattern (Lit "==>") thick false ].

(** The id regular expression: anchored at the start, group 1 is a letter
    or underscore followed by any number of letters, digits and underscores. *)
Definition idRegex : re :=
  seq [Bol; Grp 1 (Cat (Cls Js.is_id_start) (Star (Cls Js.is_word)))].

(** [/^([^-=]+)/] *)
Definition firstNodeRegex : re :=
  seq [Bol; Grp 1 (Plus (Cls (fun c => negb (Ascii.eqb c "-" || Ascii.eqb c "="))))].

(** [/^(TB|TD|BT|RL|LR)$/] *)
Definition directionRegex : re :=
  seq [Bol; Grp 1 (alts [Lit "TB"; Lit "TD"; Lit "BT"; Lit "RL"; Lit "LR"]); Eol].

(** [/subgraph\s+(\S+)(?:\s*\[([^\]]+)\])?/] *)
Definition subgraphRegex : re :=
  seq [Lit "subgraph"; Plus Space; Grp 1 (Plus NonSpace);
       Opt (seq [Star Space; Chr "["; Grp 2 (Plus (Not "]")); Chr "]"])].

(** The system clock: [now t] is what the [t]-th call of [Date.now()]
    returns.  A computation that may read it takes the number of calls made
    so far and returns the number made after it. *)
Section Clock.
Variable now : nat -> Z.

Definition Clocked (A : Type) : Type := nat -> A * nat.
Definition ret {A} (a : A) : Clocked A := fun t => (a, t).
Definition bind {A B} (c : Clocked A) (f : A -> Clocked B) : Clocked B :=
  fun t => let '(a, t') := c t in f a t'.
Definition date_now : Clocked Z := fun t => (now t, S t).

(** The first node pattern, in declaration order, that matches [part]. *)
Fixpoint first_pattern (ps : list node_pattern) (part : string)
    : option (found * shape) :=
  match ps with
  | [] => None
  | p :: ps' =>
      match exec (np_regex p) part with
      | Some m => Some (m, np_shape p)
      | None => first_pattern ps' part
      end
  end.

Definition parseNodeFromPart (part : string) (nodePatterns : list node_pattern)
    : Clocked (option mnode) :=
  if negb (Js.truthy (Js.trim part)) then ret None
  else
    match first_pattern nodePatterns part with
    | Some (m, sh) =>
        (* the id is what stands before the brackets *)
        bind (match exec idRegex part with
              | Some idMatch => ret (grp1 1 idMatch)
              | None => bind date_now (fun t => ret ("node_" +:+ pretty t))
              end)
             (fun id => ret (Some (MNode id (Js.trim (grp1 1 m)) sh)))
    | None =>
        (* no pattern matched: the part is just an id *)
        match exec idRegex part with
        | Some idMatch => ret (Some (MNode (grp1 1 idMatch) (grp1 1 idMatch) rectangle))
        | None => ret None
        end
    end.

End Clock.

(** The state the flowchart parser threads through its lines: the [nodes]
    map in insertion order, the [edges] and [subgraphs] arrays, and
    [currentSubgraph] as the index of the subgraph object it refers to. *)
Record fstate : Type := FState {
  fs_nodes : list mnode;
  fs_edges : list medge;
  fs_subgraphs : list msubgraph;
  fs_current : option nat
}.

Definition has_node (id : string) (st : fstate) : bool :=
  bool_decide (id ∈ mn_id <$> fs_nodes st).

(** [currentSubgraph.nodes.push(id)] *)
Definition push_to_current (id : string) (st : fstate) : fstate :=
  match fs_current st with
  | Some i =>
      FState (fs_nodes st) (fs_edges st)
        (alter (fun g => MSubgraph (sg_id g) (sg_label g) (sg_nodes g ++ [id])) i
               (fs_subgraphs st))
        (fs_current st)
  | None => st
  end.

(** [if (!nodes.has(n.id)) { nodes.set(n.id, n); if (currentSubgraph) ... }] *)
Definition register (n : mnode) (st : fstate) : fstate :=
  if has_node (mn_id n) st then st
  else push_to_current (mn_id n)
         (FState (fs_nodes st ++ [n]) (fs_edges st) (fs_subgraphs st) (fs_current st)).

Definition register_opt (n : option mnode) (st : fstate) : fstate :=
  match n with Some n => register n st | None => st end.

Definition push_edge (e : medge) (st : fstate) : fstate :=
  FState (fs_nodes st) (fs_edges st ++ [e]) (fs_subgraphs st) (fs_current st).

(** The edge the scan of [parseFlowchartLine] settles on. *)
Record edge_hit : Type := EdgeHit {
  eh_type : edge_type;
  eh_label : string;
  eh_index : nat;
  eh_length : nat
}.

(** What the loop records for a pattern [p] that matched as [m]. *)
Definition hit_of (p : edge_pattern) (m : found) : edge_hit :=
  EdgeHit (ep_type p) (if ep_hasLabel p then grp1 1 m else "")
          (index m) (String.length (matched m)).

(** One turn of the loop over [edgePatterns]: a pattern replaces the hit so
    far only when its match starts strictly earlier. *)
Definition scan_step (line : string) (best : option edge_hit) (p : edge_pattern)
    : option edge_hit :=
  match exec (ep_regex p) line with
  | Some m =>
      match best with
      | None => Some (hit_of p m)
      | Some b => if (index m <? eh_index b)%nat then Some (hit_of p m) else best
      end
  | None => best
  end.

Definition scan_edges (edgePatterns : list edge_pattern) (line : string)
    : option edge_hit :=
  foldl (scan_step line) None edgePatterns.

Section Flowchart.
Variable now : nat -> Z.

(** [parseChainedTargets], with the recursive call to [parseFlowchartLine]
    as [self]. *)
Definition parseChainedTargets
    (self : string -> fstate -> Clocked (option fstate))
    (part : string) (nodePatterns : list node_pattern)
    (edgePatterns : list edge_pattern) (st : fstate)
    : Clocked (option (list mnode * fstate)) :=
  let hasMoreEdges := existsb (fun p => test (ep_regex p) part) edgePatterns in
  if hasMoreEdges then
    bind (self part st) (fun r =>
      match r with
      | None => ret None
      | Some st' =>
          match exec firstNodeRegex part with
          | Some m =>
              bind (parseNodeFromPart now (Js.trim (grp1 1 m)) nodePatterns)
                   (fun n => ret (Some (option_list n, st')))
          | None => ret (Some ([], st'))
          end
      end)
  else
    bind (parseNodeFromPart now part nodePatterns)
         (fun n => ret (Some (option_list n, register_opt n st))).

(** [parseFlowchartLine]; the recursion through [parseChainedTargets] is on
    ever shorter parts of the line, and [fuel] bounds its depth: [None] is
    fuel run out. *)
Fixpoint parseFlowchartLine (fuel : nat) (line : string)
    (nodePatterns : list node_pattern) (edgePatterns : list edge_pattern)
    (st : fstate) : Clocked (option fstate) :=
  match fuel with
  | 0 => ret None
  | S fuel' =>
      match scan_edges edgePatterns line with
      | Some hit =>
          let sourcePart := Js.trim (Js.substring 0 (eh_index hit) line) in
          let targetPart :=
            Js.trim (Js.substring_from (eh_index hit + eh_length hit) line) in
          bind (parseNodeFromPart now sourcePart nodePatterns) (fun sourceNode =>
          let st := register_opt sourceNode st in
          bind (parseChainedTargets
                  (fun part st => parseFlowchartLine fuel' part nodePatterns edgePatterns st)
                  targetPart nodePatterns edgePatterns st) (fun r =>
          match r with
          | None => ret None
          | Some (targetNodes, st) =>
              match sourceNode, targetNodes with
              | Some src, tgt :: _ =>
                  ret (Some (push_edge
                               (MEdge ("edge_" +:+ pretty (List.length (fs_edges st)))
                                      (mn_id src) (mn_id tgt) (eh_label hit) (eh_type hit))
                               st))
              | _, _ => ret (Some st)
              end
          end))
      | None =>
          (* just a node definition *)
          bind (parseNodeFromPart now line nodePatterns)
               (fun n => ret (Some (register_opt n st)))
      end
  end.

(** The body of the loop of [parseFlowchart] for one line. *)
Definition flowchart_step (line : string) (st : fstate) : Clocked (option fstate) :=
  if test directionRegex line then ret (Some st)
  else if Js.startsWith line "subgraph" then
    match exec subgraphRegex line with
    | Some m =>
        let g := MSubgraph (grp1 1 m)
                   (Js.or_else (default "" (grp 2 m)) (grp1 1 m)) [] in
        ret (Some (FState (fs_nodes st) (fs_edges st) (fs_subgraphs st ++ [g])
                          (Some (List.length (fs_subgraphs st)))))
    | None => ret (Some st)
    end
  else if String.eqb line "end" then
    ret (Some (FState (fs_nodes st) (fs_edges st) (fs_subgraphs st) None))
  else parseFlowchartLine (S (String.length line)) line nodePatterns edgePatterns st.

Fixpoint flowchart_loop (lines : list string) (st : fstate) : Clocked (option fstate) :=
  match lines with
  | [] => ret (Some st)
  | l :: ls =>
      bind (flowchart_step l st) (fun r =>
        match r with
        | Some st' => flowchart_loop ls st'
        | None => ret None
        end)
  end.

(** [parseFlowchart(lines)]: the first line is the header. *)
Definition parseFlowchart (lines : list string)
    : Clocked (option (list mnode * list medge * list msubgraph)) :=
  bind (flowchart_loop (tail lines) (FState [] [] [] None)) (fun r =>
    ret ((fun st => (fs_nodes st, fs_edges st, fs_subgraphs st)) <$> r)).

End Flowchart.

(** [/participant\s+(\S+)(?:\s+as\s+(.+))?/i] and the same for [actor]. *)
Definition declRegex (keyword : string) : re :=
  seq [LitI keyword; Plus Space; Grp 1 (Plus NonSpace);
       Opt (seq [Plus Space; LitI "as"; Plus Space; Grp 2 (Plus Dot)])].

(** [/(\S+)\s*(->>|-->>|->|-->|-)>\s*(\S+)\s*:\s*(.+)/] *)
Definition messageRegex : re :=
  seq [Grp 1 (Plus NonSpace); Star Space;
       Grp 2 (alts [Lit "->>"; Lit "-->>"; Lit "->"; Lit "-->"; Lit "-"]); Chr ">";
       Star Space; Grp 3 (Plus NonSpace); Star Space; Chr ":"; Star Space;
       Grp 4 (Plus Dot)].

(** [/class\s+(\S+)\s*\{?/] *)
Definition classRegex : re :=
  seq [Lit "class"; Plus Space; Grp 1 (Plus NonSpace); Star Space; Opt (Chr "{")].

(** [/(\S+)\s*(<\|--|--\|>|<--|\*--|o--|-->|--\*|--o|--)\s*(\S+)(?:\s*:\s*(.+))?/] *)
Definition relationRegex : re :=
  seq [Grp 1 (Plus NonSpace); Star Space;
       Grp 2 (alts [Lit "<|--"; Lit "--|>"; Lit "<--"; Lit "*--"; Lit "o--";
                    Lit "-->"; Lit "--*"; Lit "--o"; Lit "--"]);
       Star Space; Grp 3 (Plus NonSpace);
       Opt (seq [Star Space; Chr ":"; Star Space; Grp 4 (Plus Dot)])].

(** The state of the sequence and class parsers: the [nodes] and [edges]
    arrays and the set of ids seen. *)
Record sstate : Type := SState {
  ss_nodes : list mnode;
  ss_edges : list medge;
  ss_seen : gset string
}.

(** [if (!seen.has(id)) { seen.add(id); nodes.push({ id, label, shape }) }] *)
Definition declare (id label : string) (sh : shape) (st : sstate) : sstate :=
  if bool_decide (id ∈ ss_seen st) then st
  else SState (ss_nodes st ++ [MNode id label sh]) (ss_edges st) ({[id]} ∪ ss_seen st).

Definition connect (source target label : string) (st : sstate) : sstate :=
  let st := declare source source rectangle st in
  let st := declare target target rectangle st in
  SState (ss_nodes st)
    (ss_edges st ++
       [MEdge ("edge_" +:+ pretty (List.length (ss_edges st))) source target label arrow])
    (ss_seen st).

Definition sequence_step (st : sstate) (line : string) : sstate :=
  match exec (declRegex "participant") line with
  | Some m =>
      declare (grp1 1 m) (Js.or_else (default "" (grp 2 m)) (grp1 1 m)) rectangle st
  | None =>
      match exec (declRegex "actor") line with
      | Some m =>
          declare (grp1 1 m) (Js.or_else (default "" (grp 2 m)) (grp1 1 m)) circle st
      | None =>
          match exec messageRegex line with
          | Some m => connect (grp1 1 m) (grp1 3 m) (grp1 4 m) st
          | None => st
          end
      end
  end.

Definition parseSequenceDiagram (lines : list string)
    : list mnode * list medge * list msubgraph :=
  let st := foldl sequence_step (SState [] [] ∅) (tail lines) in
  (ss_nodes st, ss_edges st, []).

Definition class_step (st : sstate) (line : string) : sstate :=
  match exec classRegex line with
  | Some m => declare (grp1 1 m) (grp1 1 m) rectangle st
  | None =>
      match exec relationRegex line with
      | Some m => connect (grp1 1 m) (grp1 3 m) (default "" (grp 4 m)) st
      | None => st
      end
  end.

Definition parseClassDiagram (lines : list string)
    : list mnode * list medge * list msubgraph :=
  let st := foldl class_step (SState [] [] ∅) (tail lines) in
  (ss_nodes st, ss_edges st, []).

(** [code.split('\n').map(l => l.trim()).filter(l => l && !l.startsWith('%%'))] *)
Definition content_lines (code : string) : list string :=
  List.filter (fun l => Js.truthy l && negb (Js.startsWith l "%%"))
              (Js.trim <$> Js.split "010" code).

Definition detect_type (firstLine : string) : diagram_type :=
  if Js.startsWith firstLine "flowchart" || Js.startsWith firstLine "graph" then flowchart
  else if Js.startsWith firstLine "sequencediagram" then sequence
  else if Js.startsWith firstLine "classdiagram" then class_diagram
  else if Js.startsWith firstLine "statediagram" then state
  else if Js.startsWith firstLine "erdiagram" then er
  else if Js.startsWith firstLine "gantt" then gantt
  else if Js.startsWith firstLine "pie" then pie
  else flowchart.

Definition emptyCodeError : string := "El código Mermaid está vacío".

(** [parseMermaidCode(code)].  The outer [option] is [None] only when the
    flowchart parser ran out of fuel. *)
Definition parseMermaidCode (now : nat -> Z) (code : string)
    : Clocked (option (result mermaid_graph)) :=
  let lines := content_lines code in
  match lines with
  | [] => ret (Some (Err emptyCodeError))
  | first :: _ =>
      let diagramType := detect_type (Js.toLowerCase first) in
      let pack r :=
        let '(nodes, edges, subgraphs) := r in
        Ok (MermaidGraph nodes edges subgraphs diagramType) in
      match diagramType with
      | sequence => ret (Some (pack (parseSequenceDiagram lines)))
      | class_diagram => ret (Some (pack (parseClassDiagram lines)))
      | _ => bind (parseFlowchart now lines) (fun r => ret (pack <$> r))
      end
  end.

End MermaidParser.

(** ** The graph the Draw.io parser builds *)

(** The fields only a merged group carries: [type] (class or plain node),
    [name] and [members]. *)
Record group_info : Type := GroupInfo {
  gi_class : bool;
  gi_name : string;
  gi_members : list string
}.

Record dnode : Type := DNode {
  dn_id : option string;
  dn_label : string;
  dn_shape : shape;
  dn_group : option group_info;
  dn_style : string;
  dn_x : Z;
  dn_y : Z;
  dn_width : Z;
  dn_height : Z
}.

Record dedge : Type := DEdge {
  de_id : option string;
  de_source : option string;
  de_target : option string;
  de_label : string;
  de_style : string
}.

(** ** drawioToMermaid.js: identifiers and labels *)

Definition dquote : string := String "034" "".

(** The expressions of [sanitizeId]: a run of white space, a character
    that is no ASCII letter, digit or underscore, and a leading digit. *)
Definition spacesRegex : Regex.re := Regex.Plus Regex.Space.
Definition nonWordRegex : Regex.re := Regex.Cls (fun c => negb (Js.is_word c)).
Definition leadingDigitRegex : Regex.re := Regex.seq [Regex.Bol; Regex.Cls Js.is_digit].

(** [sanitizeId(id)]; [None] is a missing ([null]) id. *)
Definition sanitizeId (id : option string) : string :=
  if negb (Js.truthy_opt id) then "node"
  else
    let sanitized :=
      Regex.replace_all nonWordRegex ""
        (Regex.replace_all spacesRegex "_" (default "" id)) in
    let sanitized :=
      if Regex.test leadingDigitRegex sanitized then "n_" +:+ sanitized else sanitized in
    Js.or_else sanitized "node".

(** A syntactically valid Mermaid identifier: non-empty, made of ASCII
    letters, digits and underscores, and not starting with a digit. *)
Definition valid_mermaid_id (s : string) : Prop :=
  s <> "" /\ Js.forall_chars Js.is_word s = true /\
  match s with String c _ => Js.is_digit c = false | "" => True end.

(** [escapeMermaidLabel(label)] *)
Definition needs_quotes (c : ascii) : bool :=
  bool_decide (c ∈ ["("; ")"; "["; "]"; "{"; "}"; "034"; "'"; "|"; ";"]%char).

Definition escapeMermaidLabel (label : string) : string :=
  if negb (Js.truthy label) then ""
  else if Regex.test (Regex.Cls needs_quotes) label then
    dquote +:+ Regex.replace_all (Regex.Chr "034") "#quot;" label +:+ dquote
  else label.

(** ** drawioToMermaid.js: the serializers *)

Definition detectDiagramType (nodes : list dnode) (edges : list dedge) : string :=
  let isClassDiagram :=
    existsb (fun n =>
      match dn_group n with Some g => gi_class g | None => false end ||
      (Js.truthy (dn_label n) &&
       (Js.includes (dn_label n) "class" || Js.includes (dn_label n) "interface")))
      nodes in
  let hasSequencePatterns :=
    existsb (fun e =>
      Js.truthy (de_label e) &&
      (Js.includes (de_label e) "request" || Js.includes (de_label e) "response" ||
       Js.includes (de_label e) "call")) edges in
  if hasSequencePatterns then "sequence"
  else if isClassDiagram then "class"
  else "flowchart".

Definition formatFlowchartNode (node : dnode) : string :=
  let id := sanitizeId (dn_id node) in
  let rawLabel := Js.or_else (dn_label node) id in
  let label := escapeMermaidLabel rawLabel in
  match dn_shape node with
  | diamond => id +:+ "{" +:+ label +:+ "}"
  | circle => id +:+ "((" +:+ label +:+ "))"
  | rounded => id +:+ "(" +:+ label +:+ ")"
  | stadium => id +:+ "([" +:+ label +:+ "])"
  | subroutine => id +:+ "[[" +:+ label +:+ "]]"
  | cylinder => id +:+ "[(" +:+ label +:+ ")]"
  | hexagon => id +:+ "{{" +:+ label +:+ "}}"
  | parallelogram => id +:+ "[/" +:+ label +:+ "/]"
  | asymmetric => id +:+ ">" +:+ label +:+ "]"
  | _ => id +:+ "[" +:+ label +:+ "]"
  end.

Definition formatFlowchartEdge (edge : dedge) : string :=
  let source := sanitizeId (de_source edge) in
  let target := sanitizeId (de_target edge) in
  let rawLabel := de_label edge in
  let arrow :=
    if Js.truthy (de_style edge) then
      if Js.includes (de_style edge) "dashed" then "-.->"
      else if Js.includes (de_style edge) "strokeWidth=2" ||
              Js.includes (de_style edge) "strokeWidth=3" then "==>"
      else "-->"
    else "-->" in
  if Js.truthy rawLabel then
    source +:+ " " +:+ arrow +:+ "|" +:+ escapeMermaidLabel rawLabel +:+ "| " +:+ target
  else source +:+ " " +:+ arrow +:+ " " +:+ target.

(** The edges [generateFlowchart] writes: both ends given and both among
    the ids of [nodes]. *)
Definition flowchart_edge_kept (nodeIds : list (option string)) (edge : dedge) : bool :=
  Js.truthy_opt (de_source edge) && Js.truthy_opt (de_target edge) &&
  bool_decide (de_source edge ∈ nodeIds) && bool_decide (de_target edge ∈ nodeIds).

Definition flowchart_lines (nodes : list dnode) (edges : list dedge)
    (direction : string) : list string :=
  let nodeIds := dn_id <$> nodes in
  ["flowchart " +:+ direction; ""]
  ++ ((fun node => "    " +:+ formatFlowchartNode node) <$> nodes)
  ++ (if (0 <? List.length edges)%nat then [""] else [])
  ++ ((fun edge => "    " +:+ formatFlowchartEdge edge)
        <$> List.filter (flowchart_edge_kept nodeIds) edges).

Definition generateFlowchart (nodes : list dnode) (edges : list dedge)
    (direction : string) : string :=
  Js.join Js.newline (flowchart_lines nodes edges direction).

(** The edges the sequence and class serializers write: both ends given. *)
Definition edge_has_ends (edge : dedge) : bool :=
  Js.truthy_opt (de_source edge) && Js.truthy_opt (de_target edge).

Definition sequence_participant (node : dnode) : string :=
  let id := sanitizeId (dn_id node) in
  let label := escapeMermaidLabel (Js.or_else (dn_label node) id) in
  match dn_shape node with
  | circle => "    actor " +:+ id +:+ " as " +:+ label
  | _ => "    participant " +:+ id +:+ " as " +:+ label
  end.

Definition sequence_message (edge : dedge) : string :=
  let source := sanitizeId (de_source edge) in
  let target := sanitizeId (de_target edge) in
  let label := escapeMermaidLabel (Js.or_else (de_label edge) "message") in
  let arrow :=
    if Js.truthy (de_style edge) && Js.includes (de_style edge) "dashed"
    then "-->>" else "->>" in
  "    " +:+ source +:+ arrow +:+ target +:+ ": " +:+ label.

Definition sequence_lines (nodes : list dnode) (edges : list dedge) : list string :=
  ["sequenceDiagram"; ""]
  ++ (sequence_participant <$> nodes)
  ++ [""]
  ++ (sequence_message <$> List.filter edge_has_ends edges).

Definition generateSequenceDiagram (nodes : list dnode) (edges : list dedge) : string :=
  Js.join Js.newline (sequence_lines nodes edges).

Definition class_declaration (node : dnode) : list string :=
  let id := sanitizeId (dn_id node) in
  let rawName :=
    Js.or_else (default "" (gi_name <$> dn_group node)) (Js.or_else (dn_label node) id) in
  let displayName := Regex.replace_all (Regex.Lit "**") "" rawName in
  let nameNeedsQuotes :=
    Regex.test nonWordRegex displayName || negb (String.eqb displayName id) in
  let classDef :=
    if nameNeedsQuotes then "class " +:+ id +:+ "[" +:+ dquote +:+ displayName +:+ dquote +:+ "]"
    else "class " +:+ id in
  match gi_members <$> dn_group node with
  | Some (m :: ms) =>
      ["    " +:+ classDef +:+ " {"]
      ++ ((fun member => "        " +:+ Js.trim member) <$> (m :: ms))
      ++ ["    }"]
  | _ => ["    " +:+ classDef]
  end.

Definition class_relation (edge : dedge) : string :=
  let source := sanitizeId (de_source edge) in
  let target := sanitizeId (de_target edge) in
  let style := de_style edge in
  let relation :=
    if Js.truthy style then
      if Js.includes style "endArrow=diamondThin" || Js.includes style "endArrow=diamond"
      then "o--"
      else if Js.includes style "endArrow=block" && Js.includes style "dashed" then "..|>"
      else if Js.includes style "endArrow=block" then "--|>"
      else if Js.includes style "dashed" then "..>"
      else "-->"
    else "-->" in
  let label :=
    if Js.truthy (de_label edge) then " : " +:+ escapeMermaidLabel (de_label edge) else "" in
  "    " +:+ source +:+ " " +:+ relation +:+ " " +:+ target +:+ label.

Definition class_lines (nodes : list dnode) (edges : list dedge) : list string :=
  ["classDiagram"; ""]
  ++ List.concat (class_declaration <$> nodes)
  ++ [""]
  ++ (class_relation <$> List.filter edge_has_ends edges).

Definition generateClassDiagram (nodes : list dnode) (edges : list dedge) : string :=
  Js.join Js.newline (class_lines nodes edges).

(** ** The browser's XML reader and writer

    [DOMParser.parseFromString(text, 'text/xml')], the queries the parser
    makes on the tree, and [XMLSerializer.serializeToString].  The reader
    covers elements, attributes in single or double quotes, character data,
    comments, processing instructions, the five predefined entities and
    numeric character references below 256. *)

Module Dom.

#[warnings="-register-all"]
Inductive node : Type :=
| Element (tagName : string) (attrs : list (string * string)) (children : list node)
| TextNode (data : string).

Fixpoint take_while (p : ascii -> bool) (s : string) : string * string :=
  match s with
  | String c t =>
      if p c then let '(a, r) := take_while p t in (String c a, r) else ("", s)
  | "" => ("", "")
  end.

Definition is_xml_space (c : ascii) : bool :=
  bool_decide (Js.code c ∈ [9; 10; 13; 32]).

Definition is_name_char (c : ascii) : bool :=
  Js.is_word c || bool_decide (c ∈ ["-"; "."; ":"]%char).

Definition skip_space (s : string) : string := snd (take_while is_xml_space s).

Definition dq : string := String "034" "".

Definition is_hex (c : ascii) : bool :=
  Js.is_digit c || Js.in_range 65 70 c || Js.in_range 97 102 c.

Definition hex_digit (c : ascii) : nat :=
  if Js.is_digit c then Js.code c - 48
  else if Js.in_range 65 70 c then Js.code c - 55
  else Js.code c - 87.

Definition number_value (base : nat) (ds : string) : nat :=
  (fix go (acc : nat) (s : string) : nat :=
     match s with
     | "" => acc
     | String c t => go (base * acc + hex_digit c) t
     end) 0 ds.

Definition entities : list (string * ascii) :=
  [ ("amp;", "&"%char); ("lt;", "<"%char); ("gt;", ">"%char);
    ("quot;", "034"%char); ("apos;", "'"%char) ].

(** What follows an ampersand: the character referred to and how many
    characters the reference takes. *)
Definition reference (s : string) : option (ascii * nat) :=
  match List.find (fun p => String.prefix (fst p) s) entities with
  | Some (name, c) => Some (c, String.length name)
  | None =>
      let numeric (base skipped : nat) (digit : ascii -> bool) (t : string) :=
        match take_while digit t with
        | (String d ds, String ";" _) =>
            let n := number_value base (String d ds) in
            if (n <? 256)%nat
            then Some (ascii_of_nat n, skipped + String.length (String d ds) + 1)
            else None
        | _ => None
        end in
      match s with
      | String "#" (String "x" t) => numeric 16 2 is_hex t
      | String "#" t => numeric 10 1 Js.is_digit t
      | _ => None
      end
  end.

(** Character data or an attribute value with its references replaced;
    [in_attr] also turns tabs and line ends into spaces.  [None]: a [<] or a
    reference that is not well formed. *)
Fixpoint decode (in_attr : bool) (skip : nat) (s : string) : option string :=
  match s with
  | "" => Some ""
  | String c t =>
      match skip with
      | S k => decode in_attr k t
      | 0 =>
          if Ascii.eqb c "&" then
            match reference t with
            | Some (d, n) => String d <$> decode in_attr n t
            | None => None
            end
          else if Ascii.eqb c "<" then None
          else if in_attr && is_xml_space c then String " " <$> decode in_attr 0 t
          else String c <$> decode in_attr 0 t
      end
  end.

(** The text up to the first occurrence of [stop], and what follows it. *)
Fixpoint split_at (stop : string) (s : string) : option (string * string) :=
  if String.prefix stop s then Some ("", Js.substring_from (String.length stop) s)
  else
    match s with
    | "" => None
    | String c t => (fun '(a, r) => (String c a, r)) <$> split_at stop t
    end.

(** [rest] when [s] is [p] followed by [rest]. *)
Definition after (p s : string) : option string :=
  if String.prefix p s then Some (Js.substring_from (String.length p) s) else None.

(** One attribute [name = 'value'] or [name = "value"], and what follows. *)
Definition parse_attr (s : string) : option (string * string * string) :=
  let '(name, r) := take_while is_name_char s in
  if negb (Js.truthy name) then None
  else
    r ← after "=" (skip_space r);
    let r := skip_space r in
    match after dq r, after "'" r with
    | Some r, _ => '(raw, r) ← split_at dq r; value ← decode true 0 raw; Some (name, value, r)
    | None, Some r => '(raw, r) ← split_at "'" r; value ← decode true 0 raw; Some (name, value, r)
    | None, None => None
    end.

(** The attributes of a start tag, up to and including its [>] or [/>];
    the flag tells which of the two ended it. *)
Fixpoint parse_attrs (fuel : nat) (s : string)
    : option (list (string * string) * bool * string) :=
  match fuel with
  | 0 => None
  | S fuel' =>
      let s' := skip_space s in
      match after ">" s', after "/>" s' with
      | Some r, _ => Some ([], false, r)
      | None, Some r => Some ([], true, r)
      | None, None =>
          if String.eqb s' s then None   (* attributes are set off by white space *)
          else
            '(name, value, r) ← parse_attr s';
            '(rest, closed, r) ← parse_attrs fuel' r;
            if bool_decide (name ∈ rest.*1) then None
            else Some ((name, value) :: rest, closed, r)
      end
  end.

(** The nodes up to the next end tag or the end of the text. *)
Fixpoint parse_nodes (fuel : nat) (s : string) : option (list node * string) :=
  match fuel with
  | 0 => None
  | S fuel' =>
      if negb (Js.truthy s) then Some ([], "")
      else if String.prefix "</" s then Some ([], s)
      else
        match after "<!--" s, after "<?" s, after "<" s with
        | Some r, _, _ => '(_, r) ← split_at "-->" r; parse_nodes fuel' r
        | None, Some r, _ => '(_, r) ← split_at "?>" r; parse_nodes fuel' r
        | None, None, Some r =>
            let '(name, r) := take_while is_name_char r in
            if negb (Js.truthy name) then None
            else
              '(attrs, closed, r) ← parse_attrs (S (String.length r)) r;
              if closed : bool then
                '(siblings, r) ← parse_nodes fuel' r;
                Some (Element name attrs [] :: siblings, r)
              else
                '(children, r) ← parse_nodes fuel' r;
                r ← after "</" r;
                let '(name', r) := take_while is_name_char r in
                r ← after ">" (skip_space r);
                if String.eqb name name' then
                  '(siblings, r) ← parse_nodes fuel' r;
                  Some (Element name attrs children :: siblings, r)
                else None
        | None, None, None =>
            let '(raw, r) := take_while (fun c => negb (Ascii.eqb c "<")) s in
            data ← decode false 0 raw;
            '(siblings, r) ← parse_nodes fuel' r;
            Some (TextNode data :: siblings, r)
        end
  end.

Definition is_blank (n : node) : bool :=
  match n with
  | TextNode data => Js.forall_chars is_xml_space data
  | Element _ _ _ => false
  end.

Definition parserErrorText : string := "XML Parsing Error: not well-formed".

(** A document is given by its root element; for a text that is not well
    formed the root is a [parsererror] element. *)
Definition parseFromString (text : string) : node :=
  let failed := Element "parsererror" [] [TextNode parserErrorText] in
  match parse_nodes (S (String.length text)) text with
  | Some (nodes, "") =>
      match List.filter (fun n => negb (is_blank n)) nodes with
      | [Element tag attrs children] => Element tag attrs children
      | _ => failed
      end
  | _ => failed
  end.

Definition tag_of (n : node) : string :=
  match n with Element tag _ _ => tag | TextNode _ => "" end.

Definition kids (n : node) : list node :=
  match n with Element _ _ children => children | TextNode _ => [] end.

(** [el.getAttribute(name)] *)
Definition getAttribute (name : string) (n : node) : option string :=
  match n with
  | Element _ attrs _ => snd <$> List.find (fun kv => String.eqb (fst kv) name) attrs
  | TextNode _ => None
  end.

(** [n] when it is an element, then its descendant elements, in document
    order. *)
Fixpoint elements (n : node) : list node :=
  match n with
  | Element _ _ children => n :: List.concat (List.map elements children)
  | TextNode _ => []
  end.

(** [doc.querySelectorAll('t1, t2, ...')] *)
Definition querySelectorAll (tags : list string) (doc : node) : list node :=
  List.filter (fun e => bool_decide (tag_of e ∈ tags)) (elements doc).

(** [doc.querySelector(tag)] on a document and [el.querySelector(tag)] on
    an element, which does not select the element itself. *)
Definition doc_querySelector (tag : string) (doc : node) : option node :=
  head (querySelectorAll [tag] doc).
Definition querySelector (tag : string) (el : node) : option node :=
  head (List.filter (fun e => String.eqb (tag_of e) tag)
                    (List.concat (List.map elements (kids el)))).

Fixpoint textContent (n : node) : string :=
  match n with
  | Element _ _ children => String.concat "" (List.map textContent children)
  | TextNode data => data
  end.

Definition escape_text (s : string) : string :=
  Js.replace_char ">" "&gt;" (Js.replace_char "<" "&lt;" (Js.replace_char "&" "&amp;" s)).

Definition escape_attr (s : string) : string :=
  Js.replace_char "034" "&quot;" (escape_text s).

(** [new XMLSerializer().serializeToString(n)] *)
Fixpoint serializeToString (n : node) : string :=
  match n with
  | TextNode data => escape_text data
  | Element tag attrs children =>
      let attrs :=
        String.concat ""
          (List.map (fun kv => " " +:+ fst kv +:+ "=" +:+ String "034" (escape_attr (snd kv))
                                 +:+ String "034" "") attrs) in
      match children with
      | [] => "<" +:+ tag +:+ attrs +:+ "/>"
      | _ =>
          "<" +:+ tag +:+ attrs +:+ ">"
          +:+ String.concat "" (List.map serializeToString children)
          +:+ "</" +:+ tag +:+ ">"
      end
  end.

(** [parseFloat(text)] in the integral model: white space, a sign and
    digits; a text without leading digits is not a number. *)
Definition parseFloat (text : option string) : option Z :=
  match text with
  | None => None
  | Some s =>
      let s := Js.trimStart s in
      let '(negative, s) :=
        match s with
        | String "-" t => (true, t)
        | String "+" t => (false, t)
        | _ => (false, s)
        end in
      match take_while Js.is_digit s with
      | (String d ds, _) =>
          let n := Z.of_nat (number_value 10 (String d ds)) in
          Some (if negative : bool then (- n)%Z else n)
      | _ => None
      end
  end.

(** [atob(text)], the forgiving base64 decoder: [None] when it throws. *)
Definition base64_value (c : ascii) : option N :=
  let n := N_of_ascii c in
  if Js.is_upper c then Some (n - 65)%N
  else if Js.is_lower c then Some (n - 71)%N
  else if Js.is_digit c then Some (n + 4)%N
  else if Ascii.eqb c "+" then Some 62%N
  else if Ascii.eqb c "/" then Some 63%N
  else None.

Fixpoint base64_values (s : string) : option (list N) :=
  match s with
  | "" => Some []
  | String c t => v ← base64_value c; vs ← base64_values t; Some (v :: vs)
  end.

Definition byte (n : N) : ascii := ascii_of_N (n mod 256).

Fixpoint base64_bytes (fuel : nat) (vs : list N) : string :=
  match fuel, vs with
  | S fuel', a :: b :: c :: d :: vs' =>
      let n := (((a * 64 + b) * 64 + c) * 64 + d)%N in
      String (byte (n / 65536)) (String (byte (n / 256))
        (String (byte n) (base64_bytes fuel' vs')))
  | _, [a; b; c] =>
      let n := ((a * 64 + b) * 64 + c)%N in
      String (byte (n / 1024)) (String (byte (n / 4)) "")
  | _, [a; b] => String (byte ((a * 64 + b) / 16)) ""
  | _, _ => ""
  end.

Definition is_ascii_space (c : ascii) : bool :=
  bool_decide (Js.code c ∈ [9; 10; 12; 13; 32]).

Definition strip_padding (s : string) : string :=
  if (String.length s mod 4 =? 0)%nat then
    let n := String.length s in
    if String.eqb (Js.substring_from (n - 2) s) "==" then Js.substring 0 (n - 2) s
    else if String.eqb (Js.substring_from (n - 1) s) "=" then Js.substring 0 (n - 1) s
    else s
  else s.

Definition atob (text : string) : option string :=
  let s := strip_padding (Js.filter_chars (fun c => negb (is_ascii_space c)) text) in
  if (String.length s mod 4 =? 1)%nat then None
  else vs ← base64_values s; Some (base64_bytes (List.length vs) vs).

End Dom.

(** The gist of an HTML fragment as the browser gives it: [textContent] of
    an element whose [innerHTML] was set to the fragment (tags dropped,
    character references decoded), and [value] of a [textarea] set the same
    way (character references decoded, tags kept).  The model covers tags in
    angle brackets and the references [amp], [lt], [gt], [quot], [apos],
    [nbsp] and decimal ones below 256. *)
Module Html.

Fixpoint take_digits (s : string) : string * string :=
  match s with
  | String c t =>
      if Js.is_digit c then let '(d, r) := take_digits t in (String c d, r)
      else ("", s)
  | "" => ("", "")
  end.

Definition decimal_value (ds : string) : nat :=
  (fix go (acc : nat) (s : string) : nat :=
     match s with
     | "" => acc
     | String c t => go (10 * acc + (Js.code c - 48)) t
     end) 0 ds.

Definition named_references : list (string * ascii) :=
  [ ("amp;", "&"%char); ("lt;", "<"%char); ("gt;", ">"%char);
    ("quot;", "034"%char); ("apos;", "'"%char); ("nbsp;", "160"%char) ].

(** What stands after an ampersand: the character referred to and the rest
    of the text, when this is a reference the model knows. *)
Definition reference (s : string) : option (ascii * string) :=
  match List.find (fun p => String.prefix (fst p) s) named_references with
  | Some (name, c) => Some (c, Js.substring_from (String.length name) s)
  | None =>
      match s with
      | String "#" t =>
          match take_digits t with
          | (String d ds, String ";" r) =>
              let n := decimal_value (String d ds) in
              if (n <? 256)%nat then Some (ascii_of_nat n, r) else None
          | _ => None
          end
      | _ => None
      end
  end.

Definition opens_tag (c : ascii) : bool :=
  Js.is_alpha c || Ascii.eqb c "/" || Ascii.eqb c "!" || Ascii.eqb c "?".

(** [skip] is the length of a reference being replaced; [in_tag] tells that
    the text read is inside a tag. *)
Fixpoint text_of (keep_tags : bool) (in_tag : bool) (skip : nat) (s : string) : string :=
  match s with
  | "" => ""
  | String c t =>
      match skip with
      | S k => text_of keep_tags in_tag k t
      | 0 =>
          if in_tag then text_of keep_tags (negb (Ascii.eqb c ">")) 0 t
          else if Ascii.eqb c "&" then
            match reference t with
            | Some (d, r) =>
                String d (text_of keep_tags false (String.length t - String.length r) t)
            | None => String c (text_of keep_tags false 0 t)
            end
          else if Ascii.eqb c "<" && negb keep_tags &&
                  match t with String d _ => opens_tag d | "" => false end
          then text_of keep_tags true 0 t
          else String c (text_of keep_tags false 0 t)
      end
  end.

Definition textContent (html : string) : string := text_of false false 0 html.
Definition textareaValue (html : string) : string := text_of true false 0 html.

End Html.

(** ** drawioParser.js: from normalized cells to the graph *)

Module DrawioParser.
Import Regex.

(** The attributes of an [mxGeometry] element, read as numbers ([None] for
    an attribute that is missing or not a number).  Coordinates are integral
    in this model. *)
Record geometry_attrs : Type := GeometryAttrs {
  ga_x : option Z;
  ga_y : option Z;
  ga_width : option Z;
  ga_height : option Z
}.

(** A cell as the normalization loop stores it; [c_connectable] is
    [raw.getAttribute('connectable')]. *)
Record cell : Type := Cell {
  c_id : option string;
  c_value : string;
  c_style : string;
  c_vertex : option string;
  c_edge : option string;
  c_parent : option string;
  c_source : option string;
  c_target : option string;
  c_connectable : option string;
  c_geometry : option geometry_attrs
}.

Record geometry : Type := Geometry { g_x : Z; g_y : Z; g_width : Z; g_height : Z }.

(** [n || d] for a number [n] that may be [NaN]. *)
Definition num_or (n : option Z) (d : Z) : Z :=
  match n with
  | Some v => if (v =? 0)%Z then d else v
  | None => d
  end.

Definition getGeometry (c : cell) : geometry :=
  let attr (f : geometry_attrs -> option Z) := c_geometry c ≫= f in
  Geometry (num_or (attr ga_x) 0) (num_or (attr ga_y) 0)
           (num_or (attr ga_width) 100) (num_or (attr ga_height) 60).

Definition styleMap : list (string * shape) :=
  [ ("rhombus", diamond); ("ellipse", circle); ("rounded=1", rounded);
    ("shape=parallelogram", parallelogram); ("shape=cylinder", cylinder);
    ("shape=hexagon", hexagon); ("shape=triangle", triangle);
    ("shape=document", document); ("shape=cloud", cloud);
    ("swimlane", subgraph_shape); ("shape=process", subroutine) ].

Definition parseShapeFromStyle (style : string) : shape :=
  if negb (Js.truthy style) then rectangle
  else default rectangle
         (snd <$> List.find (fun kv => Js.includes style (fst kv)) styleMap).

(** [/<br\s*\/?>/gi], [/<div[^>]*>/gi], [/<\/div>/gi], [/<p[^>]*>/gi],
    [/<\/p>/gi] and [/&nbsp;/g] *)
Definition brRegex : re := seq [LitI "<br"; Star Space; Opt (Chr "/"); Chr ">"].
Definition divOpenRegex : re := seq [LitI "<div"; Star (Not ">"); Chr ">"].
Definition divCloseRegex : re := LitI "</div>".
Definition pOpenRegex : re := seq [LitI "<p"; Star (Not ">"); Chr ">"].
Definition pCloseRegex : re := LitI "</p>".
Definition nbspRegex : re := Lit "&nbsp;".

Definition cleanLabel (html : string) : string :=
  if negb (Js.truthy html) then ""
  else
    let processed :=
      replace_all nbspRegex " "
        (replace_all pCloseRegex ""
           (replace_all pOpenRegex Js.newline
              (replace_all divCloseRegex ""
                 (replace_all divOpenRegex Js.newline
                    (replace_all brRegex Js.newline html))))) in
    let text := Html.textContent processed in
    let text := Html.textareaValue text in
    let text := Js.trim text in
    let text :=
      Js.join Js.newline
        (List.filter Js.truthy (Js.trim <$> Js.split "010" text)) in
    let text := Js.replace_char "034" "'" text in
    let text := Js.replace_char "[" "(" text in
    Js.replace_char "]" ")" text.

(** [groupChildren], a [Map] whose entries are visited in insertion order:
    [add_child parent c] is
    [if (!m.has(parent)) m.set(parent, []); m.get(parent).push(c)]. *)
Fixpoint add_child (parent : string) (c : cell) (m : list (string * list cell))
    : list (string * list cell) :=
  match m with
  | [] => [(parent, [c])]
  | (k, cs) :: m' =>
      if String.eqb k parent then (k, cs ++ [c]) :: m'
      else (k, cs) :: add_child parent c m'
  end.

(** First pass: index all cells and identify the hierarchy. *)
Definition index_step (acc : gmap string cell * list (string * list cell)) (c : cell)
    : gmap string cell * list (string * list cell) :=
  let '(allCellsMap, groupChildren) := acc in
  match c_id c with
  | Some id =>
      if negb (Js.truthy id) then acc
      else
        (<[id := c]> allCellsMap,
         match c_parent c with
         | Some parent =>
             if Js.truthy parent && negb (String.eqb parent "0") &&
                negb (String.eqb parent "1")
             then add_child parent c groupChildren
             else groupChildren
         | None => groupChildren
         end)
  | None => acc
  end.

Definition index_cells (cells : list cell)
    : gmap string cell * list (string * list cell) :=
  foldl index_step (∅, []) cells.

(** [children.sort((a, b) => getGeometry(a).y - getGeometry(b).y)]: a stable
    sort by [y]. *)
Fixpoint insert_by_y (c : cell) (l : list cell) : list cell :=
  match l with
  | [] => [c]
  | d :: l' =>
      if (g_y (getGeometry c) <=? g_y (getGeometry d))%Z then c :: d :: l'
      else d :: insert_by_y c l'
  end.

Definition sort_by_y (l : list cell) : list cell := foldr insert_by_y [] l.

(** What the passes build: the [nodes] and [edges] arrays, the set
    [processedCellIds], and [edgeMap], which refers to an edge object by its
    index in [edges]. *)
Record pstate : Type := PState {
  ps_nodes : list dnode;
  ps_edges : list dedge;
  ps_processed : gset string;
  ps_edgeMap : gmap string nat
}.

Definition is_processed (id : option string) (st : pstate) : bool :=
  match id with
  | Some id => bool_decide (id ∈ ps_processed st)
  | None => false
  end.

Definition mark_processed (id : option string) (st : pstate) : pstate :=
  match id with
  | Some id =>
      PState (ps_nodes st) (ps_edges st) ({[id]} ∪ ps_processed st) (ps_edgeMap st)
  | None => st
  end.

Definition push_node (n : dnode) (st : pstate) : pstate :=
  PState (ps_nodes st ++ [n]) (ps_edges st) (ps_processed st) (ps_edgeMap st).

(** [processNode(cell)] *)
Definition processNode (c : cell) (st : pstate) : pstate :=
  let geometry := getGeometry c in
  push_node
    (DNode (c_id c) (cleanLabel (c_value c)) (parseShapeFromStyle (c_style c)) None
           (c_style c) (g_x geometry) (g_y geometry) (g_width geometry)
           (g_height geometry)) st.

(** Second pass: one entry [(groupId, children)] of [groupChildren]. *)
Definition merge_group (allCellsMap : gmap string cell) (st : pstate)
    (entry : string * list cell) : pstate :=
  let '(groupId, children) := entry in
  match allCellsMap !! groupId with
  | None => st
  | Some groupCell =>
      let geometry := getGeometry groupCell in
      let style := c_style groupCell in
      let val := c_value groupCell in
      if negb (Js.is_lit (c_vertex groupCell) "1") then st
      else if Js.includes style "swimlane" then st
      else
        let children := sort_by_y children in
        (* 1. the group label *)
        let groupLabel := cleanLabel val in
        let hasTitle := Js.truthy groupLabel in
        let mergedLabelParts := if hasTitle then ["**" +:+ groupLabel +:+ "**"] else [] in
        (* 2. the children *)
        let vertexChildren := List.filter (fun ch => Js.is_lit (c_vertex ch) "1") children in
        let childrenLabels := List.filter Js.truthy (cleanLabel ∘ c_value <$> vertexChildren) in
        let st := foldl (fun st ch => mark_processed (c_id ch) st) st vertexChildren in
        (* 3. the merged label: without a title the first child gives it *)
        let '(mergedLabelParts, groupLabel, childrenLabels) :=
          match hasTitle, childrenLabels with
          | false, titleCandidate :: rest =>
              (app mergedLabelParts [("**" +:+ titleCandidate +:+ "**")%string],
               titleCandidate, rest)
          | _, _ => (mergedLabelParts, groupLabel, childrenLabels)
          end in
        let mergedLabelParts :=
          match childrenLabels with
          | [] => mergedLabelParts
          | _ =>
              app (match mergedLabelParts with
                   | [] => []
                   | _ => app mergedLabelParts ["----------------"]
                   end) childrenLabels
          end in
        match mergedLabelParts with
        | [] => st
        | _ =>
            let finalLabel := Js.join "<br/>" mergedLabelParts in
            let hasMembers := (0 <? List.length childrenLabels)%nat in
            let isClassResult :=
              (Js.truthy groupLabel && hasMembers) ||
              (hasMembers && Js.includes style "swimlane") in
            mark_processed (Some groupId)
              (push_node
                 (DNode (Some groupId) finalLabel
                        (if isClassResult then class_shape else rectangle)
                        (Some (GroupInfo isClassResult (Js.or_else groupLabel "Class")
                                         childrenLabels))
                        style (g_x geometry) (g_y geometry) (g_width geometry)
                        (g_height geometry)) st)
        end
  end.

(** [e.label = e.label ? `${e.label} ${newLabel}` : newLabel] on the edge
    object at index [i], when [newLabel] is not empty. *)
Definition append_label (i : nat) (newLabel : string) (st : pstate) : pstate :=
  if negb (Js.truthy newLabel) then st
  else
    PState (ps_nodes st)
      (alter (fun e =>
                DEdge (de_id e) (de_source e) (de_target e)
                      (if Js.truthy (de_label e) then de_label e +:+ " " +:+ newLabel
                       else newLabel)
                      (de_style e)) i (ps_edges st))
      (ps_processed st) (ps_edgeMap st).

(** Third pass: the remaining nodes and the edges. *)
Definition third_step (allCellsMap : gmap string cell) (st : pstate) (c : cell) : pstate :=
  if is_processed (c_id c) st then st
  else
    let isLabel :=
      Js.is_lit (c_vertex c) "1" && Js.is_lit (c_connectable c) "0" &&
      match c_parent c with
      | Some parent =>
          Js.truthy parent &&
          match allCellsMap !! parent with
          | Some p => Js.is_lit (c_edge p) "1"
          | None => false
          end
      | None => false
      end in
    if isLabel then
      match c_parent c ≫= (ps_edgeMap st !!.) with
      | Some i => append_label i (cleanLabel (c_value c)) st
      | None => st
      end
    else if Js.is_lit (c_vertex c) "1" && negb (Js.is_lit (c_parent c) "0") then
      processNode c st
    else if Js.is_lit (c_edge c) "1" then
      let edgeData :=
        DEdge (c_id c) (c_source c) (c_target c) (cleanLabel (c_value c)) (c_style c) in
      PState (ps_nodes st) (ps_edges st ++ [edgeData]) (ps_processed st)
             (match c_id c with
              | Some id => <[id := List.length (ps_edges st)]> (ps_edgeMap st)
              | None => ps_edgeMap st
              end)
    else st.

(** Fourth pass: the labels of edges, checked again. *)
Definition fourth_step (st : pstate) (c : cell) : pstate :=
  let isLabel :=
    Js.is_lit (c_vertex c) "1" && Js.is_lit (c_connectable c) "0" &&
    Js.truthy_opt (c_parent c) in
  if isLabel then
    match c_parent c ≫= (ps_edgeMap st !!.) with
    | Some i => append_label i (cleanLabel (c_value c)) st
    | None => st
    end
  else st.

(** The passes of [parseDrawioXML] over the normalized cells; the result is
    its [nodes] and [edges]. *)
Definition parse_cells (cells : list cell) : list dnode * list dedge :=
  let '(allCellsMap, groupChildren) := index_cells cells in
  let st := PState [] [] ∅ ∅ in
  let st := foldl (merge_group allCellsMap) st groupChildren in
  let st := foldl (third_step allCellsMap) st cells in
  let st := foldl fourth_step st cells in
  (ps_nodes st, ps_edges st).

(** The normalization loop: one element selected by
    [querySelectorAll('mxCell, UserObject, object')] as a flat record. *)
Definition fill (o alt : option string) : option string :=
  if Js.truthy_opt o then o else alt.

Definition geometry_of (el : Dom.node) : geometry_attrs :=
  GeometryAttrs (Dom.parseFloat (Dom.getAttribute "x" el))
                (Dom.parseFloat (Dom.getAttribute "y" el))
                (Dom.parseFloat (Dom.getAttribute "width" el))
                (Dom.parseFloat (Dom.getAttribute "height" el)).

Definition normalize (el : Dom.node) : cell :=
  let attr name := Dom.getAttribute name el in
  let value :=
    Js.or_else (default "" (attr "value")) (Js.or_else (default "" (attr "label")) "") in
  let wrapped :=
    if String.eqb (Dom.tag_of el) "UserObject" || String.eqb (Dom.tag_of el) "object"
    then Dom.querySelector "mxCell" el else None in
  let inner name := wrapped ≫= Dom.getAttribute name in
  let from name :=
    match wrapped with
    | Some _ => fill (attr name) (inner name)
    | None => attr name
    end in
  let geometryElement :=
    match Dom.querySelector "mxGeometry" el, wrapped with
    | None, Some childCell => Dom.querySelector "mxGeometry" childCell
    | g, _ => g
    end in
  Cell (attr "id") value (default "" (from "style")) (from "vertex") (from "edge")
       (from "parent") (from "source") (from "target") (attr "connectable")
       (geometry_of <$> geometryElement).

Record options : Type := Options {
  o_direction : string;
  o_diagramType : string;
  o_pageIndex : nat
}.

Definition default_options : options := Options "TD" "flowchart" 0.

Definition decodeError : string :=
  "No se pudo decodificar el contenido del archivo Draw.io".
Definition parseErrorPrefix : string := "Error de parsing XML: ".

(** The second half of [parseDrawioXML]: the text of one graph model read as
    a tree, its cells normalized and run through the passes. *)
Definition parse_graph_model (xmlToParse : string) : result (list dnode * list dedge) :=
  let doc := Dom.parseFromString (Js.trim xmlToParse) in
  match Dom.doc_querySelector "parsererror" doc with
  | Some parseError => Err (parseErrorPrefix +:+ Dom.textContent parseError)
  | None =>
      let cellElements := Dom.querySelectorAll ["mxCell"; "UserObject"; "object"] doc in
      Ok (parse_cells (normalize <$> cellElements))
  end.

Section Decoder.

(** The compressed-payload decoder: raw-deflate decompression of a binary
    string followed by percent-decoding; [None] when either throws. *)
Variable inflate : string -> option string.

Definition decodeDrawioContent (content : string) : result string :=
  if Js.startsWith (Js.trim content) "<" then Ok content
  else
    match Dom.atob content ≫= inflate with
    | Some xml => Ok xml
    | None =>
        match Dom.atob content with
        | Some decoded => Ok decoded
        | None => Err decodeError
        end
    end.

(** The page of an [mxfile] document: the text to parse as a graph model. *)
Definition page_xml (cleanedContent : string) (pageIndex : nat) : result string :=
  if negb (Js.includes cleanedContent "<mxfile") then Ok cleanedContent
  else
    let doc := Dom.parseFromString cleanedContent in
    match Dom.doc_querySelector "parsererror" doc with
    | Some parseError => Err (parseErrorPrefix +:+ Dom.textContent parseError)
    | None =>
        let diagrams := Dom.querySelectorAll ["diagram"] doc in
        match from_option Some (head diagrams) (diagrams !! pageIndex) with
        | None => Ok cleanedContent
        | Some diagram =>
            let diagramContent := Dom.textContent diagram in
            let decoded :=
              if Js.truthy diagramContent &&
                 negb (Js.startsWith (Js.trim diagramContent) "<")
              then decodeDrawioContent diagramContent
              else if Js.truthy diagramContent then Ok (Js.trim diagramContent)
              else Ok cleanedContent in
            match decoded with
            | Err msg => Err msg
            | Ok xmlToParse =>
                match Dom.querySelector "mxGraphModel" diagram with
                | Some graphModel => Ok (Dom.serializeToString graphModel)
                | None => Ok xmlToParse
                end
            end
        end
    end.

(** [parseDrawioXML(xmlContent, options)]; the result is its [nodes] and
    [edges] (its [nodeMap] is read by no caller).  The byte-order-mark test
    after the trim has no branch here: [trim] removes that character, and
    no character of this model has its code. *)
Definition parseDrawioXML (xmlContent : string) (opts : options)
    : result (list dnode * list dedge) :=
  let cleanedContent := Js.trim xmlContent in
  match page_xml cleanedContent (o_pageIndex opts) with
  | Err msg => Err msg
  | Ok xmlToParse => parse_graph_model xmlToParse
  end.

End Decoder.

End DrawioParser.

(** ** drawioToMermaid.js: the conversion *)

Definition drawioToMermaidPrefix : string := "Error al convertir Draw.io a Mermaid: ".
Definition noDrawioNodesError : string := "No se encontraron nodos en el diagrama Draw.io".

(** The part of [convertDrawioToMermaid] after the parse. *)
Definition serialize_graph (nodes : list dnode) (edges : list dedge)
    (opts : DrawioParser.options) : result string :=
  match nodes with
  | [] => Err (drawioToMermaidPrefix +:+ noDrawioNodesError)
  | _ =>
      let detectedType := detectDiagramType nodes edges in
      let type :=
        if String.eqb (DrawioParser.o_diagramType opts) "auto" then detectedType
        else DrawioParser.o_diagramType opts in
      if String.eqb type "sequence" then Ok (generateSequenceDiagram nodes edges)
      else if String.eqb type "class" then Ok (generateClassDiagram nodes edges)
      else Ok (generateFlowchart nodes edges (DrawioParser.o_direction opts))
  end.

(** [convertDrawioToMermaid(xmlContent, options)] *)
Definition convertDrawioToMermaid (inflate : string -> option string)
    (xmlContent : string) (opts : DrawioParser.options) : result string :=
  match DrawioParser.parseDrawioXML inflate xmlContent opts with
  | Err msg => Err (drawioToMermaidPrefix +:+ msg)
  | Ok (nodes, edges) => serialize_graph nodes edges opts
  end.

(** ** drawioParser.js: writing Draw.io XML *)

(** A node with the geometry the layout step gave it. *)
Record pnode : Type := PNode {
  pn_node : mnode;
  pn_x : Z;
  pn_y : Z;
  pn_width : Z;
  pn_height : Z
}.

Module DrawioWriter.

Definition escapeXml (text : string) : string :=
  Js.replace_char "'" "&apos;"
    (Js.replace_char "034" "&quot;"
       (Js.replace_char ">" "&gt;"
          (Js.replace_char "<" "&lt;"
             (Js.replace_char "&" "&amp;" text)))).

Definition baseStyle : string := "rounded=0;whiteSpace=wrap;html=1;".

Definition getStyleForShape (sh : shape) : string :=
  match sh with
  | rectangle => baseStyle
  | rounded => "rounded=1;whiteSpace=wrap;html=1;"
  | diamond => "rhombus;whiteSpace=wrap;html=1;"
  | circle => "ellipse;whiteSpace=wrap;html=1;"
  | cylinder => "shape=cylinder3;whiteSpace=wrap;html=1;boundedLbl=1;"
  | hexagon => "shape=hexagon;whiteSpace=wrap;html=1;"
  | parallelogram => "shape=parallelogram;whiteSpace=wrap;html=1;"
  | stadium => "rounded=1;whiteSpace=wrap;html=1;arcSize=50;"
  | subroutine => "shape=process;whiteSpace=wrap;html=1;"
  | asymmetric => "shape=trapezoid;whiteSpace=wrap;html=1;"
  | _ => baseStyle
  end.

(** [n || d] for a number. *)
Definition nonzero_or (n d : Z) : Z := if (n =? 0)%Z then d else n.

Definition attr (name value : string) : string :=
  name +:+ "=" +:+ dquote +:+ value +:+ dquote.

Definition node_cell (index : nat) (node : pnode) : string :=
  let i := Z.of_nat index in
  let id := Js.or_else (mn_id (pn_node node)) ("node_" +:+ pretty index) in
  let x := nonzero_or (pn_x node) ((i mod 3) * 200 + 50) in
  let y := nonzero_or (pn_y node) ((i / 3) * 150 + 50) in
  let width := nonzero_or (pn_width node) 120 in
  let height := nonzero_or (pn_height node) 60 in
  let label := escapeXml (mn_label (pn_node node)) in
  let style := getStyleForShape (mn_shape (pn_node node)) in
  "<mxCell " +:+ attr "id" id +:+ " " +:+ attr "value" label +:+ " " +:+ attr "style" style
  +:+ " " +:+ attr "vertex" "1" +:+ " " +:+ attr "parent" "1" +:+ ">" +:+ Js.newline
  +:+ "      <mxGeometry " +:+ attr "x" (pretty x) +:+ " " +:+ attr "y" (pretty y) +:+ " "
  +:+ attr "width" (pretty width) +:+ " " +:+ attr "height" (pretty height) +:+ " "
  +:+ attr "as" "geometry" +:+ "/>" +:+ Js.newline
  +:+ "    </mxCell>".

Definition edgeStyle : string :=
  "edgeStyle=orthogonalEdgeStyle;rounded=1;orthogonalLoop=1;jettySize=auto;html=1;".

Definition edge_cell (index : nat) (edge : medge) : string :=
  let id := Js.or_else (me_id edge) ("edge_" +:+ pretty index) in
  let label := escapeXml (me_label edge) in
  "<mxCell " +:+ attr "id" id +:+ " " +:+ attr "value" label +:+ " " +:+ attr "style" edgeStyle
  +:+ " " +:+ attr "edge" "1" +:+ " " +:+ attr "parent" "1" +:+ " "
  +:+ attr "source" (me_source edge) +:+ " " +:+ attr "target" (me_target edge) +:+ ">"
  +:+ Js.newline
  +:+ "      <mxGeometry " +:+ attr "relative" "1" +:+ " " +:+ attr "as" "geometry" +:+ "/>"
  +:+ Js.newline
  +:+ "    </mxCell>".

Definition generateDrawioXML (nodes : list pnode) (edges : list medge) : string :=
  let cellsXml :=
    ["<mxCell " +:+ attr "id" "0" +:+ "/>";
     "<mxCell " +:+ attr "id" "1" +:+ " " +:+ attr "parent" "0" +:+ "/>"]
    ++ imap node_cell nodes ++ imap edge_cell edges in
  let graphXml :=
    "<mxGraphModel>" +:+ Js.newline
    +:+ "  <root>" +:+ Js.newline
    +:+ "    " +:+ Js.join (Js.newline +:+ "    ") cellsXml +:+ Js.newline
    +:+ "  </root>" +:+ Js.newline
    +:+ "</mxGraphModel>" in
  "<mxfile>" +:+ Js.newline
  +:+ "  <diagram " +:+ attr "name" "Page-1" +:+ ">" +:+ Js.newline
  +:+ "    " +:+ graphXml +:+ Js.newline
  +:+ "  </diagram>" +:+ Js.newline
  +:+ "</mxfile>".

End DrawioWriter.

(** ** mermaidToDrawio.js *)

Module Layout.

Definition nodeWidth : Z := 120.
Definition nodeHeight : Z := 60.
Definition horizontalSpacing : Z := 180.
Definition verticalSpacing : Z := 120.
Definition startX : Z := 50.
Definition startY : Z := 50.

(** The adjacency list and the in-degree count, over the edges whose two
    ends are nodes. *)
Definition init_maps (nodes : list mnode) : gmap string (list string) * gmap string nat :=
  foldl (fun '(adjacency, inDegree) n =>
           (<[mn_id n := []]> adjacency, <[mn_id n := 0]> inDegree))
        (∅, ∅) nodes.

Definition add_edge (acc : gmap string (list string) * gmap string nat) (e : medge)
    : gmap string (list string) * gmap string nat :=
  let '(adjacency, inDegree) := acc in
  match adjacency !! me_source e, adjacency !! me_target e with
  | Some out, Some _ =>
      (<[me_source e := out ++ [me_target e]]> adjacency,
       <[me_target e := default 0 (inDegree !! me_target e) + 1]> inDegree)
  | _, _ => acc
  end.

Definition build_maps (nodes : list mnode) (edges : list medge)
    : gmap string (list string) * gmap string nat :=
  foldl add_edge (init_maps nodes) edges.

(** [nextLayer.add(id)] on a [Set] read back in insertion order. *)
Definition set_add (id : string) (l : list string) : list string :=
  if bool_decide (id ∈ l) then l else l ++ [id].

Definition next_layer (adjacency : gmap string (list string)) (visited : gset string)
    (currentLayer : list string) : list string :=
  foldl (fun nextLayer id =>
           foldl (fun nextLayer neighbor =>
                    if bool_decide (neighbor ∈ visited) then nextLayer
                    else set_add neighbor nextLayer)
                 nextLayer (default [] (adjacency !! id)))
        [] currentLayer.

(** The [while (currentLayer.length > 0)] loop; [None] is fuel run out. *)
Fixpoint bfs (fuel : nat) (adjacency : gmap string (list string))
    (currentLayer : list string) (layers : list (list string)) (visited : gset string)
    : option (list (list string) * gset string) :=
  match currentLayer with
  | [] => Some (layers, visited)
  | _ =>
      match fuel with
      | 0 => None
      | S fuel' =>
          let layers := layers ++ [currentLayer] in
          let visited := visited ∪ list_to_set currentLayer in
          bfs fuel' adjacency (next_layer adjacency visited currentLayer) layers visited
      end
  end.

(** The unvisited nodes join the last layer. *)
Definition add_remaining (acc : list (list string) * gset string) (n : mnode)
    : list (list string) * gset string :=
  let '(layers, visited) := acc in
  if bool_decide (mn_id n ∈ visited) then acc
  else
    let layers := match layers with [] => [[]] | _ => layers end in
    (alter (fun layer => layer ++ [mn_id n]) (List.length layers - 1) layers, visited).

Definition first_layer (nodes : list mnode) (inDegree : gmap string nat) : list string :=
  let roots :=
    mn_id <$> List.filter (fun n => bool_decide (inDegree !! mn_id n = Some 0)) nodes in
  match roots, nodes with
  | [], n :: _ => [mn_id n]
  | _, _ => roots
  end.

Definition layers_of (nodes : list mnode) (edges : list medge)
    : option (list (list string)) :=
  let '(adjacency, inDegree) := build_maps nodes edges in
  r ← bfs (List.length nodes) adjacency (first_layer nodes inDegree) [] ∅;
  Some (fst (foldl add_remaining r nodes)).

Definition place_layer (positionMap : gmap string (Z * Z)) (layerIndex : nat)
    (layer : list string) : gmap string (Z * Z) :=
  let layerWidth := (Z.of_nat (List.length layer) * horizontalSpacing)%Z in
  let startOffset := ((- layerWidth) / 2 + horizontalSpacing / 2)%Z in
  foldl (fun positionMap '(nodeIndex, nodeId) =>
           let x := (startX + 300 + startOffset + Z.of_nat nodeIndex * horizontalSpacing)%Z in
           let y := (startY + Z.of_nat layerIndex * verticalSpacing)%Z in
           <[nodeId := (x, y)]> positionMap)
        positionMap (imap pair layer).

Definition positions_of (layers : list (list string)) : gmap string (Z * Z) :=
  foldl (fun positionMap '(layerIndex, layer) => place_layer positionMap layerIndex layer)
        ∅ (imap pair layers).

Definition position_node (positionMap : gmap string (Z * Z)) (n : mnode) : pnode :=
  PNode n
    (DrawioWriter.nonzero_or (default 0%Z (fst <$> positionMap !! mn_id n)) 100)
    (DrawioWriter.nonzero_or (default 0%Z (snd <$> positionMap !! mn_id n)) 100)
    nodeWidth nodeHeight.

(** [calculateNodePositions(nodes, edges, diagramType)] *)
Definition calculateNodePositions (nodes : list mnode) (edges : list medge)
    : option (list pnode) :=
  layers ← layers_of nodes edges;
  Some (position_node (positions_of layers) <$> nodes).

End Layout.

Definition mermaidToDrawioPrefix : string := "Error al convertir Mermaid a Draw.io: ".
Definition noMermaidNodesError : string := "No se encontraron nodos en el diagrama Mermaid".

(** [convertMermaidToDrawio(mermaidCode)]; [None] is fuel run out. *)
Definition convertMermaidToDrawio (now : nat -> Z) (mermaidCode : string)
    : MermaidParser.Clocked (option (result string)) :=
  MermaidParser.bind (MermaidParser.parseMermaidCode now mermaidCode) (fun r =>
    MermaidParser.ret
      match r with
      | None => None
      | Some (Err msg) => Some (Err (mermaidToDrawioPrefix +:+ msg))
      | Some (Ok g) =>
          match mg_nodes g with
          | [] => Some (Err (mermaidToDrawioPrefix +:+ noMermaidNodesError))
          | _ =>
              positionedNodes ← Layout.calculateNodePositions (mg_nodes g) (mg_edges g);
              let nodeIds := mn_id ∘ pn_node <$> positionedNodes in
              let validEdges :=
                List.filter (fun e => bool_decide (me_source e ∈ nodeIds) &&
                                      bool_decide (me_target e ∈ nodeIds))
                            (mg_edges g) in
              Some (Ok (DrawioWriter.generateDrawioXML positionedNodes validEdges))
          end
      end).

(** ** mermaidParser.js: the syntax check *)

Module Validator.

(** An entry of the [errors] array. *)
Record syntax_error : Type := SyntaxError { se_line : nat; se_message : string }.

#[global] Instance syntax_error_eq_dec : EqDecision syntax_error.
Proof. solve_decision. Defined.

Definition validDiagramTypes : list string :=
  ["flowchart"; "graph"; "sequencediagram"; "classdiagram";
   "statediagram"; "erdiagram"; "gantt"; "pie"; "mindmap"].

Definition unknownTypeError : string :=
  "Tipo de diagrama no reconocido. Debe comenzar con: "
  +:+ Js.join ", " validDiagramTypes.

(** The object [brackets], its entries in insertion order, and the object
    [closingBrackets]. *)
Definition brackets0 : list (ascii * Z) :=
  [("["%char, 0%Z); ("{"%char, 0%Z); ("("%char, 0%Z)].
Definition closingBrackets : list (ascii * ascii) :=
  [("]"%char, "["%char); ("}"%char, "{"%char); (")"%char, "("%char)].

(** [obj[key]] for an own property, and [obj[key] = v] for a key the object
    has. *)
Definition own {A} (key : ascii) (obj : list (ascii * A)) : option A :=
  snd <$> List.find (fun kv => Ascii.eqb (fst kv) key) obj.
Definition assign (key : ascii) (v : Z) (obj : list (ascii * Z)) : list (ascii * Z) :=
  (fun kv => if Ascii.eqb (fst kv) key then (fst kv, v) else kv) <$> obj.

Definition unmatchedError (char : ascii) : string :=
  "Corchete de cierre '" +:+ String char "" +:+ "' sin correspondiente apertura".
Definition unclosedError (count : Z) (bracket : ascii) : string :=
  pretty count +:+ " corchete(s) '" +:+ String bracket "" +:+ "' sin cerrar".

(** The body of the loop over the characters of the line at [index]. *)
Definition char_step (index : nat) (acc : list (ascii * Z) * list syntax_error)
    (char : ascii) : list (ascii * Z) * list syntax_error :=
  let '(brackets, errors) := acc in
  match own char brackets with
  | Some count => (assign char (count + 1) brackets, errors)
  | None =>
      match own char closingBrackets with
      | Some opening =>
          let count := (default 0 (own opening brackets) - 1)%Z in
          if (count <? 0)%Z
          then (assign opening 0 brackets,
                errors ++ [SyntaxError (index + 1) (unmatchedError char)])
          else (assign opening count brackets, errors)
      | None => acc
      end
  end.

Definition line_step (acc : list (ascii * Z) * list syntax_error)
    (entry : nat * string) : list (ascii * Z) * list syntax_error :=
  foldl (char_step (fst entry)) acc (list_ascii_of_string (snd entry)).

(** The errors for the brackets left open at the end. *)
Definition unclosed (lineCount : nat) (brackets : list (ascii * Z)) : list syntax_error :=
  (fun kv => SyntaxError lineCount (unclosedError (snd kv) (fst kv)))
    <$> List.filter (fun kv => (0 <? snd kv)%Z) brackets.

(** [validateMermaidSyntax(code)] *)
Definition validateMermaidSyntax (code : string) : list syntax_error :=
  let lines := Js.split "010" code in
  let first := default "" (head lines) in
  if negb (Js.truthy (Js.trim first)) then [SyntaxError 1 MermaidParser.emptyCodeError]
  else
    let firstLine := Js.toLowerCase (Js.trim first) in
    let hasValidType := existsb (fun type => Js.startsWith firstLine type) validDiagramTypes in
    let errors := if hasValidType then [] else [SyntaxError 1 unknownTypeError] in
    let '(brackets, errors) := foldl line_step (brackets0, errors) (imap pair lines) in
    errors ++ unclosed (List.length lines) brackets.

End Validator.

(** ** drawioParser.js: the pages of a file *)

Module Pages.

(** An entry of the list of pages; the entry for a file without pages has
    no [index]. *)
Record page : Type := Page { pg_id : string; pg_name : string; pg_index : option nat }.

Definition singlePage : list page := [Page "0" "Page 1" None].

(** [getDrawioPages(xmlContent)] *)
Definition getDrawioPages (xmlContent : string) : list page :=
  let cleanedContent := Js.trim xmlContent in
  if negb (Js.includes cleanedContent "<mxfile") then singlePage
  else
    let doc := Dom.parseFromString cleanedContent in
    let diagrams := Dom.querySelectorAll ["diagram"] doc in
    match diagrams with
    | [] => singlePage
    | _ =>
        imap (fun index diagram =>
                Page (Js.or_else (default "" (Dom.getAttribute "id" diagram)) (pretty index))
                     (Js.or_else (default "" (Dom.getAttribute "name" diagram))
                                 ("Page " +:+ pretty (index + 1)%nat))
                     (Some index)) diagrams
    end.

End Pages.

(** ** Sample inputs and the predicates the theorems are stated with *)

Section Samples.
Import Regex MermaidParser DrawioParser Layout.

(** A graph with the single node [A] and an edge from [A] to [Z], an id
    that resolves to no node. *)
Definition dangling_nodes : list dnode :=
  [DNode (Some "A") "A" rectangle None "" 0 0 100 60].
Definition dangling_edges : list dedge :=
  [DEdge (Some "e1") (Some "A") (Some "Z") "" ""].

Definition root_cell : cell := Cell (Some "0") "" "" None None None None None None None.
Definition layer_cell : cell :=
  Cell (Some "1") "" "" None None (Some "0") None None None None.

(** An edge from [A] to [B] without a label of its own, and a label cell
    [yes] attached to it. *)
Definition edge_cell : cell :=
  Cell (Some "e1") "" "endArrow=classic;html=1;" None (Some "1") (Some "1")
       (Some "A") (Some "B") None None.
Definition label_cell : cell :=
  Cell (Some "l1") "yes" "edgeLabel;html=1;" (Some "1") None (Some "e1")
       None None (Some "0") None.

(** What the scan has settled on after the patterns [ps]: nothing when none
    of them matches, else the match of the pattern at some position [i]
    that starts no later than any other match and strictly earlier than the
    matches of the patterns before [i]. *)
Definition leftmost_first (line : string) (ps : list edge_pattern)
    (best : option edge_hit) : Prop :=
  match best with
  | None => ∀ p, p ∈ ps -> exec (ep_regex p) line = None
  | Some hit =>
      ∃ i p m,
        ps !! i = Some p ∧ exec (ep_regex p) line = Some m ∧ hit = hit_of p m ∧
        ∀ j q m', ps !! j = Some q -> exec (ep_regex q) line = Some m' ->
                  (index m <= index m')%nat ∧ ((j < i)%nat -> (index m < index m')%nat)
  end.

(** A computation that reads the clock only through [date_now]: the count
    of readings never goes down, and a run that made no reading gives the
    result of every run, whatever the clock and the count it starts from. *)
Definition quiet {A} (c : (nat -> Z) -> Clocked A) : Prop :=
  ∀ now t,
    (t <= snd (c now t))%nat ∧
    (snd (c now t) = t -> ∀ now' t', c now' t' = (fst (c now t), t')).

(** The coordinates of the node at [index] in a layer of [size] nodes, and
    of the nodes of the layer at [layerIndex]. *)
Definition layer_x (size index : nat) : Z := 440 - 90 * Z.of_nat size + 180 * Z.of_nat index.
Definition layer_y (layerIndex : nat) : Z := 50 + 120 * Z.of_nat layerIndex.

(** A five-node graph without edges. *)
Definition five_nodes : list mnode :=
  (fun id => MNode id id rectangle) <$> ["a"; "b"; "c"; "d"; "e"].

(** Every key of the adjacency list is a node id, and so is every
    neighbour it records. *)
Definition adj_ok (ids : list string) (adj : gmap string (list string)) : Prop :=
  (∀ id, is_Some (adj !! id) -> id ∈ ids) ∧
  (∀ id out nb, adj !! id = Some out -> nb ∈ out -> is_Some (adj !! nb)).

(** The state of the breadth-first loop: the layers made so far and the
    current layer hold node ids, none of them twice, and [visited] is the
    set of the ids in the layers. *)
Record bfs_inv (ids : list string) (layers : list (list string)) (cur : list string)
    (visited : gset string) : Prop := BfsInv {
  bi_nodup : NoDup (List.concat layers ++ cur);
  bi_ids : ∀ x, x ∈ List.concat layers ++ cur -> x ∈ ids;
  bi_visited : ∀ x, x ∈ visited ↔ x ∈ List.concat layers
}.


(** The class-like node of a group [Foo] with the members [a:int] and
    [b:int], for the group cell [g] with the id [gid]. *)
Definition foo_node (gid : string) (g : cell) : dnode :=
  DNode (Some gid) "**Foo**<br/>----------------<br/>a:int<br/>b:int" class_shape
        (Some (GroupInfo true "Foo" ["a:int"; "b:int"])) (c_style g)
        (g_x (getGeometry g)) (g_y (getGeometry g))
        (g_width (getGeometry g)) (g_height (getGeometry g)).



Definition sample_group : cell :=
  Cell (Some "g") "Foo" "rounded=0;whiteSpace=wrap;html=1;" (Some "1") None (Some "1")
       None None None (Some (GeometryAttrs (Some 40) (Some 40) (Some 160) (Some 90)))%Z.
Definition sample_child (id value : string) (y : Z) : cell :=
  Cell (Some id) value "text;html=1;" (Some "1") None (Some "g") None None None
       (Some (GeometryAttrs (Some 0) (Some y) (Some 160) (Some 30)))%Z.
Definition sample_a : cell := sample_child "a" "a:int" 30.
Definition sample_b : cell := sample_child "b" "b:int" 60.
Definition parent_first : list cell :=
  [root_cell; layer_cell; sample_group; sample_a; sample_b].
Definition children_first : list cell :=
  [root_cell; layer_cell; sample_b; sample_a; sample_group].

(** The children recorded under the key [k]. *)
Definition entry (k : string) (gc : list (string * list cell)) : option (list cell) :=
  snd <$> List.find (fun e => String.eqb e.1 k) gc.

(** The cells the first pass files under the parent [k]. *)
Definition kids (k : string) (doc : list cell) : list cell :=
  List.filter (fun c => Js.truthy_opt (c_id c) && bool_decide (c_parent c = Some k)) doc.

Definition group_key (k : string) : bool :=
  Js.truthy k && negb (String.eqb k "0") && negb (String.eqb k "1").

(** The number of leading characters of [s] that satisfy [p], and [s]
    without its first [n] characters. *)
Fixpoint span (p : ascii -> bool) (s : string) : nat :=
  match s with
  | String c t => if p c then S (span p t) else 0
  | "" => 0
  end.

Fixpoint drop_chars (n : nat) (s : string) : string :=
  match n, s with
  | S n', String _ t => drop_chars n' t
  | _, _ => s
  end.

(** A lower bound on the length of what a regular expression matches. *)
Fixpoint min_length (r : re) : nat :=
  match r with
  | Chr _ | Cls _ => 1
  | Cat r1 r2 => min_length r1 + min_length r2
  | Alt r1 r2 => min_length r1 `min` min_length r2
  | Grp _ r1 => min_length r1
  | Eps | Star _ | Bol | Eol => 0
  end.

(** A clock that stands still, and one that advances by a millisecond with
    every reading. *)
Definition frozen_clock (t : nat) : Z := 1700000000000.

(** A payload decoder that always throws. *)
Definition no_inflate (payload : string) : option string := None.

(** A Draw.io page with the two root cells and nothing else. *)
Definition empty_page : string :=
  "<mxGraphModel><root><mxCell id='0'/><mxCell id='1' parent='0'/></root></mxGraphModel>".

Definition roundtrip_input : string :=
  Js.join Js.newline ["flowchart TD"; "A[Start]-->B{Check}"].
Definition roundtrip_output : string :=
  Js.join Js.newline ["flowchart TD"; ""; "    A[Start]"; "    B{Check}"; ""; "    A --> B"].


End Samples.

Section BracketPredicates.
Import Validator.

(** The number of occurrences of [c] in a text. *)
Definition count_char (c : ascii) (l : list ascii) : nat :=
  List.length (List.filter (Ascii.eqb c) l).

(** The closing bracket [c] never outnumbers the opening bracket [o] in a
    beginning of the text, and the two are as many in the whole text. *)
Definition balanced (o c : ascii) (l : list ascii) : Prop :=
  (∀ p, p `prefix_of` l -> (count_char c p <= count_char o p)%nat) ∧
  count_char c l = count_char o l.

(** The first line of a text. *)
Definition first_line (code : string) : string := default "" (head (Js.split "010" code)).

(** The first line starts with the name of a diagram type, whatever the
    case of its letters and the white space around it. *)
Definition header_recognised (code : string) : Prop :=
  ∃ type, type ∈ validDiagramTypes ∧
          Js.startsWith (Js.toLowerCase (Js.trim (first_line code))) type = true.

End BracketPredicates.

Section CheckerState.
Import Validator.

(** The count the checker keeps for the opening bracket [o], and how it
    moves on a character [x] when [c] closes [o]. *)
Definition depth (o : ascii) (brackets : list (ascii * Z)) : Z :=
  default 0%Z (own o brackets).
Definition next_depth (o c : ascii) (d : Z) (x : ascii) : Z :=
  if Ascii.eqb x o then (d + 1)%Z
  else if Ascii.eqb x c then (if (d - 1 <? 0)%Z then 0%Z else (d - 1)%Z)
  else d.
Definition underflow (brackets : list (ascii * Z)) (x : ascii) : bool :=
  existsb (fun co => Ascii.eqb x (fst co) && (depth (snd co) brackets - 1 <? 0)%Z)
          closingBrackets.

(** The state of the checker after the characters [l], started with the
    errors [e0]. *)
Record checked (e0 : list syntax_error) (l : list ascii)
    (acc : list (ascii * Z) * list syntax_error) : Prop := Checked {
  ck_keys : (fst acc).*1 = brackets0.*1;
  ck_grows : (List.length e0 <= List.length (snd acc))%nat;
  ck_depth : ∀ c o, (c, o) ∈ closingBrackets -> (0 <= depth o (fst acc))%Z;
  ck_clean : snd acc = e0 ->
             ∀ c o, (c, o) ∈ closingBrackets ->
               (∀ p, p `prefix_of` l -> (count_char c p <= count_char o p)%nat) ∧
               depth o (fst acc) = (Z.of_nat (count_char o l) - Z.of_nat (count_char c l))%Z;
  ck_dirty : snd acc <> e0 ->
             ∃ c o p, (c, o) ∈ closingBrackets ∧ p `prefix_of` l ∧
                      (count_char o p < count_char c p)%nat
}.

End CheckerState.

Section CharacterClasses.
Import Regex.

(** Every match of [r] starts with a character of the class [p]. *)
Fixpoint leading (p : ascii -> bool) (r : re) : Prop :=
  match r with
  | Chr c => p c = true
  | Cls q => ∀ d, q d = true -> p d = true
  | Cat r1 _ => leading p r1
  | Grp _ r1 => leading p r1
  | _ => False
  end.

(** A character of a label that [cleanLabel] leaves alone: no control
    character (line ends among them), no markup, no character reference
    and none of the characters it replaces. *)
Definition plain_char (c : ascii) : bool :=
  (32 <=? Js.code c)%nat && negb (bool_decide (c ∈ ["<"; "&"; "034"; "["; "]"]%char)).

End CharacterClasses.

Section PlainCells.
Import DrawioParser.

(** The node and the edge [parseDrawioXML] makes of a cell that stands for
    itself. *)
Definition plain_node (c : cell) : dnode :=
  DNode (c_id c) (cleanLabel (c_value c)) (parseShapeFromStyle (c_style c)) None
        (c_style c) (g_x (getGeometry c)) (g_y (getGeometry c))
        (g_width (getGeometry c)) (g_height (getGeometry c)).
Definition plain_edge (c : cell) : dedge :=
  DEdge (c_id c) (c_source c) (c_target c) (cleanLabel (c_value c)) (c_style c).

(** A vertex that does not lie directly under the root cell, and an edge
    that is no such vertex. *)
Definition is_node_cell (c : cell) : bool :=
  Js.is_lit (c_vertex c) "1" && negb (Js.is_lit (c_parent c) "0").
Definition is_edge_cell (c : cell) : bool :=
  negb (is_node_cell c) && Js.is_lit (c_edge c) "1".

(** A document without groups and without labels of edges: the parent of
    every cell is missing or is one of the cells [0] and [1], and no cell
    is marked as not connectable. *)
Definition flat (doc : list cell) : Prop :=
  ∀ c, c ∈ doc ->
    match c_parent c with Some p => group_key p = false | None => True end ∧
    Js.is_lit (c_connectable c) "0" = false.

End PlainCells.

Section RowPredicates.
Import Layout.

(** The layers made so far are rows in which an edge goes down by at most
    one row: a neighbour of a node in a layer is in a layer no further than
    the next, where the layer after the last one made is [cur]. *)
Definition rows_ok (adj : gmap string (list string)) (layers : list (list string))
    (cur : list string) : Prop :=
  ∀ j l u out v,
    layers !! j = Some l -> u ∈ l -> adj !! u = Some out -> v ∈ out ->
    (∃ j' l', (j' <= j + 1)%nat ∧ layers !! j' = Some l' ∧ v ∈ l') ∨
    ((j + 1)%nat = List.length layers ∧ v ∈ cur).

End RowPredicates.

Section AttributeValues.

(** An attribute value as the XML reader gives it: tabs and line ends
    read as spaces. *)
Fixpoint attr_value (s : string) : string :=
  match s with
  | "" => ""
  | String c t => String (if Dom.is_xml_space c then " "%char else c) (attr_value t)
  end.

End AttributeValues.

Section Fixtures.
Import MermaidParser DrawioParser.

(** The graph of [roundtrip_input]. *)
Definition roundtrip_graph : mermaid_graph :=
  MermaidGraph [MNode "A" "Start" rectangle; MNode "B" "Check" diamond]
               [MEdge "edge_0" "A" "B" "" arrow] [] flowchart.

(** A document with two vertices and an edge between them. *)
Definition sample_vertex (id value : string) : cell :=
  Cell (Some id) value "rounded=0;html=1;" (Some "1") None (Some "1") None None None
       (Some (GeometryAttrs (Some 40) (Some 40) (Some 120) (Some 60)))%Z.
Definition flat_doc : list cell :=
  [root_cell; layer_cell; sample_vertex "a" "Start"; sample_vertex "b" "End";
   Cell (Some "e") "" "endArrow=classic;" None (Some "1") (Some "1")
        (Some "a") (Some "b") None None].


(** A chain of two edges, and its graph: the edge of the inner part of the
    chain comes first. *)
Definition chain_input : string :=
  Js.join Js.newline ["flowchart TD"; "A[Start] --> B --> C{End}"].
Definition chain_graph : mermaid_graph :=
  MermaidGraph [MNode "A" "Start" rectangle; MNode "B" "B" rectangle; MNode "C" "End" diamond]
               [MEdge "edge_0" "B" "C" "" arrow; MEdge "edge_1" "A" "B" "" arrow] [] flowchart.


(** Three nodes as the Draw.io parser builds them, the last without a
    label, with a plain, a labelled dashed and a dangling edge. *)
Definition drawn_nodes : list dnode :=
  [DNode (Some "A") "Start here" rectangle None "rounded=0;" 40 40 120 60;
   DNode (Some "B") "Is it ok" diamond None "rhombus;" 40 160 120 60;
   DNode (Some "n_3") "" rounded None "rounded=1;" 40 280 120 60]%Z.
Definition drawn_edges : list dedge :=
  [DEdge (Some "e1") (Some "A") (Some "B") "" "endArrow=classic;";
   DEdge (Some "e2") (Some "B") (Some "n_3") "yes" "dashed=1;";
   DEdge (Some "e3") (Some "B") (Some "Z") "" ""].

End Fixtures.

Section ParserStates.
Import MermaidParser.

(** A state of the sequence and class parsers in which a property [I] of
    the nodes and edges holds and the set of ids seen is the set of the ids
    of the nodes. *)
Definition seen_ok (I : list mnode -> list medge -> Prop) (st : sstate) : Prop :=
  I (ss_nodes st) (ss_edges st) ∧ ∀ x, x ∈ ss_seen st ↔ x ∈ mn_id <$> ss_nodes st.

End ParserStates.

Section Words.

(** The longest beginning of [s] made of characters of the class [p]. *)
Fixpoint take_span (p : ascii -> bool) (s : string) : string :=
  match s with
  | String c t => if p c then String c (take_span p t) else ""
  | "" => ""
  end.

(** The identifier a text begins with: a letter or underscore and the
    letters, digits and underscores that follow it. *)
Definition head_word (s : string) : option string :=
  match s with
  | String c t => if Js.is_id_start c then Some (String c (take_span Js.is_word t)) else None
  | "" => None
  end.

(** A character that can begin an edge: [-] or [=]. *)
Definition edge_start (c : ascii) : bool := Ascii.eqb c "-" || Ascii.eqb c "=".

(** Both ends of every edge are nodes. *)
Definition resolved (nodes : list mnode) (edges : list medge) : Prop :=
  ∀ e, e ∈ edges -> me_source e ∈ mn_id <$> nodes ∧ me_target e ∈ mn_id <$> nodes.

End Words.

Section WrittenTrees.
Import Dom.

(** How attribute values and character data are written. *)
Variable ea et : string -> string.

(** The text of a tree with its attribute values written through [ea] and
    its character data through [et]; [serializeToString] is the case of
    [escape_attr] and [escape_text]. *)
Definition attr_text (kv : string * string) : string :=
  " " +:+ fst kv +:+ "=" +:+ String "034" (ea (snd kv)) +:+ String "034" "".
(** The end of a start tag. *)
Definition closing (closed : bool) : string := if closed then "/>" else ">".

Definition attrs_text (attrs : list (string * string)) : string :=
  String.concat "" (List.map attr_text attrs).

Fixpoint print (n : node) : string :=
  match n with
  | TextNode data => et data
  | Element tag attrs children =>
      let attrs := attrs_text attrs in
      match children with
      | [] => "<" +:+ tag +:+ attrs +:+ "/>"
      | _ =>
          "<" +:+ tag +:+ attrs +:+ ">"
          +:+ String.concat "" (List.map print children)
          +:+ "</" +:+ tag +:+ ">"
      end
  end.

Definition print_list (l : list node) : string := String.concat "" (List.map print l).

(** What the reader makes of a written attribute value and of written
    character data. *)
Definition read_attr (v : string) : string :=
  default "" (decode true 0 (ea v)).
Definition read_text (d : string) : string :=
  default "" (decode false 0 (et d)).

(** The tree the reader makes of the text of a tree. *)
Fixpoint read (n : node) : node :=
  match n with
  | TextNode data => TextNode (read_text data)
  | Element tag attrs children =>
      Element tag (List.map (fun kv => (fst kv, read_attr (snd kv))) attrs)
              (List.map read children)
  end.

Definition name_ok (s : string) : bool :=
  Js.truthy s && Js.forall_chars is_name_char s.

Definition attr_ok (kv : string * string) : bool :=
  name_ok (fst kv) &&
  Js.forall_chars (fun d => negb (Ascii.eqb d "034")) (ea (snd kv)) &&
  bool_decide (is_Some (decode true 0 (ea (snd kv)))).

Definition is_text (n : node) : bool :=
  match n with TextNode _ => true | Element _ _ _ => false end.

(** No two text nodes in a row. *)
Fixpoint spaced (l : list node) : bool :=
  match l with
  | n :: l' => negb (is_text n && match l' with m :: _ => is_text m | [] => false end)
               && spaced l'
  | [] => true
  end.

(** A tree whose text is read back as a tree of the same shape: names are
    names, no attribute twice, values without a double quote and character
    data without [<] once written, both with well-formed references only,
    no empty text and no two text nodes in a row. *)
Fixpoint tidy (n : node) : bool :=
  match n with
  | TextNode data =>
      Js.truthy (et data) &&
      Js.forall_chars (fun d => negb (Ascii.eqb d "<")) (et data) &&
      bool_decide (is_Some (decode false 0 (et data)))
  | Element tag attrs children =>
      name_ok tag && forallb attr_ok attrs && bool_decide (NoDup (List.map fst attrs)) &&
      forallb tidy children && spaced children
  end.

(** A tidy element [c] that is read as [c']. *)
Definition passes (c c' : node) : Prop :=
  tidy c = true ∧ read c = c' ∧ is_text c = false.

(** What may follow the nodes of an element: nothing, or an end tag. *)
Definition closes (rest : string) : Prop := rest = "" ∨ String.prefix "</" rest = true.

End WrittenTrees.

Section PlainValues.

(** A character that is written into an attribute as it is and read back
    as it is: no control character, double quote, ampersand or [<]. *)
Definition plain_attr_char (c : ascii) : bool :=
  (32 <=? Js.code c)%nat && negb (bool_decide (c ∈ ["034"; "&"; "<"]%char)).

Definition plain_text (s : string) : Prop := Js.forall_chars plain_attr_char s = true.

(** A character XML allows in a document. *)
Definition xml_char (c : ascii) : bool := (32 <=? Js.code c)%nat || Dom.is_xml_space c.

(** The number a text of decimal digits stands for, after [acc]. *)
Fixpoint digits_value (acc : nat) (s : string) : nat :=
  match s with
  | "" => acc
  | String c t => digits_value (10 * acc + Dom.hex_digit c) t
  end.

End PlainValues.

Section WrittenGraph.
Import Dom DrawioParser DrawioWriter.

(** The tree of the file [generateDrawioXML] writes, with the labels
    written through [f]: [escapeXml] gives the tree whose text is the file,
    [attr_value] the tree the reader makes of it. *)
Variable f : string -> string.

Definition gap (indent : string) : Dom.node := TextNode (Js.newline +:+ indent).

Definition node_el (index : nat) (node : pnode) : Dom.node :=
  let i := Z.of_nat index in
  Element "mxCell"
    [("id", Js.or_else (mn_id (pn_node node)) ("node_" +:+ pretty index));
     ("value", f (mn_label (pn_node node)));
     ("style", getStyleForShape (mn_shape (pn_node node)));
     ("vertex", "1"); ("parent", "1")]
    [gap "      ";
     Element "mxGeometry"
       [("x", pretty (nonzero_or (pn_x node) ((i mod 3) * 200 + 50)));
        ("y", pretty (nonzero_or (pn_y node) ((i / 3) * 150 + 50)));
        ("width", pretty (nonzero_or (pn_width node) 120));
        ("height", pretty (nonzero_or (pn_height node) 60));
        ("as", "geometry")] [];
     gap "    "].

Definition edge_el (index : nat) (edge : medge) : Dom.node :=
  Element "mxCell"
    [("id", Js.or_else (me_id edge) ("edge_" +:+ pretty index));
     ("value", f (me_label edge));
     ("style", edgeStyle);
     ("edge", "1"); ("parent", "1");
     ("source", me_source edge); ("target", me_target edge)]
    [gap "      ";
     Element "mxGeometry" [("relative", "1"); ("as", "geometry")] [];
     gap "    "].

Definition root_els : list Dom.node :=
  [Element "mxCell" [("id", "0")] [];
   Element "mxCell" [("id", "1"); ("parent", "0")] []].

Definition cell_els (nodes : list pnode) (edges : list medge) : list Dom.node :=
  root_els ++ imap node_el nodes ++ imap edge_el edges.

(** The children of the [root] element: every cell on a line of its own. *)
Definition spread (cells : list Dom.node) : list Dom.node :=
  foldr (fun c acc => gap "    " :: c :: acc) [gap "  "] cells.

Definition model_el (nodes : list pnode) (edges : list medge) : Dom.node :=
  Element "mxGraphModel" []
    [gap "  "; Element "root" [] (spread (cell_els nodes edges)); gap ""].

Definition file_el (nodes : list pnode) (edges : list medge) : Dom.node :=
  Element "mxfile" []
    [gap "  ";
     Element "diagram" [("name", "Page-1")] [gap "    "; model_el nodes edges; gap "  "];
     gap ""].

End WrittenGraph.

Section ReadGraph.
Import DrawioParser DrawioWriter.

(** A text written as it is. *)
Definition same (s : string) : string := s.

(** The node and the edge [parseDrawioXML] reads from what
    [generateDrawioXML] wrote for a node and an edge. *)
Definition read_node (index : nat) (node : pnode) : dnode :=
  let i := Z.of_nat index in
  let style := getStyleForShape (mn_shape (pn_node node)) in
  DNode (Some (Js.or_else (mn_id (pn_node node)) ("node_" +:+ pretty index)))
        (cleanLabel (attr_value (mn_label (pn_node node))))
        (parseShapeFromStyle style) None style
        (nonzero_or (pn_x node) ((i mod 3) * 200 + 50))
        (nonzero_or (pn_y node) ((i / 3) * 150 + 50))
        (nonzero_or (pn_width node) 120)
        (nonzero_or (pn_height node) 60).

Definition read_edge (index : nat) (edge : medge) : dedge :=
  DEdge (Some (Js.or_else (me_id edge) ("edge_" +:+ pretty index)))
        (Some (me_source edge)) (Some (me_target edge))
        (cleanLabel (attr_value (me_label edge))) edgeStyle.

End ReadGraph.

Section GraphConditions.

(** The ids a graph is written with are plain texts, and its labels hold
    characters XML allows. *)
Record writable (nodes : list pnode) (edges : list medge) : Prop := Writable {
  w_node_ids : ∀ p, p ∈ nodes -> plain_text (mn_id (pn_node p));
  w_node_labels : ∀ p, p ∈ nodes -> Js.forall_chars xml_char (mn_label (pn_node p)) = true;
  w_edge_ids : ∀ e, e ∈ edges -> plain_text (me_id e);
  w_edge_ends : ∀ e, e ∈ edges -> plain_text (me_source e) ∧ plain_text (me_target e);
  w_edge_labels : ∀ e, e ∈ edges -> Js.forall_chars xml_char (me_label e) = true
}.

End GraphConditions.

Section WrittenCells.
Import Dom DrawioParser DrawioWriter.

(** The cells [parseDrawioXML] normalizes from the file
    [generateDrawioXML] wrote. *)
Definition node_record (index : nat) (node : pnode) : cell :=
  let i := Z.of_nat index in
  Cell (Some (Js.or_else (mn_id (pn_node node)) ("node_" +:+ pretty index)))
       (attr_value (mn_label (pn_node node)))
       (getStyleForShape (mn_shape (pn_node node)))
       (Some "1") None (Some "1") None None None
       (Some (GeometryAttrs
                (Some (nonzero_or (pn_x node) ((i mod 3) * 200 + 50)))
                (Some (nonzero_or (pn_y node) ((i / 3) * 150 + 50)))
                (Some (nonzero_or (pn_width node) 120))
                (Some (nonzero_or (pn_height node) 60))))%Z.

Definition edge_record (index : nat) (edge : medge) : cell :=
  Cell (Some (Js.or_else (me_id edge) ("edge_" +:+ pretty index)))
       (attr_value (me_label edge)) edgeStyle
       None (Some "1") (Some "1") (Some (me_source edge)) (Some (me_target edge)) None
       (Some (GeometryAttrs None None None None)).

Definition root_records : list cell :=
  [Cell (Some "0") "" "" None None None None None None None;
   Cell (Some "1") "" "" None None (Some "0") None None None None].

Definition records (nodes : list pnode) (edges : list medge) : list cell :=
  root_records ++ imap node_record nodes ++ imap edge_record edges.

End WrittenCells.

Section ReadFlowchart.
Import DrawioWriter.

(** An edge as [parseDrawioXML] reads it from the file the conversion
    wrote. *)
Definition kept_edge (e : medge) : dedge :=
  DEdge (Some (me_id e)) (Some (me_source e)) (Some (me_target e))
        (DrawioParser.cleanLabel (attr_value (me_label e))) edgeStyle.

(** The filter of [convertMermaidToDrawio]: both ends are nodes. *)
Definition has_ends (nodes : list mnode) (e : medge) : bool :=
  bool_decide (me_source e ∈ mn_id <$> nodes) && bool_decide (me_target e ∈ mn_id <$> nodes).

(** An id that is written as it is: plain and not empty. *)
Definition plain_id (s : string) : Prop := s <> "" ∧ plain_text s.

End ReadFlowchart.

Section SimpleTexts.

(** A character of a simple text: a letter, a digit, an underscore or a
    space. *)
Definition simple_char (c : ascii) : bool := Js.is_word c || Ascii.eqb c " ".

Definition simple (s : string) : Prop := Js.forall_chars simple_char s = true.

(** The brackets [formatFlowchartNode] writes around the label of a node
    of a shape, for the shapes the Mermaid parser reads back: every shape
    but circle, stadium, subroutine, cylinder and parallelogram. *)
Definition readable_shape (sh : shape) : bool :=
  negb (bool_decide (sh ∈ [circle; stadium; subroutine; cylinder; parallelogram])).

(** The shape a readable shape is read back as: the shapes without
    brackets of their own are written as rectangles. *)
Definition reread (sh : shape) : shape :=
  match sh with
  | diamond | rounded | hexagon | asymmetric => sh
  | _ => rectangle
  end.

End SimpleTexts.

Section WrittenFlowcharts.

(** The arrows [formatFlowchartEdge] writes and the edge types the Mermaid
    parser reads them as. *)
Definition written_arrows : list (string * edge_type) :=
  [("-->", arrow); ("-.->", dotted); ("==>", thick)].

(** The arrow [formatFlowchartEdge] chooses for a style, with its type. *)
Definition style_arrow (style : string) : string * edge_type :=
  if Js.truthy style then
    if Js.includes style "dashed" then ("-.->", dotted)
    else if Js.includes style "strokeWidth=2" || Js.includes style "strokeWidth=3"
         then ("==>", thick)
    else ("-->", arrow)
  else ("-->", arrow).

(** A node and the [i]-th written edge of a Draw.io graph as the Mermaid
    parser reads them from the flowchart text. *)
Definition flow_node (n : dnode) : mnode :=
  let id := default "" (dn_id n) in
  MNode id (Js.trim (Js.or_else (dn_label n) id)) (reread (dn_shape n)).

Definition flow_edge (i : nat) (e : dedge) : medge :=
  MEdge ("edge_" +:+ pretty i) (default "" (de_source e)) (default "" (de_target e))
        (de_label e) (snd (style_arrow (de_style e))).

(** A node whose flowchart line reads back: a valid identifier that does
    not begin with the keyword of subgraphs, a simple label and a shape
    with brackets the parser tells apart. *)
Definition flow_ready (n : dnode) : Prop :=
  (∃ id, dn_id n = Some id ∧ valid_mermaid_id id ∧ Js.startsWith id "subgraph" = false) ∧
  simple (dn_label n) ∧ readable_shape (dn_shape n) = true.

Record drawable (nodes : list dnode) (edges : list dedge) : Prop := Drawable {
  d_nodes : Forall flow_ready nodes;
  d_distinct : NoDup (dn_id <$> nodes);
  d_edge_labels : Forall (fun e => simple (de_label e)) edges
}.

End WrittenFlowcharts.

(* ===================================================================== *)
(** * Theorems *)
(* ===================================================================== *)

(** ** The regular expression engine *)

Section RegexFacts.
Import Regex.

(** A successful run hands its continuation a later position and the rest
    of the subject from there. *)
Lemma run_consumes {R} (r : re) :
  ∀ pos s cs (k : nat -> string -> caps -> option R) x,
    run r pos s cs k = Some x ->
    ∃ pos' s' cs',
      k pos' s' cs' = Some x ∧ (pos + min_length r <= pos')%nat ∧
      (pos' + String.length s' = pos + String.length s)%nat.
Proof.
  induction r as [|c|p|r1 IH1 r2 IH2|r1 IH1 r2 IH2|r1 IH1|n r1 IH1| |];
    intros pos s cs k x; simpl.
  - intros H. exists pos, s, cs. split_and!; [done|lia..].
  - destruct s as [|d t]; [done|]. destruct (Ascii.eqb d c); [|done].
    intros H. exists (S pos), t, cs. simpl. split_and!; [done|lia..].
  - destruct s as [|d t]; [done|]. destruct (p d); [|done].
    intros H. exists (S pos), t, cs. simpl. split_and!; [done|lia..].
  - intros H. apply IH1 in H as (pos1 & s1 & cs1 & H & ? & ?).
    apply IH2 in H as (pos2 & s2 & cs2 & H & ? & ?).
    exists pos2, s2, cs2. split_and!; [done|lia..].
  - destruct (run r1 pos s cs k) eqn:H1.
    + intros [= ->]. apply IH1 in H1 as (pos1 & s1 & cs1 & H & ? & ?).
      exists pos1, s1, cs1. split_and!; [done|lia..].
    + intros H. apply IH2 in H as (pos1 & s1 & cs1 & H & ? & ?).
      exists pos1, s1, cs1. split_and!; [done|lia..].
  - generalize (String.length s) at 1 as fuel. intros fuel. revert pos s cs.
    induction fuel as [|fuel IHf]; intros pos s cs.
    + intros H. exists pos, s, cs. split_and!; [done|lia..].
    + match goal with
      | |- context [run r1 pos s cs ?k'] => destruct (run r1 pos s cs k') eqn:H1
      end.
      * intros [= ->]. apply IH1 in H1 as (pos1 & s1 & cs1 & H & ? & ?).
        destruct (pos <? pos1)%nat; [|done].
        apply IHf in H as (pos2 & s2 & cs2 & H & ? & ?).
        exists pos2, s2, cs2. split_and!; [done|lia..].
      * intros H. exists pos, s, cs. split_and!; [done|lia..].
  - intros H. apply IH1 in H as (pos1 & s1 & cs1 & H & ? & ?).
    eexists pos1, s1, _. split_and!; [done|lia..].
  - destruct (pos =? 0)%nat; [|done]. intros H. exists pos, s, cs. split_and!; [done|lia..].
  - destruct s; [|done]. intros H. exists pos, "", cs. split_and!; [done|simpl; lia..].
Qed.

Lemma substring_length_le (n m : nat) (s : string) :
  (String.length (String.substring n m s) <= m)%nat ∧
  (String.length (String.substring n m s) <= String.length s - n)%nat.
Proof.
  revert n m. induction s as [|c s IH]; intros n m.
  - destruct n, m; simpl; lia.
  - destruct n as [|n]; simpl.
    + destruct m as [|m]; simpl; [lia|]. destruct (IH 0%nat m). lia.
    + apply IH.
Qed.

Lemma substring_length_exact (m : nat) (s : string) :
  (m <= String.length s)%nat -> String.length (String.substring 0 m s) = m.
Proof.
  revert m. induction s as [|c s IH]; intros m Hm; simpl in *.
  - destruct m; simpl; lia.
  - destruct m as [|m]; simpl; [done|]. rewrite IH; lia.
Qed.

Lemma match_here_bounds (r : re) pos s m :
  match_here r pos s = Some m ->
  index m = pos ∧ (min_length r <= String.length (matched m))%nat ∧
  (String.length (matched m) <= String.length s)%nat.
Proof.
  unfold match_here. intros H.
  apply run_consumes in H as (pos' & s' & cs' & [= <-] & ? & ?).
  cbn [index matched]. unfold Js.substring.
  rewrite Nat.sub_0_r, substring_length_exact by lia. lia.
Qed.

Lemma search_bounds (r : re) :
  ∀ pos s m,
    search r pos s = Some m ->
    (index m + String.length (matched m) <= pos + String.length s)%nat ∧
    (min_length r <= String.length (matched m))%nat.
Proof.
  intros pos s. revert pos. induction s as [|c s IH]; intros pos m; cbn [search].
  - destruct (match_here r pos "") as [m'|] eqn:Hm; [|done]. intros [= ->].
    apply match_here_bounds in Hm as (-> & ? & ?). lia.
  - destruct (match_here r pos (String c s)) as [m'|] eqn:Hm.
    + intros [= ->]. apply match_here_bounds in Hm as (-> & ? & ?). lia.
    + intros H. apply IH in H. simpl. lia.
Qed.

(** A greedy run over a character class takes every leading character of
    the class when what follows the run cannot fail. *)
Lemma run_star_cls {R} (p : ascii -> bool) (k : nat -> string -> caps -> option R) :
  (∀ pos s cs, is_Some (k pos s cs)) ->
  ∀ s pos cs,
    run (Star (Cls p)) pos s cs k = k (pos + span p s)%nat (drop_chars (span p s) s) cs.
Proof.
  intros Hk s pos cs. simpl.
  assert (String.length s <= String.length s)%nat as Hfuel by done. revert Hfuel.
  generalize (String.length s) at 2 3 as fuel. intros fuel. revert pos s cs.
  induction fuel as [|fuel IH]; intros pos s cs Hfuel.
  - destruct s; [|simpl in Hfuel; lia]. simpl. by rewrite Nat.add_0_r.
  - destruct s as [|d t]; simpl.
    + by rewrite Nat.add_0_r.
    + destruct (p d); [|by rewrite Nat.add_0_r].
      rewrite (proj2 (Nat.ltb_lt pos (S pos))) by lia. simpl in Hfuel.
      rewrite IH by lia. rewrite <- Nat.add_succ_comm. cbn [drop_chars].
      destruct (Hk (S pos + span p t)%nat (drop_chars (span p t) t) cs) as [x Hx].
      by rewrite Hx.
Qed.

Lemma match_here_plus_cls (p : ascii -> bool) pos s :
  match s with
  | String d t =>
      if p d then
        ∃ m, match_here (Plus (Cls p)) pos s = Some m ∧
             String.length (matched m) = S (span p t)
      else match_here (Plus (Cls p)) pos s = None
  | "" => match_here (Plus (Cls p)) pos s = None
  end.
Proof.
  destruct s as [|d t]; [done|]. unfold match_here, Plus.
  change (run (Cat (Cls p) (Star (Cls p))) pos (String d t) [] ?k)
    with (if p d then run (Star (Cls p)) (S pos) t [] k else None).
  destruct (p d); [|done]. rewrite run_star_cls by (intros; by eexists).
  eexists. split; [done|]. cbn [matched]. unfold Js.substring. rewrite Nat.sub_0_r.
  assert (span p t <= String.length t)%nat as Hspan.
  { clear. induction t as [|c t IH]; simpl; [done|]. destruct (p c); lia. }
  replace (S pos + span p t - pos)%nat with (S (span p t)) by lia.
  apply substring_length_exact. simpl. lia.
Qed.

Lemma match_here_cls (p : ascii -> bool) pos s :
  match_here (Cls p) pos s
  = match s with
    | String d t => if p d then Some (Found pos (String d "") []) else None
    | "" => None
    end.
Proof.
  destruct s as [|d t]; [done|]. unfold match_here. cbn [run]. destruct (p d); [|done].
  unfold Js.substring. replace (S pos - pos - 0)%nat with 1%nat by lia.
  simpl. by destruct t.
Qed.

(** [s.replace(/\s+/g, repl)] turns every maximal run of white space into
    [repl]. *)
Lemma replace_all_spaces repl s :
  replace_all spacesRegex repl s = Js.replace_space_runs repl false s.
Proof.
  unfold replace_all, spacesRegex, Space.
  enough (∀ pos,
            replace_from (Plus (Cls Js.is_space)) repl 0 pos s
              = Js.replace_space_runs repl false s ∧
            replace_from (Plus (Cls Js.is_space)) repl (span Js.is_space s) pos s
              = Js.replace_space_runs repl true s) as H by apply H.
  induction s as [|d t IH]; intros pos.
  - cbn [span]. split; reflexivity.
  - assert (replace_from (Plus (Cls Js.is_space)) repl 0 pos (String d t)
            = Js.replace_space_runs repl false (String d t)) as Hfirst.
    { cbn [replace_from Js.replace_space_runs].
      pose proof (match_here_plus_cls Js.is_space pos (String d t)) as Hm. cbn beta iota in Hm.
      destruct (Js.is_space d).
      - destruct Hm as (m & -> & ->). f_equal. apply IH.
      - rewrite Hm. f_equal. apply IH. }
    split; [done|]. cbn [span]. destruct (Js.is_space d) eqn:Hd.
    + cbn [replace_from Js.replace_space_runs]. rewrite Hd. apply IH.
    + rewrite Hfirst. cbn [Js.replace_space_runs]. by rewrite Hd.
Qed.

Lemma search_bol_later (r : re) s pos :
  search (Cat Bol r) (S pos) s = None.
Proof. revert pos. induction s as [|c t IH]; intros pos; simpl; [done|apply IH]. Qed.

(** [/^[0-9]/.test(s)] looks at the first character. *)
Lemma test_leading_digit s :
  test leadingDigitRegex s
  = match s with String c _ => Js.is_digit c | "" => false end.
Proof.
  unfold test, exec, leadingDigitRegex. cbn [seq]. destruct s as [|c t]; [done|].
  cbn [search]. unfold match_here. cbn [run Nat.eqb].
  destruct (Js.is_digit c); [done|]. by rewrite search_bol_later.
Qed.

Lemma match_here_chr (c : ascii) pos s :
  match_here (Chr c) pos s
  = match s with
    | String d t => if Ascii.eqb d c then Some (Found pos (String d "") []) else None
    | "" => None
    end.
Proof.
  destruct s as [|d t]; [done|]. unfold match_here. cbn [run].
  destruct (Ascii.eqb d c); [|done].
  unfold Js.substring. replace (S pos - pos - 0)%nat with 1%nat by lia.
  simpl. by destruct t.
Qed.

(** [s.replace(/c/g, repl)] for one literal character. *)
Lemma replace_all_chr (c : ascii) repl s :
  replace_all (Chr c) repl s = Js.replace_char c repl s.
Proof.
  unfold replace_all.
  enough (∀ pos, replace_from (Chr c) repl 0 pos s = Js.replace_char c repl s) as H
    by apply H.
  induction s as [|d t IH]; intros pos; [done|].
  cbn [replace_from Js.replace_char]. rewrite match_here_chr.
  destruct (Ascii.eqb d c); simpl; by rewrite IH.
Qed.

(** [s.replace(/[...]/g, '')] keeps the characters outside the class. *)
Lemma replace_all_cls (p q : ascii -> bool) s :
  (∀ c, q c = negb (p c)) ->
  replace_all (Cls p) "" s = Js.filter_chars q s.
Proof.
  intros Hq. unfold replace_all.
  enough (∀ pos, replace_from (Cls p) "" 0 pos s = Js.filter_chars q s) as H by apply H.
  induction s as [|d t IH]; intros pos; [done|].
  cbn [replace_from Js.filter_chars]. rewrite match_here_cls, Hq.
  destruct (p d); simpl; by rewrite IH.
Qed.

(** [/[...]/.test(s)] tells whether some character of [s] is in the class. *)
Lemma test_cls (p q : ascii -> bool) s :
  (∀ c, q c = negb (p c)) ->
  test (Cls p) s = negb (Js.forall_chars q s).
Proof.
  intros Hq. unfold test, exec. generalize 0%nat as pos.
  induction s as [|d t IH]; intros pos.
  - done.
  - cbn [search Js.forall_chars]. rewrite match_here_cls, Hq.
    destruct (p d); simpl; [done|apply IH].
Qed.

End RegexFacts.

(** ** Identifiers *)

Section SanitizeId.
Import Regex.

Lemma forall_chars_filter p s : Js.forall_chars p (Js.filter_chars p s) = true.
Proof.
  induction s as [|c r IH]; simpl; [done|].
  destruct (p c) eqn:Hp; simpl; [by rewrite Hp|done].
Qed.

(** C10: for every input, including a missing id, the empty string and
    strings of special characters only, [sanitizeId] returns a non-empty
    string of ASCII letters, digits and underscores that does not begin
    with a digit. *)
Theorem sanitizeId_valid (id : option string) : valid_mermaid_id (sanitizeId id).
Proof.
  unfold sanitizeId.
  destruct (Js.truthy_opt id); simpl; [|by repeat split].
  rewrite test_leading_digit. unfold nonWordRegex.
  rewrite (replace_all_cls _ Js.is_word) by (intros c; by rewrite negb_involutive).
  pose proof (forall_chars_filter Js.is_word
                (replace_all spacesRegex "_" (default "" id))) as Hall.
  destruct (Js.filter_chars _ _) as [|c r] eqn:Hf; [by repeat split|].
  destruct (Js.is_digit c) eqn:Hd; simpl; (split; [done|]); split; try done.
Qed.

End SanitizeId.

(** ** The Mermaid serializers and dangling edges *)

Section DanglingEdges.

Lemma flowchart_edge_kept_resolves nodes e :
  flowchart_edge_kept (dn_id <$> nodes) e = true ->
  de_source e ∈ dn_id <$> nodes ∧ de_target e ∈ dn_id <$> nodes.
Proof.
  unfold flowchart_edge_kept. rewrite !andb_true_iff, !bool_decide_eq_true. tauto.
Qed.

(** C9 (the code departs from the claim): on a graph whose only edge runs
    to the unknown id [Z], the flowchart serializer leaves the edge out,
    while the sequence and the class serializer both write it. *)
Theorem dangling_edge_serialized :
  serialize_graph dangling_nodes dangling_edges (DrawioParser.Options "TD" "flowchart" 0)
    = Ok (Js.join Js.newline ["flowchart TD"; ""; "    A[A]"; ""]) ∧
  serialize_graph dangling_nodes dangling_edges (DrawioParser.Options "TD" "sequence" 0)
    = Ok (Js.join Js.newline
            ["sequenceDiagram"; ""; "    participant A as A"; ""; "    A->>Z: message"]) ∧
  serialize_graph dangling_nodes dangling_edges (DrawioParser.Options "TD" "class" 0)
    = Ok (Js.join Js.newline ["classDiagram"; ""; "    class A"; ""; "    A --> Z"]).
Proof. by vm_compute. Qed.

End DanglingEdges.

(** ** Edge labels in [parseDrawioXML] *)

Section EdgeLabels.
Import DrawioParser.

(** C1 (the code departs from the claim): a label cell that follows its
    edge in document order is appended in the third pass and again in the
    fourth, so the edge is labelled [yes yes]; the same cell before the edge
    is appended once. *)
Theorem label_after_edge_appended_twice :
  de_label <$> snd (parse_cells [root_cell; layer_cell; edge_cell; label_cell])
    = ["yes yes"] ∧
  de_label <$> snd (parse_cells [root_cell; layer_cell; label_cell; edge_cell])
    = ["yes"].
Proof. by vm_compute. Qed.

End EdgeLabels.

(** ** Node shapes in the Mermaid parser *)

Section NodeShapes.
Import MermaidParser.

(** C6 (the code departs from the claim): the patterns are tried in
    declaration order, and the rectangle and rounded patterns, which come
    first, also match inside the stadium, subroutine, cylinder, circle and
    parallelogram syntaxes; those five shapes are never produced. *)
Theorem bracket_shapes_shadowed (now : nat -> Z) (t : nat) :
  parseNodeFromPart now "A([Start])" nodePatterns t
    = (Some (MNode "A" "Start" rectangle), t) ∧
  parseNodeFromPart now "A((Go))" nodePatterns t
    = (Some (MNode "A" "(Go" rounded), t) ∧
  parseNodeFromPart now "A[[Sub]]" nodePatterns t
    = (Some (MNode "A" "[Sub" rectangle), t) ∧
  parseNodeFromPart now "A[(Db)]" nodePatterns t
    = (Some (MNode "A" "(Db)" rectangle), t) ∧
  parseNodeFromPart now "A[/In/]" nodePatterns t
    = (Some (MNode "A" "/In/" rectangle), t) ∧
  parseNodeFromPart now "A[Box]" nodePatterns t
    = (Some (MNode "A" "Box" rectangle), t) ∧
  parseNodeFromPart now "A(Soft)" nodePatterns t
    = (Some (MNode "A" "Soft" rounded), t) ∧
  parseNodeFromPart now "A{{Hex}}" nodePatterns t
    = (Some (MNode "A" "Hex" hexagon), t) ∧
  parseNodeFromPart now "A{Ask}" nodePatterns t
    = (Some (MNode "A" "Ask" diamond), t) ∧
  parseNodeFromPart now "A>Flag]" nodePatterns t
    = (Some (MNode "A" "Flag" asymmetric), t).
Proof. repeat split; by vm_compute. Qed.

End NodeShapes.

(** ** The edge scan of [parseFlowchartLine] *)

Section EdgeScan.
Import Regex MermaidParser.

Lemma lookup_snoc_inv {A} (l : list A) (x y : A) (j : nat) :
  (l ++ [x]) !! j = Some y ->
  ((j < List.length l)%nat ∧ l !! j = Some y) ∨ (j = List.length l ∧ y = x).
Proof.
  intros H. apply lookup_app_Some in H as [H|[Hle H]].
  - left. split; [by eapply lookup_lt_Some|done].
  - right. apply list_lookup_singleton_Some in H as [Hj ->]. split; [lia|done].
Qed.

Lemma scan_step_spec line ps p best :
  leftmost_first line ps best ->
  leftmost_first line (ps ++ [p]) (scan_step line best p).
Proof.
  intros IH. unfold scan_step.
  destruct (exec (ep_regex p) line) as [m|] eqn:Hm.
  - destruct best as [b|]; simpl in IH.
    + destruct IH as (i & p0 & m0 & Hi & Hm0 & -> & Hall). simpl.
      assert (Hilt : (i < List.length ps)%nat) by (by eapply lookup_lt_Some).
      destruct (Nat.ltb_spec (index m) (index m0)) as [Hlt|Hge].
      * exists (List.length ps), p, m. split_and!; [|done|done|].
        { by rewrite lookup_app_r, Nat.sub_diag by lia. }
        intros j q m' Hj Hq.
        apply lookup_snoc_inv in Hj as [[Hjl Hj]|[-> ->]].
        -- destruct (Hall _ _ _ Hj Hq) as [? _]. lia.
        -- rewrite Hm in Hq. injection Hq as <-. lia.
      * exists i, p0, m0. split_and!; [|done|done|].
        { by rewrite lookup_app_l. }
        intros j q m' Hj Hq.
        apply lookup_snoc_inv in Hj as [[Hjl Hj]|[-> ->]].
        -- by apply (Hall _ _ _ Hj Hq).
        -- rewrite Hm in Hq. injection Hq as <-. lia.
    + exists (List.length ps), p, m. split_and!; [|done|done|].
      { by rewrite lookup_app_r, Nat.sub_diag by lia. }
      intros j q m' Hj Hq.
      apply lookup_snoc_inv in Hj as [[Hjl Hj]|[-> ->]].
      * apply list_elem_of_lookup_2 in Hj. rewrite (IH _ Hj) in Hq. done.
      * rewrite Hm in Hq. injection Hq as <-. lia.
  - destruct best as [b|]; simpl in IH |- *.
    + destruct IH as (i & p0 & m0 & Hi & Hm0 & -> & Hall).
      assert (Hilt : (i < List.length ps)%nat) by (by eapply lookup_lt_Some).
      exists i, p0, m0. split_and!; [|done|done|].
      { by rewrite lookup_app_l. }
      intros j q m' Hj Hq.
      apply lookup_snoc_inv in Hj as [[Hjl Hj]|[-> ->]].
      * by apply (Hall _ _ _ Hj Hq).
      * congruence.
    + intros q Hq. apply elem_of_app in Hq as [Hq|Hq]; [by apply IH|].
      apply list_elem_of_singleton in Hq. by subst.
Qed.

Lemma scan_edges_spec (ps : list edge_pattern) (line : string) :
  leftmost_first line ps (scan_edges ps line).
Proof.
  unfold scan_edges. induction ps as [|p ps IH] using rev_ind.
  - simpl. intros p Hp. by apply elem_of_nil in Hp.
  - rewrite foldl_app. simpl. by apply scan_step_spec.
Qed.

(** C7: for every line, the scan over the eight edge patterns settles on
    the pattern whose match starts earliest, and among patterns whose
    matches start at the same place on the one declared first; it finds
    nothing only when no pattern matches.  On [A -->|yes| B] the labelled
    arrow wins over the plain arrow that matches at the same index, and the
    parser records the edge from [A] to [B] with the label [yes]. *)
Theorem edge_scan_leftmost_then_declared (line : string) :
  leftmost_first line edgePatterns (scan_edges edgePatterns line) ∧
  exec (Lit "-->") "A -->|yes| B" = Some (Found 2 "-->" []) ∧
  scan_edges edgePatterns "A -->|yes| B" = Some (EdgeHit arrow "yes" 2 8) ∧
  ∀ now t,
    parseFlowchartLine now 12 "A -->|yes| B" nodePatterns edgePatterns
                       (FState [] [] [] None) t
    = (Some (FState [MNode "A" "A" rectangle; MNode "B" "B" rectangle]
                    [MEdge "edge_0" "A" "B" "yes" arrow] [] None), t).
Proof.
  split; [apply scan_edges_spec|].
  split_and!; [by vm_compute..|].
  intros now t. by vm_compute.
Qed.

End EdgeScan.

(** ** Empty input *)

Section EmptyInput.
Import MermaidParser DrawioParser.

(** C8 (the claim as stated fails): [parseMermaidCode] returns a graph
    with zero nodes for an input that has a header line and nothing else. *)
Lemma header_only_parses_to_no_nodes :
  parseMermaidCode frozen_clock "flowchart TD" 0
  = (Some (Ok (MermaidGraph [] [] [] flowchart)), 0).
Proof. by vm_compute. Qed.

(** C8 (amended): [parseMermaidCode] throws for every input without a
    line that is neither blank nor a comment, and [convertMermaidToDrawio]
    passes that error on; [convertDrawioToMermaid] throws whenever the
    parsed document yields zero nodes; and neither converter returns a
    result for a graph with zero nodes. *)
Theorem empty_input_rejected (now : nat -> Z) (inflate : string -> option string)
    (code xml : string) (opts : options) (t : nat) :
  (content_lines code = [] ->
     parseMermaidCode now code t = (Some (Err emptyCodeError), t) ∧
     convertMermaidToDrawio now code t
     = (Some (Err (mermaidToDrawioPrefix +:+ emptyCodeError)), t)) ∧
  (∀ edges, parseDrawioXML inflate xml opts = Ok ([], edges) ->
     convertDrawioToMermaid inflate xml opts
     = Err (drawioToMermaidPrefix +:+ noDrawioNodesError)) ∧
  (∀ out, convertDrawioToMermaid inflate xml opts = Ok out ->
     ∃ n ns edges, parseDrawioXML inflate xml opts = Ok (n :: ns, edges)) ∧
  (∀ out t', convertMermaidToDrawio now code t = (Some (Ok out), t') ->
     ∃ g, parseMermaidCode now code t = (Some (Ok g), t') ∧ mg_nodes g <> []).
Proof.
  split_and!.
  - intros Hlines.
    assert (parseMermaidCode now code t = (Some (Err emptyCodeError), t)) as Hp.
    { unfold parseMermaidCode. by rewrite Hlines. }
    split; [done|]. unfold convertMermaidToDrawio, bind. by rewrite Hp.
  - intros edges Hp. unfold convertDrawioToMermaid. by rewrite Hp.
  - intros out. unfold convertDrawioToMermaid.
    destruct (parseDrawioXML inflate xml opts) as [[[|n ns] edges]|msg]; simpl; [done| |done].
    intros _. by exists n, ns, edges.
  - intros out t'. unfold convertMermaidToDrawio, bind.
    destruct (parseMermaidCode now code t) as [[[g|msg]|] t0]; simpl; [|done..].
    destruct (mg_nodes g) as [|n ns] eqn:Hn; simpl; [done|].
    intros H. injection H as _ <-. exists g. split; [done|]. by rewrite Hn.
Qed.

Lemma empty_input_rejected_witness :
  parseMermaidCode frozen_clock "" 0 = (Some (Err emptyCodeError), 0) ∧
  convertDrawioToMermaid no_inflate empty_page default_options
  = Err (drawioToMermaidPrefix +:+ noDrawioNodesError).
Proof.
  pose proof (empty_input_rejected frozen_clock no_inflate "" empty_page
                default_options 0) as (Hcode & Hxml & _).
  split.
  - apply Hcode. reflexivity.
  - apply (Hxml []). vm_compute. reflexivity.
Defined.

End EmptyInput.

(** ** The Mermaid parser and the clock *)

Section ClockReads.
Import Regex MermaidParser.

Lemma quiet_ret {A} (a : A) : quiet (fun _ => ret a).
Proof. intros now t. split; [done|]. by intros _ now' t'. Qed.

Lemma quiet_date_now : quiet date_now.
Proof. intros now t. simpl. split; [lia|]. intros H. lia. Qed.

Lemma quiet_bind {A B} (c : (nat -> Z) -> Clocked A)
    (f : (nat -> Z) -> A -> Clocked B) :
  quiet c -> (∀ a, quiet (fun now => f now a)) ->
  quiet (fun now => bind (c now) (f now)).
Proof.
  intros Hc Hf now t. unfold bind.
  destruct (Hc now t) as [Hle Hsame].
  destruct (c now t) as [a t1] eqn:Ec. simpl in *.
  destruct (Hf a now t1) as [Hle' Hsame'].
  destruct (f now a t1) as [b t2] eqn:Ef. simpl in *.
  split; [lia|]. intros ->.
  assert (t1 = t) as -> by lia.
  intros now' t'. rewrite (Hsame eq_refl now' t'). by apply Hsame'.
Qed.

Ltac quiet_step :=
  first
    [ apply quiet_ret
    | apply quiet_date_now
    | apply quiet_bind; [|intros ?]
    | match goal with
      | |- context [match ?x with _ => _ end] => destruct x
      end ].

Lemma quiet_parseNodeFromPart part nps :
  quiet (fun now => parseNodeFromPart now part nps).
Proof. unfold parseNodeFromPart. repeat quiet_step. Qed.

Lemma quiet_parseChainedTargets
    (self : (nat -> Z) -> string -> fstate -> Clocked (option fstate)) part nps eps st :
  (∀ part st, quiet (fun now => self now part st)) ->
  quiet (fun now => parseChainedTargets now (self now) part nps eps st).
Proof.
  intros Hself. unfold parseChainedTargets.
  destruct (existsb _ _).
  - apply quiet_bind; [apply Hself|]. intros [st'|]; [|apply quiet_ret].
    destruct (exec firstNodeRegex part); [|apply quiet_ret].
    apply quiet_bind; [apply quiet_parseNodeFromPart|]. intros ?. apply quiet_ret.
  - apply quiet_bind; [apply quiet_parseNodeFromPart|]. intros ?. apply quiet_ret.
Qed.

Lemma quiet_parseFlowchartLine fuel line nps eps st :
  quiet (fun now => parseFlowchartLine now fuel line nps eps st).
Proof.
  revert line st. induction fuel as [|fuel IH]; intros line st; simpl.
  - apply quiet_ret.
  - destruct (scan_edges eps line) as [hit|].
    + apply quiet_bind; [apply quiet_parseNodeFromPart|]. intros sourceNode.
      apply (quiet_bind
               (fun now => parseChainedTargets now
                  (fun part st => parseFlowchartLine now fuel part nps eps st) _ nps eps _)).
      * apply (quiet_parseChainedTargets
                 (fun now part st => parseFlowchartLine now fuel part nps eps st)).
        intros part st'. apply IH.
      * intros [[targetNodes st']|]; [|apply quiet_ret].
        destruct sourceNode, targetNodes; apply quiet_ret.
    + apply quiet_bind; [apply quiet_parseNodeFromPart|]. intros ?. apply quiet_ret.
Qed.

Lemma quiet_flowchart_loop lines st :
  quiet (fun now => flowchart_loop now lines st).
Proof.
  revert st. induction lines as [|l ls IH]; intros st; simpl; [apply quiet_ret|].
  apply quiet_bind.
  - unfold flowchart_step. repeat quiet_step. apply quiet_parseFlowchartLine.
  - intros [st'|]; [apply IH|apply quiet_ret].
Qed.



(** The clock is read for a node part only when the part has brackets and
    no identifier in front of them. *)
Lemma named_part_reads_no_clock (now : nat -> Z) (part : string)
    (ps : list node_pattern) (t : nat) :
  is_Some (exec idRegex part) -> snd (parseNodeFromPart now part ps t) = t.
Proof.
  intros [m Hm]. unfold parseNodeFromPart. rewrite Hm.
  destruct (negb _); [done|]. by destruct (first_pattern ps part) as [[m' sh]|].
Qed.

Lemma plain_part_reads_no_clock (now : nat -> Z) (part : string)
    (ps : list node_pattern) (t : nat) :
  first_pattern ps part = None -> snd (parseNodeFromPart now part ps t) = t.
Proof.
  intros Hp. unfold parseNodeFromPart. rewrite Hp.
  destruct (negb _); [done|]. by destruct (exec idRegex part).
Qed.



End ClockReads.

(** ** The round trip *)

Section RoundTrip.
Import MermaidParser DrawioParser.

(** A page that holds an [mxGraphModel] element is read from that element,
    whatever the payload decoder makes of the text around it. *)
Lemma page_xml_of_graph_model (inflate : string -> option string)
    (content : string) (pageIndex : nat) (diagram graphModel : Dom.node) :
  Js.includes content "<mxfile" = true ->
  Dom.doc_querySelector "parsererror" (Dom.parseFromString content) = None ->
  (let diagrams := Dom.querySelectorAll ["diagram"] (Dom.parseFromString content) in
   from_option Some (head diagrams) (diagrams !! pageIndex)) = Some diagram ->
  Dom.querySelector "mxGraphModel" diagram = Some graphModel ->
  is_Some (Dom.atob (Dom.textContent diagram)) ->
  page_xml inflate content pageIndex = Ok (Dom.serializeToString graphModel).
Proof.
  intros Hfile Herr Hdiagram Hmodel [decoded Hatob]. unfold page_xml.
  rewrite Hfile, Herr. simpl in *. rewrite Hdiagram, Hmodel.
  unfold decodeDrawioContent. rewrite Hatob. simpl.
  repeat match goal with |- context [if ?b then _ else _] => destruct b end;
    try done; by destruct (inflate decoded).
Qed.

Lemma parseDrawioXML_of_graph_model (inflate : string -> option string)
    (xml : string) (opts : options) (diagram graphModel : Dom.node) :
  Js.includes (Js.trim xml) "<mxfile" = true ->
  Dom.doc_querySelector "parsererror" (Dom.parseFromString (Js.trim xml)) = None ->
  (let diagrams := Dom.querySelectorAll ["diagram"] (Dom.parseFromString (Js.trim xml)) in
   from_option Some (head diagrams) (diagrams !! o_pageIndex opts)) = Some diagram ->
  Dom.querySelector "mxGraphModel" diagram = Some graphModel ->
  is_Some (Dom.atob (Dom.textContent diagram)) ->
  parseDrawioXML inflate xml opts = parse_graph_model (Dom.serializeToString graphModel).
Proof.
  intros. unfold parseDrawioXML.
  by erewrite page_xml_of_graph_model.
Qed.

(** C4: [flowchart TD / A[Start]-->B{Check}] converted to Draw.io XML and
    back gives a graph with the rectangle [A] labelled [Start], the diamond
    [B] labelled [Check] and the one edge from [A] to [B] without a label;
    the Mermaid text written for it declares exactly these, as reading it
    again shows.  This holds for every clock and every payload decoder. *)
Theorem roundtrip_structural (now : nat -> Z) (inflate : string -> option string)
    (t : nat) :
  ∃ xml a b e,
    convertMermaidToDrawio now roundtrip_input t = (Some (Ok xml), t) ∧
    parseDrawioXML inflate xml default_options = Ok ([a; b], [e]) ∧
    (dn_id a, dn_shape a, dn_label a) = (Some "A", rectangle, "Start") ∧
    (dn_id b, dn_shape b, dn_label b) = (Some "B", diamond, "Check") ∧
    (de_source e, de_target e, de_label e) = (Some "A", Some "B", "") ∧
    convertDrawioToMermaid inflate xml default_options = Ok roundtrip_output ∧
    parseMermaidCode now roundtrip_output t
    = (Some (Ok (MermaidGraph [MNode "A" "Start" rectangle; MNode "B" "Check" diamond]
                              [MEdge "edge_0" "A" "B" "" arrow] [] flowchart)), t).
Proof.
  eexists _, _, _, _. split; [by vm_compute|].
  assert (∀ xml nodes edges diagram graphModel,
            Js.includes (Js.trim xml) "<mxfile" = true ->
            Dom.doc_querySelector "parsererror" (Dom.parseFromString (Js.trim xml)) = None ->
            head (Dom.querySelectorAll ["diagram"] (Dom.parseFromString (Js.trim xml)))
              = Some diagram ->
            Dom.querySelector "mxGraphModel" diagram = Some graphModel ->
            Dom.atob (Dom.textContent diagram) = Some "" ->
            parse_graph_model (Dom.serializeToString graphModel) = Ok (nodes, edges) ->
            parseDrawioXML inflate xml default_options = Ok (nodes, edges) ∧
            convertDrawioToMermaid inflate xml default_options
              = serialize_graph nodes edges default_options) as Hback.
  { intros xml nodes edges diagram graphModel ? ? Hd ? ? Hp.
    assert (parseDrawioXML inflate xml default_options = Ok (nodes, edges)) as Hx.
    { rewrite <- Hp. eapply parseDrawioXML_of_graph_model; eauto.
      simpl. by destruct (Dom.querySelectorAll _ _). }
    split; [done|]. unfold convertDrawioToMermaid. by rewrite Hx. }
  match goal with
  | |- parseDrawioXML _ ?xml _ = _ ∧ _ =>
      edestruct (Hback xml) as [Hparse Hconv]; [by vm_compute..|]
  end.
  rewrite Hparse, Hconv. split_and!; by vm_compute.
Qed.

End RoundTrip.

(** ** The layout step *)

Section LayoutFacts.
Import Layout.

Implicit Types (nodes : list mnode) (edges : list medge) (ids cur : list string)
  (layers : list (list string)) (visited : gset string)
  (adj : gmap string (list string)).

Lemma elem_of_List_filter {A} (f : A -> bool) (l : list A) (x : A) :
  x ∈ List.filter f l ↔ f x = true ∧ x ∈ l.
Proof. rewrite !list_elem_of_In, filter_In. tauto. Qed.

Lemma List_filter_sublist {A} (f : A -> bool) (l : list A) : List.filter f l `sublist_of` l.
Proof.
  induction l as [|x l IH]; simpl; [constructor|].
  destruct (f x); by constructor.
Qed.

(** *** The adjacency list *)

Lemma init_maps_keys nodes id :
  is_Some ((init_maps nodes).1 !! id) -> id ∈ mn_id <$> nodes.
Proof.
  unfold init_maps. induction nodes as [|n nodes IH] using rev_ind; simpl.
  - rewrite lookup_empty. by intros [? ?].
  - rewrite foldl_app, fmap_app. simpl.
    destruct (foldl _ _ nodes) as [adjacency inDegree] eqn:E. simpl in *.
    destruct (decide (mn_id n = id)) as [->|Hne].
    + intros _. apply elem_of_app. right. by apply list_elem_of_singleton.
    + rewrite lookup_insert_ne by done. intros H. apply elem_of_app. left. by apply IH.
Qed.

Lemma init_maps_values nodes id out :
  (init_maps nodes).1 !! id = Some out -> out = [].
Proof.
  unfold init_maps. induction nodes as [|n nodes IH] using rev_ind; simpl.
  - by rewrite lookup_empty.
  - rewrite foldl_app. simpl.
    destruct (foldl _ _ nodes) as [adjacency inDegree] eqn:E. simpl in *.
    destruct (decide (mn_id n = id)) as [->|Hne].
    + rewrite lookup_insert_eq. by intros [= <-].
    + by rewrite lookup_insert_ne.
Qed.

Lemma add_edge_ok ids acc e : adj_ok ids acc.1 -> adj_ok ids (add_edge acc e).1.
Proof.
  destruct acc as [adj inDegree]. unfold add_edge. simpl. intros [Hkeys Hnbs].
  destruct (adj !! me_source e) as [out|] eqn:Hs; [|done].
  destruct (adj !! me_target e) as [out'|] eqn:Ht; [|done].
  simpl. split.
  - intros id [x Hx]. apply Hkeys.
    destruct (decide (me_source e = id)) as [<-|Hne]; [eauto|].
    rewrite lookup_insert_ne in Hx by done. eauto.
  - intros id out0 nb Hid Hnb.
    assert (is_Some (adj !! nb)) as [x Hx].
    { destruct (decide (me_source e = id)) as [<-|Hne].
      - rewrite lookup_insert_eq in Hid. injection Hid as <-.
        apply elem_of_app in Hnb as [Hnb|Hnb]; [exact (Hnbs _ _ _ Hs Hnb)|].
        apply list_elem_of_singleton in Hnb as ->. eauto.
      - rewrite lookup_insert_ne in Hid by done. exact (Hnbs _ _ _ Hid Hnb). }
    destruct (decide (me_source e = nb)) as [<-|Hne].
    + rewrite lookup_insert_eq. eauto.
    + rewrite lookup_insert_ne by done. eauto.
Qed.

Lemma build_maps_ok nodes edges :
  adj_ok (mn_id <$> nodes) (build_maps nodes edges).1.
Proof.
  unfold build_maps. induction edges as [|e edges IH] using rev_ind; simpl.
  - split; [apply init_maps_keys|].
    intros id out nb Hid Hnb. apply init_maps_values in Hid as ->.
    by apply elem_of_nil in Hnb.
  - rewrite foldl_app. simpl. by apply add_edge_ok.
Qed.

(** *** The layers *)

Lemma set_add_elem id x l : x ∈ set_add id l ↔ x = id ∨ x ∈ l.
Proof.
  unfold set_add. case_bool_decide as H.
  - split; [by right|]. by intros [->|?].
  - rewrite elem_of_app, list_elem_of_singleton. tauto.
Qed.

Lemma set_add_NoDup id l : NoDup l -> NoDup (set_add id l).
Proof.
  unfold set_add. case_bool_decide as H; [done|]. intros Hl.
  apply NoDup_app. split_and!; [done| |apply NoDup_singleton].
  intros x Hx Hx'. apply list_elem_of_singleton in Hx' as ->. done.
Qed.

(** The next layer has no repetition and holds exactly the neighbours of
    the current layer that were not visited. *)
Lemma next_layer_spec adj visited cur :
  NoDup (next_layer adj visited cur) ∧
  ∀ x, x ∈ next_layer adj visited cur ↔
       (x ∉ visited) ∧ ∃ id out, id ∈ cur ∧ adj !! id = Some out ∧ x ∈ out.
Proof.
  unfold next_layer. induction cur as [|id cur IH] using rev_ind.
  - simpl. split; [constructor|]. intros x. split.
    + intros Hx. by apply elem_of_nil in Hx.
    + intros (_ & id & out & Hid & _). by apply elem_of_nil in Hid.
  - rewrite foldl_app. simpl. destruct IH as [IHnd IHel].
    set (acc := foldl _ [] cur) in *. clearbody acc.
    assert (∀ out acc0,
              NoDup acc0 ->
              NoDup (foldl (λ nextLayer neighbor,
                        if bool_decide (neighbor ∈ visited) then nextLayer
                        else set_add neighbor nextLayer) acc0 out) ∧
              ∀ x, x ∈ foldl (λ nextLayer neighbor,
                        if bool_decide (neighbor ∈ visited) then nextLayer
                        else set_add neighbor nextLayer) acc0 out
                   ↔ x ∈ acc0 ∨ ((x ∉ visited) ∧ x ∈ out)) as Hinner.
    { clear. intros out. induction out as [|nb out IH] using rev_ind; intros acc0 Hnd.
      - simpl. split; [done|]. intros x. split; [by left|].
        intros [?|[_ H]]; [done|]. by apply elem_of_nil in H.
      - rewrite foldl_app. simpl. destruct (IH acc0 Hnd) as [IHnd IHel].
        case_bool_decide as Hv.
        + split; [done|]. intros x. rewrite IHel, elem_of_app, list_elem_of_singleton.
          split; [tauto|]. intros [?|[Hx [?| ->]]]; tauto.
        + split; [by apply set_add_NoDup|]. intros x.
          rewrite set_add_elem, IHel, elem_of_app, list_elem_of_singleton.
          split; [|tauto]. intros [->|[?|[? ?]]]; tauto. }
    destruct (Hinner (default [] (adj !! id)) acc IHnd) as [Hnd Hel].
    split; [done|]. intros x. rewrite Hel, IHel. split.
    + intros [(Hx & id' & out & Hid' & Hout & Hxo)|[Hx Hxo]].
      * split; [done|]. exists id', out. split_and!; [|done..].
        apply elem_of_app. by left.
      * split; [done|]. destruct (adj !! id) as [out|] eqn:Hout; simpl in Hxo.
        -- exists id, out. split_and!; [|done..]. apply elem_of_app. right.
           by apply list_elem_of_singleton.
        -- by apply elem_of_nil in Hxo.
    + intros (Hx & id' & out & Hid' & Hout & Hxo).
      apply elem_of_app in Hid' as [Hid'|Hid'].
      * left. split; [done|]. by exists id', out.
      * apply list_elem_of_singleton in Hid' as ->. right. split; [done|].
        by rewrite Hout.
Qed.

Lemma bfs_inv_step ids adj layers cur visited :
  adj_ok ids adj -> bfs_inv ids layers cur visited ->
  bfs_inv ids (layers ++ [cur])
          (next_layer adj (visited ∪ list_to_set cur) cur)
          (visited ∪ list_to_set cur).
Proof.
  intros [Hkeys Hnbs] [Hnd Hids Hvis]. simpl.
  destruct (next_layer_spec adj (visited ∪ list_to_set cur) cur) as [Hnnd Hnel].
  assert (∀ x, x ∈ visited ∪ list_to_set (C:=gset string) cur ↔ x ∈ List.concat (layers ++ [cur]))
    as Hvis'.
  { intros x. rewrite List.concat_app, elem_of_union, elem_of_list_to_set, Hvis, elem_of_app.
    simpl. by rewrite app_nil_r. }
  split.
  - apply NoDup_app. split_and!; [|intros x Hx Hx'|done].
    + rewrite List.concat_app. simpl. by rewrite app_nil_r.
    + apply Hnel in Hx' as [Hx' _]. by apply Hx', Hvis'.
  - intros x Hx. apply elem_of_app in Hx as [Hx|Hx].
    + apply Hids. rewrite List.concat_app in Hx. simpl in Hx. by rewrite app_nil_r in Hx.
    + apply Hnel in Hx as (_ & id & out & _ & Hout & Hx).
      apply Hkeys. exact (Hnbs _ _ _ Hout Hx).
  - done.
Qed.

Lemma first_layer_inv nodes inDegree :
  NoDup (mn_id <$> nodes) ->
  bfs_inv (mn_id <$> nodes) [] (first_layer nodes inDegree) ∅.
Proof.
  intros Hnd.
  assert (NoDup (first_layer nodes inDegree) ∧
          ∀ x, x ∈ first_layer nodes inDegree -> x ∈ mn_id <$> nodes) as [H1 H2].
  { unfold first_layer.
    set (roots := mn_id <$> List.filter _ nodes).
    assert (roots `sublist_of` mn_id <$> nodes) as Hsub
      by apply fmap_sublist, List_filter_sublist.
    assert (NoDup roots ∧ ∀ x, x ∈ roots -> x ∈ mn_id <$> nodes) as Hroots.
    { split; [by eapply sublist_NoDup|]. intros x Hx. by eapply elem_of_sublist. }
    destruct roots as [|r rs]; [|done].
    destruct nodes as [|n nodes]; [done|].
    split; [apply NoDup_singleton|]. intros x Hx.
    apply list_elem_of_singleton in Hx as ->. simpl. apply list_elem_of_here. }
  split; simpl; [done|done|]. intros x. rewrite elem_of_empty.
  split; [done|]. intros Hx. by apply elem_of_nil in Hx.
Qed.

(** The loop ends before its fuel does: every turn moves at least one node
    id, never seen before, into the layers. *)
Lemma bfs_result ids adj :
  adj_ok ids adj -> NoDup ids ->
  ∀ fuel layers cur visited,
    bfs_inv ids layers cur visited ->
    (List.length ids <= fuel + List.length (List.concat layers))%nat ->
    ∃ layers' visited',
      bfs fuel adj cur layers visited = Some (layers', visited') ∧
      bfs_inv ids layers' [] visited'.
Proof.
  intros Hadj Hids fuel. induction fuel as [|fuel IH]; intros layers cur visited Hinv Hlen.
  - destruct cur as [|c cur]; simpl; [by exists layers, visited|].
    destruct Hinv as [Hnd Hsub _].
    pose proof (submseteq_length _ _ (NoDup_submseteq _ _ Hnd Hsub)) as Hle.
    rewrite length_app in Hle. simpl in Hle. lia.
  - destruct cur as [|c cur]; [by exists layers, visited|].
    cbn [bfs]. apply IH; [by apply bfs_inv_step|].
    rewrite List.concat_app, length_app. simpl. rewrite app_nil_r. simpl. lia.
Qed.

Lemma concat_alter_last {A} (ls : list (list A)) (x : A) :
  ls <> [] ->
  List.concat (alter (fun l => l ++ [x]) (List.length ls - 1) ls) = List.concat ls ++ [x].
Proof.
  destruct ls as [|l ls _] using rev_ind; [done|]. intros _.
  rewrite length_app. simpl.
  replace (List.length ls + 1 - 1)%nat with (List.length ls + 0)%nat by lia.
  rewrite alter_app_r. simpl. rewrite !List.concat_app. simpl.
  by rewrite !app_nil_r, app_assoc.
Qed.

Lemma add_remaining_concat nodes :
  ∀ layers visited,
    List.concat (foldl add_remaining (layers, visited) nodes).1
    = List.concat layers
      ++ List.filter (fun id => negb (bool_decide (id ∈ visited))) (mn_id <$> nodes).
Proof.
  induction nodes as [|n nodes IH]; intros layers visited; simpl.
  - by rewrite app_nil_r.
  - case_bool_decide as Hv; simpl; [apply IH|].
    rewrite IH. destruct layers as [|l ls].
    + simpl. done.
    + rewrite concat_alter_last by done. by rewrite <- app_assoc.
Qed.

(** Every node is in the layers, and no id is there twice. *)
Lemma layers_of_partition nodes edges :
  NoDup (mn_id <$> nodes) ->
  ∃ layers,
    layers_of nodes edges = Some layers ∧
    NoDup (List.concat layers) ∧
    ∀ n, n ∈ nodes -> mn_id n ∈ List.concat layers.
Proof.
  intros Hnd. unfold layers_of.
  pose proof (build_maps_ok nodes edges) as Hadj.
  destruct (build_maps nodes edges) as [adjacency inDegree]. simpl in Hadj.
  destruct (bfs_result _ _ Hadj Hnd (List.length nodes) [] (first_layer nodes inDegree) ∅)
    as (layers & visited & -> & [Hlnd _ Hvis]).
  { by apply first_layer_inv. }
  { rewrite length_fmap. simpl. lia. }
  simpl. eexists. split; [done|]. rewrite add_remaining_concat.
  rewrite app_nil_r in Hlnd. split.
  - apply NoDup_app. split_and!; [done| |].
    + intros x Hx Hx'. apply elem_of_List_filter in Hx' as [Hx' _].
      apply negb_true_iff, bool_decide_eq_false in Hx'. by apply Hx', Hvis.
    + apply (sublist_NoDup _ _ Hnd), List_filter_sublist.
  - intros n Hn. apply elem_of_app.
    destruct (decide (mn_id n ∈ visited)) as [Hv|Hv]; [left; by apply Hvis|].
    right. apply elem_of_List_filter. split.
    + by apply negb_true_iff, bool_decide_eq_false.
    + by apply list_elem_of_fmap_2.
Qed.

(** *** The positions *)

Lemma place_layer_other (positionMap : gmap string (Z * Z)) layerIndex layer id :
  id ∉ layer -> place_layer positionMap layerIndex layer !! id = positionMap !! id.
Proof.
  unfold place_layer.
  set (off := ((- _) / 2 + _)%Z). clearbody off.
  induction layer as [|a layer IH] using rev_ind; intros Hid; [done|].
  rewrite imap_app, foldl_app. simpl.
  rewrite lookup_insert_ne; [apply IH|]; set_solver.
Qed.

Lemma place_layer_lookup (positionMap : gmap string (Z * Z)) layerIndex layer ni id :
  NoDup layer -> layer !! ni = Some id ->
  place_layer positionMap layerIndex layer !! id
  = Some (layer_x (List.length layer) ni, layer_y layerIndex).
Proof.
  unfold place_layer, layer_x, layer_y, startX, startY, horizontalSpacing, verticalSpacing.
  replace (- (Z.of_nat (List.length layer) * 180) / 2 + 180 / 2)%Z
    with (90 - 90 * Z.of_nat (List.length layer))%Z by (Z.div_mod_to_equations; lia).
  set (off := (90 - _)%Z).
  replace (440 - 90 * Z.of_nat (List.length layer) + 180 * Z.of_nat ni)%Z
    with (50 + 300 + off + Z.of_nat ni * 180)%Z by (unfold off; lia).
  clearbody off. revert ni.
  induction layer as [|a layer IH] using rev_ind; intros ni Hnd Hni; [done|].
  rewrite imap_app, foldl_app. simpl.
  apply NoDup_app in Hnd as (Hnd & Hdisj & _).
  apply lookup_snoc_inv in Hni as [[Hlt Hni]|[-> ->]].
  - rewrite lookup_insert_ne; [by apply IH|].
    intros ->. apply (Hdisj id); [by eapply list_elem_of_lookup_2|].
    by apply list_elem_of_singleton.
  - rewrite Nat.add_0_r, lookup_insert_eq. do 2 f_equal. lia.
Qed.

Lemma positions_of_lookup layers li layer ni id :
  NoDup (List.concat layers) -> layers !! li = Some layer -> layer !! ni = Some id ->
  positions_of layers !! id = Some (layer_x (List.length layer) ni, layer_y li).
Proof.
  unfold positions_of. revert li.
  induction layers as [|last layers IH] using rev_ind; intros li Hnd Hli Hni; [done|].
  rewrite imap_app, foldl_app. simpl.
  rewrite List.concat_app in Hnd. simpl in Hnd. rewrite app_nil_r in Hnd.
  apply NoDup_app in Hnd as (Hnd & Hdisj & Hlast).
  apply lookup_snoc_inv in Hli as [[Hlt Hli]|[-> ->]].
  - rewrite place_layer_other; [by eapply IH|].
    apply Hdisj, list_elem_of_In, in_concat. exists layer.
    split; apply list_elem_of_In; by eapply list_elem_of_lookup_2.
  - rewrite Nat.add_0_r. by apply place_layer_lookup.
Qed.

Lemma layer_index_unique layers i j l1 l2 (x : string) :
  NoDup (List.concat layers) ->
  layers !! i = Some l1 -> layers !! j = Some l2 -> x ∈ l1 -> x ∈ l2 -> i = j.
Proof.
  revert i j. induction layers as [|l layers IH]; intros i j Hnd Hi Hj H1 H2; [done|].
  simpl in Hnd. apply NoDup_app in Hnd as (_ & Hdisj & Hnd).
  assert (∀ k l', layers !! k = Some l' -> x ∈ l' -> x ∈ List.concat layers) as Hin.
  { intros k l' Hk Hx. apply list_elem_of_In, in_concat. exists l'.
    split; apply list_elem_of_In; [by eapply list_elem_of_lookup_2|done]. }
  destruct i as [|i], j as [|j]; simpl in *; [done| | |f_equal; by eapply IH].
  - injection Hi as <-. destruct (Hdisj x H1). by eapply Hin.
  - injection Hj as <-. destruct (Hdisj x H2). by eapply Hin.
Qed.

Lemma NoDup_fmap_eq {A B} (f : A -> B) (l : list A) (x y : A) :
  NoDup (f <$> l) -> x ∈ l -> y ∈ l -> f x = f y -> x = y.
Proof.
  intros Hnd Hx Hy Hf.
  apply list_elem_of_lookup in Hx as [i Hi]. apply list_elem_of_lookup in Hy as [j Hj].
  assert (i = j) as ->.
  { eapply (NoDup_lookup _ _ _ (f x) Hnd); rewrite list_lookup_fmap.
    - by rewrite Hi.
    - by rewrite Hj, Hf. }
  congruence.
Qed.

(** C2 (amended): for every graph whose node ids are distinct, the layout
    step returns; it places every node in exactly one layer, gives it width
    120 and height 60, a strictly positive [y] shared by the nodes of its
    layer, and an [x] that no other node of the layer has; [x] is strictly
    positive for every node of a layer of at most four nodes. *)
Theorem layout_geometry (nodes : list mnode) (edges : list medge) :
  NoDup (mn_id <$> nodes) ->
  ∃ layers positioned,
    layers_of nodes edges = Some layers ∧
    calculateNodePositions nodes edges = Some positioned ∧
    pn_node <$> positioned = nodes ∧
    NoDup (List.concat layers) ∧
    (∀ p, p ∈ positioned ->
       pn_width p = 120%Z ∧ pn_height p = 60%Z ∧ (0 < pn_y p)%Z ∧
       ∃ li layer ni,
         layers !! li = Some layer ∧ layer !! ni = Some (mn_id (pn_node p)) ∧
         pn_x p = layer_x (List.length layer) ni ∧ pn_y p = layer_y li) ∧
    (∀ p q layer,
       p ∈ positioned -> q ∈ positioned -> layer ∈ layers ->
       mn_id (pn_node p) ∈ layer -> mn_id (pn_node q) ∈ layer ->
       pn_y p = pn_y q ∧ (p <> q -> pn_x p <> pn_x q) ∧
       ((List.length layer <= 4)%nat -> (0 < pn_x p)%Z)).
Proof.
  intros Hids.
  destruct (layers_of_partition nodes edges Hids) as (layers & Hlayers & Hnd & Hall).
  exists layers, (position_node (positions_of layers) <$> nodes).
  assert (∀ p, p ∈ position_node (positions_of layers) <$> nodes ->
            p = position_node (positions_of layers) (pn_node p) ∧ pn_node p ∈ nodes ∧
            ∃ li layer ni,
              layers !! li = Some layer ∧ layer !! ni = Some (mn_id (pn_node p)) ∧
              pn_x p = layer_x (List.length layer) ni ∧ pn_y p = layer_y li) as Hpos.
  { intros p Hp. apply list_elem_of_fmap in Hp as (n & -> & Hn). simpl.
    split_and!; [done..|].
    pose proof (Hall n Hn) as Hin. apply list_elem_of_In, in_concat in Hin as (layer & Hl & Hin).
    apply list_elem_of_In, list_elem_of_lookup in Hl as [li Hli].
    apply list_elem_of_In, list_elem_of_lookup in Hin as [ni Hni].
    exists li, layer, ni. split_and!; [done..| |].
    - rewrite (positions_of_lookup _ _ _ _ _ Hnd Hli Hni). simpl.
      unfold DrawioWriter.nonzero_or, layer_x.
      destruct (Z.eqb_spec (440 - 90 * Z.of_nat (List.length layer) + 180 * Z.of_nat ni) 0);
        [lia|done].
    - rewrite (positions_of_lookup _ _ _ _ _ Hnd Hli Hni). simpl.
      unfold DrawioWriter.nonzero_or, layer_y.
      destruct (Z.eqb_spec (50 + 120 * Z.of_nat li) 0); [lia|done]. }
  split_and!.
  - done.
  - unfold calculateNodePositions. by rewrite Hlayers.
  - rewrite <- list_fmap_compose. by rewrite list_fmap_id.
  - done.
  - intros p Hp. destruct (Hpos p Hp) as (Hp' & _ & li & layer & ni & Hli & Hni & Hx & Hy).
    split_and!; [by rewrite Hp'..| |by exists li, layer, ni].
    rewrite Hy. unfold layer_y. lia.
  - intros p q layer Hp Hq Hlayer Hpl Hql.
    destruct (Hpos p Hp) as (Hp' & Hpn & li & lp & ni & Hli & Hni & Hx & Hy).
    destruct (Hpos q Hq) as (Hq' & Hqn & lj & lq & nj & Hlj & Hnj & Hx' & Hy').
    apply list_elem_of_lookup in Hlayer as [lk Hlk].
    assert (li = lk) as ->.
    { apply (layer_index_unique layers li lk lp layer (mn_id (pn_node p)) Hnd Hli Hlk);
        [by eapply list_elem_of_lookup_2|done]. }
    assert (lj = lk) as ->.
    { apply (layer_index_unique layers lj lk lq layer (mn_id (pn_node q)) Hnd Hlj Hlk);
        [by eapply list_elem_of_lookup_2|done]. }
    assert (lp = layer) as -> by congruence. assert (lq = layer) as -> by congruence.
    split_and!.
    + congruence.
    + intros Hne Hxe. apply Hne. rewrite Hp', Hq'. f_equal.
      apply (NoDup_fmap_eq mn_id nodes); [done..|].
      assert (ni = nj) as -> by (unfold layer_x in *; lia). congruence.
    + intros Hsize. rewrite Hx. unfold layer_x. lia.
Qed.

Lemma layout_geometry_witness :
  NoDup (mn_id <$> five_nodes) ∧
  ∃ layers positioned,
    layers_of five_nodes [] = Some layers ∧
    calculateNodePositions five_nodes [] = Some positioned ∧
    pn_node <$> positioned = five_nodes ∧
    NoDup (List.concat layers).
Proof.
  assert (NoDup (mn_id <$> five_nodes)) as Hids.
  { apply (bool_decide_unpack _). vm_compute. exact I. }
  split; [exact Hids|].
  destruct (layout_geometry five_nodes [] Hids)
    as (layers & positioned & H1 & H2 & H3 & H4 & _).
  by exists layers, positioned.
Defined.

(** C2 (the claim as stated fails): five nodes without edges form one
    layer, and the first of them is placed at [x = -10]. *)
Lemma wide_layer_negative_x :
  layers_of five_nodes [] = Some [["a"; "b"; "c"; "d"; "e"]] ∧
  (fun p => (mn_id (pn_node p), pn_x p)) <$> default [] (calculateNodePositions five_nodes [])
  = [("a", -10); ("b", 170); ("c", 350); ("d", 530); ("e", 710)]%Z.
Proof. by vm_compute. Qed.

End LayoutFacts.

(** ** Group merging in [parseDrawioXML] *)

Section GroupMerging.
Import DrawioParser.

Implicit Types (doc : list cell) (gc : list (string * list cell)) (st : pstate)
  (m : gmap string cell) (c : cell).

(** *** First pass *)







(** *** Second pass *)




(** *** Third and fourth pass *)





(** *** The group [Foo] *)










(** On the sample documents the whole result is the one group node, in
    either order. *)
Lemma sample_orders_agree :
  parse_cells children_first = parse_cells parent_first ∧
  (parse_cells parent_first).1 = [foo_node "g" sample_group].
Proof. by vm_compute. Qed.

End GroupMerging.

(** ** The node ids of a parsed graph *)

Section DistinctIds.
Import Regex MermaidParser.

Lemma register_ids n st :
  NoDup (mn_id <$> fs_nodes st) -> NoDup (mn_id <$> fs_nodes (register n st)).
Proof.
  unfold register, has_node. case_bool_decide as Hin; [done|]. intros Hnd.
  replace (fs_nodes (push_to_current _ _)) with (fs_nodes st ++ [n]).
  - rewrite fmap_app. apply NoDup_app. split_and!; [done| |apply NoDup_singleton].
    intros x Hx Hx'. apply list_elem_of_singleton in Hx'. by subst.
  - unfold push_to_current. simpl. by destruct (fs_current st).
Qed.

Lemma register_opt_ids n st :
  NoDup (mn_id <$> fs_nodes st) -> NoDup (mn_id <$> fs_nodes (register_opt n st)).
Proof. destruct n; [apply register_ids|done]. Qed.

Lemma parseFlowchartLine_ids now fuel :
  ∀ line nps eps st t st' t',
    NoDup (mn_id <$> fs_nodes st) ->
    parseFlowchartLine now fuel line nps eps st t = (Some st', t') ->
    NoDup (mn_id <$> fs_nodes st').
Proof.
  induction fuel as [|fuel IH]; intros line nps eps st t st' t' Hnd; simpl; [done|].
  destruct (scan_edges eps line) as [hit|]; unfold bind, ret.
  - destruct (parseNodeFromPart now _ nps t) as [sourceNode t1].
    apply (register_opt_ids sourceNode) in Hnd.
    unfold parseChainedTargets, bind, ret. destruct (existsb _ _).
    + destruct (parseFlowchartLine now fuel _ nps eps _ t1) as [[st1|] t2] eqn:Hrec;
        [|done].
      apply IH in Hrec; [|done].
      destruct (exec firstNodeRegex _).
      * destruct (parseNodeFromPart now _ nps t2) as [n t3].
        destruct sourceNode, (option_list n); by intros [= <- <-].
      * destruct sourceNode; by intros [= <- <-].
    + destruct (parseNodeFromPart now _ nps t1) as [n t2].
      apply (register_opt_ids n) in Hnd.
      destruct sourceNode, (option_list n); by intros [= <- <-].
  - destruct (parseNodeFromPart now line nps t) as [n t1]. intros [= <- <-].
    by apply register_opt_ids.
Qed.

Lemma flowchart_loop_ids now lines :
  ∀ st t st' t',
    NoDup (mn_id <$> fs_nodes st) ->
    flowchart_loop now lines st t = (Some st', t') ->
    NoDup (mn_id <$> fs_nodes st').
Proof.
  induction lines as [|l lines IH]; intros st t st' t' Hnd; simpl.
  - by intros [= <- <-].
  - unfold bind. destruct (flowchart_step now l st t) as [[st1|] t1] eqn:Hstep; [|done].
    apply IH. unfold flowchart_step, ret in Hstep.
    destruct (test directionRegex l); [by injection Hstep as <- <-|].
    destruct (Js.startsWith l "subgraph").
    { destruct (exec subgraphRegex l); by injection Hstep as <- <-. }
    destruct (String.eqb l "end"); [by injection Hstep as <- <-|].
    by eapply parseFlowchartLine_ids.
Qed.

Lemma declare_ids id label sh st :
  (NoDup (mn_id <$> ss_nodes st) ∧ ∀ x, x ∈ ss_seen st ↔ x ∈ mn_id <$> ss_nodes st) ->
  NoDup (mn_id <$> ss_nodes (declare id label sh st)) ∧
  ∀ x, x ∈ ss_seen (declare id label sh st) ↔ x ∈ mn_id <$> ss_nodes (declare id label sh st).
Proof.
  intros [Hnd Hseen]. unfold declare. case_bool_decide as Hin; [done|]. simpl. split.
  - rewrite fmap_app. apply NoDup_app. split_and!; [done| |apply NoDup_singleton].
    intros x Hx Hx'. apply list_elem_of_singleton in Hx'. simpl in Hx'. subst.
    by apply Hin, Hseen.
  - intros x. rewrite elem_of_union, elem_of_singleton, fmap_app, elem_of_app, Hseen. simpl.
    rewrite list_elem_of_singleton. tauto.
Qed.

Lemma connect_ids source target label st :
  (NoDup (mn_id <$> ss_nodes st) ∧ ∀ x, x ∈ ss_seen st ↔ x ∈ mn_id <$> ss_nodes st) ->
  NoDup (mn_id <$> ss_nodes (connect source target label st)) ∧
  ∀ x, x ∈ ss_seen (connect source target label st)
       ↔ x ∈ mn_id <$> ss_nodes (connect source target label st).
Proof. intros H. unfold connect. simpl. by do 2 apply declare_ids. Qed.

Lemma steps_ids (step : sstate -> string -> sstate) (lines : list string) :
  (∀ st l,
     (NoDup (mn_id <$> ss_nodes st) ∧ ∀ x, x ∈ ss_seen st ↔ x ∈ mn_id <$> ss_nodes st) ->
     NoDup (mn_id <$> ss_nodes (step st l)) ∧
     ∀ x, x ∈ ss_seen (step st l) ↔ x ∈ mn_id <$> ss_nodes (step st l)) ->
  NoDup (mn_id <$> ss_nodes (foldl step (SState [] [] ∅) lines)).
Proof.
  intros Hstep.
  enough (NoDup (mn_id <$> ss_nodes (foldl step (SState [] [] ∅) lines)) ∧
          ∀ x, x ∈ ss_seen (foldl step (SState [] [] ∅) lines)
               ↔ x ∈ mn_id <$> ss_nodes (foldl step (SState [] [] ∅) lines)) by tauto.
  induction lines as [|l lines IH] using rev_ind.
  - simpl. split; [constructor|]. intros x. by rewrite elem_of_empty, elem_of_nil.
  - rewrite foldl_app. simpl. by apply Hstep.
Qed.

(** Every graph [parseMermaidCode] returns has distinct node ids. *)
Lemma parse_ids_distinct now code t g t' :
  parseMermaidCode now code t = (Some (Ok g), t') -> NoDup (mn_id <$> mg_nodes g).
Proof.
  unfold parseMermaidCode. destruct (content_lines code) as [|first rest]; [done|].
  assert (∀ dt,
            bind (parseFlowchart now (first :: rest))
              (fun r => ret ((fun '(nodes, edges, subgraphs) =>
                 Ok (MermaidGraph nodes edges subgraphs dt)) <$> r)) t
            = (Some (Ok g), t') -> NoDup (mn_id <$> mg_nodes g)) as Hflow.
  { intros dt. unfold parseFlowchart, bind, ret. simpl.
    destruct (flowchart_loop now rest _ t) as [[st|] t1] eqn:Hloop; simpl; [|done].
    intros [= <- <-]. simpl. eapply flowchart_loop_ids; [|done]. constructor. }
  assert (∀ dt, ret (Some ((fun '(nodes, edges, subgraphs) =>
                 Ok (MermaidGraph nodes edges subgraphs dt)) (parseSequenceDiagram (first :: rest)))) t
            = (Some (Ok g), t') -> NoDup (mn_id <$> mg_nodes g)) as Hseq.
  { intros dt. unfold ret, parseSequenceDiagram. intros [= <- <-]. simpl.
    apply steps_ids. intros st l H. unfold sequence_step.
    repeat case_match; first [by apply declare_ids | by apply connect_ids | done]. }
  assert (∀ dt, ret (Some ((fun '(nodes, edges, subgraphs) =>
                 Ok (MermaidGraph nodes edges subgraphs dt)) (parseClassDiagram (first :: rest)))) t
            = (Some (Ok g), t') -> NoDup (mn_id <$> mg_nodes g)) as Hcls.
  { intros dt. unfold ret, parseClassDiagram. intros [= <- <-]. simpl.
    apply steps_ids. intros st l H. unfold class_step.
    repeat case_match; first [by apply declare_ids | by apply connect_ids | done]. }
  destruct (detect_type (Js.toLowerCase first)); eauto.
Qed.

End DistinctIds.

(** ** The flowchart parser returns *)

Section FlowchartReturns.
Import Regex MermaidParser.

Lemma trimStart_length s : (String.length (Js.trimStart s) <= String.length s)%nat.
Proof. induction s as [|c s IH]; simpl; [done|]. destruct (Js.is_space c); simpl; lia. Qed.

Lemma trimEnd_length s : (String.length (Js.trimEnd s) <= String.length s)%nat.
Proof.
  induction s as [|c s IH]; simpl; [done|].
  destruct (Js.trimEnd s); [destruct (Js.is_space c)|]; simpl in *; lia.
Qed.

Lemma trim_length s : (String.length (Js.trim s) <= String.length s)%nat.
Proof.
  unfold Js.trim. pose proof (trimEnd_length (Js.trimStart s)).
  pose proof (trimStart_length s). lia.
Qed.

(** What follows the edge the scan settled on is shorter than the line. *)
Lemma target_part_shorter (eps : list edge_pattern) (line : string) (hit : edge_hit) :
  Forall (fun p => 1 <= min_length (ep_regex p))%nat eps ->
  scan_edges eps line = Some hit ->
  (String.length (Js.trim (Js.substring_from (eh_index hit + eh_length hit) line))
   < String.length line)%nat.
Proof.
  intros Hmin Hscan. pose proof (scan_edges_spec eps line) as Hspec.
  rewrite Hscan in Hspec. destruct Hspec as (i & p & m & Hi & Hm & -> & _).
  apply search_bounds in Hm as [Hend Hlen]. simpl in *.
  assert (1 <= min_length (ep_regex p))%nat.
  { eapply (proj1 (Forall_forall _ _) Hmin). by eapply list_elem_of_lookup_2. }
  pose proof (trim_length (Js.substring_from (index m + String.length (matched m)) line)).
  unfold Js.substring_from in *.
  destruct (substring_length_le (index m + String.length (matched m))
              (String.length line - (index m + String.length (matched m))) line).
  lia.
Qed.

Lemma parseFlowchartLine_returns now nps eps :
  Forall (fun p => 1 <= min_length (ep_regex p))%nat eps ->
  ∀ fuel line st t,
    (String.length line < fuel)%nat ->
    is_Some (parseFlowchartLine now fuel line nps eps st t).1.
Proof.
  intros Hmin fuel. induction fuel as [|fuel IH]; intros line st t Hfuel; [lia|]. simpl.
  destruct (scan_edges eps line) as [hit|] eqn:Hscan; unfold bind, ret.
  - destruct (parseNodeFromPart now _ nps t) as [sourceNode t1].
    unfold parseChainedTargets, bind, ret. destruct (existsb _ _).
    + pose proof (target_part_shorter eps line hit Hmin Hscan) as Hshort.
      destruct (IH (Js.trim (Js.substring_from (eh_index hit + eh_length hit) line))
                   (register_opt sourceNode st) t1) as [st1 Hst1]; [lia|].
      destruct (parseFlowchartLine now fuel _ nps eps _ t1) as [[st1'|] t2]; [|done].
      destruct (exec firstNodeRegex _).
      * destruct (parseNodeFromPart now _ nps t2) as [n t3].
        destruct sourceNode, (option_list n); by eexists.
      * destruct sourceNode; by eexists.
    + destruct (parseNodeFromPart now _ nps t1) as [n t2].
      destruct sourceNode, (option_list n); by eexists.
  - destruct (parseNodeFromPart now line nps t) as [n t1]. by eexists.
Qed.

Lemma edgePatterns_consume :
  Forall (fun p => 1 <= min_length (ep_regex p))%nat edgePatterns.
Proof. repeat constructor. Qed.

Lemma flowchart_loop_returns now lines :
  ∀ st t, is_Some (flowchart_loop now lines st t).1.
Proof.
  induction lines as [|l lines IH]; intros st t; simpl; [by eexists|].
  unfold bind.
  assert (is_Some (flowchart_step now l st t).1) as [st1 Hst1].
  { unfold flowchart_step, ret. repeat case_match; try by eexists.
    apply (parseFlowchartLine_returns now nodePatterns edgePatterns edgePatterns_consume).
    lia. }
  destruct (flowchart_step now l st t) as [[st1'|] t1]; [apply IH|done].
Qed.

(** [parseMermaidCode] never runs out of fuel: it returns a graph or throws. *)
Lemma parseMermaidCode_returns now code t :
  is_Some (parseMermaidCode now code t).1.
Proof.
  unfold parseMermaidCode. destruct (content_lines code) as [|first rest]; [by eexists|].
  assert (∀ dt, is_Some (bind (parseFlowchart now (first :: rest))
              (fun r => ret ((fun '(nodes, edges, subgraphs) =>
                 Ok (MermaidGraph nodes edges subgraphs dt)) <$> r)) t).1) as Hflow.
  { intros dt. unfold parseFlowchart, bind, ret. simpl.
    destruct (flowchart_loop_returns now rest (FState [] [] [] None) t) as [st Hst].
    destruct (flowchart_loop now rest _ t) as [[st'|] t1]; [|done]. by eexists. }
  destruct (detect_type (Js.toLowerCase first)); first [by eexists | apply Hflow].
Qed.

End FlowchartReturns.

(** ** The Mermaid-to-Draw.io conversion returns *)

Section Totality.
Import MermaidParser.

(** [convertMermaidToDrawio] never runs out of fuel, in the parser or in the
    layout step: it returns the XML text or throws. *)
Lemma convertMermaidToDrawio_returns now code t :
  is_Some (convertMermaidToDrawio now code t).1.
Proof.
  unfold convertMermaidToDrawio, bind, ret.
  destruct (parseMermaidCode_returns now code t) as [r Hr].
  destruct (parseMermaidCode now code t) as [r' t'] eqn:Hparse. simpl in Hr. subst r'.
  destruct r as [g|msg]; simpl; [|by eexists].
  destruct (mg_nodes g) as [|n ns] eqn:Hnodes; [by eexists|].
  destruct (layers_of_partition (mg_nodes g) (mg_edges g)) as (layers & Hlayers & _).
  { by eapply parse_ids_distinct. }
  unfold Layout.calculateNodePositions. rewrite Hnodes in Hlayers. rewrite Hlayers.
  simpl. by eexists.
Qed.

End Totality.

(** ** The syntax check *)

Section ValidatorFacts.
Import Validator.

Lemma count_char_snoc c l x :
  count_char c (l ++ [x]) = (count_char c l + if Ascii.eqb c x then 1 else 0)%nat.
Proof.
  unfold count_char. rewrite List.filter_app, length_app. simpl.
  by destruct (Ascii.eqb c x).
Qed.

Lemma prefix_snoc_inv {A} (p l : list A) (x : A) :
  p `prefix_of` l ++ [x] -> p = l ++ [x] ∨ p `prefix_of` l.
Proof.
  intros [k Hk]. destruct k as [|y k _] using rev_ind.
  - left. by rewrite app_nil_r in Hk.
  - right. rewrite app_assoc in Hk. apply app_inj_tail in Hk as [-> _]. by exists k.
Qed.

Lemma char_cases (P : ascii -> Prop) :
  P "["%char -> P "{"%char -> P "("%char -> P "]"%char -> P "}"%char -> P ")"%char ->
  (∀ y, Forall (fun k => Ascii.eqb k y = false ∧ Ascii.eqb y k = false)
               ["["; "{"; "("; "]"; "}"; ")"]%char -> P y) ->
  ∀ x, P x.
Proof.
  intros ? ? ? ? ? ? Hother x.
  destruct (Ascii.eqb_spec "["%char x) as [<-|?]; [done|].
  destruct (Ascii.eqb_spec "{"%char x) as [<-|?]; [done|].
  destruct (Ascii.eqb_spec "("%char x) as [<-|?]; [done|].
  destruct (Ascii.eqb_spec "]"%char x) as [<-|?]; [done|].
  destruct (Ascii.eqb_spec "}"%char x) as [<-|?]; [done|].
  destruct (Ascii.eqb_spec ")"%char x) as [<-|?]; [done|].
  apply Hother. repeat constructor; by apply Ascii.eqb_neq.
Qed.

Lemma char_step_spec i b e x :
  b.*1 = brackets0.*1 ->
  (char_step i (b, e) x).1.*1 = brackets0.*1 ∧
  (∀ c o, (c, o) ∈ closingBrackets ->
     depth o (char_step i (b, e) x).1 = next_depth o c (depth o b) x) ∧
  (char_step i (b, e) x).2
  = e ++ (if underflow b x then [SyntaxError (i + 1) (unmatchedError x)] else []).
Proof.
  intros Hk.
  destruct b as [|[k1 v1] [|[k2 v2] [|[k3 v3] [|]]]]; try discriminate Hk.
  injection Hk as -> -> ->.
  revert x. apply char_cases.
  1-6: unfold char_step, own, depth, underflow, next_depth; cbn;
       destruct (v1 - 1 <? 0)%Z eqn:E1; destruct (v2 - 1 <? 0)%Z eqn:E2;
       destruct (v3 - 1 <? 0)%Z eqn:E3; cbn;
       (split_and!; [done| |by rewrite ?app_nil_r]);
       intros c o Hin; repeat (apply elem_of_cons in Hin as [[= -> ->]|Hin]);
       try (by apply elem_of_nil in Hin); cbn; by rewrite ?E1, ?E2, ?E3.
  intros y Hy.
  apply Forall_cons in Hy as [[Ho1 Ho1'] Hy]. apply Forall_cons in Hy as [[Ho2 Ho2'] Hy].
  apply Forall_cons in Hy as [[Ho3 Ho3'] Hy]. apply Forall_cons in Hy as [[Hc1 Hc1'] Hy].
  apply Forall_cons in Hy as [[Hc2 Hc2'] Hy]. apply Forall_cons in Hy as [[Hc3 Hc3'] _].
  unfold char_step, own, depth, underflow, next_depth.
  cbn -[Ascii.eqb Z.ltb Z.sub Z.add]. rewrite !Ho1, !Ho2, !Ho3.
  cbn -[Ascii.eqb Z.ltb Z.sub Z.add]. rewrite !Hc1, !Hc2, !Hc3, !Hc1', !Hc2', !Hc3'.
  cbn -[Ascii.eqb Z.ltb Z.sub Z.add]. split_and!; [done| |by rewrite app_nil_r].
  intros c o Hin. repeat (apply elem_of_cons in Hin as [[= -> ->]|Hin]);
    try (by apply elem_of_nil in Hin);
    cbn -[Ascii.eqb Z.ltb Z.sub Z.add];
    by rewrite ?Ho1', ?Ho2', ?Ho3', ?Hc1', ?Hc2', ?Hc3'.
Qed.

(** An opening bracket is no closing bracket, and the closing brackets
    close different brackets. *)
Lemma closing_distinct c o c' o' :
  (c, o) ∈ closingBrackets -> (c', o') ∈ closingBrackets ->
  c <> o' ∧ (c = c' ↔ o = o').
Proof.
  intros H H'.
  repeat (apply elem_of_cons in H as [[= -> ->]|H]); try (by apply elem_of_nil in H);
  repeat (apply elem_of_cons in H' as [[= -> ->]|H']); try (by apply elem_of_nil in H');
  by split.
Qed.

Lemma underflow_spec b x :
  underflow b x = true ↔
  ∃ o, (x, o) ∈ closingBrackets ∧ (depth o b - 1 < 0)%Z.
Proof.
  unfold underflow. rewrite existsb_exists. split.
  - intros ([c o] & Hin & H). apply andb_true_iff in H as [Hx H]. simpl in *.
    apply Ascii.eqb_eq in Hx as ->. exists o. split; [by apply list_elem_of_In|lia].
  - intros (o & Hin & H). exists (x, o). split; [by apply list_elem_of_In|].
    simpl. rewrite Ascii.eqb_refl. simpl. lia.
Qed.

Lemma checked_step e0 i l acc x :
  checked e0 l acc -> checked e0 (l ++ [x]) (char_step i acc x).
Proof.
  destruct acc as [b e]. intros [Hk Hg Hd Hclean Hdirty].
  simpl in Hk, Hg, Hd, Hclean, Hdirty.
  destruct (char_step_spec i b e x Hk) as (Hk' & Hdepth & He).
  assert (∀ c o, (c, o) ∈ closingBrackets -> (0 <= next_depth o c (depth o b) x)%Z) as Hnn.
  { intros c o Hin. specialize (Hd c o Hin). unfold next_depth.
    destruct (Ascii.eqb x o); [lia|]. destruct (Ascii.eqb x c); [|done].
    destruct (Z.ltb_spec (depth o b - 1) 0); lia. }
  split.
  - done.
  - rewrite He, length_app. lia.
  - intros c o Hin. rewrite (Hdepth c o Hin). by apply Hnn.
  - rewrite He. intros Heq.
    destruct (underflow b x) eqn:Hu.
    { exfalso. rewrite <- Heq, length_app in Hg. simpl in Hg. lia. }
    rewrite app_nil_r in Heq. intros c o Hin.
    destruct (Hclean Heq c o Hin) as [Hpre Hdep].
    rewrite (Hdepth c o Hin), Hdep, !count_char_snoc.
    assert (¬ (x = c ∧ depth o b - 1 < 0)%Z) as Hno.
    { intros [-> ?]. apply not_true_iff_false in Hu. apply Hu, underflow_spec. eauto. }
    destruct (closing_distinct c o c o Hin Hin) as [Hco _].
    assert (next_depth o c (Z.of_nat (count_char o l) - Z.of_nat (count_char c l)) x
            = (Z.of_nat (count_char o l + (if Ascii.eqb o x then 1 else 0))
               - Z.of_nat (count_char c l + (if Ascii.eqb c x then 1 else 0)))%Z
            ∧ (count_char c l + (if Ascii.eqb c x then 1 else 0)
               <= count_char o l + (if Ascii.eqb o x then 1 else 0))%nat) as [Hnext Hle].
    { pose proof (Hpre l (reflexivity _)) as Hl. unfold next_depth.
      rewrite (Ascii.eqb_sym o x), (Ascii.eqb_sym c x).
      destruct (Ascii.eqb_spec x o) as [->|Hxo].
      - destruct (Ascii.eqb_spec o c) as [->|?]; [done|]. lia.
      - destruct (Ascii.eqb_spec x c) as [->|Hxc]; [|lia].
        rewrite Hdep in Hno.
        destruct (Z.ltb_spec (Z.of_nat (count_char o l) - Z.of_nat (count_char c l) - 1) 0);
          [exfalso; apply Hno; split; [done|lia]|lia]. }
    split; [|done].
    intros p Hp. apply prefix_snoc_inv in Hp as [->|Hp]; [|by apply Hpre].
    by rewrite !count_char_snoc.
  - rewrite He. intros Hne.
    destruct (decide (e = e0)) as [Heq|Hne'].
    + destruct (underflow b x) eqn:Hu; [|by rewrite app_nil_r in Hne].
      apply underflow_spec in Hu as (o & Hin & Hlt).
      destruct (Hclean Heq x o Hin) as [Hpre Hdep].
      exists x, o, (l ++ [x]). split; [done|]. split; [done|].
      rewrite !count_char_snoc, Ascii.eqb_refl.
      destruct (closing_distinct x o x o Hin Hin) as [Hco _].
      destruct (Ascii.eqb_spec o x) as [->|?]; [done|]. lia.
    + destruct (Hdirty Hne') as (c & o & p & Hin & Hp & Hlt).
      exists c, o, p. split; [done|]. split; [|done]. by apply prefix_app_r.
Qed.

Lemma checked_chars e0 i xs :
  ∀ l acc, checked e0 l acc -> checked e0 (l ++ xs) (foldl (char_step i) acc xs).
Proof.
  induction xs as [|x xs IH]; intros l acc H; simpl.
  - by rewrite app_nil_r.
  - rewrite (assoc_L _ l [x] xs : l ++ x :: xs = (l ++ [x]) ++ xs).
    by apply IH, checked_step.
Qed.

Lemma checked_lines e0 lines :
  ∀ (g : nat -> string -> nat * string) l acc,
    (∀ i s, snd (g i s) = s) ->
    checked e0 l acc ->
    checked e0 (l ++ List.concat (list_ascii_of_string <$> lines))
               (foldl line_step acc (imap g lines)).
Proof.
  induction lines as [|s lines IH]; intros g l acc Hg H; simpl.
  - by rewrite app_nil_r.
  - rewrite app_assoc. apply IH; [intros; apply Hg|].
    unfold line_step. rewrite Hg. by apply checked_chars.
Qed.

Lemma checked_start e0 : checked e0 [] (brackets0, e0).
Proof.
  split; simpl; [done|done| | |done].
  - intros c o Hin. repeat (apply elem_of_cons in Hin as [[= -> ->]|Hin]);
      try (by apply elem_of_nil in Hin); by vm_compute.
  - intros _ c o Hin. split.
    + intros p Hp. apply prefix_nil_inv in Hp as ->. done.
    + repeat (apply elem_of_cons in Hin as [[= -> ->]|Hin]);
        try (by apply elem_of_nil in Hin); by vm_compute.
Qed.

(** The characters of the lines of a text are those of the text without
    the line ends. *)
Lemma split_chars code :
  List.concat (list_ascii_of_string <$> Js.split "010" code)
  = List.filter (fun c => negb (Ascii.eqb c "010")) (list_ascii_of_string code).
Proof.
  induction code as [|c code IH]; [done|]. cbn [Js.split list_ascii_of_string List.filter].
  destruct (Ascii.eqb c "010"); simpl; [done|].
  destruct (Js.split "010" code) as [|w ws]; simpl in *; by rewrite <- IH.
Qed.

Lemma count_char_filter (g : ascii -> bool) c l :
  g c = true -> count_char c (List.filter g l) = count_char c l.
Proof.
  intros Hg. unfold count_char. induction l as [|x l IH]; [done|]. simpl.
  destruct (g x) eqn:Hx; simpl.
  - destruct (Ascii.eqb c x); simpl; by rewrite IH.
  - destruct (Ascii.eqb_spec c x) as [->|?]; [congruence|done].
Qed.

Lemma prefix_filter_inv {A} (g : A -> bool) (l p' : list A) :
  p' `prefix_of` List.filter g l -> ∃ p, p `prefix_of` l ∧ List.filter g p = p'.
Proof.
  revert p'. induction l as [|x l IH]; intros p' Hp; simpl in Hp.
  - apply prefix_nil_inv in Hp as ->. by exists [].
  - destruct (g x) eqn:Hx.
    + destruct p' as [|y p']; [by exists []; split; [apply prefix_nil|]|].
      apply prefix_cons_inv_1 in Hp as Hy. apply prefix_cons_inv_2 in Hp.
      subst y. destruct (IH _ Hp) as (p & Hpl & <-).
      exists (x :: p). split; [by apply prefix_cons|]. simpl. by rewrite Hx.
    + destruct (IH _ Hp) as (p & Hpl & <-).
      exists (x :: p). split; [by apply prefix_cons|]. simpl. by rewrite Hx.
Qed.

Lemma balanced_filter (g : ascii -> bool) o c l :
  g o = true -> g c = true ->
  balanced o c (List.filter g l) ↔ balanced o c l.
Proof.
  intros Ho Hc. unfold balanced. rewrite !count_char_filter by done.
  split; intros [Hpre Heq]; (split; [|done]); intros p Hp.
  - destruct Hp as [k ->]. rewrite <- (count_char_filter g c), <- (count_char_filter g o) by done.
    apply Hpre. rewrite List.filter_app. by eexists.
  - apply (prefix_filter_inv g) in Hp as (p0 & Hp0 & <-).
    rewrite !count_char_filter by done. by apply Hpre.
Qed.

Lemma brackets_shape b :
  b.*1 = brackets0.*1 ->
  b = [("["%char, depth "[" b); ("{"%char, depth "{" b); ("("%char, depth "(" b)].
Proof.
  intros Hk. destruct b as [|[k1 v1] [|[k2 v2] [|[k3 v3] [|]]]]; try discriminate Hk.
  by injection Hk as -> -> ->.
Qed.

Lemma header_recognised_spec code :
  header_recognised code ↔
  existsb (fun type => Js.startsWith (Js.toLowerCase (Js.trim (first_line code))) type)
          validDiagramTypes = true.
Proof.
  unfold header_recognised. rewrite existsb_exists.
  split; intros (type & Hin & H); exists type; by rewrite ?list_elem_of_In in *.
Qed.

Lemma validate_spec (code : string) :
  validateMermaidSyntax code = [] ↔
  header_recognised code ∧
  ∀ c o, (c, o) ∈ closingBrackets -> balanced o c (list_ascii_of_string code).
Proof.
  assert (∀ c o, (c, o) ∈ closingBrackets ->
            balanced o c (List.concat (list_ascii_of_string <$> Js.split "010" code))
            ↔ balanced o c (list_ascii_of_string code)) as Hlines.
  { intros c o Hin. rewrite split_chars. apply balanced_filter;
      repeat (apply elem_of_cons in Hin as [[= -> ->]|Hin]);
      try (by apply elem_of_nil in Hin); done. }
  rewrite header_recognised_spec. unfold validateMermaidSyntax. fold (first_line code).
  destruct (Js.truthy (Js.trim (first_line code))) eqn:Hfirst; cbn [negb].
  2:{ split; [done|]. intros [H _]. destruct (Js.trim (first_line code)); [|done].
      by vm_compute in H. }
  match goal with |- context [foldl line_step (brackets0, ?x)] => set (e0 := x) end.
  match goal with |- _ ↔ ?h = true ∧ _ =>
    assert (e0 = [] ↔ h = true) as He0spec by (subst e0; by destruct h)
  end.
  clearbody e0.
  pose proof (checked_lines e0 (Js.split "010" code) pair [] (brackets0, e0)
                (fun _ _ => eq_refl) (checked_start e0)) as Hck.
  rewrite app_nil_l in Hck.
  destruct (foldl line_step (brackets0, e0) (imap pair (Js.split "010" code))) as [b e].
  destruct Hck as [Hk Hg Hd Hclean Hdirty]. simpl in Hk, Hg, Hd, Hclean, Hdirty.
  rewrite (brackets_shape b Hk). unfold unclosed. cbn [List.filter fmap list_fmap fst snd].
  split.
  - intros H. apply app_eq_nil in H as [-> H].
    assert (e0 = []) as He0 by (destruct e0; [done|simpl in Hg; lia]).
    split; [by apply He0spec|].
    intros c o Hin. apply Hlines; [done|].
    destruct (Hclean (eq_sym He0) c o Hin) as [Hpre Hdep]. split; [done|].
    pose proof (Hpre _ (reflexivity _)) as Hle.
    assert (depth o b <= 0)%Z; [|lia].
    repeat (apply elem_of_cons in Hin as [[= -> ->]|Hin]); try (by apply elem_of_nil in Hin);
      clear -H.
    + destruct (Z.ltb_spec 0 (depth "[" b)); [done|lia].
    + destruct (Z.ltb_spec 0 (depth "[" b)); [done|].
      destruct (Z.ltb_spec 0 (depth "{" b)); [done|lia].
    + destruct (Z.ltb_spec 0 (depth "[" b)); [done|].
      destruct (Z.ltb_spec 0 (depth "{" b)); [done|].
      destruct (Z.ltb_spec 0 (depth "(" b)); [done|lia].
  - intros [Hhead Hbal]. assert (e0 = []) as He0 by (by apply He0spec).
    assert (e = e0) as ->.
    { destruct (decide (e = e0)) as [|Hne]; [done|].
      destruct (Hdirty Hne) as (c & o & p & Hin & Hp & Hlt).
      destruct (proj2 (Hlines c o Hin) (Hbal c o Hin)) as [Hpre _].
      specialize (Hpre p Hp). lia. }
    rewrite He0.
    assert (∀ c o, (c, o) ∈ closingBrackets -> depth o b = 0%Z) as Hzero.
    { intros c o Hin. destruct (Hclean eq_refl c o Hin) as [_ ->].
      destruct (proj2 (Hlines c o Hin) (Hbal c o Hin)) as [_ ->]. lia. }
    rewrite (Hzero "]"%char "["%char), (Hzero "}"%char "{"%char), (Hzero ")"%char "("%char);
      [done|apply (bool_decide_unpack _); by vm_compute..].
Qed.

(** X1: [validateMermaidSyntax] reports nothing exactly for the texts whose
    first line names a diagram type and in which the square, curly and
    round brackets are each balanced: a closing bracket never outnumbers
    its opening bracket in a beginning of the text, and the two are as many
    in the whole text.  How the three kinds are nested in each other is not
    checked. *)
Theorem validate_accepts_iff (code : string) :
  validateMermaidSyntax code = [] ↔
  header_recognised code ∧
  ∀ c o, (c, o) ∈ closingBrackets -> balanced o c (list_ascii_of_string code).
Proof. apply validate_spec. Qed.

End ValidatorFacts.

(** ** The parser is best effort *)

Section ParserComposition.
Import Validator MermaidParser.

Lemma parse_ok (now : nat -> Z) (code : string) (t : nat) :
  content_lines code <> [] ->
  ∃ g t',
    parseMermaidCode now code t = (Some (Ok g), t') ∧
    mg_type g = detect_type (Js.toLowerCase (default "" (head (content_lines code)))).
Proof.
  intros Hlines. pose proof (parseMermaidCode_returns now code t) as [r Hr].
  revert Hr. unfold parseMermaidCode.
  destruct (content_lines code) as [|first rest]; [done|]. simpl.
  assert (∀ dt r, (bind (parseFlowchart now (first :: rest))
              (fun r => ret ((fun '(nodes, edges, subgraphs) =>
                 Ok (MermaidGraph nodes edges subgraphs dt)) <$> r)) t).1 = Some r ->
            ∃ g t', bind (parseFlowchart now (first :: rest))
              (fun r => ret ((fun '(nodes, edges, subgraphs) =>
                 Ok (MermaidGraph nodes edges subgraphs dt)) <$> r)) t = (Some (Ok g), t') ∧
              mg_type g = dt) as Hflow.
  { intros dt r0. unfold bind, ret.
    destruct (parseFlowchart now (first :: rest) t) as [[[[nodes edges] subgraphs]|] t1];
      simpl; [|done]. intros _. by eexists _, _. }
  destruct (detect_type (Js.toLowerCase first)) eqn:Hdt;
    first [ exact (Hflow _ r) | intros _; by eexists _, _ ].
Qed.

(** X2: [parseMermaidCode] is best effort: a text with at least one line
    that is neither blank nor a comment always gives a graph, never an
    error, whatever its other lines hold; the type of the graph is read off
    the first such line. *)
Theorem parse_returns_graph (now : nat -> Z) (code : string) (t : nat) :
  content_lines code <> [] ->
  ∃ g t',
    parseMermaidCode now code t = (Some (Ok g), t') ∧
    mg_type g = detect_type (Js.toLowerCase (default "" (head (content_lines code)))).
Proof. apply parse_ok. Qed.

Lemma parse_returns_graph_witness :
  ∃ g t',
    parseMermaidCode frozen_clock roundtrip_input 0 = (Some (Ok g), t') ∧
    mg_type g = detect_type (Js.toLowerCase (default "" (head (content_lines roundtrip_input)))).
Proof. apply parse_returns_graph. by vm_compute. Defined.

Lemma header_is_content code :
  header_recognised code -> content_lines code <> [].
Proof.
  rewrite header_recognised_spec. unfold first_line, content_lines.
  destruct (Js.split "010" code) as [|l ls]; [by vm_compute|].
  change (default "" (head (l :: ls))) with l. cbn [fmap list_fmap List.filter].
  destruct (Js.trim l) as [|c s]; [by vm_compute|].
  destruct (Ascii.eqb_spec c "%") as [->|Hc]; [by vm_compute|]. intros _.
  assert (Js.truthy (String c s) && negb (Js.startsWith (String c s) "%%") = true) as ->; [|done].
  unfold Js.startsWith. cbn [Js.truthy String.prefix andb].
  by destruct (ascii_dec "%" c).
Qed.

(** X3: A text that [validateMermaidSyntax] accepts is never the empty text for
    [parseMermaidCode]: the parser returns a graph for it. *)
Theorem validated_code_parses (now : nat -> Z) (code : string) (t : nat) :
  validateMermaidSyntax code = [] ->
  ∃ g t', parseMermaidCode now code t = (Some (Ok g), t').
Proof.
  intros H. apply validate_spec in H as [H _]. apply header_is_content in H.
  destruct (parse_ok now code t H) as (g & t' & Hp & _). by exists g, t'.
Qed.

Lemma validated_code_parses_witness :
  ∃ g t', parseMermaidCode frozen_clock roundtrip_input 0 = (Some (Ok g), t').
Proof. apply validated_code_parses. by vm_compute. Defined.
End ParserComposition.

(** ** Invariants of the parsers *)

Section ParserInvariants.
Import Regex MermaidParser.

(** A property of the [nodes] and [edges] under construction that holds
    when a node with a new id is added, and when an edge with the next
    running id is added whose source is a node. *)
Variable I : list mnode -> list medge -> Prop.
Hypothesis I_node :
  ∀ nodes edges n,
    I nodes edges -> mn_id n ∉ mn_id <$> nodes -> I (nodes ++ [n]) edges.
Hypothesis I_edge :
  ∀ nodes edges src tgt label type,
    I nodes edges -> src ∈ mn_id <$> nodes ->
    I nodes (edges ++ [MEdge ("edge_" +:+ pretty (List.length edges)) src tgt label type]).

Lemma register_inv n st :
  I (fs_nodes st) (fs_edges st) ->
  I (fs_nodes (register n st)) (fs_edges (register n st)) ∧
  mn_id n ∈ mn_id <$> fs_nodes (register n st) ∧
  (∀ x, x ∈ mn_id <$> fs_nodes st -> x ∈ mn_id <$> fs_nodes (register n st)).
Proof.
  intros HI. unfold register, has_node. case_bool_decide as Hin; [done|].
  replace (fs_nodes (push_to_current _ _)) with (fs_nodes st ++ [n])
    by (unfold push_to_current; simpl; by destruct (fs_current st)).
  replace (fs_edges (push_to_current _ _)) with (fs_edges st)
    by (unfold push_to_current; simpl; by destruct (fs_current st)).
  rewrite fmap_app. split_and!.
  - by apply I_node.
  - apply elem_of_app. right. by apply list_elem_of_singleton.
  - intros x Hx. apply elem_of_app. by left.
Qed.

Lemma register_opt_inv n st :
  I (fs_nodes st) (fs_edges st) ->
  I (fs_nodes (register_opt n st)) (fs_edges (register_opt n st)) ∧
  (∀ m, n = Some m -> mn_id m ∈ mn_id <$> fs_nodes (register_opt n st)) ∧
  (∀ x, x ∈ mn_id <$> fs_nodes st -> x ∈ mn_id <$> fs_nodes (register_opt n st)).
Proof.
  intros HI. destruct n as [n|]; simpl; [|done].
  destruct (register_inv n st HI) as (? & ? & ?). split_and!; [done| |done].
  by intros m [= <-].
Qed.

Lemma parseFlowchartLine_inv now fuel :
  ∀ line nps eps st t st' t',
    I (fs_nodes st) (fs_edges st) ->
    parseFlowchartLine now fuel line nps eps st t = (Some st', t') ->
    I (fs_nodes st') (fs_edges st') ∧
    (∀ x, x ∈ mn_id <$> fs_nodes st -> x ∈ mn_id <$> fs_nodes st').
Proof.
  induction fuel as [|fuel IH]; intros line nps eps st t st' t' HI; simpl; [done|].
  destruct (scan_edges eps line) as [hit|]; unfold bind, ret.
  - destruct (parseNodeFromPart now _ nps t) as [sourceNode t1].
    destruct (register_opt_inv sourceNode st HI) as (HI1 & Hsrc & Hmono1).
    unfold parseChainedTargets, bind, ret. destruct (existsb _ _).
    + destruct (parseFlowchartLine now fuel _ nps eps _ t1) as [[st1|] t2] eqn:Hrec;
        [|done].
      apply IH in Hrec as [HI2 Hmono2]; [|done].
      assert (∀ targetNodes : list mnode,
                (match sourceNode, targetNodes with
                 | Some src, tgt :: _ =>
                     (Some (push_edge
                              (MEdge ("edge_" +:+ pretty (List.length (fs_edges st1)))
                                     (mn_id src) (mn_id tgt) (eh_label hit) (eh_type hit))
                              st1), t')
                 | _, _ => (Some st1, t')
                 end) = (Some st', t') ->
                I (fs_nodes st') (fs_edges st') ∧
                (∀ x, x ∈ mn_id <$> fs_nodes st -> x ∈ mn_id <$> fs_nodes st')) as Hend.
      { intros targetNodes. destruct sourceNode as [src|], targetNodes as [|tgt ?];
          intros [= <-]; simpl; try (split; [done|]; by auto).
        split; [|by auto]. apply I_edge; [done|]. by eauto. }
      destruct (exec firstNodeRegex _).
      * destruct (parseNodeFromPart now _ nps t2) as [n t3].
        intros H. apply (Hend (option_list n)).
        destruct sourceNode, (option_list n); by injection H as <- <-.
      * intros H. apply (Hend []). destruct sourceNode; by injection H as <- <-.
    + destruct (parseNodeFromPart now _ nps t1) as [n t2].
      destruct (register_opt_inv n _ HI1) as (HI2 & _ & Hmono2).
      destruct sourceNode as [src|], (option_list n) as [|tgt ?];
        intros [= <- <-]; simpl; try (split; [done|]; by auto).
      split; [|by auto]. apply I_edge; [done|]. by eauto.
  - destruct (parseNodeFromPart now line nps t) as [n t1]. intros [= <- <-].
    destruct (register_opt_inv n st HI) as (? & _ & ?). by split.
Qed.

Lemma flowchart_loop_inv now lines :
  ∀ st t st' t',
    I (fs_nodes st) (fs_edges st) ->
    flowchart_loop now lines st t = (Some st', t') ->
    I (fs_nodes st') (fs_edges st').
Proof.
  induction lines as [|l lines IH]; intros st t st' t' HI; simpl.
  - by intros [= <- <-].
  - unfold bind. destruct (flowchart_step now l st t) as [[st1|] t1] eqn:Hstep; [|done].
    apply IH. unfold flowchart_step, ret in Hstep.
    destruct (test directionRegex l); [by injection Hstep as <- <-|].
    destruct (Js.startsWith l "subgraph").
    { destruct (exec subgraphRegex l); by injection Hstep as <- <-. }
    destruct (String.eqb l "end"); [by injection Hstep as <- <-|].
    by eapply parseFlowchartLine_inv.
Qed.

(** The sequence and class parsers add an edge when both its ends are
    nodes. *)
Hypothesis I_link :
  ∀ nodes edges src tgt label type,
    I nodes edges -> src ∈ mn_id <$> nodes -> tgt ∈ mn_id <$> nodes ->
    I nodes (edges ++ [MEdge ("edge_" +:+ pretty (List.length edges)) src tgt label type]).

Lemma declare_inv id label sh st :
  seen_ok I st -> seen_ok I (declare id label sh st) ∧
                id ∈ mn_id <$> ss_nodes (declare id label sh st) ∧
                (∀ x, x ∈ mn_id <$> ss_nodes st -> x ∈ mn_id <$> ss_nodes (declare id label sh st)).
Proof.
  intros [HI Hseen]. unfold declare. case_bool_decide as Hin.
  { split_and!; [done| |done]. by apply Hseen. }
  simpl. rewrite fmap_app. split_and!.
  - split; simpl.
    + apply I_node; [done|]. simpl. by rewrite <- Hseen.
    + intros x. rewrite elem_of_union, elem_of_singleton, fmap_app, elem_of_app, Hseen.
      simpl. rewrite list_elem_of_singleton. tauto.
  - apply elem_of_app. right. by apply list_elem_of_singleton.
  - intros x Hx. apply elem_of_app. by left.
Qed.

Lemma connect_inv source target label st :
  seen_ok I st -> seen_ok I (connect source target label st).
Proof.
  intros H. unfold connect.
  destruct (declare_inv source source rectangle st H) as (H1 & Hs & _).
  destruct (declare_inv target target rectangle _ H1) as ([HI2 Hseen2] & Ht & Hmono).
  split; simpl; [|done]. apply I_link; [done| |done]. by apply Hmono.
Qed.

Lemma steps_inv (step : sstate -> string -> sstate) (lines : list string) :
  (∀ st l, seen_ok I st -> seen_ok I (step st l)) ->
  I [] [] ->
  seen_ok I (foldl step (SState [] [] ∅) lines).
Proof.
  intros Hstep H0. induction lines as [|l lines IH] using rev_ind.
  - split; [done|]. intros x. simpl. by rewrite elem_of_empty, elem_of_nil.
  - rewrite foldl_app. simpl. by apply Hstep.
Qed.

Lemma parse_inv now code t g t' :
  I [] [] ->
  parseMermaidCode now code t = (Some (Ok g), t') -> I (mg_nodes g) (mg_edges g).
Proof.
  intros H0. unfold parseMermaidCode.
  destruct (content_lines code) as [|first rest]; [done|].
  assert (∀ dt,
            bind (parseFlowchart now (first :: rest))
              (fun r => ret ((fun '(nodes, edges, subgraphs) =>
                 Ok (MermaidGraph nodes edges subgraphs dt)) <$> r)) t
            = (Some (Ok g), t') -> I (mg_nodes g) (mg_edges g)) as Hflow.
  { intros dt. unfold parseFlowchart, bind, ret. simpl.
    destruct (flowchart_loop now rest _ t) as [[st|] t1] eqn:Hloop; simpl; [|done].
    intros [= <- <-]. simpl. eapply flowchart_loop_inv; [|exact Hloop]. exact H0. }
  assert (∀ dt, ret (Some ((fun '(nodes, edges, subgraphs) =>
                 Ok (MermaidGraph nodes edges subgraphs dt)) (parseSequenceDiagram (first :: rest)))) t
            = (Some (Ok g), t') -> I (mg_nodes g) (mg_edges g)) as Hseq.
  { intros dt. unfold ret, parseSequenceDiagram. intros [= <- <-]. simpl.
    apply steps_inv; [|done]. intros st l H. unfold sequence_step.
    repeat case_match; first [by apply declare_inv | by apply connect_inv | done]. }
  assert (∀ dt, ret (Some ((fun '(nodes, edges, subgraphs) =>
                 Ok (MermaidGraph nodes edges subgraphs dt)) (parseClassDiagram (first :: rest)))) t
            = (Some (Ok g), t') -> I (mg_nodes g) (mg_edges g)) as Hcls.
  { intros dt. unfold ret, parseClassDiagram. intros [= <- <-]. simpl.
    apply steps_inv; [|done]. intros st l H. unfold class_step.
    repeat case_match; first [by apply declare_inv | by apply connect_inv | done]. }
  destruct (detect_type (Js.toLowerCase first)); eauto.
Qed.

Lemma parse_inv_diagrams now code t g t' :
  I [] [] ->
  parseMermaidCode now code t = (Some (Ok g), t') ->
  mg_type g = sequence ∨ mg_type g = class_diagram ->
  I (mg_nodes g) (mg_edges g).
Proof.
  intros H0. unfold parseMermaidCode.
  destruct (content_lines code) as [|first rest]; [done|].
  assert (∀ step, (∀ st l, seen_ok I st -> seen_ok I (step st l)) ->
            I (ss_nodes (foldl step (SState [] [] ∅) rest))
              (ss_edges (foldl step (SState [] [] ∅) rest))) as Hsteps.
  { intros step Hstep. by apply steps_inv. }
  destruct (detect_type (Js.toLowerCase first)) eqn:Hdt; unfold bind, ret;
    try (destruct (parseFlowchart now (first :: rest) t) as [[[[nodes edges] subgraphs]|] t1];
         simpl; [|done]; intros [= <- <-]; simpl; intros [?|?]; done).
  - intros [= <- <-] _. simpl. apply Hsteps. intros st l H. unfold sequence_step.
    repeat case_match; first [by apply declare_inv | by apply connect_inv | done].
  - intros [= <- <-] _. simpl. apply Hsteps. intros st l H. unfold class_step.
    repeat case_match; first [by apply declare_inv | by apply connect_inv | done].
Qed.

End ParserInvariants.

(** ** Edges and nodes of a parsed graph *)

Section ParsedGraphs.
Import Regex MermaidParser.

(** X5: the edges of every graph [parseMermaidCode] returns carry the ids
    [edge_0], [edge_1], ... in the order of the list, so no two edges share
    an id. *)
Theorem parsed_edge_ids (now : nat -> Z) (code : string) (t t' : nat) (g : mermaid_graph) :
  parseMermaidCode now code t = (Some (Ok g), t') ->
  me_id <$> mg_edges g = imap (fun i _ => "edge_" +:+ pretty i) (mg_edges g).
Proof.
  apply (parse_inv (fun _ edges => me_id <$> edges = imap (fun i _ => "edge_" +:+ pretty i) edges));
    [done| | |done];
    intros nodes edges; intros; rewrite fmap_app, imap_app; simpl;
    rewrite Nat.add_0_r; by f_equal.
Qed.

Lemma parsed_edge_ids_witness :
  me_id <$> [MEdge "edge_0" "A" "B" "" arrow]
  = imap (fun i _ => "edge_" +:+ pretty i) [MEdge "edge_0" "A" "B" "" arrow].
Proof.
  apply (parsed_edge_ids frozen_clock roundtrip_input 0 0
           (MermaidGraph [MNode "A" "Start" rectangle; MNode "B" "Check" diamond]
                         [MEdge "edge_0" "A" "B" "" arrow] [] flowchart)).
  by vm_compute.
Defined.

(** X6: the nodes of every graph [parseMermaidCode] returns have distinct
    ids, and the source of every edge is one of them. *)
Theorem parsed_nodes_distinct (now : nat -> Z) (code : string) (t t' : nat)
    (g : mermaid_graph) :
  parseMermaidCode now code t = (Some (Ok g), t') ->
  NoDup (mn_id <$> mg_nodes g) ∧
  ∀ e, e ∈ mg_edges g -> me_source e ∈ mn_id <$> mg_nodes g.
Proof.
  intros H. split; [by eapply parse_ids_distinct|]. revert H.
  apply (parse_inv (fun nodes edges => ∀ e, e ∈ edges -> me_source e ∈ mn_id <$> nodes)).
  - intros nodes edges n HI _ e He. rewrite fmap_app, elem_of_app. left. by apply HI.
  - intros nodes edges src tgt label type HI Hsrc e He.
    apply elem_of_app in He as [He|He]; [by apply HI|].
    apply list_elem_of_singleton in He as ->. done.
  - intros nodes edges src tgt label type HI Hsrc _ e He.
    apply elem_of_app in He as [He|He]; [by apply HI|].
    apply list_elem_of_singleton in He as ->. done.
  - intros e He. by apply elem_of_nil in He.
Qed.

End ParsedGraphs.

(** ** [cleanLabel] *)

Section LabelFacts.
Import Regex DrawioParser.

Lemma forall_chars_app p s t :
  Js.forall_chars p (s +:+ t) = Js.forall_chars p s && Js.forall_chars p t.
Proof. induction s as [|c r IH]; simpl; [done|]. by rewrite IH, andb_assoc. Qed.

(** Replacing a character by a text keeps a property of the characters
    that the text has. *)
Lemma replace_char_keeps (p : ascii -> bool) c r s :
  Js.forall_chars p r = true -> Js.forall_chars p s = true ->
  Js.forall_chars p (Js.replace_char c r s) = true.
Proof.
  intros Hr. induction s as [|d t IH]; simpl; [done|].
  intros [Hd Ht]%andb_true_iff. destruct (Ascii.eqb d c).
  - rewrite forall_chars_app, Hr. by apply IH.
  - simpl. rewrite Hd. by apply IH.
Qed.

(** After the replacement the character is gone, when the text put in its
    place does not have it. *)
Lemma replace_char_gone c r s :
  Js.forall_chars (fun d => negb (Ascii.eqb d c)) r = true ->
  Js.forall_chars (fun d => negb (Ascii.eqb d c)) (Js.replace_char c r s) = true.
Proof.
  intros Hr. induction s as [|d t IH]; simpl; [done|].
  destruct (Ascii.eqb d c) eqn:Hd.
  - by rewrite forall_chars_app, Hr.
  - simpl. by rewrite Hd.
Qed.

Lemma replace_char_id c r s :
  Js.forall_chars (fun d => negb (Ascii.eqb d c)) s = true -> Js.replace_char c r s = s.
Proof.
  induction s as [|d t IH]; simpl; [done|]. intros [Hd Ht]%andb_true_iff.
  destruct (Ascii.eqb d c); [done|]. by rewrite IH.
Qed.

Lemma forall_chars_and p q s :
  Js.forall_chars (fun c => p c && q c) s = Js.forall_chars p s && Js.forall_chars q s.
Proof.
  induction s as [|c r IH]; simpl; [done|]. rewrite IH.
  destruct (p c), (q c), (Js.forall_chars p r); done.
Qed.

Lemma forall_chars_impl (p q : ascii -> bool) s :
  (∀ c, p c = true -> q c = true) ->
  Js.forall_chars p s = true -> Js.forall_chars q s = true.
Proof.
  intros Hpq. induction s as [|c r IH]; simpl; [done|].
  intros [Hc Hr]%andb_true_iff. by rewrite (Hpq c Hc), IH.
Qed.

(** X9: Whatever the label of a cell holds, [cleanLabel] gives a text without
    double quotes and square brackets. *)
Theorem clean_label_safe (html : string) :
  Js.forall_chars (fun c => negb (Ascii.eqb c "034") && negb (Ascii.eqb c "[")
                            && negb (Ascii.eqb c "]")) (cleanLabel html) = true.
Proof.
  unfold cleanLabel. destruct (negb (Js.truthy html)); [done|].
  set (text := Js.join _ _). clearbody text.
  rewrite !forall_chars_and, !andb_true_iff. split_and!.
  - do 2 (apply replace_char_keeps; [done|]). by apply replace_char_gone.
  - apply replace_char_keeps; [done|]. by apply replace_char_gone.
  - by apply replace_char_gone.
Qed.

End LabelFacts.

(** *** Plain labels *)

Section PlainLabels.
Import Regex DrawioParser.

Lemma run_leading {R} (p : ascii -> bool) (r : re) :
  leading p r ->
  ∀ pos s cs (k : nat -> string -> caps -> option R),
    match s with String d _ => p d = false | "" => True end ->
    run r pos s cs k = None.
Proof.
  induction r as [|c|q|r1 IH1 r2 IH2|r1 IH1 r2 IH2|r1 IH1|n r1 IH1| |];
    simpl; intros Hl pos s cs k Hs; try done.
  - destruct s as [|d t]; [done|]. destruct (Ascii.eqb_spec d c) as [->|?]; [congruence|done].
  - destruct s as [|d t]; [done|]. destruct (q d) eqn:Hq; [|done].
    apply Hl in Hq. congruence.
  - by apply IH1.
  - by apply IH1.
Qed.

(** A text without a character that could start a match is left as it
    is by a replacement. *)
Lemma replace_all_id (p : ascii -> bool) (r : re) repl s :
  leading p r -> Js.forall_chars (fun c => negb (p c)) s = true ->
  replace_all r repl s = s.
Proof.
  intros Hl. unfold replace_all. generalize 0%nat at 2 as pos.
  induction s as [|d t IH]; intros pos Hs; cbn [replace_from].
  - unfold match_here. by rewrite (run_leading p r Hl).
  - simpl in Hs. apply andb_true_iff in Hs as [Hd Ht].
    unfold match_here. rewrite (run_leading p r Hl) by (by destruct (p d)).
    by rewrite IH.
Qed.

Lemma lower_char_lt d :
  Ascii.eqb (Js.lower_char d) (Js.lower_char "<") = true -> Ascii.eqb d "<" = true.
Proof. destruct d as [[] [] [] [] [] [] [] []]; by vm_compute. Qed.

Lemma text_of_plain keep s :
  Js.forall_chars (fun c => negb (Ascii.eqb c "<") && negb (Ascii.eqb c "&")) s = true ->
  Html.text_of keep false 0 s = s.
Proof.
  induction s as [|c t IH]; [done|]. simpl.
  intros [[Hlt Hamp]%andb_true_iff Ht]%andb_true_iff.
  apply negb_true_iff in Hlt, Hamp. rewrite Hamp, Hlt. simpl. by rewrite IH.
Qed.

Lemma split_plain s :
  Js.forall_chars (fun c => negb (Ascii.eqb c "010")) s = true -> Js.split "010" s = [s].
Proof.
  induction s as [|c t IH]; [done|]. simpl. intros [Hc Ht]%andb_true_iff.
  apply negb_true_iff in Hc. rewrite Hc, IH; done.
Qed.

Lemma forall_chars_trimStart p s :
  Js.forall_chars p s = true -> Js.forall_chars p (Js.trimStart s) = true.
Proof.
  induction s as [|c t IH]; [done|]. simpl. intros [Hc Ht]%andb_true_iff.
  destruct (Js.is_space c); [by apply IH|]. simpl. by rewrite Hc.
Qed.

Lemma forall_chars_trimEnd p s :
  Js.forall_chars p s = true -> Js.forall_chars p (Js.trimEnd s) = true.
Proof.
  induction s as [|c t IH]; [done|]. simpl. intros [Hc Ht]%andb_true_iff.
  specialize (IH Ht). destruct (Js.trimEnd t).
  - destruct (Js.is_space c); [done|]. simpl. by rewrite Hc.
  - simpl in *. by rewrite Hc.
Qed.

Lemma forall_chars_trim p s :
  Js.forall_chars p s = true -> Js.forall_chars p (Js.trim s) = true.
Proof. intros. by apply forall_chars_trimEnd, forall_chars_trimStart. Qed.

(** [trimEnd] gives the empty text or a text that ends in a character
    that is not white space, and leaves such a text as it is. *)
Lemma trimEnd_fixed s : Js.trimEnd (Js.trimEnd s) = Js.trimEnd s.
Proof.
  induction s as [|c t IH]; [done|]. simpl.
  destruct (Js.trimEnd t) as [|d u] eqn:Ht.
  - destruct (Js.is_space c) eqn:Hc; [done|]. simpl. by rewrite Hc.
  - simpl in *. rewrite IH. done.
Qed.

Lemma trimStart_trimEnd s :
  match s with String c _ => Js.is_space c = false | "" => True end ->
  match Js.trimEnd s with String c _ => Js.is_space c = false | "" => True end.
Proof.
  destruct s as [|c t]; [done|]. simpl. intros Hc.
  destruct (Js.trimEnd t); [by rewrite Hc|done].
Qed.

Lemma trimStart_head s :
  match Js.trimStart s with String c _ => Js.is_space c = false | "" => True end.
Proof. induction s as [|c t IH]; [done|]. simpl. by destruct (Js.is_space c) eqn:Hc. Qed.

Lemma trimStart_id s :
  match s with String c _ => Js.is_space c = false | "" => True end -> Js.trimStart s = s.
Proof. destruct s as [|c t]; [done|]. simpl. by intros ->. Qed.

Lemma trim_fixed s : Js.trim (Js.trim s) = Js.trim s.
Proof.
  unfold Js.trim. rewrite (trimStart_id (Js.trimEnd _)).
  - apply trimEnd_fixed.
  - apply trimStart_trimEnd, trimStart_head.
Qed.

(** X10: A label without control characters (so of one line), markup,
    character references, double quotes and square brackets comes out of
    [cleanLabel] as it is, less the white space around it. *)
Theorem clean_label_plain (s : string) :
  Js.forall_chars plain_char s = true -> cleanLabel s = Js.trim s.
Proof.
  intros Hs. unfold cleanLabel.
  destruct (Js.truthy s) eqn:Hts; cbn [negb]; [|by destruct s].
  assert (∀ c, Js.forall_chars (fun d => negb (Ascii.eqb d c)) s = true
               ∨ plain_char c = true) as Hfree.
  { intros c. destruct (plain_char c) eqn:Hc; [by right|left].
    eapply forall_chars_impl; [|exact Hs]. intros d Hd.
    destruct (Ascii.eqb_spec d c) as [->|?]; [congruence|done]. }
  assert (∀ c, plain_char c = false ->
               Js.forall_chars (fun d => negb (Ascii.eqb d c)) s = true) as Hno.
  { intros c Hc. destruct (Hfree c); [done|congruence]. }
  assert (Js.forall_chars (fun c => negb (Ascii.eqb c "<")) s = true) as Hlt by (by apply Hno).
  assert (Js.forall_chars (fun c => negb (Ascii.eqb c "&")) s = true) as Hamp by (by apply Hno).
  rewrite (replace_all_id (fun d => Ascii.eqb d "<") brRegex) by first [exact Hlt | exact lower_char_lt].
  rewrite (replace_all_id (fun d => Ascii.eqb d "<") divOpenRegex) by first [exact Hlt | exact lower_char_lt].
  rewrite (replace_all_id (fun d => Ascii.eqb d "<") divCloseRegex) by first [exact Hlt | exact lower_char_lt].
  rewrite (replace_all_id (fun d => Ascii.eqb d "<") pOpenRegex) by first [exact Hlt | exact lower_char_lt].
  rewrite (replace_all_id (fun d => Ascii.eqb d "<") pCloseRegex) by first [exact Hlt | exact lower_char_lt].
  rewrite (replace_all_id (fun d => Ascii.eqb d "&") nbspRegex)
    by first [exact Hamp | reflexivity].
  unfold Html.textContent, Html.textareaValue.
  assert (Js.forall_chars (fun c => negb (Ascii.eqb c "<") && negb (Ascii.eqb c "&")) s = true)
    as Hboth.
  { rewrite (forall_chars_and (fun c => negb (Ascii.eqb c "<"))
                              (fun c => negb (Ascii.eqb c "&"))). by rewrite Hlt, Hamp. }
  rewrite (text_of_plain false s Hboth), (text_of_plain true s Hboth).
  rewrite split_plain by (by apply forall_chars_trim, Hno).
  cbn [fmap list_fmap]. rewrite trim_fixed.
  assert (Js.join Js.newline (List.filter Js.truthy [Js.trim s]) = Js.trim s) as ->.
  { destruct (Js.trim s); reflexivity. }
  rewrite (replace_char_id "034") by (by apply forall_chars_trim, Hno).
  rewrite (replace_char_id "[") by (by apply forall_chars_trim, Hno).
  rewrite (replace_char_id "]") by (by apply forall_chars_trim, Hno). done.
Qed.
End PlainLabels.

(** ** Identifiers and labels in Mermaid text *)

Section IdFacts.
Import Regex DrawioParser DrawioWriter.

Lemma replace_space_runs_id repl s :
  Js.forall_chars (fun c => negb (Js.is_space c)) s = true ->
  Js.replace_space_runs repl false s = s.
Proof.
  induction s as [|c t IH]; [done|]. simpl. intros [Hc Ht]%andb_true_iff.
  apply negb_true_iff in Hc. rewrite Hc. by rewrite IH.
Qed.

Lemma filter_chars_id p s : Js.forall_chars p s = true -> Js.filter_chars p s = s.
Proof.
  induction s as [|c t IH]; [done|]. simpl. intros [Hc Ht]%andb_true_iff.
  rewrite Hc. by rewrite IH.
Qed.

Lemma word_not_space c : Js.is_word c = true -> negb (Js.is_space c) = true.
Proof. destruct c as [[] [] [] [] [] [] [] []]; by vm_compute. Qed.

Lemma sanitizeId_fixed (s : string) : valid_mermaid_id s -> sanitizeId (Some s) = s.
Proof.
  intros (Hne & Hw & Hd). unfold sanitizeId.
  destruct s as [|c t]; [done|]. cbn [Js.truthy_opt Js.truthy negb default from_option id].
  rewrite replace_all_spaces, replace_space_runs_id
    by (eapply forall_chars_impl; [apply word_not_space|done]).
  unfold nonWordRegex.
  rewrite (replace_all_cls _ Js.is_word) by (intros d; by rewrite negb_involutive).
  rewrite filter_chars_id by done. rewrite test_leading_digit, Hd. done.
Qed.

Lemma sanitized_valid (id : option string) : valid_mermaid_id (sanitizeId id).
Proof.
  unfold sanitizeId.
  destruct (Js.truthy_opt id); simpl; [|by repeat split].
  rewrite test_leading_digit. unfold nonWordRegex.
  rewrite (replace_all_cls _ Js.is_word) by (intros c; by rewrite negb_involutive).
  pose proof (forall_chars_filter Js.is_word
                (replace_all spacesRegex "_" (default "" id))) as Hall.
  destruct (Js.filter_chars _ _) as [|c r] eqn:Hf; [by repeat split|].
  destruct (Js.is_digit c) eqn:Hd; simpl; (split; [done|]); split; try done.
Qed.

(** X17: [sanitizeId] leaves a valid identifier as it is, so sanitizing twice
    is sanitizing once. *)
Theorem sanitizeId_idempotent (id : option string) (s : string) :
  (valid_mermaid_id s -> sanitizeId (Some s) = s) ∧
  sanitizeId (Some (sanitizeId id)) = sanitizeId id.
Proof. split; [apply sanitizeId_fixed|apply sanitizeId_fixed, sanitized_valid]. Qed.

Lemma replace_char_no_quote l :
  Js.forall_chars (fun d => negb (Ascii.eqb d "034")) (Js.replace_char "034" "#quot;" l) = true.
Proof. by apply replace_char_gone. Qed.

(** X18: [escapeMermaidLabel] returns a label without brackets, quotes, bars
    and semicolons as it is, and any other label between double quotes,
    with no double quote in between. *)
Theorem escaped_label_quoted (label : string) :
  if Js.forall_chars (fun c => negb (needs_quotes c)) label
  then escapeMermaidLabel label = label
  else ∃ body, escapeMermaidLabel label = dquote +:+ body +:+ dquote ∧
               body = Js.replace_char "034" "#quot;" label ∧
               Js.forall_chars (fun d => negb (Ascii.eqb d "034")) body = true.
Proof.
  unfold escapeMermaidLabel.
  rewrite (test_cls needs_quotes (fun c => negb (needs_quotes c))) by done.
  destruct (Js.forall_chars _ label) eqn:Hl; simpl.
  - by destruct label.
  - destruct label as [|c t]; [done|]. cbn [Js.truthy negb].
    eexists. rewrite replace_all_chr. split_and!; [done..|]. apply replace_char_no_quote.
Qed.

(** X11: A shape written by [getStyleForShape] is read back by
    [parseShapeFromStyle] as the same shape when it is a rectangle,
    rounded, diamond, circle, cylinder, hexagon, parallelogram or
    subroutine; a stadium comes back rounded and every other shape as a
    rectangle. *)
Theorem shape_reread (sh : shape) :
  parseShapeFromStyle (getStyleForShape sh)
  = if bool_decide (sh ∈ [rectangle; rounded; diamond; circle; cylinder; hexagon;
                          parallelogram; subroutine])
    then sh
    else if bool_decide (sh = stadium) then rounded else rectangle.
Proof. destruct sh; by vm_compute. Qed.

End IdFacts.

(** ** The pages of a file *)

Section PageFacts.
Import DrawioParser Pages.



(** X13: [getDrawioPages] lists at least one page; for a file with [diagram]
    elements it lists one page for each, in document order, and the index
    of a page is the index at which [parseDrawioXML] finds its diagram. *)
Theorem pages_match_diagrams (xml : string) :
  let diagrams := Dom.querySelectorAll ["diagram"] (Dom.parseFromString (Js.trim xml)) in
  getDrawioPages xml <> [] ∧
  (∀ p i, p ∈ getDrawioPages xml -> pg_index p = Some i ->
          getDrawioPages xml !! i = Some p ∧ is_Some (diagrams !! i)) ∧
  (Js.includes (Js.trim xml) "<mxfile" = true -> diagrams <> [] ->
   pg_index <$> getDrawioPages xml = Some <$> seq 0 (List.length diagrams)).
Proof.
  cbv zeta. unfold getDrawioPages.
  destruct (negb (Js.includes _ _)) eqn:Hmx.
  { split_and!; [done| |by destruct (Js.includes _ _)].
    intros p i Hp Hi. apply list_elem_of_singleton in Hp as ->. done. }
  destruct (Dom.querySelectorAll _ _) as [|d ds] eqn:Hd.
  { split_and!; [done| |done].
    intros p i Hp Hi. apply list_elem_of_singleton in Hp as ->. done. }
  set (mk := fun index diagram => Page _ _ (Some index)).
  split_and!.
  - done.
  - intros p i Hp Hi. apply list_elem_of_lookup in Hp as [j Hj].
    rewrite list_lookup_imap in Hj. destruct ((d :: ds) !! j) as [x|] eqn:Hx; [|done].
    simpl in Hj. injection Hj as <-. simpl in Hi. injection Hi as <-.
    rewrite list_lookup_imap, Hx. split; [done|by eexists].
  - intros _ _. apply list_eq. intros j.
    rewrite !list_lookup_fmap, list_lookup_imap.
    destruct (decide (j < List.length (d :: ds))%nat) as [Hlt|Hge].
    + rewrite lookup_seq_lt by done. by destruct (lookup_lt_is_Some_2 _ _ Hlt) as [x ->].
    + rewrite lookup_seq_ge by lia. by rewrite (lookup_ge_None_2 (d :: ds) j) by lia.
Qed.
End PageFacts.

(** ** Documents without groups *)

Section FlatDocuments.
Import DrawioParser.

Lemma flat_index doc : flat doc -> (index_cells doc).2 = [].
Proof.
  unfold index_cells. induction doc as [|c doc IH] using rev_ind; [done|].
  intros Hflat. rewrite foldl_app. simpl.
  assert (flat doc) as Hdoc.
  { intros d Hd. apply Hflat, elem_of_app. by left. }
  specialize (IH Hdoc). destruct (foldl index_step (∅, []) doc) as [m gc]. simpl in IH.
  subst gc. destruct (Hflat c) as [Hp _]; [apply elem_of_app; right; by left|].
  unfold index_step. destruct (c_id c) as [id|]; [|done].
  destruct (negb (Js.truthy id)); [done|]. simpl.
  destruct (c_parent c) as [p|]; [|done]. unfold group_key in Hp. by rewrite Hp.
Qed.

Lemma flat_third m doc :
  flat doc ->
  ∃ em, foldl (third_step m) (PState [] [] ∅ ∅) doc
        = PState (plain_node <$> List.filter is_node_cell doc)
                 (plain_edge <$> List.filter is_edge_cell doc) ∅ em.
Proof.
  induction doc as [|c doc IH] using rev_ind; [by eexists|].
  intros Hflat. rewrite foldl_app. simpl.
  assert (flat doc) as Hdoc.
  { intros d Hd. apply Hflat, elem_of_app. by left. }
  destruct (IH Hdoc) as [em ->].
  destruct (Hflat c) as [_ Hc]; [apply elem_of_app; right; by left|].
  rewrite !List.filter_app, !fmap_app.
  set (ns := plain_node <$> List.filter is_node_cell doc).
  set (es := plain_edge <$> List.filter is_edge_cell doc). simpl.
  unfold third_step, is_edge_cell, is_node_cell.
  assert (is_processed (c_id c) (PState ns es ∅ em) = false) as ->.
  { unfold is_processed. destruct (c_id c); [|done]. simpl.
    apply bool_decide_eq_false. apply not_elem_of_empty. }
  rewrite Hc, andb_false_r. simpl.
  destruct (Js.is_lit (c_vertex c) "1" && negb (Js.is_lit (c_parent c) "0")); simpl.
  - unfold processNode, push_node. simpl. rewrite app_nil_r. by eexists.
  - destruct (Js.is_lit (c_edge c) "1"); simpl; rewrite ?app_nil_r; by eexists.
Qed.

Lemma flat_fourth doc st : flat doc -> foldl fourth_step st doc = st.
Proof.
  induction doc as [|c doc IH] using rev_ind; [done|].
  intros Hflat. rewrite foldl_app. simpl.
  rewrite IH by (intros d Hd; apply Hflat, elem_of_app; by left).
  destruct (Hflat c) as [_ Hc]; [apply elem_of_app; right; by left|].
  unfold fourth_step. by rewrite Hc, andb_false_r.
Qed.

Lemma flat_parse (doc : list cell) :
  flat doc ->
  parse_cells doc = (plain_node <$> List.filter is_node_cell doc,
                     plain_edge <$> List.filter is_edge_cell doc).
Proof.
  intros Hflat. unfold parse_cells.
  pose proof (flat_index doc Hflat) as Hgc.
  destruct (index_cells doc) as [m gc]. simpl in Hgc. subst gc. simpl.
  rewrite (flat_fourth _ _ Hflat). by destruct (flat_third m doc Hflat) as [em ->].
Qed.

(** X14: In a document without groups and labels of edges, every vertex that
    does not lie directly under the root cell becomes a node and every
    other cell marked as an edge becomes an edge, in document order;
    nothing else is in the result. *)
Theorem flat_document_parsed (doc : list cell) :
  flat doc ->
  parse_cells doc = (plain_node <$> List.filter is_node_cell doc,
                     plain_edge <$> List.filter is_edge_cell doc).
Proof. apply flat_parse. Qed.

End FlatDocuments.

(** ** The node ids [parseDrawioXML] builds *)

Section NodeIds.
Import DrawioParser.





End NodeIds.

(** ** The rows of the layout *)

Section Rows.
Import Layout.

Implicit Types (nodes : list mnode) (edges : list medge) (ids cur : list string)
  (layers : list (list string)) (visited : gset string)
  (adj : gmap string (list string)).

Lemma init_maps_lookup nodes id :
  id ∈ mn_id <$> nodes ->
  (init_maps nodes).1 !! id = Some [] ∧ (init_maps nodes).2 !! id = Some 0%nat.
Proof.
  unfold init_maps. induction nodes as [|n nodes IH] using rev_ind.
  - intros H. by apply elem_of_nil in H.
  - rewrite fmap_app, elem_of_app, foldl_app. simpl.
    destruct (foldl _ (∅, ∅) nodes) as [adjacency inDegree]. simpl in *.
    intros Hin. destruct (decide (id = mn_id n)) as [->|Hne].
    + by rewrite !lookup_insert_eq.
    + rewrite !lookup_insert_ne by done. apply IH.
      destruct Hin as [|Hin]; [done|]. by apply list_elem_of_singleton in Hin.
Qed.

Lemma in_concat_lookup {A} (x : A) (ls : list (list A)) :
  x ∈ List.concat ls ↔ ∃ j l, ls !! j = Some l ∧ x ∈ l.
Proof.
  rewrite list_elem_of_In, in_concat. split.
  - intros (l & Hl & Hx). apply list_elem_of_In, list_elem_of_lookup in Hl as [j Hj].
    exists j, l. by rewrite list_elem_of_In.
  - intros (j & l & Hj & Hx). exists l. rewrite <- !list_elem_of_In.
    split; [by eapply list_elem_of_lookup_2|done].
Qed.

(** What the two maps hold once the edges are read. *)
Lemma build_maps_spec nodes edges :
  (∀ id, is_Some ((build_maps nodes edges).1 !! id) ↔ id ∈ mn_id <$> nodes) ∧
  (∀ e, e ∈ edges -> me_source e ∈ mn_id <$> nodes -> me_target e ∈ mn_id <$> nodes ->
        ∃ out, (build_maps nodes edges).1 !! me_source e = Some out ∧ me_target e ∈ out) ∧
  (∀ id, id ∈ mn_id <$> nodes ->
         (∀ e, e ∈ edges -> me_source e ∈ mn_id <$> nodes -> me_target e <> id) ->
         (build_maps nodes edges).2 !! id = Some 0%nat).
Proof.
  unfold build_maps. induction edges as [|e edges IH] using rev_ind.
  - simpl. split_and!.
    + intros id. split; [apply init_maps_keys|].
      intros Hid. destruct (init_maps_lookup nodes id Hid) as [-> _]. by eexists.
    + intros e He. by apply elem_of_nil in He.
    + intros id Hid _. by destruct (init_maps_lookup nodes id Hid) as [_ ->].
  - rewrite foldl_app. simpl. destruct IH as (IHk & IHe & IHd).
    destruct (foldl add_edge (init_maps nodes) edges) as [adjacency inDegree]. simpl in *.
    unfold add_edge.
    destruct (adjacency !! me_source e) as [out|] eqn:Hs; simpl.
    2:{ split_and!; [done| |].
        - intros e' He' Hs' Ht'. apply elem_of_app in He' as [He'|He']; [by apply IHe|].
          apply list_elem_of_singleton in He' as ->. apply IHk in Hs' as [? ?]. congruence.
        - intros id Hid Hno. apply IHd; [done|]. intros e' He'. apply Hno, elem_of_app. by left. }
    destruct (adjacency !! me_target e) as [out'|] eqn:Ht; simpl.
    2:{ split_and!; [done| |].
        - intros e' He' Hs' Ht'. apply elem_of_app in He' as [He'|He']; [by apply IHe|].
          apply list_elem_of_singleton in He' as ->. apply IHk in Ht' as [? ?]. congruence.
        - intros id Hid Hno. apply IHd; [done|]. intros e' He'. apply Hno, elem_of_app. by left. }
    split_and!.
    + intros id. rewrite <- IHk. destruct (decide (id = me_source e)) as [->|Hne].
      * rewrite lookup_insert_eq, Hs. split; by eexists.
      * by rewrite lookup_insert_ne.
    + intros e' He' Hs' Ht'. apply elem_of_app in He' as [He'|He'].
      * destruct (IHe e' He' Hs' Ht') as (o & Ho & Hin).
        destruct (decide (me_source e' = me_source e)) as [Heq|Hne].
        -- rewrite Heq, lookup_insert_eq. eexists. split; [done|].
           rewrite Heq, Hs in Ho. injection Ho as <-. apply elem_of_app. by left.
        -- rewrite lookup_insert_ne by done. by exists o.
      * apply list_elem_of_singleton in He' as ->. rewrite lookup_insert_eq.
        eexists. split; [done|]. apply elem_of_app. right. by apply list_elem_of_singleton.
    + intros id Hid Hno. rewrite lookup_insert_ne.
      * apply IHd; [done|]. intros e' He'. apply Hno, elem_of_app. by left.
      * apply Hno.
        -- apply elem_of_app. right. by apply list_elem_of_singleton.
        -- apply IHk. by eexists.
Qed.

Lemma rows_ok_step ids adj layers cur visited :
  bfs_inv ids layers cur visited -> rows_ok adj layers cur ->
  rows_ok adj (layers ++ [cur]) (next_layer adj (visited ∪ list_to_set cur) cur).
Proof.
  intros [_ _ Hvis] Hrows j l u out v Hj Hu Hout Hv.
  destruct (next_layer_spec adj (visited ∪ list_to_set cur) cur) as [_ Hnel].
  destruct (decide (j < List.length layers)%nat) as [Hlt|Hge].
  - rewrite lookup_app_l in Hj by done.
    destruct (Hrows j l u out v Hj Hu Hout Hv) as [(j' & l' & ? & Hj' & ?)|[Hlast Hc]].
    + left. exists j', l'. split_and!; [done| |done]. by apply lookup_app_l_Some.
    + left. exists (List.length layers), cur. split_and!; [lia| |done].
      by rewrite list_lookup_middle.
  - assert (j = List.length layers) as ->.
    { apply lookup_lt_Some in Hj. rewrite length_app in Hj. simpl in Hj. lia. }
    rewrite list_lookup_middle in Hj by done. injection Hj as <-.
    destruct (decide (v ∈ visited ∪ list_to_set (C:=gset string) cur)) as [Hin|Hout'].
    + left. apply elem_of_union in Hin as [Hin|Hin].
      * apply Hvis, in_concat_lookup in Hin as (j' & l' & Hj' & Hin).
        exists j', l'. split_and!; [|by apply lookup_app_l_Some|done].
        apply lookup_lt_Some in Hj'. lia.
      * apply elem_of_list_to_set in Hin. exists (List.length layers), cur.
        split_and!; [lia| |done]. by rewrite list_lookup_middle.
    + right. split; [rewrite length_app; simpl; lia|].
      apply Hnel. split; [done|]. by exists u, out.
Qed.

Lemma bfs_rows ids adj :
  adj_ok ids adj ->
  ∀ fuel layers cur visited layers' visited',
    bfs_inv ids layers cur visited -> rows_ok adj layers cur ->
    bfs fuel adj cur layers visited = Some (layers', visited') ->
    rows_ok adj layers' [] ∧ bfs_inv ids layers' [] visited' ∧
    layers `prefix_of` layers' ∧ (cur <> [] -> layers ++ [cur] `prefix_of` layers').
Proof.
  intros Hadj fuel. induction fuel as [|fuel IH];
    intros layers cur visited layers' visited' Hinv Hrows.
  - destruct cur as [|c cur]; simpl; [|done]. intros [= <- <-]. done.
  - destruct cur as [|c cur]; [by intros [= <- <-]|]. cbn [bfs]. intros Hbfs.
    apply IH in Hbfs as (H1 & H2 & H3 & H4);
      [|by apply bfs_inv_step|by eapply rows_ok_step].
    split_and!; [done|done| |done].
    etrans; [|exact H3]. by apply prefix_app_r.
Qed.

Lemma add_remaining_spec nodes :
  ∀ layers visited,
    layers <> [] ->
    (foldl add_remaining (layers, visited) nodes).1
    = alter (fun l => l ++ List.filter (fun id => negb (bool_decide (id ∈ visited)))
                                       (mn_id <$> nodes))
            (List.length layers - 1) layers.
Proof.
  induction nodes as [|n nodes IH]; intros layers visited Hne; simpl.
  - apply list_eq. intros i. rewrite list_lookup_alter.
    destruct (decide _) as [<-|?]; [|done].
    destruct (layers !! _); simpl; by rewrite ?app_nil_r.
  - case_bool_decide as Hv; simpl; [by apply IH|].
    destruct layers as [|l0 ls]; [done|].
    rewrite IH by (intros E; apply (f_equal List.length) in E;
                   by rewrite length_alter in E).
    rewrite length_alter. apply list_eq. intros i. rewrite !list_lookup_alter.
    destruct (decide _) as [<-|?]; [|done].
    rewrite decide_True by done.
    destruct ((l0 :: ls) !! _); simpl; by rewrite <- ?app_assoc.
Qed.

Lemma lookup_alter_app {A} (ls : list (list A)) (extra : list A) (i j : nat) (l : list A) :
  ls !! j = Some l ->
  ∃ l', alter (fun l => l ++ extra) i ls !! j = Some l' ∧ ∀ x, x ∈ l -> x ∈ l'.
Proof.
  intros Hj. rewrite list_lookup_alter. destruct (decide (i = j)) as [->|?].
  - rewrite Hj. simpl. eexists. split; [reflexivity|]. intros x Hx. apply elem_of_app. by left.
  - by exists l.
Qed.

Lemma position_row layers j l (n : mnode) :
  NoDup (List.concat layers) -> layers !! j = Some l -> mn_id n ∈ l ->
  pn_y (position_node (positions_of layers) n) = layer_y j.
Proof.
  intros Hnd Hj Hin. apply list_elem_of_lookup in Hin as [ni Hni].
  unfold position_node. simpl. rewrite (positions_of_lookup _ _ _ _ _ Hnd Hj Hni). simpl.
  unfold DrawioWriter.nonzero_or, layer_y.
  destruct (Z.eqb_spec (50 + 120 * Z.of_nat j) 0); [lia|done].
Qed.

(** The layers as rows: the nodes no edge points at are in the first
    layer, and the target of an edge is in a layer no further than the one
    after the layer of its source. *)
Lemma layers_of_rows nodes edges :
  NoDup (mn_id <$> nodes) ->
  ∃ layers,
    layers_of nodes edges = Some layers ∧
    NoDup (List.concat layers) ∧
    (∀ n, n ∈ nodes -> mn_id n ∈ List.concat layers) ∧
    (∀ e j l,
       e ∈ edges -> me_target e ∈ mn_id <$> nodes ->
       layers !! j = Some l -> me_source e ∈ l ->
       ∃ j' l', (j' <= j + 1)%nat ∧ layers !! j' = Some l' ∧ me_target e ∈ l') ∧
    (∀ id,
       id ∈ mn_id <$> nodes ->
       (∀ e, e ∈ edges -> me_source e ∈ mn_id <$> nodes -> me_target e <> id) ->
       ∃ l, layers !! 0%nat = Some l ∧ id ∈ l).
Proof.
  intros Hnd.
  destruct (layers_of_partition nodes edges Hnd) as (layers & Hlayers & Hlnd & Hall).
  exists layers. split_and!; [done..| |].
  all: revert Hlayers; unfold layers_of;
       pose proof (build_maps_ok nodes edges) as Hadj;
       destruct (build_maps_spec nodes edges) as (Hkeys & Hout & Hdeg);
       destruct (build_maps nodes edges) as [adj deg]; simpl in Hadj, Hkeys, Hout, Hdeg;
       destruct (bfs (List.length nodes) adj (first_layer nodes deg) [] ∅)
         as [[bl visited]|] eqn:Hbfs; [|done]; simpl; intros [= Hlayers];
       destruct (bfs_rows _ _ Hadj _ _ _ _ _ _ (first_layer_inv nodes deg Hnd)
                   ltac:(by intros j l u out v Hj; rewrite lookup_nil in Hj) Hbfs)
         as (Hrows & [_ Hsub Hvis] & _ & Hfirst).
  - intros e j l He Ht Hj Hs.
    assert (me_source e ∈ mn_id <$> nodes) as Hsrc.
    { assert (me_source e ∈ List.concat layers) as Hc by (apply in_concat_lookup; eauto).
      rewrite <- Hlayers, add_remaining_concat in Hc. apply elem_of_app in Hc as [Hc|Hc].
      - apply Hsub. by rewrite app_nil_r.
      - by apply elem_of_List_filter in Hc as [_ Hc]. }
    destruct (Hout e He Hsrc Ht) as (out & Hadjs & Hin).
    assert (bl <> []) as Hbl.
    { intros ->. destruct nodes as [|n0 ns]; [by apply elem_of_nil in Hsrc|].
      assert (first_layer (n0 :: ns) deg <> []) as Hne.
      { unfold first_layer. by destruct (mn_id <$> List.filter _ _). }
      apply Hfirst in Hne. by apply prefix_nil_inv, app_eq_nil in Hne as [_ ?]. }
    rewrite add_remaining_spec in Hlayers by done. subst layers.
    rewrite list_lookup_alter in Hj.
    assert (is_Some (bl !! j) ∧
            (me_source e ∈ default [] (bl !! j) ∨ (j = List.length bl - 1)%nat)) as [[l0 Hl0] Hcase].
    { destruct (decide (List.length bl - 1 = j)%nat) as [->|?].
      - destruct (bl !! _) as [l0|] eqn:Hl0; [|done]. simpl in Hj. injection Hj as <-.
        split; [by eexists|]. by right.
      - split; [by eexists|]. left. by rewrite Hj. }
    destruct (decide (me_source e ∈ l0)) as [Hin0|Hnot].
    + destruct (Hrows j l0 _ out _ Hl0 Hin0 Hadjs Hin) as [(j' & l' & ? & Hj' & ?)|[_ Hnil]];
        [|by apply elem_of_nil in Hnil].
      destruct (lookup_alter_app bl (List.filter (fun id => negb (bool_decide (id ∈ visited))) (mn_id <$> nodes)) (List.length bl - 1) j' l' Hj') as (l'' & ? & Hsub'). exists j', l''. auto.
    + destruct Hcase as [Hcase| ->]; [by rewrite Hl0 in Hcase|].
      assert (me_target e ∈ List.concat (alter (fun l => l ++ List.filter
                (fun id => negb (bool_decide (id ∈ visited))) (mn_id <$> nodes))
                (List.length bl - 1) bl)) as Hc.
      { apply list_elem_of_fmap in Ht as (n & -> & Hn). by apply Hall. }
      apply in_concat_lookup in Hc as (j' & l' & Hj' & Hin').
      exists j', l'. split_and!; [|done..].
      apply lookup_lt_Some in Hj'. rewrite length_alter in Hj'. lia.
  - intros id Hid Hno. specialize (Hdeg id Hid Hno).
    apply list_elem_of_fmap in Hid as (n & -> & Hn).
    assert (mn_id n ∈ first_layer nodes deg) as Hroot.
    { unfold first_layer.
      assert (mn_id n ∈ mn_id <$> List.filter (fun n => bool_decide (deg !! mn_id n = Some 0%nat)) nodes)
        as Hr.
      { apply list_elem_of_fmap_2, elem_of_List_filter. split; [|done].
        by apply bool_decide_eq_true. }
      destruct (mn_id <$> List.filter _ nodes); [by apply elem_of_nil in Hr|done]. }
    assert (first_layer nodes deg <> []) as Hne.
    { intros E. rewrite E in Hroot. by apply elem_of_nil in Hroot. }
    destruct (Hfirst Hne) as [k Hk]. simpl in Hk.
    rewrite add_remaining_spec in Hlayers by (by rewrite Hk). subst layers.
    destruct (lookup_alter_app bl
                (List.filter (fun id => negb (bool_decide (id ∈ visited))) (mn_id <$> nodes))
                (List.length bl - 1) 0 (first_layer nodes deg)) as (l' & Hl' & Hsub');
      [by rewrite Hk|].
    exists l'. split; [done|]. by apply Hsub'.
Qed.

(** X19: An edge goes down by one row at most: its target is placed no lower
    than the row after the row of its source. *)
Theorem edge_spans_one_row (nodes : list mnode) (edges : list medge) :
  NoDup (mn_id <$> nodes) ->
  ∃ positioned,
    calculateNodePositions nodes edges = Some positioned ∧
    ∀ e p q,
      e ∈ edges -> p ∈ positioned -> q ∈ positioned ->
      mn_id (pn_node p) = me_source e -> mn_id (pn_node q) = me_target e ->
      (pn_y q <= pn_y p + 120)%Z.
Proof.
  intros Hnd.
  destruct (layers_of_rows nodes edges Hnd) as (layers & Hlayers & Hlnd & Hall & Hrows & _).
  exists (position_node (positions_of layers) <$> nodes). split.
  { unfold calculateNodePositions. by rewrite Hlayers. }
  intros e p q He Hp Hq Hps Hqt.
  apply list_elem_of_fmap in Hp as (n & -> & Hn). apply list_elem_of_fmap in Hq as (n' & -> & Hn').
  simpl in Hps, Hqt.
  pose proof (Hall n Hn) as Hin. apply in_concat_lookup in Hin as (j & l & Hj & Hin).
  destruct (Hrows e j l He) as (j' & l' & Hle & Hj' & Hin'); [|done|by rewrite <- Hps|].
  { rewrite <- Hqt. by apply list_elem_of_fmap_2. }
  rewrite (position_row layers j l n Hlnd Hj Hin).
  rewrite (position_row layers j' l' n' Hlnd Hj') by (by rewrite Hqt).
  unfold layer_y. lia.
Qed.

(** X20: A node that no edge points at is placed in the top row. *)
Theorem roots_on_top_row (nodes : list mnode) (edges : list medge) :
  NoDup (mn_id <$> nodes) ->
  ∃ positioned,
    calculateNodePositions nodes edges = Some positioned ∧
    ∀ p, p ∈ positioned ->
         (∀ e, e ∈ edges -> me_source e ∈ mn_id <$> nodes ->
               me_target e <> mn_id (pn_node p)) ->
         pn_y p = 50%Z.
Proof.
  intros Hnd.
  destruct (layers_of_rows nodes edges Hnd) as (layers & Hlayers & Hlnd & _ & _ & Htop).
  exists (position_node (positions_of layers) <$> nodes). split.
  { unfold calculateNodePositions. by rewrite Hlayers. }
  intros p Hp Hno. apply list_elem_of_fmap in Hp as (n & -> & Hn). simpl in Hno.
  destruct (Htop (mn_id n)) as (l & Hl & Hin); [by apply list_elem_of_fmap_2|done|].
  by rewrite (position_row layers 0 l n Hlnd Hl Hin).
Qed.

End Rows.

(** ** Comment lines *)

Section Comments.
Import MermaidParser.

Lemma split_nonempty sep a : Js.split sep a <> [].
Proof.
  destruct a as [|c a]; simpl; [done|].
  destruct (Ascii.eqb c sep); [done|]. by destruct (Js.split sep a).
Qed.

Lemma split_app sep a b :
  Js.split sep (a +:+ String sep b) = Js.split sep a ++ Js.split sep b.
Proof.
  induction a as [|c a IH]; simpl.
  - by rewrite Ascii.eqb_refl.
  - destruct (Ascii.eqb c sep); [by rewrite IH|].
    rewrite IH. pose proof (split_nonempty sep a). by destruct (Js.split sep a).
Qed.

Lemma content_lines_app a b :
  content_lines (a +:+ Js.newline +:+ b) = content_lines a ++ content_lines b.
Proof.
  unfold content_lines. change (Js.newline +:+ b) with (String "010" b).
  by rewrite split_app, fmap_app, List.filter_app.
Qed.

Lemma parse_by_lines now code code' :
  content_lines code = content_lines code' ->
  parseMermaidCode now code = parseMermaidCode now code'.
Proof. unfold parseMermaidCode. by intros ->. Qed.

(** X4: Lines that are blank or comments change nothing: a text [c] made of
    such lines only, put between two parts of a Mermaid text, gives the
    result of the text without it. *)
Theorem comment_lines_ignored (now : nat -> Z) (a c b : string) :
  content_lines c = [] ->
  parseMermaidCode now (a +:+ Js.newline +:+ c +:+ Js.newline +:+ b)
  = parseMermaidCode now (a +:+ Js.newline +:+ b).
Proof.
  intros Hc. apply parse_by_lines.
  rewrite !content_lines_app, Hc. done.
Qed.

End Comments.

(** ** Attributes written by [generateDrawioXML] *)

Section WrittenAttributes.
Import DrawioWriter.

Lemma append_cons x a b : String x a +:+ b = String x (a +:+ b).
Proof. reflexivity. Qed.

Lemma string_app_assoc (a b c : string) : (a +:+ b) +:+ c = a +:+ (b +:+ c).
Proof. induction a as [|x a IH]; [done|]. by rewrite !append_cons, IH. Qed.

Lemma replace_char_app c r a b :
  Js.replace_char c r (a +:+ b) = Js.replace_char c r a +:+ Js.replace_char c r b.
Proof.
  induction a as [|d a IH]; [done|]. rewrite append_cons. cbn [Js.replace_char].
  destruct (Ascii.eqb d c); rewrite IH; [by rewrite string_app_assoc|done].
Qed.

Lemma escapeXml_app a b : escapeXml (a +:+ b) = escapeXml a +:+ escapeXml b.
Proof. unfold escapeXml. by rewrite !replace_char_app. Qed.

(** What [escapeXml] makes of one character. *)
Lemma escapeXml_char c :
  escapeXml (String c "")
  = if Ascii.eqb c "&" then "&amp;"
    else if Ascii.eqb c "<" then "&lt;"
    else if Ascii.eqb c ">" then "&gt;"
    else if Ascii.eqb c "034" then "&quot;"
    else if Ascii.eqb c "'" then "&apos;"
    else String c "".
Proof.
  destruct (Ascii.eqb_spec c "&") as [->|H1]; [done|].
  destruct (Ascii.eqb_spec c "<") as [->|H2]; [done|].
  destruct (Ascii.eqb_spec c ">") as [->|H3]; [done|].
  destruct (Ascii.eqb_spec c "034") as [->|H4]; [done|].
  destruct (Ascii.eqb_spec c "'") as [->|H5]; [done|].
  apply Ascii.eqb_neq in H1, H2, H3, H4, H5.
  unfold escapeXml. cbn [Js.replace_char]. rewrite H1. cbn [Js.replace_char]. rewrite H2.
  cbn [Js.replace_char]. rewrite H3. cbn [Js.replace_char]. rewrite H4.
  cbn [Js.replace_char]. by rewrite H5.
Qed.

Lemma escapeXml_cons c t : escapeXml (String c t) = escapeXml (String c "") +:+ escapeXml t.
Proof. by rewrite <- escapeXml_app. Qed.

(** The reader on the five references [escapeXml] writes. *)
Lemma decode_references (x : string) :
  Dom.decode true 0 ("&amp;" +:+ x) = String "&" <$> Dom.decode true 0 x ∧
  Dom.decode true 0 ("&lt;" +:+ x) = String "<" <$> Dom.decode true 0 x ∧
  Dom.decode true 0 ("&gt;" +:+ x) = String ">" <$> Dom.decode true 0 x ∧
  Dom.decode true 0 ("&quot;" +:+ x) = String "034" <$> Dom.decode true 0 x ∧
  Dom.decode true 0 ("&apos;" +:+ x) = String "'" <$> Dom.decode true 0 x.
Proof. destruct x; repeat split; reflexivity. Qed.

Lemma decode_escapeXml s : Dom.decode true 0 (escapeXml s) = Some (attr_value s).
Proof.
  induction s as [|c t IH]; [done|]. rewrite escapeXml_cons, escapeXml_char.
  destruct (decode_references (escapeXml t)) as (Ha & Hl & Hg & Hq & Hp).
  destruct (Ascii.eqb_spec c "&") as [->|H1]; [by rewrite Ha, IH|].
  destruct (Ascii.eqb_spec c "<") as [->|H2]; [by rewrite Hl, IH|].
  destruct (Ascii.eqb_spec c ">") as [->|H3]; [by rewrite Hg, IH|].
  destruct (Ascii.eqb_spec c "034") as [->|H4]; [by rewrite Hq, IH|].
  destruct (Ascii.eqb_spec c "'") as [->|H5]; [by rewrite Hp, IH|].
  apply Ascii.eqb_neq in H1, H2. rewrite append_cons. cbn [Dom.decode attr_value].
  rewrite H1, H2. change ("" +:+ escapeXml t) with (escapeXml t). rewrite IH.
  by destruct (Dom.is_xml_space c).
Qed.

Lemma escapeXml_no_quote s :
  Js.forall_chars (fun d => negb (Ascii.eqb d "034")) (escapeXml s) = true.
Proof.
  unfold escapeXml. apply replace_char_keeps; [done|]. by apply replace_char_gone.
Qed.

Lemma substring_all s : String.substring 0 (String.length s) s = s.
Proof. induction s as [|c t IH]; simpl; [done|]. by rewrite IH. Qed.

Lemma split_at_quote v rest :
  Js.forall_chars (fun d => negb (Ascii.eqb d "034")) v = true ->
  Dom.split_at Dom.dq (v +:+ Dom.dq +:+ rest) = Some (v, rest).
Proof.
  induction v as [|c v IH]; intros Hv.
  - change ("" +:+ Dom.dq +:+ rest) with (String "034" rest). cbn [Dom.split_at].
    destruct rest; unfold Js.substring_from; simpl; [done|].
    by rewrite substring_all.
  - simpl in Hv. apply andb_true_iff in Hv as [Hc Hv]. apply negb_true_iff in Hc.
    rewrite append_cons. cbn [Dom.split_at]. unfold Dom.dq at 1. cbn [String.prefix].
    destruct (ascii_dec "034"%char c) as [<-|_]; [by rewrite Ascii.eqb_refl in Hc|].
    by rewrite (IH Hv).
Qed.



End WrittenAttributes.

(** ** The targets of flowchart edges *)

Section EdgeTargets.
Import Regex MermaidParser.

Lemma substring_cons n c s :
  String.substring 0 (S n) (String c s) = String c (String.substring 0 n s).
Proof. done. Qed.

Lemma substring_span p s : String.substring 0 (span p s) s = take_span p s.
Proof.
  induction s as [|c t IH]; [done|]. cbn [span take_span].
  destruct (p c); [|done]. by rewrite substring_cons, IH.
Qed.

(** An expression anchored at the start, a character of one class and
    any number of another in a group, matches at the start of the subject
    only and as much as it can. *)
Lemma exec_anchored_run (p1 p2 : ascii -> bool) s :
  exec (Cat Bol (Grp 1 (Cat (Cls p1) (Star (Cls p2))))) s
  = match s with
    | String c t =>
        if p1 c
        then Some (Found 0 (String c (take_span p2 t)) [(1%nat, String c (take_span p2 t))])
        else None
    | "" => None
    end.
Proof.
  unfold exec. destruct s as [|c t]; [done|].
  cbn [search]. unfold match_here.
  change (run (Cat Bol (Grp 1 (Cat (Cls p1) (Star (Cls p2))))) 0 (String c t) [] ?k)
    with (if p1 c
          then run (Star (Cls p2)) 1 t []
                 (fun pos' s' cs' =>
                    k pos' s' ((1%nat, Js.substring 0 (pos' - 0) (String c t)) :: cs'))
          else None).
  destruct (p1 c) eqn:Hc.
  - rewrite run_star_cls by (intros; by eexists).
    unfold Js.substring. rewrite !Nat.sub_0_r. cbn [Nat.add].
    by rewrite !substring_cons, !substring_span.
  - apply search_bol_later.
Qed.

Lemma exec_idRegex s : grp1 1 <$> exec idRegex s = head_word s.
Proof.
  unfold idRegex. cbn [seq]. rewrite exec_anchored_run.
  destruct s as [|c t]; [done|]. simpl. by destruct (Js.is_id_start c).
Qed.

Lemma exec_firstNodeRegex s m :
  exec firstNodeRegex s = Some m ->
  grp1 1 m = take_span (fun c => negb (edge_start c)) s.
Proof.
  unfold firstNodeRegex, Plus. cbn [seq]. rewrite exec_anchored_run.
  destruct s as [|c t]; [done|]. unfold edge_start.
  destruct (negb _) eqn:Hc; [|done]. intros [= <-]. cbn. by rewrite Hc.
Qed.

Lemma word_no_space c : Js.is_word c = true -> Js.is_space c = false.
Proof. intros H. by apply negb_true_iff, word_not_space. Qed.

Lemma take_word_trimEnd t :
  take_span Js.is_word (Js.trimEnd t) = take_span Js.is_word t.
Proof.
  induction t as [|d u IH]; [done|]. cbn [Js.trimEnd take_span].
  destruct (Js.is_word d) eqn:Hd.
  - rewrite (word_no_space d Hd).
    destruct (Js.trimEnd u) eqn:Hu; cbn [take_span]; rewrite Hd, <- IH; done.
  - destruct (Js.trimEnd u); [destruct (Js.is_space d)|]; cbn [take_span]; by rewrite ?Hd.
Qed.

Lemma id_start_word c : Js.is_id_start c = true -> Js.is_word c = true.
Proof.
  unfold Js.is_id_start, Js.is_word. intros [->| ->]%orb_true_iff; [done|].
  by rewrite orb_true_r.
Qed.

Lemma head_word_trimEnd s : head_word (Js.trimEnd s) = head_word s.
Proof.
  destruct s as [|c t]; [done|]. cbn [Js.trimEnd head_word].
  destruct (Js.is_id_start c) eqn:Hc.
  - rewrite (word_no_space c (id_start_word c Hc)).
    destruct (Js.trimEnd t) eqn:Ht; cbn [head_word]; rewrite Hc, <- (take_word_trimEnd t), Ht; done.
  - destruct (Js.trimEnd t); [destruct (Js.is_space c)|]; cbn [head_word]; by rewrite ?Hc.
Qed.

Lemma head_word_trim s : head_word (Js.trim s) = head_word (Js.trimStart s).
Proof. apply head_word_trimEnd. Qed.

(** A text that begins with an identifier is not blank. *)
Lemma head_word_truthy s w : head_word s = Some w -> Js.truthy (Js.trim s) = true.
Proof.
  destruct s as [|c t]; [done|]. cbn [head_word].
  destruct (Js.is_id_start c) eqn:Hc; [|done]. intros _.
  unfold Js.trim. cbn [Js.trimStart].
  rewrite (word_no_space c (id_start_word c Hc)). cbn [Js.trimEnd].
  rewrite (word_no_space c (id_start_word c Hc)). by destruct (Js.trimEnd t).
Qed.

Lemma take_word_cut (q : ascii -> bool) t k :
  (∀ c, Js.is_word c = true -> q c = true) ->
  (span q t <= k)%nat ->
  take_span Js.is_word (String.substring 0 k t) = take_span Js.is_word (take_span q t).
Proof.
  intros Hq. revert k. induction t as [|d u IH]; intros k Hk.
  - by destruct k.
  - cbn [span take_span] in *. destruct (q d) eqn:Hd.
    + destruct k as [|k]; [lia|]. rewrite substring_cons. cbn [take_span].
      destruct (Js.is_word d); [|done]. rewrite IH by lia. done.
    + destruct k as [|k]; [done|]. rewrite substring_cons. cbn [take_span].
      destruct (Js.is_word d) eqn:Hw; [|done]. apply Hq in Hw. congruence.
Qed.

(** The identifier at the start of a line stays the same when the line is
    cut anywhere after its first run of characters of the class [q]. *)
Lemma head_word_cut (q : ascii -> bool) s k w :
  (∀ c, Js.is_word c = true -> q c = true) ->
  (span q s <= k)%nat ->
  head_word (Js.trimStart (take_span q s)) = Some w ->
  head_word (Js.trimStart (String.substring 0 k s)) = Some w.
Proof.
  intros Hq. revert k. induction s as [|c t IH]; intros k Hk; [done|].
  cbn [span take_span] in *. destruct (q c) eqn:Hc; [|done].
  destruct k as [|k]; [lia|]. rewrite substring_cons. cbn [Js.trimStart].
  destruct (Js.is_space c); [apply IH; lia|].
  cbn [head_word]. destruct (Js.is_id_start c); [|done].
  by rewrite (take_word_cut q t k Hq) by lia.
Qed.

Lemma search_leading (p : ascii -> bool) (r : re) :
  leading p r ->
  ∀ s pos m,
    search r pos s = Some m ->
    (pos + span (fun c => negb (p c)) s <= index m)%nat.
Proof.
  intros Hl. induction s as [|d t IH]; intros pos m; cbn [search].
  - unfold match_here. by rewrite (run_leading p r Hl).
  - destruct (match_here r pos (String d t)) as [m'|] eqn:Hm.
    + intros [= ->]. cbn [span]. destruct (p d) eqn:Hd.
      * apply match_here_bounds in Hm as [-> _]. simpl. lia.
      * unfold match_here in Hm. by rewrite (run_leading p r Hl) in Hm.
    + intros Hs. apply IH in Hs. cbn [span]. destruct (p d); simpl; lia.
Qed.

Lemma edge_patterns_leading p :
  p ∈ edgePatterns -> leading edge_start (ep_regex p).
Proof.
  intros Hp. unfold edgePatterns in Hp.
  repeat (apply elem_of_cons in Hp as [-> | Hp]; [by vm_compute|]).
  by apply elem_of_nil in Hp.
Qed.

(** A node read without the clock carries the identifier its text begins
    with, and a text that begins with an identifier is read without the
    clock. *)
Lemma node_id_read now part nps t n :
  parseNodeFromPart now part nps t = (Some n, t) -> head_word part = Some (mn_id n).
Proof.
  unfold parseNodeFromPart. destruct (negb (Js.truthy (Js.trim part))); [done|].
  rewrite <- exec_idRegex.
  destruct (first_pattern nps part) as [[m sh]|];
    destruct (exec idRegex part) as [idm|]; unfold bind, ret, date_now; simpl;
    try done; try (by intros [= <-]).
  intros [= _ Ht]. lia.
Qed.

Lemma node_id_found now part nps t w :
  head_word part = Some w ->
  ∃ n, parseNodeFromPart now part nps t = (Some n, t) ∧ mn_id n = w.
Proof.
  intros Hw. unfold parseNodeFromPart. rewrite (head_word_truthy part w Hw).
  pose proof (exec_idRegex part) as Hid. rewrite Hw in Hid.
  destruct (exec idRegex part) as [idm|]; [|done]. injection Hid as Hid.
  destruct (first_pattern nps part) as [[m sh]|]; unfold bind, ret; simpl;
    eexists; (split; [reflexivity|done]).
Qed.

Lemma resolved_more nodes nodes' edges :
  (∀ x, x ∈ mn_id <$> nodes -> x ∈ mn_id <$> nodes') ->
  resolved nodes edges -> resolved nodes' edges.
Proof. intros Hsub H e He. destruct (H e He). split; by apply Hsub. Qed.

Lemma resolved_push nodes edges e :
  resolved nodes edges ->
  me_source e ∈ mn_id <$> nodes -> me_target e ∈ mn_id <$> nodes ->
  resolved nodes (edges ++ [e]).
Proof.
  intros H Hs Ht e' [He'|He']%elem_of_app; [by apply H|].
  by apply list_elem_of_singleton in He' as ->.
Qed.

Lemma register_nodes n st :
  fs_edges (register n st) = fs_edges st ∧
  mn_id n ∈ mn_id <$> fs_nodes (register n st) ∧
  (∀ x, x ∈ mn_id <$> fs_nodes st -> x ∈ mn_id <$> fs_nodes (register n st)).
Proof.
  unfold register, has_node. case_bool_decide as Hin; [done|].
  replace (fs_nodes (push_to_current _ _)) with (fs_nodes st ++ [n])
    by (unfold push_to_current; simpl; by destruct (fs_current st)).
  replace (fs_edges (push_to_current _ _)) with (fs_edges st)
    by (unfold push_to_current; simpl; by destruct (fs_current st)).
  rewrite fmap_app. split_and!; [done| |].
  - apply elem_of_app. right. by apply list_elem_of_singleton.
  - intros x Hx. apply elem_of_app. by left.
Qed.

Lemma register_opt_nodes n st :
  fs_edges (register_opt n st) = fs_edges st ∧
  (∀ m, n = Some m -> mn_id m ∈ mn_id <$> fs_nodes (register_opt n st)) ∧
  (∀ x, x ∈ mn_id <$> fs_nodes st -> x ∈ mn_id <$> fs_nodes (register_opt n st)).
Proof.
  destruct n as [n|]; simpl; [|done].
  destruct (register_nodes n st) as (? & ? & ?). split_and!; [done| |done].
  by intros m [= <-].
Qed.

Lemma scan_none_no_edge line :
  scan_edges edgePatterns line = None ->
  existsb (fun p => test (ep_regex p) line) edgePatterns = false.
Proof.
  intros Hs. pose proof (scan_edges_spec edgePatterns line) as H. rewrite Hs in H.
  simpl in H. apply not_true_iff_false. intros (p & Hp & Ht)%existsb_exists.
  apply list_elem_of_In in Hp. unfold test in Ht. rewrite (H p Hp) in Ht.
  apply bool_decide_eq_true in Ht. by destruct Ht.
Qed.

Lemma scan_hit_after_head line hit :
  scan_edges edgePatterns line = Some hit ->
  (span (fun c => negb (edge_start c)) line <= eh_index hit)%nat.
Proof.
  intros Hs. pose proof (scan_edges_spec edgePatterns line) as H. rewrite Hs in H.
  destruct H as (i & p & m & Hi & Hm & -> & _). simpl.
  apply list_elem_of_lookup_2 in Hi.
  apply (search_leading edge_start _ (edge_patterns_leading p Hi)) in Hm. lia.
Qed.

Lemma word_not_edge_start c : Js.is_word c = true -> negb (edge_start c) = true.
Proof. destruct c as [[] [] [] [] [] [] [] []]; by vm_compute. Qed.

(** A line read without the clock leaves both ends of every edge among the
    nodes; when the line holds an edge, the identifier it begins with is
    one of the nodes. *)
Lemma line_resolves now fuel :
  ∀ line st t st',
    parseFlowchartLine now fuel line nodePatterns edgePatterns st t = (Some st', t) ->
    resolved (fs_nodes st) (fs_edges st) ->
    resolved (fs_nodes st') (fs_edges st') ∧
    (∀ x, x ∈ mn_id <$> fs_nodes st -> x ∈ mn_id <$> fs_nodes st') ∧
    (existsb (fun p => test (ep_regex p) line) edgePatterns = true ->
     ∀ w, head_word (Js.trim (take_span (fun c => negb (edge_start c)) line)) = Some w ->
          w ∈ mn_id <$> fs_nodes st').
Proof.
  induction fuel as [|fuel IH]; intros line st t st'; [done|].
  cbn [parseFlowchartLine].
  destruct (scan_edges edgePatterns line) as [hit|] eqn:Hscan.
  - unfold bind at 1.
    destruct (parseNodeFromPart now _ nodePatterns t) as [sourceNode t1] eqn:Hsrc.
    unfold bind at 1.
    destruct (parseChainedTargets _ _ _ _ _ _ t1) as [r t2] eqn:Hch.
    pose proof (proj1 (quiet_parseNodeFromPart
                         (Js.trim (Js.substring 0 (eh_index hit) line)) nodePatterns now t))
      as Hm1.
    cbv beta in Hm1. rewrite Hsrc in Hm1. simpl in Hm1.
    pose proof (proj1 (quiet_parseChainedTargets
                         (fun now part st =>
                            parseFlowchartLine now fuel part nodePatterns edgePatterns st)
                         (Js.trim (Js.substring_from (eh_index hit + eh_length hit) line))
                         nodePatterns edgePatterns (register_opt sourceNode st)
                         (fun part st => quiet_parseFlowchartLine fuel part _ _ st) now t1))
      as Hm2.
    cbv beta in Hm2. rewrite Hch in Hm2. simpl in Hm2.
    intros Hres Hst.
    assert (t2 = t ∧ ∃ tns st2, r = Some (tns, st2)) as [-> (tns & st2 & ->)].
    { destruct r as [[tns st2]|]; [|by inversion Hres].
      split; [|by eauto]. destruct sourceNode, tns; by inversion Hres. }
    assert (t1 = t) as -> by lia. clear Hm1 Hm2.
    destruct (register_opt_nodes sourceNode st) as (He1 & Hin1 & Hsub1).
    set (st1 := register_opt sourceNode st) in *.
    assert (resolved (fs_nodes st1) (fs_edges st1)) as Hst1.
    { rewrite He1. by eapply resolved_more. }
    (* the targets *)
    assert (resolved (fs_nodes st2) (fs_edges st2) ∧
            (∀ x, x ∈ mn_id <$> fs_nodes st1 -> x ∈ mn_id <$> fs_nodes st2) ∧
            (∀ n, head tns = Some n -> mn_id n ∈ mn_id <$> fs_nodes st2))
      as (Hst2 & Hsub2 & Htgt).
    { revert Hch. unfold parseChainedTargets.
      set (part := Js.trim (Js.substring_from (eh_index hit + eh_length hit) line)).
      destruct (existsb _ edgePatterns) eqn:Hmore.
      - unfold bind at 1.
        destruct (parseFlowchartLine now fuel part _ _ st1 t) as [r' t'] eqn:Hrec.
        pose proof (proj1 (quiet_parseFlowchartLine fuel part nodePatterns edgePatterns
                             st1 now t)) as Hm3.
        cbv beta in Hm3. rewrite Hrec in Hm3. simpl in Hm3.
        destruct r' as [st3|]; [|by intros [=]].
        destruct (exec firstNodeRegex part) as [m|] eqn:Hfirst.
        + unfold bind, ret.
          destruct (parseNodeFromPart now (Js.trim (grp1 1 m)) nodePatterns t')
            as [n t''] eqn:Hn.
          pose proof (proj1 (quiet_parseNodeFromPart (Js.trim (grp1 1 m)) nodePatterns
                               now t')) as Hm4.
          cbv beta in Hm4. rewrite Hn in Hm4. simpl in Hm4.
          intros [= <- <- ->]. assert (t' = t) as -> by lia.
          destruct (IH part st1 t st3 Hrec Hst1) as (H3 & Hsub3 & Hhead).
          split_and!; [done|done|].
          intros n' Hn'. destruct n as [n|]; [|done]. injection Hn' as <-.
          apply node_id_read in Hn. rewrite (exec_firstNodeRegex part m Hfirst) in Hn.
          by apply Hhead.
        + unfold ret. intros [= <- <- ->].
          destruct (IH part st1 t st3 Hrec Hst1) as (H3 & Hsub3 & _).
          by split_and!.
      - unfold bind, ret.
        destruct (parseNodeFromPart now part nodePatterns t) as [n t'] eqn:Hn.
        intros [= <- <- ->].
        destruct (register_opt_nodes n st1) as (He2 & Hin2 & Hsub2).
        split_and!.
        + rewrite He2. by eapply resolved_more.
        + done.
        + intros n' Hn'. destruct n as [n|]; [|done]. injection Hn' as <-. by apply Hin2. }
    assert (∀ x, x ∈ mn_id <$> fs_nodes st -> x ∈ mn_id <$> fs_nodes st2) as Hsub
      by (intros; by apply Hsub2, Hsub1).
    assert (∀ w, head_word (Js.trim (take_span (fun c => negb (edge_start c)) line))
                 = Some w -> w ∈ mn_id <$> fs_nodes st2) as Hhead.
    { intros w Hw. rewrite head_word_trim in Hw.
      apply (head_word_cut _ line (eh_index hit) w word_not_edge_start
               (scan_hit_after_head line hit Hscan)) in Hw.
      rewrite <- head_word_trim in Hw.
      destruct (node_id_found now _ nodePatterns t w Hw) as (n & Hn & <-).
      unfold Js.substring in Hsrc. rewrite Nat.sub_0_r in Hsrc.
      rewrite Hn in Hsrc. injection Hsrc as <-. by apply Hsub2, Hin1. }
    destruct sourceNode as [src|], tns as [|tgt tns]; unfold ret in Hres;
      injection Hres as <-; try (by split_and!).
    split_and!; [|done|by intros _].
    simpl. apply resolved_push; [done| |]; simpl.
    + by apply Hsub2, Hin1.
    + by apply Htgt.
  - unfold bind, ret.
    destruct (parseNodeFromPart now line nodePatterns t) as [n t'] eqn:Hn.
    intros [= <- ->] Hst.
    destruct (register_opt_nodes n st) as (He & Hin & Hsub).
    split_and!.
    + rewrite He. by eapply resolved_more.
    + done.
    + intros Hex. by rewrite (scan_none_no_edge line Hscan) in Hex.
Qed.

Lemma step_resolves now line st t st' :
  flowchart_step now line st t = (Some st', t) ->
  resolved (fs_nodes st) (fs_edges st) -> resolved (fs_nodes st') (fs_edges st').
Proof.
  unfold flowchart_step, ret.
  destruct (test directionRegex line); [by intros [= <-]|].
  destruct (Js.startsWith line "subgraph").
  { destruct (exec subgraphRegex line); by intros [= <-]. }
  destruct (String.eqb line "end"); [by intros [= <-]|].
  intros H Hst. by destruct (line_resolves now _ line st t st' H Hst).
Qed.

Lemma loop_resolves now lines :
  ∀ st t st',
    flowchart_loop now lines st t = (Some st', t) ->
    resolved (fs_nodes st) (fs_edges st) -> resolved (fs_nodes st') (fs_edges st').
Proof.
  induction lines as [|l ls IH]; intros st t st'; cbn [flowchart_loop].
  - unfold ret. by intros [= <-].
  - unfold bind. destruct (flowchart_step now l st t) as [r t1] eqn:Hstep.
    pose proof (proj1 (quiet_flowchart_loop [l] st now t)) as Hm1.
    cbv beta in Hm1. cbn [flowchart_loop] in Hm1. unfold bind in Hm1.
    rewrite Hstep in Hm1.
    destruct r as [st1|]; [|by intros [=]]. unfold ret in Hm1. simpl in Hm1.
    intros Hloop Hst.
    pose proof (proj1 (quiet_flowchart_loop ls st1 now t1)) as Hm2.
    cbv beta in Hm2. rewrite Hloop in Hm2. simpl in Hm2.
    assert (t1 = t) as -> by lia.
    eapply IH; [exact Hloop|]. by eapply step_resolves.
Qed.

Lemma diagram_edges_ok now code t t' g :
  parseMermaidCode now code t = (Some (Ok g), t') ->
  mg_type g = sequence ∨ mg_type g = class_diagram ->
  resolved (mg_nodes g) (mg_edges g).
Proof.
  apply (parse_inv_diagrams resolved).
  - intros nodes edges n HI _ e He. rewrite fmap_app, !elem_of_app.
    destruct (HI e He). by split; left.
  - intros nodes edges src tgt label type HI Hsrc Htgt e He.
    apply elem_of_app in He as [He|He]; [by apply HI|].
    apply list_elem_of_singleton in He as ->. done.
  - intros e He. by apply elem_of_nil in He.
Qed.

Lemma parse_resolves now code t g :
  parseMermaidCode now code t = (Some (Ok g), t) -> resolved (mg_nodes g) (mg_edges g).
Proof.
  intros H. pose proof (diagram_edges_ok now code t t g H) as Hd.
  revert H. unfold parseMermaidCode.
  destruct (content_lines code) as [|first rest]; [done|].
  assert (∀ dt,
            bind (parseFlowchart now (first :: rest))
              (fun r => ret ((fun '(nodes, edges, subgraphs) =>
                 Ok (MermaidGraph nodes edges subgraphs dt)) <$> r)) t
            = (Some (Ok g), t) -> resolved (mg_nodes g) (mg_edges g)) as Hflow.
  { intros dt. unfold parseFlowchart, bind, ret. simpl.
    destruct (flowchart_loop now rest _ t) as [[st|] t1] eqn:Hloop; simpl; [|done].
    intros [= <- ->]. simpl. eapply loop_resolves; [exact Hloop|].
    intros e He. by apply elem_of_nil in He. }
  destruct (detect_type (Js.toLowerCase first)); try (exact (Hflow _)).
  - unfold ret. intros [= <-]. apply Hd. by left.
  - unfold ret. intros [= <-]. apply Hd. by right.
Qed.

(** X7: when [parseMermaidCode] had no identifier to make up, and so did
    not read the clock, both ends of every edge of the graph it returns
    are nodes of the graph. *)
Theorem edges_resolve_without_clock (now : nat -> Z) (code : string) (t : nat)
    (g : mermaid_graph) :
  parseMermaidCode now code t = (Some (Ok g), t) ->
  ∀ e, e ∈ mg_edges g ->
       me_source e ∈ mn_id <$> mg_nodes g ∧ me_target e ∈ mn_id <$> mg_nodes g.
Proof. apply parse_resolves. Qed.

Lemma edges_resolve_without_clock_witness :
  resolved (mg_nodes chain_graph) (mg_edges chain_graph).
Proof.
  unfold resolved.
  apply (edges_resolve_without_clock frozen_clock chain_input 0 chain_graph).
  by vm_compute.
Defined.

Lemma filter_all {A} (f : A -> bool) (l : list A) :
  (∀ x, x ∈ l -> f x = true) -> List.filter f l = l.
Proof.
  induction l as [|x l IH]; intros H; simpl; [done|].
  rewrite (H x) by apply list_elem_of_here.
  f_equal. apply IH. intros y Hy. apply H. by apply list_elem_of_further.
Qed.

(** X8: when the conversion of a Mermaid text read no clock, the XML it
    returns is written from the placed nodes and all the edges of the
    parsed graph: no edge is filtered out. *)
Theorem convert_keeps_edges (now : nat -> Z) (code : string) (t : nat) (xml : string) :
  convertMermaidToDrawio now code t = (Some (Ok xml), t) ->
  ∃ g positioned,
    parseMermaidCode now code t = (Some (Ok g), t) ∧
    Layout.calculateNodePositions (mg_nodes g) (mg_edges g) = Some positioned ∧
    xml = DrawioWriter.generateDrawioXML positioned (mg_edges g).
Proof.
  unfold convertMermaidToDrawio, bind, ret.
  destruct (parseMermaidCode now code t) as [r t1] eqn:Hp. intros [= Hr ->].
  destruct r as [[g|msg]|]; [|done|done].
  destruct (mg_nodes g) as [|n ns] eqn:Hn; [done|]. rewrite <- Hn in Hr.
  destruct (Layout.calculateNodePositions (mg_nodes g) (mg_edges g)) as [positioned|] eqn:Hc;
    [|done].
  simpl in Hr. injection Hr as <-. exists g, positioned. split_and!; [done|done|].
  f_equal. apply filter_all. intros e He.
  unfold Layout.calculateNodePositions in Hc.
  destruct (Layout.layers_of _ _) as [layers|]; [|done]. simpl in Hc. injection Hc as <-.
  rewrite <- list_fmap_compose.
  destruct (parse_resolves now code t g Hp e He) as [Hs Ht].
  apply andb_true_iff. split; apply bool_decide_eq_true; [exact Hs|exact Ht].
Qed.

Lemma convert_keeps_edges_witness :
  ∃ g positioned,
    parseMermaidCode frozen_clock chain_input 0 = (Some (Ok g), 0%nat) ∧
    Layout.calculateNodePositions (mg_nodes g) (mg_edges g) = Some positioned ∧
    fst (convertMermaidToDrawio frozen_clock chain_input 0)
    = Some (Ok (DrawioWriter.generateDrawioXML positioned (mg_edges g))).
Proof.
  destruct (convert_keeps_edges frozen_clock chain_input 0
              (match fst (convertMermaidToDrawio frozen_clock chain_input 0) with
               | Some (Ok xml) => xml
               | _ => ""
               end)) as (g & positioned & Hp & Hc & Hx).
  - by vm_compute.
  - exists g, positioned. split_and!; [done|done|]. rewrite <- Hx. by vm_compute.
Defined.

End EdgeTargets.

(** ** Reading back what [generateDrawioXML] wrote *)

(** *** The XML reader on the text of a tree *)

Section Reader.
Import Dom.

Variable ea et : string -> string.

Lemma append_nil_l s : "" +:+ s = s.
Proof. done. Qed.

Lemma append_nil_r s : s +:+ "" = s.
Proof. induction s as [|c s IH]; [done|]. by rewrite append_cons, IH. Qed.

Lemma length_app a b : String.length (a +:+ b) = (String.length a + String.length b)%nat.
Proof. induction a as [|c a IH]; [done|]. rewrite append_cons. simpl. by rewrite IH. Qed.

Lemma concat_cons x xs : String.concat "" (x :: xs) = x +:+ String.concat "" xs.
Proof. destruct xs; [by rewrite append_nil_r|done]. Qed.

Lemma prefix_app p x : String.prefix p (p +:+ x) = true.
Proof.
  induction p as [|c p IH]; [by destruct x|]. rewrite append_cons. cbn [String.prefix].
  by destruct (ascii_dec c c).
Qed.

Lemma after_app p x : after p (p +:+ x) = Some x.
Proof.
  unfold after. rewrite prefix_app.
  f_equal. unfold Js.substring_from. rewrite length_app.
  replace (String.length p + String.length x - String.length p)%nat
    with (String.length x) by lia.
  induction p as [|c p IH]; [apply substring_all|]. by rewrite append_cons.
Qed.

Lemma after_other c d p x : c <> d -> after (String c p) (String d x) = None.
Proof.
  intros Hcd. unfold after. cbn [String.prefix]. by destruct (ascii_dec c d).
Qed.

Lemma take_while_stop p name r :
  Js.forall_chars p name = true ->
  match r with String c _ => p c = false | "" => True end ->
  take_while p (name +:+ r) = (name, r).
Proof.
  intros Hn Hr. induction name as [|c name IH].
  - rewrite append_nil_l. destruct r as [|c r]; [done|]. cbn [take_while]. by rewrite Hr.
  - simpl in Hn. apply andb_true_iff in Hn as [Hc Hn].
    rewrite append_cons. cbn [take_while]. by rewrite Hc, (IH Hn).
Qed.

Lemma skip_space_id s :
  match s with String c _ => is_xml_space c = false | "" => True end -> skip_space s = s.
Proof. unfold skip_space. destruct s as [|c s]; [done|]. cbn [take_while]. by intros ->. Qed.

Lemma split_at_dq v rest :
  Js.forall_chars (fun d => negb (Ascii.eqb d "034")) v = true ->
  split_at dq (v +:+ String "034" rest) = Some (v, rest).
Proof. apply split_at_quote. Qed.

(** One written attribute is read as its name and its value. *)
Lemma parse_attr_written name raw v rest :
  name_ok name = true ->
  Js.forall_chars (fun d => negb (Ascii.eqb d "034")) raw = true ->
  decode true 0 raw = Some v ->
  parse_attr (name +:+ String "=" (String "034" (raw +:+ String "034" rest)))
  = Some (name, v, rest).
Proof.
  intros [Hne Hname]%andb_true_iff Hraw Hv. unfold parse_attr.
  rewrite (take_while_stop is_name_char name) by done.
  rewrite Hne. cbn [negb].
  rewrite (skip_space_id (String "=" _)) by done.
  rewrite (after_app "=" _) || (change (String "=" ?x) with ("=" +:+ x); rewrite after_app).
  cbn [mbind option_bind].
  rewrite (skip_space_id (String "034" _)) by done.
  change (String "034" ?x) with (dq +:+ x) at 1. rewrite after_app.
  rewrite (split_at_dq raw rest Hraw). cbn [mbind option_bind]. by rewrite Hv.
Qed.

Lemma name_char_facts c :
  is_name_char c = true ->
  is_xml_space c = false ∧ c <> ">"%char ∧ c <> "/"%char ∧ c <> "!"%char ∧ c <> "?"%char ∧
  c <> "<"%char ∧ c <> "="%char.
Proof. destruct c as [[] [] [] [] [] [] [] []]; by vm_compute. Qed.

Lemma eqb_cons_self c x : String.eqb x (String c x) = false.
Proof.
  apply String.eqb_neq. intros H. apply (f_equal String.length) in H. simpl in H. lia.
Qed.

Lemma attrs_text_cons kv attrs : attrs_text ea (kv :: attrs) = attr_text ea kv +:+ attrs_text ea attrs.
Proof. unfold attrs_text. cbn [List.map]. apply concat_cons. Qed.

Lemma attr_text_app kv x :
  attr_text ea kv +:+ x
  = String " " (fst kv +:+ String "=" (String "034" (ea (snd kv) +:+ String "034" x))).
Proof.
  unfold attr_text. by rewrite !string_app_assoc, !append_cons, !append_nil_l.
Qed.

Lemma parse_attrs_written attrs :
  ∀ fuel closed rest,
    (List.length attrs < fuel)%nat ->
    forallb (attr_ok ea) attrs = true -> NoDup (List.map fst attrs) ->
    parse_attrs fuel (attrs_text ea attrs +:+ closing closed +:+ rest)
    = Some (List.map (fun kv => (fst kv, read_attr ea (snd kv))) attrs, closed, rest).
Proof.
  induction attrs as [|[name v] attrs IH]; intros fuel closed rest Hfuel Hok Hnd;
    (destruct fuel as [|fuel]; [simpl in Hfuel; lia|]); cbn [parse_attrs].
  - unfold attrs_text. cbn [List.map String.concat]. rewrite append_nil_l.
    destruct closed; unfold closing; rewrite !append_cons, append_nil_l.
    + rewrite skip_space_id by done. rewrite after_other by done.
      change (String "/" (String ">" rest)) with ("/>" +:+ rest). by rewrite after_app.
    + rewrite skip_space_id by done.
      change (String ">" rest) with (">" +:+ rest). by rewrite after_app.
  - cbn [forallb] in Hok. apply andb_true_iff in Hok as [Hkv Hok].
    unfold attr_ok in Hkv. cbn [fst snd] in Hkv.
    apply andb_true_iff in Hkv as [[Hname Hraw]%andb_true_iff Hdec].
    apply bool_decide_eq_true in Hdec as [v' Hdec].
    cbn [List.map] in Hnd. apply NoDup_cons in Hnd as [Hnin Hnd].
    rewrite attrs_text_cons, string_app_assoc, attr_text_app. cbn [fst snd].
    pose proof Hname as [Hne Hchars]%andb_true_iff.
    destruct name as [|c name]; [done|]. cbn [Js.forall_chars] in Hchars.
    apply andb_true_iff in Hchars as [Hc _].
    destruct (name_char_facts c Hc) as (Hsp & Hgt & Hsl & _).
    rewrite append_cons.
    assert (skip_space (String " " (String c (name +:+ String "="
              (String "034" (ea v +:+ String "034"
                 (attrs_text ea attrs +:+ closing closed +:+ rest))))))
            = String c (name +:+ String "="
              (String "034" (ea v +:+ String "034"
                 (attrs_text ea attrs +:+ closing closed +:+ rest))))) as ->.
    { unfold skip_space. cbn [take_while]. change (is_xml_space " ") with true.
      cbn iota. cbn [take_while]. by rewrite Hsp. }
    rewrite !after_other by done. rewrite eqb_cons_self.
    rewrite <- append_cons.
    rewrite (parse_attr_written (String c name) (ea v) v' _ Hname Hraw Hdec).
    cbn [mbind option_bind].
    rewrite (IH fuel closed rest) by (simpl in Hfuel; first [lia | done]).
    cbn [mbind option_bind fst snd List.map].
    rewrite bool_decide_eq_false_2.
    + unfold read_attr. by rewrite Hdec.
    + assert ((List.map (fun kv => (fst kv, read_attr ea (snd kv))) attrs).*1
              = List.map fst attrs) as ->.
      { clear. induction attrs as [|kv attrs IH]; [done|]. simpl. by rewrite <- IH. }
      done.
Qed.

Lemma print_list_cons n ns : print_list ea et (n :: ns) = print ea et n +:+ print_list ea et ns.
Proof. unfold print_list. cbn [List.map]. apply concat_cons. Qed.

Lemma attrs_text_length attrs x :
  (List.length attrs <= String.length (attrs_text ea attrs +:+ x))%nat.
Proof.
  induction attrs as [|kv attrs IH]; simpl; [lia|].
  rewrite attrs_text_cons, string_app_assoc, attr_text_app. simpl.
  rewrite !length_app. simpl. rewrite !length_app. simpl. lia.
Qed.

(** What follows a tag name in a start tag is no character of a name. *)
Lemma attrs_text_head attrs closed x :
  match attrs_text ea attrs +:+ closing closed +:+ x with
  | String c _ => is_name_char c = false
  | "" => True
  end.
Proof.
  destruct attrs as [|kv attrs].
  - unfold attrs_text. simpl. by destruct closed.
  - by rewrite attrs_text_cons, string_app_assoc, attr_text_app.
Qed.

(** The text of an element, followed by [x]. *)
Lemma print_element tag attrs children x :
  print ea et (Element tag attrs children) +:+ x
  = String "<" (tag +:+ attrs_text ea attrs +:+
      match children with
      | [] => closing true +:+ x
      | _ => closing false +:+ print_list ea et children +:+
             String "<" (String "/" (tag +:+ String ">" x))
      end).
Proof.
  cbn [print]. fold (print_list ea et children).
  destruct children; unfold closing;
    by rewrite !string_app_assoc, !append_cons, !append_nil_l, ?string_app_assoc,
         ?append_cons, ?append_nil_l.
Qed.

(** After a text node comes an element or the end. *)
Lemma spaced_opens d ns rest :
  spaced (TextNode d :: ns) = true -> closes rest ->
  match print_list ea et ns +:+ rest with
  | String c _ => (fun d => negb (Ascii.eqb d "<")) c = false
  | "" => True
  end.
Proof.
  intros Hsp Hrest. destruct ns as [|n ns].
  - unfold print_list. simpl. destruct Hrest as [->|Hp]; [done|].
    destruct rest as [|c rest]; [done|]. cbn [String.prefix] in Hp.
    by destruct (ascii_dec "<" c) as [<-|].
  - cbn [spaced is_text andb negb] in Hsp. destruct n as [tag attrs children|d']; [|done].
    by rewrite print_list_cons, string_app_assoc, print_element.
Qed.

Lemma head_not_lt d x :
  Js.truthy d = true -> Js.forall_chars (fun c => negb (Ascii.eqb c "<")) d = true ->
  ∃ c r, d +:+ x = String c r ∧ c <> "<"%char.
Proof.
  destruct d as [|c d]; [done|]. intros _ [Hc _]%andb_true_iff.
  exists c, (d +:+ x). split; [done|]. intros ->. done.
Qed.

(** A start tag is no end tag, comment or processing instruction. *)
Lemma start_tag tag x :
  name_ok tag = true ->
  Js.truthy (String "<" (tag +:+ x)) = true ∧
  String.prefix "</" (String "<" (tag +:+ x)) = false ∧
  after "<!--" (String "<" (tag +:+ x)) = None ∧
  after "<?" (String "<" (tag +:+ x)) = None.
Proof.
  intros [Hne Hchars]%andb_true_iff. destruct tag as [|c tag]; [done|].
  cbn [Js.forall_chars] in Hchars. apply andb_true_iff in Hchars as [Hc _].
  destruct (name_char_facts c Hc) as (_ & _ & Hsl & Hbang & Hq & _).
  rewrite append_cons. unfold after. cbn [String.prefix Js.truthy].
  destruct (ascii_dec "<" "<"); [|done].
  destruct (ascii_dec "/" c) as [<-|]; [done|].
  destruct (ascii_dec "!" c) as [<-|]; [done|].
  by destruct (ascii_dec "?" c) as [<-|].
Qed.

Lemma after_lt x : after "<" (String "<" x) = Some x.
Proof. apply (after_app "<" x). Qed.

Ltac lens H :=
  unfold closing in H;
  repeat first [ rewrite length_app in H | rewrite length_app
               | progress cbn [String.length] in H | progress cbn [String.length] ].

(** The reader on the text of a list of tidy trees: it reads the trees
    and stops where they end. *)
Lemma parse_nodes_written :
  ∀ fuel ns rest,
    (String.length (print_list ea et ns +:+ rest) < fuel)%nat ->
    forallb (tidy ea et) ns = true -> spaced ns = true -> closes rest ->
    parse_nodes fuel (print_list ea et ns +:+ rest) = Some (List.map (read ea et) ns, rest).
Proof.
  induction fuel as [|fuel IH]; intros ns rest Hfuel Hns Hsp Hrest; [lia|].
  cbn [parse_nodes]. destruct ns as [|n ns].
  { unfold print_list. cbn [List.map String.concat]. rewrite append_nil_l.
    destruct Hrest as [->|Hp]; [done|].
    destruct rest as [|c rest]; [done|]. cbn [Js.truthy negb]. by rewrite Hp. }
  cbn [forallb] in Hns. apply andb_true_iff in Hns as [Hn Hns].
  assert (spaced ns = true) as Hsp'.
  { cbn [spaced] in Hsp. by apply andb_true_iff in Hsp as [_ ?]. }
  rewrite print_list_cons, string_app_assoc in *.
  destruct n as [tag attrs children|d].
  - (* an element *)
    cbn [tidy] in Hn.
    apply andb_true_iff in Hn as [[[[Htag Hattrs]%andb_true_iff Hnd]%andb_true_iff
                                     Hch]%andb_true_iff Hspch].
    apply bool_decide_eq_true in Hnd.
    rewrite print_element in *.
    pose proof Htag as [Hne Hchars]%andb_true_iff.
    cbn [Js.truthy negb].
    match goal with
    | |- context [String.prefix "</" (String "<" (tag +:+ ?x))] =>
        destruct (start_tag tag x Htag) as (_ & Hp1 & Hp2 & Hp3)
    end.
    rewrite Hp1, Hp2, Hp3, after_lt.
    rewrite (take_while_stop is_name_char tag)
      by (first [done | by destruct children; apply attrs_text_head]).
    rewrite Hne. cbn [negb].
    destruct children as [|ch children].
    + rewrite (parse_attrs_written attrs _ true) by
        (first [done | pose proof (attrs_text_length attrs
                        (closing true +:+ print_list ea et ns +:+ rest)); lia]).
      cbn [mbind option_bind].
      rewrite (IH ns rest); [done| |done..]. lens Hfuel. lia.
    + rewrite (parse_attrs_written attrs _ false) by
        (first [done | pose proof (attrs_text_length attrs
                  (closing false +:+ print_list ea et (ch :: children) +:+
                   String "<" (String "/" (tag +:+
                     String ">" (print_list ea et ns +:+ rest))))); lia]).
      cbn [mbind option_bind].
      rewrite (IH (ch :: children)); [|lens Hfuel; lia|done|done|right; apply (prefix_app "</")].
      cbn [mbind option_bind].
      change (String "<" (String "/" ?x)) with ("</" +:+ x). rewrite after_app.
      cbn [mbind option_bind].
      rewrite (take_while_stop is_name_char tag) by done.
      rewrite skip_space_id by done.
      change (String ">" ?x) with (">" +:+ x). rewrite after_app.
      cbn [mbind option_bind]. rewrite String.eqb_refl.
      rewrite (IH ns rest); [done| |done..]. lens Hfuel. lia.
  - (* character data *)
    cbn [tidy print] in *.
    apply andb_true_iff in Hn as [[Hne Hlt]%andb_true_iff Hdec].
    apply bool_decide_eq_true in Hdec as [text Hdec].
    pose proof (spaced_opens d ns rest Hsp Hrest) as Hopen.
    destruct (head_not_lt (et d) (print_list ea et ns +:+ rest) Hne Hlt) as (c & r & Hs & Hc).
    rewrite Hs. cbn [Js.truthy negb String.prefix].
    destruct (ascii_dec "<" c) as [<-|_]; [done|].
    rewrite !after_other by done. rewrite <- Hs.
    rewrite (take_while_stop _ (et d)) by done.
    rewrite Hdec. cbn [mbind option_bind].
    rewrite (IH ns rest); [|
      rewrite length_app in Hfuel; destruct (et d); [done|]; simpl in Hfuel; lia
      |done..].
    cbn [mbind option_bind List.map read]. unfold read_text. by rewrite Hdec.
Qed.

(** A document written from a tidy element is read as the tree of that
    element. *)
Lemma parse_written tag attrs children :
  tidy ea et (Element tag attrs children) = true ->
  parseFromString (print ea et (Element tag attrs children))
  = read ea et (Element tag attrs children).
Proof.
  intros Ht. unfold parseFromString.
  pose proof (parse_nodes_written
                (S (String.length (print ea et (Element tag attrs children))))
                [Element tag attrs children] "") as H.
  unfold print_list in H. cbn [List.map String.concat] in H. rewrite append_nil_r in H.
  rewrite H; [done|lia| |done|by left].
  cbn [forallb]. by rewrite Ht.
Qed.

End Reader.

(** *** What the serializer escapes *)

Section Escapes.
Import Dom.

Lemma escape_attr_app a b : escape_attr (a +:+ b) = escape_attr a +:+ escape_attr b.
Proof. unfold escape_attr, escape_text. by rewrite !replace_char_app. Qed.

Lemma escape_attr_char c :
  escape_attr (String c "")
  = if Ascii.eqb c "&" then "&amp;"
    else if Ascii.eqb c "<" then "&lt;"
    else if Ascii.eqb c ">" then "&gt;"
    else if Ascii.eqb c "034" then "&quot;"
    else String c "".
Proof.
  destruct (Ascii.eqb_spec c "&") as [->|H1]; [done|].
  destruct (Ascii.eqb_spec c "<") as [->|H2]; [done|].
  destruct (Ascii.eqb_spec c ">") as [->|H3]; [done|].
  destruct (Ascii.eqb_spec c "034") as [->|H4]; [done|].
  apply Ascii.eqb_neq in H1, H2, H3, H4.
  unfold escape_attr, escape_text. cbn [Js.replace_char]. rewrite H1. cbn [Js.replace_char].
  rewrite H2. cbn [Js.replace_char]. rewrite H3. cbn [Js.replace_char]. by rewrite H4.
Qed.

Lemma escape_attr_cons c t :
  escape_attr (String c t) = escape_attr (String c "") +:+ escape_attr t.
Proof. by rewrite <- escape_attr_app. Qed.

(** What [serializeToString] writes for an attribute value is read back
    as the value, tabs and line ends as spaces. *)
Lemma decode_escape_attr s : decode true 0 (escape_attr s) = Some (attr_value s).
Proof.
  induction s as [|c t IH]; [done|]. rewrite escape_attr_cons, escape_attr_char.
  destruct (decode_references (escape_attr t)) as (Ha & Hl & Hg & Hq & _).
  destruct (Ascii.eqb_spec c "&") as [->|H1]; [by rewrite Ha, IH|].
  destruct (Ascii.eqb_spec c "<") as [->|H2]; [by rewrite Hl, IH|].
  destruct (Ascii.eqb_spec c ">") as [->|H3]; [by rewrite Hg, IH|].
  destruct (Ascii.eqb_spec c "034") as [->|H4]; [by rewrite Hq, IH|].
  apply Ascii.eqb_neq in H1, H2. rewrite append_cons. cbn [decode attr_value].
  rewrite H1, H2. rewrite append_nil_l, IH.
  by destruct (is_xml_space c).
Qed.

Lemma escape_attr_no_quote s :
  Js.forall_chars (fun d => negb (Ascii.eqb d "034")) (escape_attr s) = true.
Proof. unfold escape_attr. by apply replace_char_gone. Qed.

Lemma attr_ok_serialized name v : attr_ok escape_attr (name, v) = name_ok name.
Proof.
  unfold attr_ok. cbn [fst snd]. rewrite escape_attr_no_quote, decode_escape_attr.
  rewrite bool_decide_eq_true_2 by (by eexists). by rewrite !andb_true_r.
Qed.

Lemma read_attr_serialized v : read_attr escape_attr v = attr_value v.
Proof. unfold read_attr. by rewrite decode_escape_attr. Qed.

End Escapes.

(** *** Numbers and plain texts *)

Section Numbers.
Import Dom.

Lemma number_value_digits s : number_value 10 s = digits_value 0 s.
Proof. reflexivity. Qed.

Lemma pretty_char_digit x :
  (x < 10)%N ->
  Js.is_digit (pretty_N_char x) = true ∧ hex_digit (pretty_N_char x) = N.to_nat x.
Proof.
  intros Hx.
  assert (x = 0 ∨ x = 1 ∨ x = 2 ∨ x = 3 ∨ x = 4 ∨ x = 5 ∨ x = 6 ∨ x = 7 ∨ x = 8 ∨ x = 9)%N
    as H by lia.
  repeat (destruct H as [->|H]; [by vm_compute|]). subst. by vm_compute.
Qed.

Lemma pretty_go_digits x :
  ∀ s, Js.forall_chars Js.is_digit s = true ->
       Js.forall_chars Js.is_digit (pretty_N_go x s) = true ∧
       (s <> "" -> pretty_N_go x s <> "") ∧
       digits_value 0 (pretty_N_go x s) = digits_value (N.to_nat x) s.
Proof.
  induction (N.lt_wf_0 x) as [x _ IH]. intros s Hs.
  assert (x = 0 ∨ 0 < x)%N as [->|Hx] by lia; [by rewrite pretty_N_go_0|].
  rewrite pretty_N_go_step by done.
  destruct (pretty_char_digit (x `mod` 10)) as [Hd Hv]; [by apply N.mod_lt|].
  destruct (IH (x `div` 10)%N) with (s := String (pretty_N_char (x `mod` 10)) s)
    as (H1 & H2 & H3).
  { by apply N.div_lt. }
  { cbn [Js.forall_chars]. by rewrite Hd, Hs. }
  split_and!; [done|by intros _; apply H2|].
  rewrite H3. cbn [digits_value]. rewrite Hv. f_equal.
  pose proof (N.div_mod x 10). lia.
Qed.

Lemma pretty_N_read (n : N) :
  Js.forall_chars Js.is_digit (pretty n) = true ∧ pretty n <> "" ∧
  digits_value 0 (pretty n) = N.to_nat n.
Proof.
  unfold pretty, pretty_N. case_decide as Hn; [by subst|].
  assert (0 < n)%N as Hpos by lia.
  rewrite pretty_N_go_step by done.
  destruct (pretty_char_digit (n `mod` 10)) as [Hd Hv]; [by apply N.mod_lt|].
  destruct (pretty_go_digits (n `div` 10)%N (String (pretty_N_char (n `mod` 10)) ""))
    as (H1 & H2 & H3).
  { cbn [Js.forall_chars]. by rewrite Hd. }
  split_and!; [done|by apply H2|].
  rewrite H3. cbn [digits_value]. rewrite Hv. pose proof (N.div_mod n 10). lia.
Qed.

Lemma take_while_all p s : Js.forall_chars p s = true -> take_while p s = (s, "").
Proof.
  intros H. rewrite <- (append_nil_r s) at 1. by apply take_while_stop.
Qed.

Lemma digit_facts c :
  Js.is_digit c = true ->
  Js.is_space c = false ∧ c <> "-"%char ∧ c <> "+"%char ∧ plain_attr_char c = true.
Proof. destruct c as [[] [] [] [] [] [] [] []]; by vm_compute. Qed.

Lemma parseFloat_digits s :
  s <> "" -> Js.forall_chars Js.is_digit s = true ->
  parseFloat (Some s) = Some (Z.of_nat (digits_value 0 s)) ∧
  parseFloat (Some ("-" +:+ s)) = Some (- Z.of_nat (digits_value 0 s))%Z.
Proof.
  intros Hne Hs. destruct s as [|c t]; [done|].
  pose proof Hs as [Hc _]%andb_true_iff.
  destruct (digit_facts c Hc) as (Hsp & Hm & Hp & _).
  unfold parseFloat. rewrite append_cons, append_nil_l. cbn [Js.trimStart].
  rewrite Hsp. change (Js.is_space "-") with false. cbn iota.
  rewrite (take_while_all _ _ Hs). split; [|done].
  assert (∀ (A : Type) (f g : string -> A) (h : A),
            (match String c t with
             | String "-" u => f u
             | String "+" u => g u
             | _ => h
             end) = h) as Hmatch.
  { intros A f g h. clear -Hm Hp. destruct c as [[] [] [] [] [] [] [] []]; done. }
  rewrite (Hmatch _ (fun u => (true, u)) (fun u => (false, u)) (false, String c t)).
  by rewrite (take_while_all _ _ Hs).
Qed.

(** A number written in decimal is read back by [parseFloat]. *)
Lemma parseFloat_pretty (z : Z) : parseFloat (Some (pretty z)) = Some z.
Proof.
  destruct z as [|p|p]; [done| |]; unfold pretty, pretty_Z, pretty, pretty_positive;
    destruct (pretty_N_read (N.pos p)) as (Hd & Hne & Hv);
    destruct (parseFloat_digits _ Hne Hd) as [Hpos Hneg].
  - rewrite Hpos, Hv. f_equal. lia.
  - rewrite Hneg, Hv. f_equal. lia.
Qed.

Lemma plain_char_facts c :
  plain_attr_char c = true ->
  c <> "034"%char ∧ c <> "&"%char ∧ c <> "<"%char ∧
  (if is_xml_space c then " "%char else c) = c.
Proof. destruct c as [[] [] [] [] [] [] [] []]; by vm_compute. Qed.

(** A plain text is written into an attribute and read back as it is. *)
Lemma plain_text_read s :
  plain_text s ->
  Js.forall_chars (fun d => negb (Ascii.eqb d "034")) s = true ∧
  decode true 0 s = Some s ∧ attr_value s = s.
Proof.
  unfold plain_text. induction s as [|c t IH]; [done|]. cbn [Js.forall_chars].
  intros [Hc Ht]%andb_true_iff. destruct (IH Ht) as (H1 & H2 & H3).
  destruct (plain_char_facts c Hc) as (Hq & Ha & Hl & Hs).
  cbn [decode attr_value]. rewrite H1, H2, H3, Hs.
  apply Ascii.eqb_neq in Hq, Ha, Hl. rewrite Hq, Ha, Hl. cbn [negb andb].
  split_and!; [done| |done]. destruct (is_xml_space c); cbn in *; by rewrite ?Hs.
Qed.

Lemma pretty_Z_plain (z : Z) : plain_text (pretty z).
Proof.
  assert (∀ s, Js.forall_chars Js.is_digit s = true -> plain_text s) as Hdig.
  { intros s Hs. unfold plain_text. eapply forall_chars_impl; [|exact Hs].
    intros c Hc. by destruct (digit_facts c Hc) as (_ & _ & _ & ?). }
  destruct z as [|p|p]; [done| |]; unfold pretty, pretty_Z, pretty, pretty_positive;
    destruct (pretty_N_read (N.pos p)) as (Hd & _ & _).
  - by apply Hdig.
  - unfold plain_text. rewrite append_cons, append_nil_l. cbn [Js.forall_chars].
    by rewrite (Hdig _ Hd).
Qed.

Lemma pretty_nat_plain (n : nat) : plain_text (pretty n).
Proof.
  unfold pretty, pretty_nat. destruct (pretty_N_read (N.of_nat n)) as (Hd & _ & _).
  unfold plain_text. eapply forall_chars_impl; [|exact Hd].
  intros c Hc. by destruct (digit_facts c Hc) as (_ & _ & _ & ?).
Qed.

End Numbers.

(** *** The text of the file *)

Section GeneratedText.
Import Dom DrawioParser DrawioWriter.

Ltac norm := rewrite ?string_app_assoc, ?append_cons, ?append_nil_l.

Lemma node_cell_print i p : node_cell i p = print same same (node_el escapeXml i p).
Proof.
  unfold node_cell, node_el, gap, attr, dquote, same, Js.newline.
  cbn [print List.map String.concat fst snd]. unfold attrs_text, attr_text.
  cbn [List.map String.concat fst snd].
  norm. reflexivity.
Qed.

Lemma edge_cell_print i e : edge_cell i e = print same same (edge_el escapeXml i e).
Proof.
  unfold edge_cell, edge_el, gap, attr, dquote, same, Js.newline.
  cbn [print List.map String.concat fst snd]. unfold attrs_text, attr_text.
  cbn [List.map String.concat fst snd].
  norm. reflexivity.
Qed.

Lemma cells_text nodes edges :
  ["<mxCell " +:+ attr "id" "0" +:+ "/>";
   "<mxCell " +:+ attr "id" "1" +:+ " " +:+ attr "parent" "0" +:+ "/>"]
  ++ imap node_cell nodes ++ imap edge_cell edges
  = print same same <$> cell_els escapeXml nodes edges.
Proof.
  unfold cell_els. rewrite !fmap_app, !fmap_imap.
  apply (f_equal2 app); [done|]. apply (f_equal2 app).
  - apply imap_ext. intros i p _. apply node_cell_print.
  - apply imap_ext. intros i e _. apply edge_cell_print.
Qed.

(** The cells joined by line ends are the text of the children of the
    [root] element. *)
Lemma spread_text (ea et : string -> string) c cs x :
  et (Js.newline +:+ "    ") = Js.newline +:+ "    " ->
  et (Js.newline +:+ "  ") = Js.newline +:+ "  " ->
  String "010" (String " " (String " " (String " " (String " "
    (Js.join (Js.newline +:+ "    ") (print ea et <$> c :: cs) +:+
     String "010" (String " " (String " " x)))))))
  = print_list ea et (spread (c :: cs)) +:+ x.
Proof.
  intros H4 H2. revert c. induction cs as [|c' cs IH]; intros c.
  - cbn [spread foldr fmap list_fmap]. rewrite !print_list_cons. unfold print_list.
    cbn [List.map String.concat print gap]. rewrite H4, H2. unfold Js.join, Js.newline.
    cbn [String.concat].
    by norm.
  - change (spread (c :: c' :: cs)) with (gap "    " :: c :: spread (c' :: cs)).
    rewrite (print_list_cons ea et (gap "    ")), (print_list_cons ea et c).
    rewrite !string_app_assoc. rewrite <- IH.
    cbn [print gap]. rewrite H4. unfold Js.join, Js.newline.
    cbn [fmap list_fmap String.concat].
    by norm.
Qed.

(** The file [generateDrawioXML] writes is the text of the tree [file_el]
    with the labels escaped. *)
Lemma generated_text nodes edges :
  generateDrawioXML nodes edges = print same same (file_el escapeXml nodes edges).
Proof.
  unfold generateDrawioXML. rewrite cells_text.
  unfold file_el, model_el, cell_els, root_els. cbn [app].
  set (c0 := Element "mxCell" [("id", "0")] []).
  set (cs := Element "mxCell" [("id", "1"); ("parent", "0")] []
             :: imap (node_el escapeXml) nodes ++ imap (edge_el escapeXml) edges).
  pose proof (fun x => spread_text same same c0 cs x eq_refl eq_refl) as Hsp.
  set (R := Element "root" [] (spread (c0 :: cs))).
  assert (∀ x, print same same R +:+ x
               = "<root>" +:+ print_list same same (spread (c0 :: cs)) +:+ "</root>" +:+ x)
    as HR.
  { intros x. unfold R. rewrite print_element.
    change (spread (c0 :: cs)) with (gap "    " :: c0 :: spread cs).
    unfold closing, attrs_text. cbn [List.map String.concat].
    by norm. }
  clearbody R.
  remember (print_list same same (spread (c0 :: cs))) as K eqn:HK.
  remember (Js.join (Js.newline +:+ "    ") (print same same <$> c0 :: cs)) as J eqn:HJ.
  clear HK HJ. clearbody c0 cs.
  cbn [print List.map String.concat fst snd]. unfold attrs_text, attr_text.
  cbn [List.map String.concat fst snd].
  unfold gap, attr, dquote, same, Js.newline.
  cbn [print].
  norm. rewrite HR. norm. rewrite Hsp.
  by norm.
Qed.

End GeneratedText.

(** *** The two readings of the tree *)

Section Passes.
Import Dom DrawioParser DrawioWriter.

(** One reading of the written tree: values are written through [ea],
    character data through [et], the labels stand in the tree as [f] of
    them and are read as [g] of them. *)
Variable ea et f g : string -> string.
Hypothesis plain_ok :
  ∀ name v, name_ok name = true -> plain_text v -> attr_ok ea (name, v) = true.
Hypothesis plain_read : ∀ v, plain_text v -> read_attr ea v = v.
Hypothesis label_ok : ∀ name v, name_ok name = true -> attr_ok ea (name, f v) = true.
Hypothesis label_read : ∀ v, read_attr ea (f v) = g v.
Hypothesis gap_ok :
  ∀ indent, indent ∈ [""; "  "; "    "; "      "] ->
            tidy ea et (gap indent) = true ∧ read ea et (gap indent) = gap indent.

Ltac solve_elem := repeat first [apply list_elem_of_here | apply list_elem_of_further].

Lemma plain_app a b : plain_text a -> plain_text b -> plain_text (a +:+ b).
Proof. unfold plain_text. intros Ha Hb. by rewrite forall_chars_app, Ha, Hb. Qed.

Lemma style_plain sh : plain_text (getStyleForShape sh).
Proof. destruct sh; by vm_compute. Qed.

Lemma node_id_plain (i : nat) id :
  plain_text id -> plain_text (Js.or_else id ("node_" +:+ pretty i)).
Proof.
  intros Hid. unfold Js.or_else. destruct (Js.truthy id); [done|].
  apply plain_app; [done|apply pretty_nat_plain].
Qed.

Lemma edge_id_plain (i : nat) id :
  plain_text id -> plain_text (Js.or_else id ("edge_" +:+ pretty i)).
Proof.
  intros Hid. unfold Js.or_else. destruct (Js.truthy id); [done|].
  apply plain_app; [done|apply pretty_nat_plain].
Qed.

Lemma node_el_pass i p :
  plain_text (mn_id (pn_node p)) ->
  tidy ea et (node_el f i p) = true ∧ read ea et (node_el f i p) = node_el g i p.
Proof.
  intros Hid. pose proof (node_id_plain i _ Hid) as Hid'.
  destruct (gap_ok "      ") as [Ht6 Hr6]; [solve_elem|].
  destruct (gap_ok "    ") as [Ht4 Hr4]; [solve_elem|].
  unfold node_el. split.
  - cbn [tidy forallb List.map fst spaced is_text negb andb].
    rewrite Ht6, Ht4, label_ok by done.
    rewrite !plain_ok by first [done | apply Hid' | apply style_plain | apply pretty_Z_plain].
    cbn [andb]. by vm_compute.
  - cbn [read List.map fst snd]. rewrite Hr6, Hr4, label_read.
    by rewrite !plain_read
      by first [done | apply Hid' | apply style_plain | apply pretty_Z_plain].
Qed.

Lemma edge_el_pass i e :
  plain_text (me_id e) -> plain_text (me_source e) -> plain_text (me_target e) ->
  tidy ea et (edge_el f i e) = true ∧ read ea et (edge_el f i e) = edge_el g i e.
Proof.
  intros Hid Hs Ht. pose proof (edge_id_plain i _ Hid) as Hid'.
  destruct (gap_ok "      ") as [Ht6 Hr6]; [solve_elem|].
  destruct (gap_ok "    ") as [Ht4 Hr4]; [solve_elem|].
  unfold edge_el. split.
  - cbn [tidy forallb List.map fst spaced is_text negb andb].
    rewrite Ht6, Ht4, label_ok by done.
    rewrite !plain_ok by first [done | apply Hid'].
    cbn [andb]. by vm_compute.
  - cbn [read List.map fst snd]. rewrite Hr6, Hr4, label_read.
    by rewrite !plain_read by first [done | apply Hid'].
Qed.

Lemma spread_pass cs cs' :
  Forall2 (passes ea et) cs cs' ->
  forallb (tidy ea et) (spread cs) = true ∧ spaced (spread cs) = true ∧
  List.map (read ea et) (spread cs) = spread cs' ∧
  head (spread cs) = Some (gap (match cs with [] => "  " | _ => "    " end)).
Proof.
  destruct (gap_ok "  ") as [Ht2 Hr2]; [solve_elem|].
  destruct (gap_ok "    ") as [Ht4 Hr4]; [solve_elem|].
  induction 1 as [|c c' cs cs' (Hc & Hr & Ht) _ (IH1 & IH2 & IH3 & IH4)].
  - cbn [spread foldr forallb spaced List.map]. by rewrite Ht2, Hr2.
  - change (spread (c :: cs)) with (gap "    " :: c :: spread cs).
    change (spread (c' :: cs')) with (gap "    " :: c' :: spread cs').
    cbn [forallb spaced List.map head]. rewrite Ht4, Hr4, Hc, Hr, IH1, IH2, IH3, Ht.
    by split_and!.
Qed.

Lemma imap_passes {A} (h h' : nat -> A -> node) (l : list A) :
  (∀ i x, x ∈ l -> passes ea et (h i x) (h' i x)) -> Forall2 (passes ea et) (imap h l) (imap h' l).
Proof.
  intros H. apply Forall2_same_length_lookup_2.
  - by rewrite !length_imap.
  - intros i c c'. rewrite !list_lookup_imap.
    destruct (l !! i) as [x|] eqn:Hx; [|done]. intros [= <-] [= <-].
    apply H. by eapply list_elem_of_lookup_2.
Qed.

Lemma cell_els_pass nodes edges :
  writable nodes edges ->
  Forall2 (passes ea et) (cell_els f nodes edges) (cell_els g nodes edges).
Proof.
  intros [Hn _ He Hends _]. unfold cell_els. repeat apply Forall2_app.
  - unfold root_els.
    repeat constructor; cbn [tidy read forallb List.map fst snd spaced is_text];
      rewrite ?plain_ok, ?plain_read by done; by vm_compute.
  - apply imap_passes. intros i p Hp.
    destruct (node_el_pass i p (Hn p Hp)) as [? ?]. by split_and!.
  - apply imap_passes. intros i e Hin. destruct (Hends e Hin) as [Hs Ht].
    destruct (edge_el_pass i e (He e Hin) Hs Ht) as [? ?]. by split_and!.
Qed.

Lemma model_el_pass nodes edges :
  writable nodes edges ->
  tidy ea et (model_el f nodes edges) = true ∧
  read ea et (model_el f nodes edges) = model_el g nodes edges.
Proof.
  intros Hw. destruct (spread_pass _ _ (cell_els_pass nodes edges Hw)) as (H1 & H2 & H3 & _).
  destruct (gap_ok "  ") as [Ht2 Hr2]; [solve_elem|].
  destruct (gap_ok "") as [Ht0 Hr0]; [solve_elem|].
  unfold model_el. split.
  - cbn [tidy forallb List.map fst spaced is_text negb andb]. rewrite Ht2, Ht0, H1, H2.
    by vm_compute.
  - cbn [read List.map]. by rewrite Hr2, Hr0, H3.
Qed.

Lemma file_el_pass nodes edges :
  writable nodes edges ->
  tidy ea et (file_el f nodes edges) = true ∧
  read ea et (file_el f nodes edges) = file_el g nodes edges.
Proof.
  intros Hw. destruct (model_el_pass nodes edges Hw) as [Hm Hr].
  destruct (gap_ok "  ") as [Ht2 Hr2]; [solve_elem|].
  destruct (gap_ok "    ") as [Ht4 Hr4]; [solve_elem|].
  destruct (gap_ok "") as [Ht0 Hr0]; [solve_elem|].
  unfold file_el. split.
  - cbn [tidy forallb List.map fst spaced negb andb]. rewrite Ht2, Ht0, Ht4, Hm.
    rewrite !plain_ok by done. unfold model_el. by vm_compute.
  - cbn [read List.map fst snd]. rewrite Hr2, Hr0, Hr4, Hr. by rewrite !plain_read.
Qed.

End Passes.

Section TwoReadings.
Import Dom DrawioParser DrawioWriter.

Ltac solve_elem := repeat first [apply list_elem_of_here | apply list_elem_of_further].

Lemma attr_value_fixed v : attr_value (attr_value v) = attr_value v.
Proof.
  induction v as [|c t IH]; [done|]. cbn [attr_value]. rewrite IH.
  destruct (is_xml_space c) eqn:E; [done|by rewrite E].
Qed.

Lemma four_indents (P : string -> Prop) :
  P "" -> P "  " -> P "    " -> P "      " ->
  ∀ indent, indent ∈ [""; "  "; "    "; "      "] -> P indent.
Proof.
  intros H0 H2 H4 H6 indent Hin.
  repeat (apply elem_of_cons in Hin as [-> | Hin]; [done|]). by apply elem_of_nil in Hin.
Qed.

(** The file as written is read as the tree [file_el attr_value]. *)
Lemma first_reading nodes edges :
  writable nodes edges ->
  tidy same same (file_el escapeXml nodes edges) = true ∧
  read same same (file_el escapeXml nodes edges) = file_el attr_value nodes edges.
Proof.
  apply file_el_pass.
  - intros name v Hname Hv. destruct (plain_text_read v Hv) as (H1 & H2 & _).
    unfold attr_ok, same. cbn [fst snd]. rewrite Hname, H1, H2.
    by rewrite bool_decide_eq_true_2 by (by eexists).
  - intros v Hv. destruct (plain_text_read v Hv) as (_ & H2 & _).
    unfold read_attr, same. by rewrite H2.
  - intros name v Hname. unfold attr_ok, same. cbn [fst snd].
    rewrite Hname, escapeXml_no_quote, decode_escapeXml.
    by rewrite bool_decide_eq_true_2 by (by eexists).
  - intros v. unfold read_attr, same. by rewrite decode_escapeXml.
  - apply four_indents; by vm_compute.
Qed.

(** The graph model of that tree, serialized, is read as itself. *)
Lemma second_reading nodes edges :
  writable nodes edges ->
  tidy escape_attr escape_text (model_el attr_value nodes edges) = true ∧
  read escape_attr escape_text (model_el attr_value nodes edges)
  = model_el attr_value nodes edges.
Proof.
  apply model_el_pass.
  - intros name v Hname _. by rewrite attr_ok_serialized.
  - intros v Hv. destruct (plain_text_read v Hv) as (_ & _ & H3).
    by rewrite read_attr_serialized.
  - intros name v Hname. by rewrite attr_ok_serialized.
  - intros v. by rewrite read_attr_serialized, attr_value_fixed.
  - apply four_indents; by vm_compute.
Qed.

End TwoReadings.

(** *** The queries on the tree *)

Section Queries.
Import Dom DrawioParser DrawioWriter.

Variable g : string -> string.

(** A cell of the written tree: an [mxCell] element that is empty or holds
    one [mxGeometry] element. *)
Lemma cell_shape nodes edges c :
  c ∈ cell_els g nodes edges ->
  ∃ attrs,
    c = Element "mxCell" attrs [] ∨
    ∃ gattrs, c = Element "mxCell" attrs
                    [gap "      "; Element "mxGeometry" gattrs []; gap "    "].
Proof.
  unfold cell_els. rewrite !elem_of_app.
  intros [Hr|[Hn|He]].
  - unfold root_els in Hr.
    repeat (apply elem_of_cons in Hr as [-> | Hr]; [by eexists; left|]).
    by apply elem_of_nil in Hr.
  - apply elem_of_lookup_imap_1 in Hn as (i & p & -> & _). eexists. right. by eexists.
  - apply elem_of_lookup_imap_1 in He as (i & e & -> & _). eexists. right. by eexists.
Qed.

Lemma elements_spread cs :
  List.concat (List.map elements (spread cs)) = List.concat (List.map elements cs).
Proof.
  induction cs as [|c cs IH]; [done|].
  change (spread (c :: cs)) with (gap "    " :: c :: spread cs).
  cbn [List.map List.concat]. rewrite IH. done.
Qed.

(** A selection by tag names other than [mxGeometry] finds, below the
    [root] element, the cells with these names. *)
Lemma select_cells (tags : list string) nodes edges :
  "mxGeometry" ∉ tags ->
  List.filter (fun e => bool_decide (tag_of e ∈ tags))
              (List.concat (List.map elements (spread (cell_els g nodes edges))))
  = if bool_decide ("mxCell" ∈ tags) then cell_els g nodes edges else [].
Proof.
  intros Hgeo. rewrite elements_spread.
  pose proof (cell_shape nodes edges) as Hshape.
  induction (cell_els g nodes edges) as [|c cs IH].
  { by destruct (bool_decide _). }
  cbn [List.map List.concat]. rewrite List.filter_app.
  rewrite IH by (intros c' Hc'; apply Hshape; by apply list_elem_of_further).
  destruct (Hshape c) as (attrs & [-> | (gattrs & ->)]); [apply list_elem_of_here|..];
    cbn [List.map List.concat elements app List.filter tag_of gap];
    rewrite ?(bool_decide_eq_false_2 _ Hgeo);
    by destruct (bool_decide ("mxCell" ∈ tags)).
Qed.

Lemma text_blank_app a b :
  Js.forall_chars is_ascii_space a = true -> Js.forall_chars is_ascii_space b = true ->
  Js.forall_chars is_ascii_space (a +:+ b) = true.
Proof. intros Ha Hb. by rewrite forall_chars_app, Ha, Hb. Qed.

(** The cells hold no text but white space. *)
Lemma spread_blank nodes edges :
  Js.forall_chars is_ascii_space
    (String.concat "" (List.map textContent (spread (cell_els g nodes edges)))) = true.
Proof.
  pose proof (cell_shape nodes edges) as Hshape.
  induction (cell_els g nodes edges) as [|c cs IH]; [done|].
  change (spread (c :: cs)) with (gap "    " :: c :: spread cs).
  cbn [List.map]. rewrite !concat_cons.
  apply text_blank_app; [done|]. apply text_blank_app.
  - by destruct (Hshape c) as (attrs & [-> | (gattrs & ->)]); [apply list_elem_of_here|..].
  - apply IH. intros c' Hc'. apply Hshape. by apply list_elem_of_further.
Qed.

Lemma filter_blank s :
  Js.forall_chars is_ascii_space s = true ->
  Js.filter_chars (fun c => negb (is_ascii_space c)) s = "".
Proof.
  induction s as [|c t IH]; [done|]. cbn [Js.forall_chars Js.filter_chars].
  intros [-> Ht]%andb_true_iff. by apply IH.
Qed.

Lemma atob_blank s : Js.forall_chars is_ascii_space s = true -> atob s = Some "".
Proof. intros Hs. unfold atob. by rewrite (filter_blank s Hs). Qed.

Ltac decide_tags :=
  repeat match goal with
         | |- context [bool_decide (?a ∈ ?l)] =>
             let b := eval vm_compute in (bool_decide (a ∈ l)) in
             change (bool_decide (a ∈ l)) with b
         end.

Lemma not_geometry (tags : list string) :
  bool_decide ("mxGeometry" ∈ tags) = false -> "mxGeometry" ∉ tags.
Proof. by intros H%bool_decide_eq_false. Qed.

(** The queries [parseDrawioXML] makes on the graph model. *)
Lemma model_queries nodes edges :
  doc_querySelector "parsererror" (model_el g nodes edges) = None ∧
  querySelectorAll ["mxCell"; "UserObject"; "object"] (model_el g nodes edges)
  = cell_els g nodes edges.
Proof.
  unfold doc_querySelector, querySelectorAll, model_el.
  cbn [elements List.map List.concat app gap]. rewrite !app_nil_r.
  cbn [List.filter tag_of]. decide_tags. cbn iota.
  rewrite !select_cells by (by apply not_geometry; vm_compute).
  by decide_tags.
Qed.

(** The queries it makes on the file. *)
Lemma file_queries nodes edges :
  let diagram :=
    Element "diagram" [("name", "Page-1")]
            [gap "    "; model_el g nodes edges; gap "  "] in
  doc_querySelector "parsererror" (file_el g nodes edges) = None ∧
  querySelectorAll ["diagram"] (file_el g nodes edges) = [diagram] ∧
  querySelector "mxGraphModel" diagram = Some (model_el g nodes edges) ∧
  atob (textContent diagram) = Some "".
Proof.
  intros diagram. unfold diagram.
  unfold doc_querySelector, querySelectorAll, querySelector, file_el, model_el.
  cbn [elements List.map List.concat app gap kids]. rewrite !app_nil_r.
  cbn [List.filter tag_of]. decide_tags. cbn iota.
  rewrite !select_cells by (by apply not_geometry; vm_compute).
  decide_tags. split_and!; [done|done|done|].
  apply atob_blank. cbn [textContent List.map]. rewrite !concat_cons.
  repeat (apply text_blank_app; [try done|]); try done.
  apply spread_blank.
Qed.

End Queries.

(** *** The cells *)

Section Records.
Import Dom DrawioParser DrawioWriter.

Lemma or_else_empty v : Js.or_else v "" = v.
Proof. by destruct v. Qed.

Ltac cells :=
  cbn -[pretty nonzero_or Js.or_else attr_value getStyleForShape parseFloat Z.mul Z.add
        Z.modulo Z.div Z.of_nat geometry_of edgeStyle].

Lemma normalize_node i p : normalize (node_el attr_value i p) = node_record i p.
Proof.
  unfold normalize, node_el, node_record. cells.
  change (Js.or_else "" "") with "". rewrite or_else_empty.
  unfold geometry_of.
  cbn -[pretty nonzero_or parseFloat Z.mul Z.add Z.modulo Z.div Z.of_nat].
  by rewrite !parseFloat_pretty.
Qed.

Lemma normalize_edge i e : normalize (edge_el attr_value i e) = edge_record i e.
Proof.
  unfold normalize, edge_el, edge_record. cells.
  change (Js.or_else "" "") with "". by rewrite or_else_empty.
Qed.

Lemma normalize_cells nodes edges :
  normalize <$> cell_els attr_value nodes edges = records nodes edges.
Proof.
  unfold cell_els, records. rewrite !fmap_app, !fmap_imap.
  apply (f_equal2 app); [done|]. apply (f_equal2 app).
  - apply imap_ext. intros i p _. apply normalize_node.
  - apply imap_ext. intros i e _. apply normalize_edge.
Qed.

Lemma records_flat nodes edges : flat (records nodes edges).
Proof.
  intros c. unfold records. rewrite !elem_of_app. intros [Hr|[Hn|He]].
  - unfold root_records in Hr.
    repeat (apply elem_of_cons in Hr as [-> | Hr]; [done|]). by apply elem_of_nil in Hr.
  - by apply elem_of_lookup_imap_1 in Hn as (i & p & -> & _).
  - by apply elem_of_lookup_imap_1 in He as (i & e & -> & _).
Qed.

Lemma filter_imap {A B} (sel : B -> bool) (h : nat -> A -> B) (l : list A) (b : bool) :
  (∀ i x, sel (h i x) = b) -> List.filter sel (imap h l) = if b then imap h l else [].
Proof.
  intros H. revert h H. induction l as [|x l IH]; intros h H; [by destruct b|].
  rewrite imap_cons. cbn [List.filter]. rewrite H, (IH (h ∘ S)) by (intros; apply H).
  by destruct b.
Qed.

Lemma num_or_nonzero v d d' :
  d <> 0%Z -> num_or (Some (nonzero_or v d)) d' = nonzero_or v d.
Proof.
  intros Hd. unfold num_or, nonzero_or. destruct (v =? 0)%Z eqn:Hv; [|by rewrite Hv].
  by apply Z.eqb_neq in Hd as ->.
Qed.

Lemma num_or_zero v : num_or (Some v) 0 = v.
Proof. unfold num_or. destruct (v =? 0)%Z eqn:Hv; [|done]. by apply Z.eqb_eq in Hv. Qed.

(** The passes of [parseDrawioXML] over the cells of a written graph. *)
Lemma parse_records nodes edges :
  parse_cells (records nodes edges) = (imap read_node nodes, imap read_edge edges).
Proof.
  rewrite (flat_parse _ (records_flat nodes edges)). unfold records.
  rewrite !List.filter_app.
  rewrite (filter_imap is_node_cell node_record nodes true) by done.
  rewrite (filter_imap is_node_cell edge_record edges false) by done.
  rewrite (filter_imap is_edge_cell node_record nodes false) by done.
  rewrite (filter_imap is_edge_cell edge_record edges true) by done.
  change (List.filter is_node_cell root_records) with (@nil cell).
  change (List.filter is_edge_cell root_records) with (@nil cell).
  cbn [app]. rewrite app_nil_r, !fmap_imap. f_equal.
  apply imap_ext. intros i p _. unfold plain_node, read_node, node_record, getGeometry.
  cbn [c_id c_value c_style c_geometry mbind option_bind ga_x ga_y ga_width ga_height
       g_x g_y g_width g_height compose].
  by rewrite !num_or_zero, !num_or_nonzero.
Qed.

End Records.

(** *** The round trip *)

Section ReadingBack.
Import Dom DrawioParser DrawioWriter.

Lemma trimEnd_keep body c :
  Js.is_space c = false -> Js.trimEnd (body +:+ String c "") = body +:+ String c "".
Proof.
  intros Hc. induction body as [|d body IH].
  - rewrite append_nil_l. cbn [Js.trimEnd]. by rewrite Hc.
  - rewrite append_cons. cbn [Js.trimEnd]. rewrite IH. by destruct body.
Qed.

Lemma includes_prefix p x : Js.includes (p +:+ x) p = true.
Proof.
  destruct (p +:+ x) eqn:E; cbn [Js.includes]; by rewrite <- E, prefix_app.
Qed.

(** The text of an element has no white space around it. *)
Lemma trim_element ea et tag attrs children :
  Js.trim (print ea et (Element tag attrs children))
  = print ea et (Element tag attrs children).
Proof.
  assert (∃ body, print ea et (Element tag attrs children) = String "<" (body +:+ ">"))
    as [body ->].
  { rewrite <- (append_nil_r (print _ _ _)), print_element.
    destruct children as [|ch children]; unfold closing.
    - exists (tag +:+ attrs_text ea attrs +:+ "/").
      by rewrite ?string_app_assoc, ?append_cons, ?append_nil_l.
    - exists (tag +:+ attrs_text ea attrs +:+ ">" +:+ print_list ea et (ch :: children)
              +:+ "</" +:+ tag).
      by rewrite ?string_app_assoc, ?append_cons, ?append_nil_l. }
  unfold Js.trim. cbn [Js.trimStart]. change (Js.is_space "<") with false. cbn iota.
  rewrite <- append_cons. by apply trimEnd_keep.
Qed.

(** What [parseDrawioXML] reads from the file [generateDrawioXML] wrote
    for a graph with plain ids. *)
Lemma read_back inflate nodes edges opts :
  writable nodes edges ->
  parseDrawioXML inflate (generateDrawioXML nodes edges) opts
  = Ok (imap read_node nodes, imap read_edge edges).
Proof.
  intros Hw.
  destruct (first_reading nodes edges Hw) as [Htidy1 Hread1].
  destruct (second_reading nodes edges Hw) as [Htidy2 Hread2].
  destruct (file_queries attr_value nodes edges) as (Herr & Hdiagrams & Hmodel & Hatob).
  destruct (model_queries attr_value nodes edges) as (Herr' & Hcells).
  assert (Js.trim (generateDrawioXML nodes edges) = generateDrawioXML nodes edges) as Htrim.
  { rewrite generated_text. unfold file_el. apply trim_element. }
  assert (parseFromString (Js.trim (generateDrawioXML nodes edges))
          = file_el attr_value nodes edges) as Hdoc.
  { rewrite Htrim, generated_text. unfold file_el at 1.
    rewrite parse_written by exact Htidy1. exact Hread1. }
  assert (parseFromString (Js.trim (serializeToString (model_el attr_value nodes edges)))
          = model_el attr_value nodes edges) as Hdoc2.
  { change (serializeToString ?n) with (print escape_attr escape_text n).
    unfold model_el at 1 2. rewrite trim_element.
    fold (model_el attr_value nodes edges). unfold model_el at 1.
    rewrite parse_written by exact Htidy2. exact Hread2. }
  rewrite (parseDrawioXML_of_graph_model inflate _ opts
             (Element "diagram" [("name", "Page-1")]
                      [gap "    "; model_el attr_value nodes edges; gap "  "])
             (model_el attr_value nodes edges)).
  - unfold parse_graph_model. cbv zeta. rewrite Hdoc2, Herr', Hcells.
    by rewrite normalize_cells, parse_records.
  - rewrite Htrim. unfold generateDrawioXML.
    change ("<mxfile>" +:+ ?x) with ("<mxfile" +:+ (">" +:+ x)). apply includes_prefix.
  - by rewrite Hdoc.
  - rewrite Hdoc, Hdiagrams. cbn zeta. by destruct (o_pageIndex opts) as [|[|k]].
  - exact Hmodel.
  - by rewrite Hatob.
Qed.

End ReadingBack.

Section RoundTripOfGraphs.
Import Dom DrawioParser DrawioWriter.



End RoundTripOfGraphs.

(** ** The ids of a flowchart *)

Section FlowchartIds.
Import Regex MermaidParser.

Lemma word_plain c : Js.is_word c = true -> plain_attr_char c = true.
Proof. destruct c as [[] [] [] [] [] [] [] []]; by vm_compute. Qed.

Lemma take_span_all p s : Js.forall_chars p (take_span p s) = true.
Proof.
  induction s as [|c t IH]; [done|]. cbn [take_span].
  destruct (p c) eqn:Hc; [|done]. cbn [Js.forall_chars]. by rewrite Hc, IH.
Qed.

Lemma head_word_plain s w : head_word s = Some w -> plain_id w.
Proof.
  destruct s as [|c t]; [done|]. cbn [head_word].
  destruct (Js.is_id_start c) eqn:Hc; [|done]. intros [= <-]. split; [done|].
  unfold plain_text. cbn [Js.forall_chars].
  rewrite (word_plain c (id_start_word c Hc)). cbn [andb].
  eapply forall_chars_impl; [|apply take_span_all]. apply word_plain.
Qed.

(** The id of a node of a flowchart is the identifier its text begins
    with, or [node_] and a number. *)
Lemma parsed_node_plain now part nps t n t' :
  parseNodeFromPart now part nps t = (Some n, t') -> plain_id (mn_id n).
Proof.
  unfold parseNodeFromPart. destruct (negb (Js.truthy (Js.trim part))); [done|].
  pose proof (exec_idRegex part) as Hid.
  destruct (first_pattern nps part) as [[m sh]|];
    destruct (exec idRegex part) as [idm|]; unfold bind, ret, date_now; simpl;
    try done; intros [= <- _]; simpl.
  - apply (head_word_plain part). by rewrite <- Hid.
  - split; [done|]. apply plain_app; [done|apply pretty_Z_plain].
  - apply (head_word_plain part). by rewrite <- Hid.
Qed.

Lemma register_plain n st :
  Forall (plain_id ∘ mn_id) (fs_nodes st) -> plain_id (mn_id n) ->
  Forall (plain_id ∘ mn_id) (fs_nodes (register n st)).
Proof.
  intros Hst Hn. unfold register. destruct (has_node _ _); [done|].
  replace (fs_nodes (push_to_current _ _)) with (fs_nodes st ++ [n])
    by (unfold push_to_current; simpl; by destruct (fs_current st)).
  apply Forall_app. split; [done|]. by apply Forall_singleton.
Qed.

Lemma register_opt_plain now part nps t n t' st :
  parseNodeFromPart now part nps t = (n, t') ->
  Forall (plain_id ∘ mn_id) (fs_nodes st) ->
  Forall (plain_id ∘ mn_id) (fs_nodes (register_opt n st)).
Proof.
  intros Hn Hst. destruct n as [n|]; [|done]. simpl.
  apply register_plain; [done|]. by eapply parsed_node_plain.
Qed.

Lemma line_plain now fuel :
  ∀ line nps eps st t st' t',
    Forall (plain_id ∘ mn_id) (fs_nodes st) ->
    parseFlowchartLine now fuel line nps eps st t = (Some st', t') ->
    Forall (plain_id ∘ mn_id) (fs_nodes st').
Proof.
  induction fuel as [|fuel IH]; intros line nps eps st t st' t' Hst; simpl; [done|].
  destruct (scan_edges eps line) as [hit|]; unfold bind, ret.
  - destruct (parseNodeFromPart now _ nps t) as [sourceNode t1] eqn:Hsrc.
    pose proof (register_opt_plain _ _ _ _ _ _ st Hsrc Hst) as Hst1.
    unfold parseChainedTargets, bind, ret. destruct (existsb _ _).
    + destruct (parseFlowchartLine now fuel _ nps eps _ t1) as [[st1|] t2] eqn:Hrec;
        [|done].
      apply IH in Hrec; [|done].
      destruct (exec firstNodeRegex _).
      * destruct (parseNodeFromPart now _ nps t2) as [n t3].
        destruct sourceNode, (option_list n); by intros [= <- <-].
      * destruct sourceNode; by intros [= <- <-].
    + destruct (parseNodeFromPart now _ nps t1) as [n t2] eqn:Hn.
      pose proof (register_opt_plain _ _ _ _ _ _ _ Hn Hst1) as Hst2.
      destruct sourceNode, (option_list n); by intros [= <- <-].
  - destruct (parseNodeFromPart now line nps t) as [n t1] eqn:Hn. intros [= <- <-].
    by eapply register_opt_plain.
Qed.

Lemma loop_plain now lines :
  ∀ st t st' t',
    Forall (plain_id ∘ mn_id) (fs_nodes st) ->
    flowchart_loop now lines st t = (Some st', t') ->
    Forall (plain_id ∘ mn_id) (fs_nodes st').
Proof.
  induction lines as [|l lines IH]; intros st t st' t' Hst; simpl.
  - by intros [= <- <-].
  - unfold bind. destruct (flowchart_step now l st t) as [[st1|] t1] eqn:Hstep; [|done].
    apply IH. unfold flowchart_step, ret in Hstep.
    destruct (test directionRegex l); [by injection Hstep as <- <-|].
    destruct (Js.startsWith l "subgraph").
    { destruct (exec subgraphRegex l); by injection Hstep as <- <-. }
    destruct (String.eqb l "end"); [by injection Hstep as <- <-|].
    by eapply line_plain.
Qed.

(** The ids of the nodes of a parsed flowchart are plain. *)
Lemma flowchart_ids_plain now code t g t' :
  parseMermaidCode now code t = (Some (Ok g), t') ->
  mg_type g <> sequence -> mg_type g <> class_diagram ->
  Forall (plain_id ∘ mn_id) (mg_nodes g).
Proof.
  unfold parseMermaidCode. destruct (content_lines code) as [|first rest]; [done|].
  assert (∀ dt,
            bind (parseFlowchart now (first :: rest))
              (fun r => ret ((fun '(nodes, edges, subgraphs) =>
                 Ok (MermaidGraph nodes edges subgraphs dt)) <$> r)) t
            = (Some (Ok g), t') -> Forall (plain_id ∘ mn_id) (mg_nodes g)) as Hflow.
  { intros dt. unfold parseFlowchart, bind, ret. simpl.
    destruct (flowchart_loop now rest _ t) as [[st|] t1] eqn:Hloop; simpl; [|done].
    intros [= <- <-]. simpl. eapply loop_plain; [|exact Hloop]. constructor. }
  destruct (detect_type (Js.toLowerCase first)) eqn:Hdt; try (intros H _ _; exact (Hflow _ H)).
  - unfold ret. by intros [= <-].
  - unfold ret. by intros [= <-].
Qed.

End FlowchartIds.

(** ** From Mermaid text to Draw.io XML and back *)

Section FlowchartRoundTrip.
Import MermaidParser DrawioParser DrawioWriter.

Lemma edge_ids_plain now code t g t' :
  parseMermaidCode now code t = (Some (Ok g), t') ->
  Forall (plain_id ∘ me_id) (mg_edges g).
Proof.
  apply (parse_inv (fun _ edges => Forall (plain_id ∘ me_id) edges)).
  - done.
  - intros nodes edges src tgt label type HI _. apply Forall_app. split; [done|].
    apply Forall_singleton. split; [done|]. apply plain_app; [done|apply pretty_nat_plain].
  - intros nodes edges src tgt label type HI _ _. apply Forall_app. split; [done|].
    apply Forall_singleton. split; [done|]. apply plain_app; [done|apply pretty_nat_plain].
  - constructor.
Qed.

Lemma or_else_truthy a b : a <> "" -> Js.or_else a b = a.
Proof. by destruct a. Qed.

(** Both ends of an edge the conversion keeps are ids of nodes. *)
Lemma has_ends_spec nodes e :
  has_ends nodes e = true <->
  me_source e ∈ mn_id <$> nodes ∧ me_target e ∈ mn_id <$> nodes.
Proof. unfold has_ends. by rewrite andb_true_iff, !bool_decide_eq_true. Qed.

Lemma plain_member (nodes : list mnode) x :
  Forall (plain_id ∘ mn_id) nodes -> x ∈ mn_id <$> nodes -> plain_id x.
Proof.
  intros Hall (n & -> & Hn)%list_elem_of_fmap.
  by apply (proj1 (Forall_forall _ _) Hall n).
Qed.

(** X22: a text read by the flowchart parser (every diagram type but
    sequence and class diagrams) and converted to Draw.io XML is read back
    by [parseDrawioXML] as the nodes of the parsed graph, in their order
    and with their ids, and the edges both ends of which are nodes, with
    their ids, sources and targets; labels come back through [cleanLabel].
    The ids of these graphs are identifiers or [node_] and a number, so
    the XML is well formed whatever the text was; the labels are to hold
    characters XML allows. *)
Theorem flowchart_xml_read_back (now : nat -> Z) (inflate : string -> option string)
    (code : string) (opts : options) (t t' : nat) (g : mermaid_graph) :
  parseMermaidCode now code t = (Some (Ok g), t') ->
  mg_type g <> sequence -> mg_type g <> class_diagram ->
  mg_nodes g <> [] ->
  (∀ n, n ∈ mg_nodes g -> Js.forall_chars xml_char (mn_label n) = true) ->
  (∀ e, e ∈ mg_edges g -> Js.forall_chars xml_char (me_label e) = true) ->
  ∃ xml nodes edges,
    convertMermaidToDrawio now code t = (Some (Ok xml), t') ∧
    parseDrawioXML inflate xml opts = Ok (nodes, edges) ∧
    dn_id <$> nodes = Some ∘ mn_id <$> mg_nodes g ∧
    dn_label <$> nodes = cleanLabel ∘ attr_value ∘ mn_label <$> mg_nodes g ∧
    edges = kept_edge <$> List.filter (has_ends (mg_nodes g)) (mg_edges g).
Proof.
  intros Hparse Hseq Hcls Hne Hnl Hel.
  pose proof (flowchart_ids_plain now code t g t' Hparse Hseq Hcls) as Hids.
  pose proof (edge_ids_plain now code t g t' Hparse) as Heids.
  destruct (layers_of_partition (mg_nodes g) (mg_edges g)) as (layers & Hlayers & _).
  { by eapply parse_ids_distinct. }
  set (positioned := Layout.position_node (Layout.positions_of layers) <$> mg_nodes g).
  set (kept := List.filter (has_ends (mg_nodes g)) (mg_edges g)).
  assert (mn_id ∘ pn_node <$> positioned = mn_id <$> mg_nodes g) as Hpids.
  { unfold positioned. by rewrite <- list_fmap_compose. }
  assert (convertMermaidToDrawio now code t
          = (Some (Ok (generateDrawioXML positioned kept)), t')) as Hconv.
  { unfold convertMermaidToDrawio, bind, ret. rewrite Hparse.
    assert (∀ (A : Type) (a b : A),
              match mg_nodes g with [] => a | _ :: _ => b end = b) as ->
      by (intros; by destruct (mg_nodes g)).
    unfold Layout.calculateNodePositions. rewrite Hlayers. simpl.
    fold positioned. by rewrite Hpids. }
  assert (writable positioned kept) as Hw.
  { split.
    - intros p (n & -> & Hn)%list_elem_of_fmap. simpl.
      by apply (proj1 (Forall_forall _ _) Hids n).
    - intros p (n & -> & Hn)%list_elem_of_fmap. simpl. by apply Hnl.
    - intros e He%list_elem_of_In. apply List.filter_In in He as [He _].
      by apply (proj1 (Forall_forall _ _) Heids e), list_elem_of_In.
    - intros e He%list_elem_of_In. apply List.filter_In in He as [_ He].
      apply has_ends_spec in He as [Hs Ht].
      split; by eapply plain_member.
    - intros e He%list_elem_of_In. apply List.filter_In in He as [He _].
      by apply Hel, list_elem_of_In. }
  exists (generateDrawioXML positioned kept), (imap read_node positioned),
         (imap read_edge kept).
  split_and!.
  - exact Hconv.
  - by apply read_back.
  - rewrite fmap_imap. unfold positioned. rewrite imap_fmap. rewrite <- imap_const.
    apply imap_ext. intros i n Hn. simpl. f_equal. apply or_else_truthy.
    by apply (proj1 (Forall_forall _ _) Hids n), list_elem_of_lookup_2 with i.
  - rewrite fmap_imap. unfold positioned. rewrite imap_fmap. rewrite <- imap_const.
    apply imap_ext. by intros i n Hn.
  - rewrite <- imap_const. apply imap_ext. intros i e He.
    unfold read_edge, kept_edge, const. rewrite or_else_truthy; [done|].
    apply list_elem_of_lookup_2, list_elem_of_In, List.filter_In in He as [He _].
    by apply (proj1 (Forall_forall _ _) Heids e), list_elem_of_In.
Qed.

Lemma flowchart_xml_read_back_witness :
  ∃ xml nodes edges,
    convertMermaidToDrawio frozen_clock chain_input 0 = (Some (Ok xml), 0%nat) ∧
    parseDrawioXML no_inflate xml default_options = Ok (nodes, edges) ∧
    dn_id <$> nodes = Some ∘ mn_id <$> mg_nodes chain_graph ∧
    dn_label <$> nodes = cleanLabel ∘ attr_value ∘ mn_label <$> mg_nodes chain_graph ∧
    edges = kept_edge <$> List.filter (has_ends (mg_nodes chain_graph)) (mg_edges chain_graph).
Proof.
  apply (flowchart_xml_read_back frozen_clock no_inflate chain_input default_options 0 0
           chain_graph); try (by vm_compute);
    intros x Hx; unfold chain_graph in Hx; simpl in Hx;
    repeat (apply elem_of_cons in Hx as [-> | Hx]; [by vm_compute|]);
    by apply elem_of_nil in Hx.
Defined.

End FlowchartRoundTrip.

(** ** From Draw.io graphs to Mermaid text and back *)

(** *** Searching a text *)

Section Searches.
Import Regex.

(** A search skips the characters no match can start with. *)
Lemma search_skip (p : ascii -> bool) (r : re) :
  leading p r ->
  ∀ pre s pos,
    Js.forall_chars (fun c => negb (p c)) pre = true ->
    search r pos (pre +:+ s) = search r (pos + String.length pre) s.
Proof.
  intros Hl. induction pre as [|c pre IH]; intros s pos Hpre.
  - by rewrite append_nil_l, Nat.add_0_r.
  - cbn [Js.forall_chars] in Hpre. apply andb_true_iff in Hpre as [Hc Hpre].
    rewrite append_cons. cbn [search]. unfold match_here.
    rewrite (run_leading p r Hl) by (by apply negb_true_iff in Hc).
    rewrite IH by done. f_equal. simpl. lia.
Qed.

Lemma search_none (p : ascii -> bool) (r : re) s pos :
  leading p r -> Js.forall_chars (fun c => negb (p c)) s = true -> search r pos s = None.
Proof.
  intros Hl Hs. rewrite <- (append_nil_r s), (search_skip p r Hl) by done.
  cbn [search]. unfold match_here. by rewrite (run_leading p r Hl).
Qed.

Lemma run_lit {R} tok :
  tok <> "" ->
  ∀ pos s cs (k : nat -> string -> caps -> option R),
    run (Lit tok) pos (tok +:+ s) cs k = k (pos + String.length tok)%nat s cs.
Proof.
  induction tok as [|c tok IH]; [done|]. intros _ pos s cs k.
  rewrite append_cons. destruct tok as [|d tok].
  - cbn [Lit run]. rewrite Ascii.eqb_refl, append_nil_l. f_equal. simpl. lia.
  - change (Lit (String c (String d tok))) with (Cat (Chr c) (Lit (String d tok))).
    cbn [run]. rewrite Ascii.eqb_refl, IH by done. f_equal. simpl. lia.
Qed.

(** A greedy run over a class takes all of a text of the class that is
    followed by a character outside it, when what follows the run matches
    there. *)
Lemma run_star_greedy {R} (p : ascii -> bool) (k : nat -> string -> caps -> option R)
    a rest pos cs x :
  Js.forall_chars p a = true ->
  match rest with String d _ => p d = false | "" => True end ->
  k (pos + String.length a)%nat rest cs = Some x ->
  run (Star (Cls p)) pos (a +:+ rest) cs k = Some x.
Proof.
  intros Ha Hrest. cbn [run].
  assert (String.length a <= String.length (a +:+ rest))%nat as Hfuel
    by (rewrite length_app; lia).
  revert Hfuel. generalize (String.length (a +:+ rest)) as fuel. intros fuel.
  revert pos fuel. induction a as [|c a IH]; intros pos fuel Hfuel Hk.
  - rewrite append_nil_l. simpl in Hk. rewrite Nat.add_0_r in Hk.
    destruct fuel as [|fuel]; [done|]. cbn [run].
    destruct rest as [|d rest]; [done|]. by rewrite Hrest.
  - cbn [Js.forall_chars] in Ha. apply andb_true_iff in Ha as [Hc Ha].
    rewrite append_cons. destruct fuel as [|fuel]; [simpl in Hfuel; lia|].
    cbn [run]. rewrite Hc. rewrite (proj2 (Nat.ltb_lt pos (S pos))) by lia.
    rewrite (IH Ha (S pos) fuel); [done|simpl in Hfuel; lia|].
    rewrite <- Hk. f_equal. simpl. lia.
Qed.

(** One or more characters other than [c], up to a [c]. *)
Lemma run_text_until {R} (c : ascii) (k : nat -> string -> caps -> option R)
    label rest pos cs x :
  label <> "" ->
  Js.forall_chars (fun d => negb (Ascii.eqb d c)) label = true ->
  k (pos + String.length label)%nat (String c rest) ((1%nat, label) :: cs) = Some x ->
  run (MermaidParser.text_until c) pos (label +:+ String c rest) cs k = Some x.
Proof.
  intros Hne Hlabel Hk. destruct label as [|l0 label]; [done|].
  cbn [Js.forall_chars] in Hlabel. apply andb_true_iff in Hlabel as [Hl0 Hlabel].
  unfold MermaidParser.text_until, Plus, Not. rewrite append_cons.
  change (run (Grp 1 (Cat (Cls ?q) (Star (Cls ?q)))) pos (String l0 ?s) cs k)
    with (if q l0
          then run (Star (Cls q)) (S pos) s cs
                 (fun pos' s' cs' =>
                    k pos' s' ((1%nat, Js.substring 0 (pos' - pos) (String l0 s)) :: cs'))
          else None).
  cbv beta. rewrite Hl0.
  apply run_star_greedy; [done|by rewrite Ascii.eqb_refl|].
  rewrite <- Hk. f_equal.
  - simpl. lia.
  - f_equal. f_equal. unfold Js.substring.
    replace (S pos + String.length label - pos - 0)%nat with (S (String.length label)) by lia.
    rewrite substring_cons. f_equal.
    clear. induction label as [|d label IH]; [by destruct rest|].
    rewrite append_cons. cbn [String.length]. by rewrite substring_cons, IH.
Qed.

End Searches.

(** *** The text of a node *)

Section NodeLines.
Import Regex MermaidParser.

Lemma substring_prefix a b : String.substring 0 (String.length a) (a +:+ b) = a.
Proof.
  induction a as [|c a IH]; [by destruct b|]. rewrite append_cons. cbn [String.length].
  by rewrite substring_cons, IH.
Qed.

Lemma search_here r pos s m : match_here r pos s = Some m -> search r pos s = Some m.
Proof. intros H. destruct s; cbn [search]; by rewrite H. Qed.

(** A bracket pattern on a text that begins with its brackets around a
    label. *)
Lemma match_here_bracket open c ctail label rest pos :
  open <> "" -> label <> "" ->
  Js.forall_chars (fun d => negb (Ascii.eqb d c)) label = true ->
  match_here (Cat (Lit open) (Cat (text_until c) (Lit (String c ctail)))) pos
             (open +:+ label +:+ String c ctail +:+ rest)
  = Some (Found pos (open +:+ label +:+ String c ctail) [(1%nat, label)]).
Proof.
  intros Hopen Hne Hlabel. unfold match_here. cbn [run]. rewrite run_lit by done.
  rewrite append_cons.
  apply run_text_until; [done|done|].
  rewrite <- append_cons, run_lit by done. f_equal. f_equal.
  unfold Js.substring.
  replace (pos + String.length open + String.length label + String.length (String c ctail)
           - pos - 0)%nat
    with (String.length (open +:+ label +:+ String c ctail))
    by (rewrite !length_app; lia).
  replace (open +:+ label +:+ String c ctail +:+ rest)
    with ((open +:+ label +:+ String c ctail) +:+ rest)
    by (by rewrite !string_app_assoc).
  apply substring_prefix.
Qed.

Lemma leading_lit (o : ascii) tok r :
  leading (fun d => Ascii.eqb d o) (Cat (Lit (String o tok)) r).
Proof. cbn [leading]. destruct tok; cbn [Lit leading]; apply Ascii.eqb_refl. Qed.

Lemma exec_bracket r pre o otail c ctail label rest :
  r = Cat (Lit (String o otail)) (Cat (text_until c) (Lit (String c ctail))) ->
  Js.forall_chars (fun d => negb (Ascii.eqb d o)) pre = true ->
  label <> "" ->
  Js.forall_chars (fun d => negb (Ascii.eqb d c)) label = true ->
  exec r (pre +:+ String o otail +:+ label +:+ String c ctail +:+ rest)
  = Some (Found (String.length pre) (String o otail +:+ label +:+ String c ctail)
                [(1%nat, label)]).
Proof.
  intros -> Hpre Hne Hlabel. unfold exec.
  rewrite (search_skip _ _ (leading_lit o otail _)) by done.
  apply search_here. by apply match_here_bracket.
Qed.

Lemma simple_avoid s c :
  simple s -> simple_char c = false ->
  Js.forall_chars (fun d => negb (Ascii.eqb d c)) s = true.
Proof.
  intros Hs Hc. eapply forall_chars_impl; [|exact Hs]. intros d Hd.
  destruct (Ascii.eqb_spec d c) as [->|]; [congruence|done].
Qed.

Lemma word_simple s : Js.forall_chars Js.is_word s = true -> simple s.
Proof.
  intros Hs. eapply forall_chars_impl; [|exact Hs]. intros d Hd.
  unfold simple_char. by rewrite Hd.
Qed.

Ltac no_char :=
  rewrite ?forall_chars_app;
  repeat (apply andb_true_iff; split);
  first [reflexivity | by apply simple_avoid].

Ltac no_match o :=
  rewrite (search_none (fun d => Ascii.eqb d o)); [|exact (Ascii.eqb_refl o)|no_char].

(** The pattern that reads a node written with square brackets. *)
Lemma first_pattern_square id label :
  simple id -> simple label -> label <> "" ->
  first_pattern nodePatterns (id +:+ "[" +:+ label +:+ "]" +:+ "")
  = Some (Found (String.length id) ("[" +:+ label +:+ "]") [(1%nat, label)], rectangle).
Proof.
  intros Hid Hl Hne. unfold nodePatterns. cbn [first_pattern np_regex np_shape seq].
  erewrite (exec_bracket _ id "[" "" "]" "" label "") by first [reflexivity | done | by apply simple_avoid].
  done.
Qed.

Lemma first_pattern_round id label :
  simple id -> simple label -> label <> "" ->
  first_pattern nodePatterns (id +:+ "(" +:+ label +:+ ")" +:+ "")
  = Some (Found (String.length id) ("(" +:+ label +:+ ")") [(1%nat, label)], rounded).
Proof.
  intros Hid Hl Hne. unfold nodePatterns. cbn [first_pattern np_regex np_shape seq].
  unfold exec at 1. no_match "["%char.
  erewrite (exec_bracket _ id "(" "" ")" "" label "") by first [reflexivity | done | by apply simple_avoid].
  done.
Qed.

Lemma first_pattern_angle id label :
  simple id -> simple label -> label <> "" ->
  first_pattern nodePatterns (id +:+ ">" +:+ label +:+ "]" +:+ "")
  = Some (Found (String.length id) (">" +:+ label +:+ "]") [(1%nat, label)], asymmetric).
Proof.
  intros Hid Hl Hne. unfold nodePatterns. cbn [first_pattern np_regex np_shape seq].
  unfold exec at 1. no_match "["%char.
  unfold exec at 1. no_match "("%char.
  unfold exec at 1. no_match "("%char.
  unfold exec at 1. no_match "["%char.
  unfold exec at 1. no_match "["%char.
  unfold exec at 1. no_match "{"%char.
  unfold exec at 1. no_match "{"%char.
  unfold exec at 1. no_match "("%char.
  erewrite (exec_bracket _ id ">" "" "]" "" label "") by first [reflexivity | done | by apply simple_avoid].
  done.
Qed.

Lemma first_pattern_braces id label :
  simple id -> simple label -> label <> "" ->
  first_pattern nodePatterns (id +:+ "{{" +:+ label +:+ "}}" +:+ "")
  = Some (Found (String.length id) ("{{" +:+ label +:+ "}}") [(1%nat, label)], hexagon).
Proof.
  intros Hid Hl Hne. unfold nodePatterns. cbn [first_pattern np_regex np_shape seq].
  unfold exec at 1. no_match "["%char.
  unfold exec at 1. no_match "("%char.
  unfold exec at 1. no_match "("%char.
  unfold exec at 1. no_match "["%char.
  unfold exec at 1. no_match "["%char.
  erewrite (exec_bracket _ id "{" "{" "}" "}" label "") by first [reflexivity | done | by apply simple_avoid].
  done.
Qed.

Lemma first_pattern_brace id label :
  simple id -> simple label -> label <> "" ->
  first_pattern nodePatterns (id +:+ "{" +:+ label +:+ "}" +:+ "")
  = Some (Found (String.length id) ("{" +:+ label +:+ "}") [(1%nat, label)], diamond).
Proof.
  intros Hid Hl Hne. unfold nodePatterns. cbn [first_pattern np_regex np_shape seq].
  unfold exec at 1. no_match "["%char.
  unfold exec at 1. no_match "("%char.
  unfold exec at 1. no_match "("%char.
  unfold exec at 1. no_match "["%char.
  unfold exec at 1. no_match "["%char.
  match goal with
  | |- context [exec ?r (id +:+ "{" +:+ label +:+ "}" +:+ "")] =>
      assert (exec r (id +:+ "{" +:+ label +:+ "}" +:+ "") = None) as ->
  end.
  { unfold exec.
    match goal with
    | |- search ?r _ _ = _ =>
        rewrite (search_skip (fun d => Ascii.eqb d "{") r (Ascii.eqb_refl "{"))
          by (by apply simple_avoid)
    end.
    destruct label as [|l0 label]; [done|].
    pose proof Hl as [Hl0 Hl']%andb_true_iff. fold (simple label) in Hl'.
    rewrite !append_cons, append_nil_l. cbn [search]. unfold match_here.
    cbn [run Lit]. change (Ascii.eqb "{" "{") with true. cbn iota.
    assert (Ascii.eqb l0 "{" = false) as ->.
    { destruct (Ascii.eqb_spec l0 "{") as [->|]; [done|done]. }
    no_match "{"%char. done. }
  erewrite (exec_bracket _ id "{" "" "}" "" label "") by first [reflexivity | done | by apply simple_avoid].
  done.
Qed.

Lemma first_pattern_none id :
  simple id -> first_pattern nodePatterns id = None.
Proof.
  intros Hid. unfold nodePatterns. cbn [first_pattern np_regex np_shape seq].
  unfold exec at 1. no_match "["%char.
  unfold exec at 1. no_match "("%char.
  unfold exec at 1. no_match "("%char.
  unfold exec at 1. no_match "["%char.
  unfold exec at 1. no_match "["%char.
  unfold exec at 1. no_match "{"%char.
  unfold exec at 1. no_match "{"%char.
  unfold exec at 1. no_match "("%char.
  unfold exec at 1. no_match ">"%char.
  unfold exec at 1. no_match "["%char.
  done.
Qed.

Lemma valid_id_head c :
  Js.is_word c = true -> Js.is_digit c = false -> Js.is_id_start c = true.
Proof. destruct c as [[] [] [] [] [] [] [] []]; by vm_compute. Qed.

Lemma take_span_stop p a x :
  Js.forall_chars p a = true ->
  match x with String d _ => p d = false | "" => True end ->
  take_span p (a +:+ x) = a.
Proof.
  intros Ha Hx. induction a as [|c a IH].
  - rewrite append_nil_l. destruct x as [|d x]; [done|]. cbn [take_span]. by rewrite Hx.
  - cbn [Js.forall_chars] in Ha. apply andb_true_iff in Ha as [Hc Ha].
    rewrite append_cons. cbn [take_span]. by rewrite Hc, IH.
Qed.

(** A text that begins with a valid identifier and goes on with a
    character no identifier holds. *)
Lemma head_word_id id x :
  valid_mermaid_id id ->
  match x with String d _ => Js.is_word d = false | "" => True end ->
  head_word (id +:+ x) = Some id.
Proof.
  intros (Hne & Hw & Hd) Hx. destruct id as [|c id]; [done|].
  cbn [Js.forall_chars] in Hw. apply andb_true_iff in Hw as [Hc Hw].
  rewrite append_cons. cbn [head_word]. rewrite (valid_id_head c Hc Hd).
  by rewrite take_span_stop.
Qed.

Lemma exec_id_found line id :
  head_word line = Some id -> ∃ m, exec idRegex line = Some m ∧ grp1 1 m = id.
Proof.
  intros H. pose proof (exec_idRegex line) as He. rewrite H in He.
  destruct (exec idRegex line) as [m|]; [|done]. injection He as He. by exists m.
Qed.

Lemma valid_simple id : valid_mermaid_id id -> simple id.
Proof. intros (_ & Hw & _). by apply word_simple. Qed.

(** A node as [formatFlowchartNode] writes it, between the brackets of a
    pattern that is the first to match the text. *)
Lemma bracket_node_parsed now id open label close m sh t :
  valid_mermaid_id id ->
  match open with String d _ => Js.is_word d = false | "" => False end ->
  first_pattern nodePatterns (id +:+ open +:+ label +:+ close +:+ "") = Some (m, sh) ->
  grp1 1 m = label ->
  parseNodeFromPart now (id +:+ open +:+ label +:+ close +:+ "") nodePatterns t
  = (Some (MNode id (Js.trim label) sh), t).
Proof.
  intros Hid Hopen Hfirst Hgrp.
  assert (head_word (id +:+ open +:+ label +:+ close +:+ "") = Some id) as Hhead.
  { apply head_word_id; [done|]. destruct open as [|d open]; [done|]. by rewrite append_cons. }
  destruct (exec_id_found _ _ Hhead) as (idm & Hexec & Hidm).
  unfold parseNodeFromPart. rewrite (head_word_truthy _ _ Hhead). cbn [negb].
  rewrite Hfirst, Hexec. unfold bind, ret. by rewrite Hidm, Hgrp.
Qed.

(** An identifier alone is read as a rectangle labelled with itself. *)
Lemma plain_node_parsed now id t :
  valid_mermaid_id id ->
  parseNodeFromPart now id nodePatterns t = (Some (MNode id id rectangle), t).
Proof.
  intros Hid.
  assert (head_word id = Some id) as Hhead.
  { rewrite <- (append_nil_r id) at 1. by apply head_word_id. }
  destruct (exec_id_found _ _ Hhead) as (idm & Hexec & Hidm).
  unfold parseNodeFromPart. rewrite (head_word_truthy _ _ Hhead). cbn [negb].
  rewrite (first_pattern_none id (valid_simple id Hid)), Hexec. unfold ret.
  by rewrite Hidm.
Qed.

Lemma scan_no_edge line :
  Js.forall_chars (fun c => negb (edge_start c)) line = true ->
  scan_edges edgePatterns line = None ∧
  existsb (fun p => test (ep_regex p) line) edgePatterns = false.
Proof.
  intros Hline.
  assert (∀ p, p ∈ edgePatterns -> exec (ep_regex p) line = None) as Hnone.
  { intros p Hp. apply (search_none edge_start); [by apply edge_patterns_leading|done]. }
  split.
  - unfold scan_edges.
    assert (∀ ps best, (∀ p, p ∈ ps -> exec (ep_regex p) line = None) ->
                       foldl (scan_step line) best ps = best) as Hfold.
    { induction ps as [|p ps IH]; intros best Hps; [done|]. cbn [foldl].
      unfold scan_step at 2. rewrite (Hps p) by apply list_elem_of_here.
      apply IH. intros q Hq. apply Hps. by apply list_elem_of_further. }
    by apply Hfold.
  - apply not_true_iff_false. intros (p & Hp & Ht)%existsb_exists.
    apply list_elem_of_In in Hp. unfold test in Ht. rewrite (Hnone p Hp) in Ht.
    apply bool_decide_eq_true in Ht. by destruct Ht.
Qed.

End NodeLines.

(** *** The text of an edge *)

Section EdgeLines.
Import Regex MermaidParser.

Lemma match_here_lit tok pos post :
  tok <> "" -> match_here (Lit tok) pos (tok +:+ post) = Some (Found pos tok []).
Proof.
  intros Htok. unfold match_here. rewrite run_lit by done. f_equal. f_equal.
  unfold Js.substring.
  replace (pos + String.length tok - pos - 0)%nat with (String.length tok) by lia.
  apply substring_prefix.
Qed.

Lemma match_here_labelled tok pos lbl post :
  tok <> "" -> lbl <> "" ->
  Js.forall_chars (fun d => negb (Ascii.eqb d "|")) lbl = true ->
  match_here (labelled tok) pos (tok +:+ String "|" (lbl +:+ String "|" post))
  = Some (Found pos (tok +:+ String "|" (lbl +:+ String "|" "")) [(1%nat, lbl)]).
Proof.
  intros Htok Hne Hlbl. unfold match_here, labelled. cbn [seq run].
  rewrite run_lit by done. rewrite Ascii.eqb_refl.
  apply run_text_until; [done|done|].
  rewrite Ascii.eqb_refl. f_equal. f_equal.
  unfold Js.substring.
  replace (S (S (pos + String.length tok) + String.length lbl) - pos - 0)%nat
    with (String.length (tok +:+ String "|" (lbl +:+ String "|" "")))
    by (rewrite !length_app; simpl; rewrite !length_app; simpl; lia).
  replace (tok +:+ String "|" (lbl +:+ String "|" post))
    with ((tok +:+ String "|" (lbl +:+ String "|" "")) +:+ post).
  - apply substring_prefix.
  - rewrite !string_app_assoc, !append_cons, !string_app_assoc, !append_cons. done.
Qed.

Ltac eval_eqb :=
  repeat match goal with
         | |- context [Ascii.eqb ?a ?b] =>
             let v := eval vm_compute in (Ascii.eqb a b) in
             lazymatch v with
             | true => change (Ascii.eqb a b) with true
             | false => change (Ascii.eqb a b) with false
             end
         end.

Lemma simple_no_edge s :
  simple s -> Js.forall_chars (fun c => negb (edge_start c)) s = true.
Proof.
  intros Hs. eapply forall_chars_impl; [|exact Hs]. intros d Hd. unfold edge_start.
  destruct (Ascii.eqb_spec d "-") as [->|]; [done|].
  destruct (Ascii.eqb_spec d "=") as [->|]; done.
Qed.

Ltac no_edge_chars :=
  rewrite ?forall_chars_app; cbn [Js.forall_chars];
  repeat (apply andb_true_iff; split);
  first [reflexivity | by apply simple_no_edge].

Ltac fail_steps :=
  repeat (progress (cbn [search]; unfold match_here; cbn [run labelled seq Lit];
                    eval_eqb; cbn iota)).

(** The search of a pattern that does not match the edge of a line. *)
Ltac exec_none r E :=
  let H := fresh in
  assert (exec r E = None) as H;
  [ unfold exec; rewrite (search_skip edge_start r eq_refl) by no_edge_chars;
    rewrite ?append_cons, ?append_nil_l; fail_steps;
    rewrite ?(search_none edge_start r) by first [exact eq_refl | no_edge_chars];
    reflexivity
  | rewrite H; clear H ].

Lemma scan_step_none line best p :
  exec (ep_regex p) line = None -> scan_step line best p = best.
Proof. intros H. unfold scan_step. by rewrite H. Qed.

Lemma scan_step_first line p m :
  exec (ep_regex p) line = Some m -> scan_step line None p = Some (hit_of p m).
Proof. intros H. unfold scan_step. by rewrite H. Qed.

Lemma scan_step_later line p m b :
  exec (ep_regex p) line = Some m -> index m = eh_index b ->
  scan_step line (Some b) p = Some b.
Proof. intros H Hi. unfold scan_step. by rewrite H, Hi, Nat.ltb_irrefl. Qed.

Lemma exec_at r pre s m :
  leading edge_start r ->
  Js.forall_chars (fun c => negb (edge_start c)) pre = true ->
  match_here r (String.length pre) s = Some m ->
  exec r (pre +:+ s) = Some m.
Proof.
  intros Hl Hpre Hm. unfold exec. rewrite (search_skip edge_start r Hl) by done.
  by apply search_here.
Qed.

Ltac absent :=
  unfold exec;
  match goal with
  | |- search ?r _ _ = _ =>
      rewrite (search_skip edge_start r eq_refl) by no_edge_chars;
      rewrite ?append_cons, ?append_nil_l; fail_steps;
      first [reflexivity
            | apply (search_none edge_start); [exact eq_refl | no_edge_chars]]
  end.

(** The arrows [formatFlowchartEdge] writes and the edge types they are
    read as. *)
Lemma scan_plain tok ty src tgt :
  (tok, ty) ∈ written_arrows -> simple src -> simple tgt ->
  scan_edges edgePatterns ((src +:+ " ") +:+ tok +:+ String " " tgt)
  = Some (EdgeHit ty "" (String.length (src +:+ " ")) (String.length tok)).
Proof.
  intros Htok Hs Ht. unfold scan_edges, edgePatterns. cbn [foldl].
  apply list_elem_of_In in Htok.
  destruct Htok as [H|[H|[H|[]]]]; injection H as <- <-.
  - rewrite (scan_step_none _ None) by absent.
    rewrite (scan_step_first _ _ (Found (String.length (src +:+ " ")) "-->" [])).
    2:{ apply exec_at; [exact eq_refl|no_edge_chars|]. by apply (match_here_lit "-->"). }
    by rewrite !scan_step_none by absent.
  - rewrite !(scan_step_none _ None) by absent.
    rewrite (scan_step_first _ _ (Found (String.length (src +:+ " ")) "-.->" [])).
    2:{ apply exec_at; [exact eq_refl|no_edge_chars|]. by apply (match_here_lit "-.->"). }
    by rewrite !scan_step_none by absent.
  - rewrite !(scan_step_none _ None) by absent.
    by rewrite (scan_step_first _ _ (Found (String.length (src +:+ " ")) "==>" []))
      by (apply exec_at; [exact eq_refl|no_edge_chars|]; by apply (match_here_lit "==>")).
Qed.

Lemma scan_labelled tok ty src lbl tgt :
  (tok, ty) ∈ written_arrows -> simple src -> simple lbl -> lbl <> "" -> simple tgt ->
  scan_edges edgePatterns
    ((src +:+ " ") +:+ tok +:+ String "|" (lbl +:+ String "|" (String " " tgt)))
  = Some (EdgeHit ty lbl (String.length (src +:+ " "))
            (String.length (tok +:+ String "|" (lbl +:+ String "|" "")))).
Proof.
  intros Htok Hs Hl Hne Ht. unfold scan_edges, edgePatterns. cbn [foldl].
  assert (Js.forall_chars (fun d => negb (Ascii.eqb d "|")) lbl = true) as Hbar
    by (by apply simple_avoid).
  apply list_elem_of_In in Htok.
  destruct Htok as [H|[H|[H|[]]]]; injection H as <- <-.
  - rewrite (scan_step_first _ _
      (Found (String.length (src +:+ " ")) ("-->" +:+ String "|" (lbl +:+ String "|" ""))
             [(1%nat, lbl)])).
    2:{ apply exec_at; [exact eq_refl|no_edge_chars|]. by apply match_here_labelled. }
    rewrite (scan_step_later _ _ (Found (String.length (src +:+ " ")) "-->" [])).
    2:{ apply exec_at; [exact eq_refl|no_edge_chars|]. by apply (match_here_lit "-->"). }
    2:done.
    by rewrite !scan_step_none by absent.
  - rewrite !(scan_step_none _ None) by absent.
    rewrite (scan_step_first _ _
      (Found (String.length (src +:+ " ")) ("-.->" +:+ String "|" (lbl +:+ String "|" ""))
             [(1%nat, lbl)])).
    2:{ apply exec_at; [exact eq_refl|no_edge_chars|]. by apply match_here_labelled. }
    rewrite (scan_step_later _ _ (Found (String.length (src +:+ " ")) "-.->" [])).
    2:{ apply exec_at; [exact eq_refl|no_edge_chars|]. by apply (match_here_lit "-.->"). }
    2:done.
    by rewrite !scan_step_none by absent.
  - rewrite !(scan_step_none _ None) by absent.
    rewrite (scan_step_first _ _
      (Found (String.length (src +:+ " ")) ("==>" +:+ String "|" (lbl +:+ String "|" ""))
             [(1%nat, lbl)])).
    2:{ apply exec_at; [exact eq_refl|no_edge_chars|]. by apply match_here_labelled. }
    by rewrite (scan_step_later _ _ (Found (String.length (src +:+ " ")) "==>" []))
      by first [done | apply exec_at; [exact eq_refl|no_edge_chars|];
                       by apply (match_here_lit "==>")].
Qed.

Lemma simple_plain_char d : simple_char d = true -> needs_quotes d = false.
Proof. destruct d as [[] [] [] [] [] [] [] []]; by vm_compute. Qed.

(** A simple label is written as it is. *)
Lemma escape_simple label : simple label -> escapeMermaidLabel label = label.
Proof.
  intros Hl. unfold escapeMermaidLabel. destruct label as [|c l]; [done|].
  cbn [Js.truthy negb].
  assert (test (Cls needs_quotes) (String c l) = false) as ->; [|done].
  unfold test, exec. rewrite (search_none needs_quotes).
  - apply bool_decide_eq_false. by intros [x Hx].
  - by intros d.
  - eapply forall_chars_impl; [|exact Hl]. intros d Hd.
    by rewrite (simple_plain_char d Hd).
Qed.

Lemma substring_from_app a b : Js.substring_from (String.length a) (a +:+ b) = b.
Proof.
  unfold Js.substring_from. rewrite length_app.
  replace (String.length a + String.length b - String.length a)%nat
    with (String.length b) by lia.
  induction a as [|c a IH]; [rewrite append_nil_l; apply substring_all|].
  rewrite append_cons. cbn [String.length String.substring]. apply IH.
Qed.

Lemma trimEnd_spaces s sp :
  Js.forall_chars Js.is_space sp = true -> Js.trimEnd (s +:+ sp) = Js.trimEnd s.
Proof.
  intros Hsp. induction s as [|c s IH].
  - rewrite append_nil_l. induction sp as [|d sp IH]; [done|].
    cbn [Js.forall_chars] in Hsp. apply andb_true_iff in Hsp as [Hd Hsp].
    cbn [Js.trimEnd]. by rewrite IH, Hd.
  - rewrite append_cons. cbn [Js.trimEnd]. by rewrite IH.
Qed.

Lemma trimEnd_tight b :
  Js.forall_chars (fun c => negb (Js.is_space c)) b = true -> Js.trimEnd b = b.
Proof.
  induction b as [|c b IH]; [done|]. intros [Hc Hb]%andb_true_iff.
  cbn [Js.trimEnd]. rewrite (IH Hb). apply negb_true_iff in Hc. rewrite Hc.
  by destruct b.
Qed.

Lemma trimEnd_app a b :
  b <> "" -> Js.forall_chars (fun c => negb (Js.is_space c)) b = true ->
  Js.trimEnd (a +:+ b) = a +:+ b.
Proof.
  intros Hne Hb. induction a as [|c a IH].
  - rewrite append_nil_l. by apply trimEnd_tight.
  - rewrite append_cons. cbn [Js.trimEnd]. rewrite IH.
    destruct (a +:+ b) eqn:E; [|done].
    destruct a; [rewrite append_nil_l in E; done|by rewrite append_cons in E].
Qed.

Lemma valid_tight id :
  valid_mermaid_id id ->
  id <> "" ∧ Js.forall_chars (fun c => negb (Js.is_space c)) id = true.
Proof.
  intros (Hne & Hw & _). split; [done|].
  eapply forall_chars_impl; [|exact Hw]. apply word_not_space.
Qed.

Lemma trim_valid id : valid_mermaid_id id -> Js.trim id = id.
Proof.
  intros Hid. destruct (valid_tight id Hid) as [Hne Hns]. unfold Js.trim.
  rewrite trimStart_id.
  - by apply trimEnd_tight.
  - destruct id as [|c id]; [done|]. cbn [Js.forall_chars] in Hns.
    apply andb_true_iff in Hns as [Hc _]. by apply negb_true_iff in Hc.
Qed.

Lemma trim_valid_spaces a id b :
  Js.forall_chars Js.is_space a = true -> Js.forall_chars Js.is_space b = true ->
  valid_mermaid_id id -> Js.trim (a +:+ id +:+ b) = id.
Proof.
  intros Ha Hb Hid. rewrite <- (trim_valid id Hid) at 2. unfold Js.trim.
  assert (Js.trimStart (a +:+ id +:+ b) = Js.trimStart (id +:+ b)) as ->.
  { clear Hb. induction a as [|c a IH]; [by rewrite append_nil_l|].
    cbn [Js.forall_chars] in Ha. apply andb_true_iff in Ha as [Hc Ha].
    rewrite append_cons. cbn [Js.trimStart]. by rewrite Hc, IH. }
  destruct (valid_tight id Hid) as [Hne Hns].
  destruct id as [|c id]; [done|]. cbn [Js.forall_chars] in Hns.
  apply andb_true_iff in Hns as [Hc _]. apply negb_true_iff in Hc.
  rewrite append_cons. cbn [Js.trimStart]. rewrite Hc.
  rewrite <- append_cons. by apply trimEnd_spaces.
Qed.

Lemma has_node_register n st : has_node (mn_id n) st = true -> register n st = st.
Proof. intros H. unfold register. by rewrite H. Qed.

(** An edge line as [formatFlowchartEdge] writes it, between two nodes
    that are known: the edge is added and nothing else changes. *)
Lemma edge_line_parsed now fuel src tgt tok ty lbl st t :
  (tok, ty) ∈ written_arrows -> valid_mermaid_id src -> valid_mermaid_id tgt ->
  simple lbl -> has_node src st = true -> has_node tgt st = true ->
  parseFlowchartLine now (S fuel)
    (src +:+ " " +:+ tok +:+
       (if Js.truthy lbl then "|" +:+ lbl +:+ "| " +:+ tgt else " " +:+ tgt))
    nodePatterns edgePatterns st t
  = (Some (push_edge (MEdge ("edge_" +:+ pretty (List.length (fs_edges st)))
                            src tgt lbl ty) st), t).
Proof.
  intros Htok Hsrc Htgt Hl Hhs Hht.
  pose proof (valid_simple src Hsrc) as Hss. pose proof (valid_simple tgt Htgt) as Hst.
  assert (∃ hit after,
    scan_edges edgePatterns
      (src +:+ " " +:+ tok +:+
         (if Js.truthy lbl then "|" +:+ lbl +:+ "| " +:+ tgt else " " +:+ tgt))
    = Some hit ∧ eh_type hit = ty ∧ eh_label hit = lbl ∧
    eh_index hit = String.length (src +:+ " ") ∧
    src +:+ " " +:+ tok +:+
      (if Js.truthy lbl then "|" +:+ lbl +:+ "| " +:+ tgt else " " +:+ tgt)
    = (src +:+ " ") +:+ after +:+ String " " tgt ∧
    eh_length hit = String.length after) as (hit & after & Hscan & Hty & Hlbl & Hidx & Hline & Hlen).
  { destruct (decide (lbl = "")) as [->|Hne].
    - exists (EdgeHit ty "" (String.length (src +:+ " ")) (String.length tok)), tok.
      cbn [Js.truthy]. split_and!; try done.
      + rewrite <- (scan_plain tok ty src tgt) by done. f_equal.
        by rewrite !string_app_assoc.
      + by rewrite !string_app_assoc.
    - exists (EdgeHit ty lbl (String.length (src +:+ " "))
                (String.length (tok +:+ String "|" (lbl +:+ String "|" "")))),
             (tok +:+ String "|" (lbl +:+ String "|" "")).
      assert (Js.truthy lbl = true) as -> by (by destruct lbl).
      split_and!; try done.
      + rewrite <- (scan_labelled tok ty src lbl tgt) by done. f_equal.
        by repeat (progress (rewrite ?string_app_assoc, ?append_cons, ?append_nil_l)).
      + by repeat (progress (rewrite ?string_app_assoc, ?append_cons, ?append_nil_l)). }
  cbn [parseFlowchartLine]. rewrite Hscan, Hline, Hidx, Hlen, Hty, Hlbl.
  assert (Js.substring 0 (String.length (src +:+ " "))
            ((src +:+ " ") +:+ after +:+ String " " tgt) = src +:+ " ") as ->.
  { unfold Js.substring. rewrite Nat.sub_0_r. apply substring_prefix. }
  assert (Js.substring_from (String.length (src +:+ " ") + String.length after)
            ((src +:+ " ") +:+ after +:+ String " " tgt) = String " " tgt) as ->.
  { rewrite <- length_app, <- string_app_assoc. apply substring_from_app. }
  assert (Js.trim (src +:+ " ") = src) as ->.
  { by apply (trim_valid_spaces "" src " "). }
  assert (Js.trim (String " " tgt) = tgt) as ->.
  { rewrite <- (append_nil_r tgt) at 1. by apply (trim_valid_spaces " " tgt ""). }
  unfold bind at 1. rewrite plain_node_parsed by done.
  cbn [register_opt]. rewrite has_node_register by done.
  unfold bind at 1. unfold parseChainedTargets.
  rewrite (proj2 (scan_no_edge tgt (simple_no_edge tgt Hst))).
  unfold bind at 1. rewrite plain_node_parsed by done.
  unfold ret. cbn [option_list register_opt]. rewrite has_node_register by done.
  done.
Qed.

End EdgeLines.

(** *** One line of the flowchart *)

Section WrittenLines.
Import Regex MermaidParser.

(** A line of three characters or more is no direction. *)
Lemma direction_long a b c rest :
  test directionRegex (String a (String b (String c rest))) = false.
Proof.
  unfold test, exec. apply bool_decide_eq_false. intros [m Hm].
  unfold directionRegex in Hm. cbn [seq] in Hm.
  change (search ?r 0 (String a ?s))
    with (match match_here r 0 (String a s) with
          | Some m => Some m
          | None => search r 1 s
          end) in Hm.
  rewrite search_bol_later in Hm. unfold match_here in Hm.
  cbn [alts Lit run Nat.eqb] in Hm.
  repeat case_match; done.
Qed.

Lemma startsWith_word_app pre : ∀ id x,
  Js.forall_chars Js.is_word pre = true ->
  match x with String d _ => Js.is_word d = false | "" => True end ->
  Js.startsWith (id +:+ x) pre = Js.startsWith id pre.
Proof.
  unfold Js.startsWith. induction pre as [|p0 pre IH]; intros id x Hpre Hx; [by destruct id, x|].
  cbn [Js.forall_chars] in Hpre. apply andb_true_iff in Hpre as [Hp0 Hpre].
  destruct id as [|c id].
  - rewrite append_nil_l. destruct x as [|d x]; [done|]. cbn [String.prefix].
    destruct (ascii_dec p0 d) as [->|]; [congruence|done].
  - rewrite append_cons. cbn [String.prefix]. destruct (ascii_dec p0 c); [by apply IH|done].
Qed.

(** A line of four characters or more that does not begin with the
    keyword of subgraphs goes to [parseFlowchartLine]. *)
Lemma written_step now line st :
  (4 <= String.length line)%nat -> Js.startsWith line "subgraph" = false ->
  flowchart_step now line st
  = parseFlowchartLine now (S (String.length line)) line nodePatterns edgePatterns st.
Proof.
  intros Hlen Hsub. unfold flowchart_step. rewrite Hsub.
  destruct line as [|a [|b [|c rest]]]; try (simpl in Hlen; lia).
  rewrite direction_long.
  destruct (String.eqb_spec (String a (String b (String c rest))) "end") as [E|]; [|done].
  rewrite E in Hlen. simpl in Hlen. lia.
Qed.

Lemma or_else_simple a b : simple a -> simple b -> b <> "" ->
  simple (Js.or_else a b) ∧ Js.or_else a b <> "".
Proof. intros Ha Hb Hne. unfold Js.or_else. by destruct a. Qed.

Ltac node_case o c lem :=
  exists o, c; eexists; split_and!;
  [reflexivity | done | reflexivity | done | apply lem; done | reflexivity].

(** The text of a node: its identifier, then its label between the
    brackets of its shape, which the first pattern to match reads. *)
Lemma node_text n id :
  dn_id n = Some id -> valid_mermaid_id id -> simple (dn_label n) ->
  readable_shape (dn_shape n) = true ->
  ∃ open close m,
    formatFlowchartNode n
    = id +:+ open +:+ Js.or_else (dn_label n) id +:+ close +:+ "" ∧
    match open with String d _ => Js.is_word d = false | "" => False end ∧
    Js.forall_chars (fun c => negb (edge_start c || Js.is_space c)) (open +:+ close)
    = true ∧
    close <> "" ∧
    first_pattern nodePatterns
      (id +:+ open +:+ Js.or_else (dn_label n) id +:+ close +:+ "")
    = Some (m, reread (dn_shape n)) ∧
    grp1 1 m = Js.or_else (dn_label n) id.
Proof.
  intros Hid Hv Hl Hsh. pose proof (valid_simple id Hv) as Hs.
  destruct (or_else_simple (dn_label n) id Hl Hs (proj1 Hv)) as [HL Hne].
  unfold formatFlowchartNode. rewrite Hid, (sanitizeId_fixed id Hv), (escape_simple _ HL).
  destruct (dn_shape n); try discriminate Hsh.
  - node_case "[" "]" first_pattern_square.
  - node_case "(" ")" first_pattern_round.
  - node_case "{{" "}}" first_pattern_braces.
  - node_case "{" "}" first_pattern_brace.
  - node_case ">" "]" first_pattern_angle.
  - node_case "[" "]" first_pattern_square.
  - node_case "[" "]" first_pattern_square.
  - node_case "[" "]" first_pattern_square.
  - node_case "[" "]" first_pattern_square.
  - node_case "[" "]" first_pattern_square.
Qed.

Lemma length_pos s : s <> "" -> (1 <= String.length s)%nat.
Proof. destruct s; [done|]. simpl. lia. Qed.

(** The line of a node registers the node. *)
Lemma node_step now n st t :
  flow_ready n ->
  flowchart_step now (formatFlowchartNode n) st t = (Some (register (flow_node n) st), t).
Proof.
  intros [(id & Hid & Hv & Hsub) [Hl Hsh]].
  destruct (node_text n id Hid Hv Hl Hsh)
    as (open & close & m & -> & Hopen & Hchars & Hclose & Hfirst & Hgrp).
  pose proof (valid_simple id Hv) as Hs.
  destruct (or_else_simple (dn_label n) id Hl Hs (proj1 Hv)) as [HL Hne].
  rewrite forall_chars_app in Hchars. apply andb_true_iff in Hchars as [Ho Hc].
  assert (open <> "") as Hone by (by destruct open).
  rewrite written_step.
  - cbn [parseFlowchartLine].
    match goal with |- context [scan_edges _ ?x] =>
      assert (Js.forall_chars (fun c => negb (edge_start c)) x = true) as Hno end.
    2:{ rewrite (proj1 (scan_no_edge _ Hno)).
        unfold bind. rewrite (bracket_node_parsed now id open _ close m _ t) by done.
        unfold ret, flow_node. by rewrite Hid. }
    rewrite !forall_chars_app. repeat (apply andb_true_iff; split);
        first [by apply simple_no_edge | done | idtac].
    + eapply forall_chars_impl; [|exact Ho]. intros d Hd.
      apply negb_true_iff, orb_false_iff in Hd as [-> _]. done.
    + eapply forall_chars_impl; [|exact Hc]. intros d Hd.
      apply negb_true_iff, orb_false_iff in Hd as [-> _]. done.
  - rewrite !length_app. pose proof (length_pos _ (proj1 Hv)).
    pose proof (length_pos _ Hone). pose proof (length_pos _ Hne).
    pose proof (length_pos _ Hclose). lia.
  - rewrite startsWith_word_app; [done|done|].
    destruct open as [|d open]; [done|]. by rewrite append_cons.
Qed.

Lemma style_arrow_written style : style_arrow style ∈ written_arrows.
Proof.
  unfold style_arrow, written_arrows. repeat case_match; set_solver.
Qed.

Lemma edge_text e :
  formatFlowchartEdge e
  = sanitizeId (de_source e) +:+ " " +:+ fst (style_arrow (de_style e)) +:+
      (if Js.truthy (de_label e)
       then "|" +:+ escapeMermaidLabel (de_label e) +:+ "| " +:+ sanitizeId (de_target e)
       else " " +:+ sanitizeId (de_target e)).
Proof.
  unfold formatFlowchartEdge, style_arrow. by repeat case_match.
Qed.

(** The line of an edge between two nodes that are known adds the edge. *)
Lemma edge_step now e src tgt st t :
  de_source e = Some src -> de_target e = Some tgt ->
  valid_mermaid_id src -> valid_mermaid_id tgt -> Js.startsWith src "subgraph" = false ->
  simple (de_label e) -> has_node src st = true -> has_node tgt st = true ->
  flowchart_step now (formatFlowchartEdge e) st t
  = (Some (push_edge (flow_edge (List.length (fs_edges st)) e) st), t).
Proof.
  intros Hs Ht Hvs Hvt Hsub Hl Hhs Hht.
  rewrite edge_text, Hs, Ht, !sanitizeId_fixed, (escape_simple _ Hl) by done.
  pose proof (style_arrow_written (de_style e)) as Harrow.
  destruct (style_arrow (de_style e)) as [tok ty] eqn:Hstyle. cbn [fst].
  rewrite written_step.
  - rewrite (edge_line_parsed now _ src tgt tok ty (de_label e)) by done.
    unfold flow_edge. by rewrite Hs, Ht, Hstyle.
  - rewrite !length_app. pose proof (length_pos _ (proj1 Hvs)).
    assert (3 <= String.length tok)%nat.
    { apply list_elem_of_In in Harrow.
      destruct Harrow as [H'|[H'|[H'|[]]]]; injection H' as <- <-; simpl; lia. }
    simpl. lia.
  - by rewrite startsWith_word_app.
Qed.

End WrittenLines.

(** *** The lines of the text *)

Section WrittenText.
Import Regex MermaidParser.

Lemma content_lines_join ls :
  content_lines (Js.join Js.newline ls) = List.concat (content_lines <$> ls).
Proof.
  induction ls as [|l ls IH]; [done|]. destruct ls as [|l' ls].
  - cbn [fmap list_fmap List.concat]. by rewrite app_nil_r.
  - change (Js.join Js.newline (l :: l' :: ls))
      with (l +:+ Js.newline +:+ Js.join Js.newline (l' :: ls)).
    by rewrite content_lines_app, IH.
Qed.

Lemma no_space_no_newline s :
  Js.forall_chars (fun c => negb (Js.is_space c)) s = true ->
  Js.forall_chars (fun c => negb (Ascii.eqb c "010")) s = true.
Proof.
  apply forall_chars_impl. intros d Hd.
  destruct (Ascii.eqb_spec d "010") as [->|]; [done|done].
Qed.

(** An indented line that begins with an identifier and ends in a word
    is one content line, without the indentation. *)
Lemma line_kept id mid last :
  valid_mermaid_id id -> last <> "" ->
  Js.forall_chars (fun c => negb (Js.is_space c)) last = true ->
  Js.forall_chars (fun c => negb (Ascii.eqb c "010")) mid = true ->
  content_lines ("    " +:+ id +:+ mid +:+ last) = [id +:+ mid +:+ last].
Proof.
  intros Hv Hne Hlast Hmid. destruct (valid_tight id Hv) as [Hidne Hid].
  unfold content_lines. rewrite split_plain.
  2:{ rewrite !forall_chars_app. repeat (apply andb_true_iff; split);
        first [reflexivity | done | by apply no_space_no_newline]. }
  cbn [fmap list_fmap].
  assert (Js.trim ("    " +:+ id +:+ mid +:+ last) = id +:+ mid +:+ last) as ->.
  { unfold Js.trim. rewrite !append_cons, append_nil_l. cbn [Js.trimStart].
    change (Js.is_space " ") with true. cbn iota.
    rewrite trimStart_id.
    - rewrite <- !string_app_assoc. by apply trimEnd_app.
    - destruct id as [|c id]; [done|]. rewrite append_cons.
      cbn [Js.forall_chars] in Hid. apply andb_true_iff in Hid as [Hc _].
      by apply negb_true_iff in Hc. }
  destruct id as [|c id]; [done|]. rewrite append_cons.
  cbn [List.filter Js.truthy Js.startsWith String.prefix andb].
  destruct (ascii_dec "%" c) as [<-|]; [|done].
  destruct Hv as (_ & Hw & _). done.
Qed.

Lemma trimEnd_cons c r :
  Js.is_space c = false -> Js.trimEnd (String c r) = String c (Js.trimEnd r).
Proof. intros Hc. cbn [Js.trimEnd]. rewrite Hc. by destruct (Js.trimEnd r). Qed.

Lemma toLowerCase_app a b :
  Js.toLowerCase (a +:+ b) = Js.toLowerCase a +:+ Js.toLowerCase b.
Proof.
  induction a as [|c a IH]; [by rewrite !append_nil_l|].
  rewrite append_cons. cbn [Js.toLowerCase]. by rewrite IH, append_cons.
Qed.

(** The header is one content line, and it announces a flowchart. *)
Lemma header_line dir :
  simple dir ->
  ∃ h, content_lines ("flowchart " +:+ dir) = [h] ∧
       detect_type (Js.toLowerCase h) = flowchart.
Proof.
  intros Hdir. exists ("flowchart" +:+ Js.trimEnd (String " " dir)). split.
  - unfold content_lines. rewrite split_plain.
    2:{ rewrite forall_chars_app. apply andb_true_iff. split; [done|by apply simple_avoid]. }
    cbn [fmap list_fmap].
    assert (Js.trim ("flowchart " +:+ dir) = "flowchart" +:+ Js.trimEnd (String " " dir))
      as ->.
    { unfold Js.trim. rewrite !append_cons, append_nil_l. rewrite trimStart_id by done.
      by rewrite !trimEnd_cons by done. }
    done.
  - rewrite toLowerCase_app. change (Js.toLowerCase "flowchart") with "flowchart".
    unfold detect_type, Js.startsWith. by rewrite prefix_app.
Qed.

Lemma loop_app now l1 : ∀ l2 st t st' t',
  flowchart_loop now l1 st t = (Some st', t') ->
  flowchart_loop now (l1 ++ l2) st t = flowchart_loop now l2 st' t'.
Proof.
  induction l1 as [|l l1 IH]; intros l2 st t st' t' H.
  - by injection H as -> ->.
  - cbn [app flowchart_loop] in *. unfold bind in *.
    destruct (flowchart_step now l st t) as [[st1|] t1]; [by apply IH|done].
Qed.

(** The lines of the nodes register them one after the other. *)
Lemma nodes_loop now nodes : ∀ ns es t,
  Forall flow_ready nodes ->
  NoDup (mn_id <$> (ns ++ (flow_node <$> nodes))) ->
  flowchart_loop now (formatFlowchartNode <$> nodes) (FState ns es [] None) t
  = (Some (FState (ns ++ (flow_node <$> nodes)) es [] None), t).
Proof.
  induction nodes as [|n nodes IH]; intros ns es t Hready Hdup.
  - by rewrite app_nil_r.
  - apply Forall_cons in Hready as [Hn Hready].
    cbn [fmap list_fmap flowchart_loop]. unfold bind. rewrite node_step by done.
    assert (register (flow_node n) (FState ns es [] None)
            = FState (ns ++ [flow_node n]) es [] None) as ->.
    { unfold register, has_node. cbn [fs_nodes fs_edges fs_subgraphs fs_current].
      rewrite bool_decide_eq_false_2; [done|].
      rewrite fmap_app in Hdup. cbn [fmap list_fmap] in Hdup.
      apply NoDup_app in Hdup as (_ & Hdup & _). intros Hin.
      apply (Hdup _ Hin). left. }
    rewrite (IH (ns ++ [flow_node n])); [|done|].
    + by rewrite <- app_assoc.
    + by rewrite <- app_assoc.
Qed.

(** The lines of the edges between known nodes add the edges, numbered
    from the number of edges so far. *)
Lemma edges_loop now ns edges : ∀ es t,
  Forall (fun e => ∃ src tgt,
            de_source e = Some src ∧ de_target e = Some tgt ∧
            valid_mermaid_id src ∧ valid_mermaid_id tgt ∧
            Js.startsWith src "subgraph" = false ∧ simple (de_label e) ∧
            src ∈ mn_id <$> ns ∧ tgt ∈ mn_id <$> ns) edges ->
  flowchart_loop now (formatFlowchartEdge <$> edges) (FState ns es [] None) t
  = (Some (FState ns (es ++ imap (fun i => flow_edge (List.length es + i)) edges)
                  [] None), t).
Proof.
  induction edges as [|e edges IH]; intros es t Hready.
  - by rewrite app_nil_r.
  - apply Forall_cons in Hready
      as [(src & tgt & Hs & Ht & Hvs & Hvt & Hsub & Hl & Hins & Hint) Hready].
    cbn [fmap list_fmap flowchart_loop]. unfold bind.
    rewrite (edge_step now e src tgt) by
      first [done | unfold has_node; by apply bool_decide_eq_true].
    unfold push_edge. cbn [fs_nodes fs_edges fs_subgraphs fs_current].
    rewrite IH by done. rewrite <- app_assoc. cbn [imap app]. rewrite Nat.add_0_r.
    rewrite (imap_ext _ ((fun i => flow_edge (List.length es + i)) ∘ S) edges); [done|].
    intros i x _. cbn. f_equal. rewrite List.length_app. simpl. lia.
Qed.

Lemma flow_node_id n id : dn_id n = Some id -> mn_id (flow_node n) = id.
Proof. intros H. unfold flow_node. by rewrite H. Qed.

Lemma flow_ids nodes :
  Forall flow_ready nodes -> dn_id <$> nodes = Some <$> (mn_id <$> (flow_node <$> nodes)).
Proof.
  induction 1 as [|n nodes [(id & Hid & _) _] _ IH]; [done|].
  cbn [fmap list_fmap]. f_equal; [|exact IH]. by rewrite (flow_node_id n id Hid).
Qed.

Lemma flow_ids_distinct nodes :
  Forall flow_ready nodes -> NoDup (dn_id <$> nodes) ->
  NoDup (mn_id <$> (flow_node <$> nodes)).
Proof. intros Hn Hd. rewrite (flow_ids nodes Hn) in Hd. by apply NoDup_fmap_1 in Hd. Qed.

(** The edges [generateFlowchart] writes join nodes it wrote. *)
Lemma kept_edges_ready nodes edges :
  Forall flow_ready nodes -> Forall (fun e => simple (de_label e)) edges ->
  Forall (fun e => ∃ src tgt,
            de_source e = Some src ∧ de_target e = Some tgt ∧
            valid_mermaid_id src ∧ valid_mermaid_id tgt ∧
            Js.startsWith src "subgraph" = false ∧ simple (de_label e) ∧
            src ∈ mn_id <$> (flow_node <$> nodes) ∧
            tgt ∈ mn_id <$> (flow_node <$> nodes))
         (List.filter (flowchart_edge_kept (dn_id <$> nodes)) edges).
Proof.
  intros Hn He. apply List.Forall_forall. intros e [Hin Hkept]%filter_In.
  apply (proj1 (List.Forall_forall _ _) He) in Hin as Hl.
  unfold flowchart_edge_kept in Hkept.
  apply andb_true_iff in Hkept as [[[Hs Ht]%andb_true_iff Hsi]%andb_true_iff Hti].
  apply bool_decide_eq_true in Hsi, Hti.
  assert (∀ o, Js.truthy_opt o = true -> o ∈ dn_id <$> nodes ->
            ∃ id, o = Some id ∧ valid_mermaid_id id ∧
                  Js.startsWith id "subgraph" = false ∧
                  id ∈ mn_id <$> (flow_node <$> nodes)) as Hend.
  { intros o Ho (n & -> & Hnin)%list_elem_of_fmap.
    apply (proj1 (Forall_forall _ _) Hn) in Hnin as Hready.
    destruct Hready as [(id & Hid & Hv & Hsub) _]. exists id. split_and!; try done.
    rewrite <- (flow_node_id n id Hid). by do 2 apply list_elem_of_fmap_2. }
  destruct (Hend _ Hs Hsi) as (src & Hsrc & Hvs & Hsub & Hins).
  destruct (Hend _ Ht Hti) as (tgt & Htgt & Hvt & _ & Hint).
  by exists src, tgt.
Qed.

Lemma node_line_kept n :
  flow_ready n ->
  content_lines ("    " +:+ formatFlowchartNode n) = [formatFlowchartNode n].
Proof.
  intros [(id & Hid & Hv & Hsub) [Hl Hsh]].
  destruct (node_text n id Hid Hv Hl Hsh)
    as (open & close & m & -> & Hopen & Hchars & Hclose & _ & _).
  pose proof (valid_simple id Hv) as Hs.
  destruct (or_else_simple (dn_label n) id Hl Hs (proj1 Hv)) as [HL Hne].
  rewrite forall_chars_app in Hchars. apply andb_true_iff in Hchars as [Ho Hc].
  assert (∀ s, Js.forall_chars (fun c => negb (edge_start c || Js.is_space c)) s = true ->
               Js.forall_chars (fun c => negb (Js.is_space c)) s = true) as Hns.
  { intros s. apply forall_chars_impl. intros d Hd.
    by apply negb_true_iff, orb_false_iff in Hd as [_ ->]. }
  rewrite append_nil_r.
  replace (id +:+ open +:+ Js.or_else (dn_label n) id +:+ close)
    with (id +:+ (open +:+ Js.or_else (dn_label n) id) +:+ close)
    by (by rewrite !string_app_assoc).
  apply line_kept; [done|done|by apply Hns|].
  rewrite forall_chars_app. apply andb_true_iff. split;
    [by apply no_space_no_newline, Hns | by apply simple_avoid].
Qed.

Lemma edge_line_kept e src tgt :
  de_source e = Some src -> de_target e = Some tgt ->
  valid_mermaid_id src -> valid_mermaid_id tgt -> simple (de_label e) ->
  content_lines ("    " +:+ formatFlowchartEdge e) = [formatFlowchartEdge e].
Proof.
  intros Hs Ht Hvs Hvt Hl.
  rewrite edge_text, Hs, Ht, !sanitizeId_fixed, (escape_simple _ Hl) by done.
  destruct (valid_tight tgt Hvt) as [Hne Hns].
  pose proof (style_arrow_written (de_style e)) as Harrow.
  destruct (style_arrow (de_style e)) as [tok ty]. cbn [fst].
  assert (Js.forall_chars (fun c => negb (Ascii.eqb c "010")) tok = true) as Htok.
  { apply list_elem_of_In in Harrow.
    by destruct Harrow as [H'|[H'|[H'|[]]]]; injection H' as <- <-. }
  destruct (Js.truthy (de_label e)).
  - replace (src +:+ " " +:+ tok +:+ "|" +:+ de_label e +:+ "| " +:+ tgt)
      with (src +:+ (" " +:+ tok +:+ "|" +:+ de_label e +:+ "| ") +:+ tgt)
      by (by rewrite !string_app_assoc).
    apply line_kept; [done|done|done|].
    rewrite !forall_chars_app. repeat (apply andb_true_iff; split);
      first [done | by apply simple_avoid].
  - replace (src +:+ " " +:+ tok +:+ " " +:+ tgt)
      with (src +:+ (" " +:+ tok +:+ " ") +:+ tgt)
      by (by rewrite !string_app_assoc).
    apply line_kept; [done|done|done|].
    rewrite !forall_chars_app. repeat (apply andb_true_iff; split); done.
Qed.

Lemma indented_lines {A} (f : A -> string) (l : list A) :
  Forall (fun x => content_lines ("    " +:+ f x) = [f x]) l ->
  List.concat (content_lines <$> ((fun x => "    " +:+ f x) <$> l)) = f <$> l.
Proof.
  induction 1 as [|x l Hx _ IH]; [done|].
  cbn [fmap list_fmap List.concat]. rewrite Hx. cbn [app]. f_equal. exact IH.
Qed.

(** The content lines of the text of a flowchart: the header, the nodes
    and the edges that are written. *)
Lemma flowchart_content nodes edges direction :
  drawable nodes edges -> simple direction ->
  ∃ h, content_lines (generateFlowchart nodes edges direction)
       = h :: (formatFlowchartNode <$> nodes)
           ++ (formatFlowchartEdge
                 <$> List.filter (flowchart_edge_kept (dn_id <$> nodes)) edges) ∧
       detect_type (Js.toLowerCase h) = flowchart.
Proof.
  intros [Hn Hd He] Hdir. destruct (header_line direction Hdir) as (h & Hh & Hty).
  exists h. split; [|done].
  unfold generateFlowchart, flowchart_lines.
  rewrite content_lines_join, !fmap_app, !concat_app.
  cbn [fmap list_fmap List.concat]. rewrite Hh.
  change (content_lines "") with (@nil string). cbn [app]. f_equal.
  assert (List.concat (content_lines <$> (if (0 <? List.length edges)%nat then [""] else []))
          = []) as -> by (by destruct (0 <? List.length edges)%nat).
  cbn [app]. f_equal.
  - apply indented_lines. eapply Forall_impl; [exact Hn|]. apply node_line_kept.
  - apply indented_lines. eapply Forall_impl; [exact (kept_edges_ready nodes edges Hn He)|].
    intros e (src & tgt & Hs & Ht & Hvs & Hvt & _ & Hl & _). by apply (edge_line_kept e src tgt).
Qed.

(** The text [generateFlowchart] writes for a graph, read by the Mermaid
    parser. *)
Lemma flowchart_read_back now nodes edges direction t :
  drawable nodes edges -> simple direction ->
  parseMermaidCode now (generateFlowchart nodes edges direction) t
  = (Some (Ok (MermaidGraph
                 (flow_node <$> nodes)
                 (imap flow_edge
                    (List.filter (flowchart_edge_kept (dn_id <$> nodes)) edges))
                 [] flowchart)), t).
Proof.
  intros Hdraw Hdir.
  destruct (flowchart_content nodes edges direction Hdraw Hdir) as (h & Hc & Hty).
  destruct Hdraw as [Hn Hd He].
  unfold parseMermaidCode. rewrite Hc, Hty. unfold bind, parseFlowchart. cbn [tail].
  unfold bind.
  rewrite (loop_app now _ _ _ _ _ _
             (nodes_loop now nodes [] [] t Hn (flow_ids_distinct nodes Hn Hd))).
  cbn [app]. rewrite edges_loop by (by apply kept_edges_ready).
  done.
Qed.

End WrittenText.

(** *** The round trip *)

Section FlowchartTextRoundTrip.
Import MermaidParser.

(** X23: The Mermaid parser reads the flowchart text [generateFlowchart]
    writes for a Draw.io graph back as the same graph: every node in
    order with its id, its label trimmed (its id when it has no label)
    and its shape, where the shapes without brackets of their own come
    back as rectangles; and every written edge (both ends among the
    nodes) in order, numbered from [edge_0], with its source, target and
    label and the type of the arrow its style chose.  No subgraph is read
    and the clock is not consulted.  This holds when the node ids are
    distinct valid Mermaid identifiers that do not begin with [subgraph],
    the labels and the direction are made of letters, digits,
    underscores and spaces, and no node is a circle, stadium,
    subroutine, cylinder or parallelogram. *)
Theorem flowchart_text_read_back (now : nat -> Z) (nodes : list dnode)
    (edges : list dedge) (direction : string) (t : nat) :
  drawable nodes edges -> simple direction ->
  parseMermaidCode now (generateFlowchart nodes edges direction) t
  = (Some (Ok (MermaidGraph
                 (flow_node <$> nodes)
                 (imap flow_edge
                    (List.filter (flowchart_edge_kept (dn_id <$> nodes)) edges))
                 [] flowchart)), t).
Proof. apply flowchart_read_back. Qed.

End FlowchartTextRoundTrip.

(** ** The theorems on the sample inputs *)

Section Instances.
Import MermaidParser DrawioParser DrawioWriter Layout Pages Validator.

Lemma parsed_nodes_distinct_witness :
  NoDup (mn_id <$> mg_nodes roundtrip_graph) ∧
  ∀ e, e ∈ mg_edges roundtrip_graph -> me_source e ∈ mn_id <$> mg_nodes roundtrip_graph.
Proof. apply (parsed_nodes_distinct frozen_clock roundtrip_input 0 0). by vm_compute. Defined.

Lemma clean_label_plain_witness : cleanLabel "  Start here " = Js.trim "  Start here ".
Proof. apply clean_label_plain. by vm_compute. Defined.


Lemma flat_document_parsed_witness :
  parse_cells flat_doc = (plain_node <$> List.filter is_node_cell flat_doc,
                          plain_edge <$> List.filter is_edge_cell flat_doc).
Proof.
  apply flat_document_parsed. intros c Hc.
  repeat (apply elem_of_cons in Hc as [-> | Hc]); try (by apply elem_of_nil in Hc);
    by vm_compute.
Defined.


Lemma edge_spans_one_row_witness :
  ∃ positioned,
    calculateNodePositions (mg_nodes roundtrip_graph) (mg_edges roundtrip_graph)
    = Some positioned ∧
    ∀ e p q,
      e ∈ mg_edges roundtrip_graph -> p ∈ positioned -> q ∈ positioned ->
      mn_id (pn_node p) = me_source e -> mn_id (pn_node q) = me_target e ->
      (pn_y q <= pn_y p + 120)%Z.
Proof.
  apply edge_spans_one_row. apply (bool_decide_unpack _). vm_compute. exact I.
Defined.

Lemma roots_on_top_row_witness :
  ∃ positioned,
    calculateNodePositions (mg_nodes roundtrip_graph) (mg_edges roundtrip_graph)
    = Some positioned ∧
    ∀ p, p ∈ positioned ->
         (∀ e, e ∈ mg_edges roundtrip_graph ->
               me_source e ∈ mn_id <$> mg_nodes roundtrip_graph ->
               me_target e <> mn_id (pn_node p)) ->
         pn_y p = 50%Z.
Proof.
  apply roots_on_top_row. apply (bool_decide_unpack _). vm_compute. exact I.
Defined.

Lemma comment_lines_ignored_witness :
  parseMermaidCode frozen_clock
    ("flowchart TD" +:+ Js.newline +:+ "%% a note" +:+ Js.newline +:+ "A --> B")
  = parseMermaidCode frozen_clock ("flowchart TD" +:+ Js.newline +:+ "A --> B").
Proof. apply comment_lines_ignored. by vm_compute. Defined.


Lemma flowchart_text_read_back_witness :
  parseMermaidCode frozen_clock (generateFlowchart drawn_nodes drawn_edges "TD") 0
  = (Some (Ok (MermaidGraph
                 [MNode "A" "Start here" rectangle; MNode "B" "Is it ok" diamond;
                  MNode "n_3" "n_3" rounded]
                 [MEdge "edge_0" "A" "B" "" arrow; MEdge "edge_1" "B" "n_3" "yes" dotted]
                 [] flowchart)), 0).
Proof.
  apply (flowchart_text_read_back frozen_clock drawn_nodes drawn_edges "TD" 0);
    [|reflexivity].
  split.
  - repeat constructor; by (eexists; split_and!; [reflexivity|vm_compute; intuition congruence|reflexivity]).
  - apply (bool_decide_unpack _). vm_compute. exact I.
  - by repeat constructor.
Defined.

End Instances.
